(* ===== verification/_CoqProject ===== *)
-Q . S2P
Prelude.v
JsMap.v
Js.v
Types.v
Encode.v
Frame.v
Sync.v
Resend.v
Client.v
Sends.v
Replay.v
DeviceSessions.v
Approvals.v
HookMargin.v
Jobs.v
Framing.v
Session.v
Db.v
Commands.v
Hub.v
Pairing.v
IdentityStore.v
Connection.v
HookProcess.v
HookBridge.v
Delivery.v
Bytes.v
Utf8.v
WebSocket.v
Text.v
Transport.v
Config.v
MobileCrypto.v
KeyAgreement.v
Fleet.v
MobileClient.v
PairCode.v
Daemon.v
System.v
Guarantee.v
Wires.v
Revocation.v
Spawning.v
Boot.v
Ledger.v
QrField.v
QrCode.v
QrMatrix.v
QrStandard.v
QrRender.v
DeviceStore.v
Cli.v
Acks.v
Receipt.v
PhoneReceipt.v
CliStart.v
CliRender.v
CliPair.v
