(* ===== verification/Prelude.v ===== *)
(** * claude-code-remote: a verification development

    claude-code-remote lets a phone or a second machine supervise Claude Code
    sessions that run on a developer's computer.  A daemon ([packages/daemon])
    spawns [claude] processes, holds every tool call that needs approval until
    some paired device decides it, and streams what happens to its clients.  The
    wire contract ([packages/protocol]) is shared by the daemon, the CLI
    ([packages/cli]) and the phone ([apps/mobile]); the tool call itself is held by a
    small process Claude Code runs before each one ([hook/approve-bridge.mjs]).  This
    development models the protocol kernel, the daemon, the hook process, the CLI and the
    core of the phone, file by file, plugs the daemon together as its composition root
    does, and proves what the parts and the whole promise.  All paths below are under
    [src/]; those of [packages/] are given without it.

    ** How the parts meet

    A client connects to a listener: a socket, or a WebSocket behind [wsServer.ts].
    [clientConnection.ts] reads its lines:
    before authentication it pairs ([pairing.ts]) or says hello; afterwards every
    line is a sealed frame ([frame.ts], [crypto-node.ts]) whose number goes
    through the device's duplicate filter ([sync.ts], [deviceSessions.ts]) before
    its command reaches [commands.ts].  Commands act on the job queue ([jobs.ts]),
    the sessions ([session.ts]) and the approval broker ([approvals.ts]).  What
    happens is broadcast by [clientHub.ts], which numbers every event once per
    device and records it in the replay log ([replay.ts]), so that a device that
    reconnects is resumed from the number it last saw.  A blocked tool call
    arrives on the hook socket ([hookBridge.ts]), waits in the broker, and is
    answered on that same socket.  [index.ts] ties these together.  The client side
    of the numbering is [client.ts] over [resend.ts]; it has two hosts, [cc.ts] on a
    computer and [clientController.ts] on the phone, whose screens render the state
    [fleetState.ts] folds from the events.  Trust is carried to a second machine or a
    phone by a code ([pairCode.ts]), typed or drawn as a QR ([qr.ts]).

    ** The files

    - [Prelude] (this file): outcomes of calls that may throw, the effect monad
      [eff W] (state changes made before a throw persist), preservation of
      invariants and Hoare triples for it, and generic list lemmas.
    - [JsMap], [Js], [Bytes], [Text]: insertion-ordered [Map] and [Set], dynamically
      typed values, buffers, and what the sources call on strings; [Text] also has
      [protocol/src/sanitize.ts] and [logger.ts].
    - [Types]: [protocol/src/types.ts], every type of the wire.
    - [Encode]: an injective textual encoding of the wire types, used only to give
      the platform interface of [Frame] a concrete instance.
    - [Frame]: [protocol/src/frame.ts] and the sealing of [crypto-node.ts].  The
      class [SessionCrypto] with its laws [SessionCryptoLaws] is the interface the
      client engine, its hosts, the hub and the connection handler are proved against;
      the node implementation discharges it from laws of AES-GCM and JSON.
    - [Sync], [Resend], [Client]: [sync.ts], [resend.ts], [client.ts]; modules
      [OutboundStream], [InboundStream], [ResendBuffer], [ReliableClient].
    - [Replay], [DeviceSessions]: [domain/replay.ts], [domain/deviceSessions.ts].
    - [Approvals]: [domain/approvals.ts], over ports that may throw.
    - [HookMargin]: [domain/hookMargin.ts], [infrastructure/hookMarginFile.ts] and
      [domain/permissionMode.ts].
    - [Jobs]: [application/jobs.ts]; jobs are objects shared by reference, so they
      live in a heap.
    - [Framing]: the newline read loop of every socket and pipe.
    - [Utf8]: [chunk.toString('utf8')] on every chunk by itself, before that loop.
    - [Session]: [infrastructure/session.ts] and [sessionState.ts].
    - [Db]: the statements of [infrastructure/db.ts] over tables of rows.
    - [Commands]: [application/commands.ts] and [pushService.ts].
    - [Spawning]: [spawnSession] and the job queue of [index.ts] under the dispatcher,
      from a spawn command to the command line of [claude].
    - [Hub], [Pairing], [IdentityStore]: [interface/clientHub.ts]; the registry and the
      file of [infrastructure/pairing.ts].
    - [Connection]: [interface/clientConnection.ts] and [messageGuard.ts].
    - [HookProcess]: [hook/approve-bridge.mjs], as listeners of its event loop.
    - [HookBridge]: [interface/hookBridge.ts].
    - [WebSocket]: [interface/wsServer.ts], from the bytes to the lines.
    - [Config], [Transport]: [infrastructure/config.ts]; [tailscale.ts], [expoPush.ts].
    - [Daemon]: the listeners of [index.ts] and [wire] of [commands.ts].
    - [System]: [index.ts] assembled: connections over the hub, dispatcher, bridge, broker
      and store in one world, one input at a time.
    - [Wires]: [System] driven by chunks of text on its sockets, with their buffers.
    - [Guarantee], [Revocation]: what the assembled daemon promises, with the hook process
      at the other end of its socket, and after a revocation.
    - [Ledger]: what the assembled daemon acknowledges on the wire.
    - [Sends], [Receipt], [PhoneReceipt]: what a host has its engine send, and what the
      acknowledgements make of it: the exit status of [cc], and the acknowledged sends of
      the phone, over the sockets [apps/mobile/src/core/transport.ts] opens.
    - [Boot]: [index.ts] from the configuration to the listeners, the constructor of
      [infrastructure/db.ts], and the shutdown.
    - [Delivery], [Acks]: the client engine against the connection handler, end to end:
      events to a device, and the acknowledgement of its commands.
    - [KeyAgreement]: the keys of [crypto-node.ts] and what the daemon and the CLI derive
      from them.
    - [MobileCrypto], [MobileClient], [Fleet]: [apps/mobile/src/core]: [frameCrypto.ts]
      and [sessionCrypto.ts]; [clientController.ts] and [transport.ts];
      [fleetState.ts].
    - [PairCode]: [protocol/src/pairCode.ts], [cli/src/pairing.ts] and the phone's
      [pairing.ts].
    - [QrField], [QrCode], [QrMatrix], [QrRender]: [cli/src/qr.ts], from the arithmetic
      of GF(256) to the picture on the terminal.  [QrStandard] is the other side: a reader
      written from ISO/IEC 18004, which shares no table or placement with them.
    - [DeviceStore]: [cli/src/deviceStore.ts], its file operations interleaved over
      any number of processes.
    - [Cli], [CliStart], [CliRender], [CliPair]: [cli/src/cc.ts]: the host of the
      authenticated commands, how one starts, what it prints, and the commands that pair.

    A module has the name of the class or concern it models, its record [t] is the
    class's fields, and its definitions have the methods' names.  A callback, a
    listener, the clock, randomness, sockets, the file system and other processes
    are arguments of the definitions; where they may throw, so do their models.
    Objects the source shares by reference stay references where a claim depends
    on it: the jobs of [Jobs] live in a heap, and the events the hub records are
    handles whose value is read when they are sealed.

    ** What the theorems show

    - The gate, end to end: [Guarantee.allowed_only_by_a_device] (a tool runs only by the
      sealed command of a connected device about that very call),
      [Guarantee.device_decision_is_obeyed] (the decision of a connected device reaches the
      waiting call, the store and the broker),
      [Spawning.every_session_is_gated] (no session is started or moved out of the gate's
      reach), [HookProcess.decision_precedes_timeout] and [gate_opens_only_on_allow] (the
      process at the gate answers in time and opens on one message only), and
      [Revocation.revoked_device_is_out] (a revoked device comes back only by a new hello).
      They speak of lines; [Wires.wires_refine_lines] takes them to chunks, up to the first
      line that overruns its cap.
    - Start and stop: [Boot.boot_is_all_or_nothing], [store_is_private] and
      [shutdown_ends].
    - Delivery to a device: [Delivery.reconnect_delivers_exactly], end to end, while the
      replay log can honour the client's number;
      [DeviceSessions.resume_replays_exactly] (the registry
      refines a journal of everything sent), [sent_numbers_are_consecutive],
      [Hub.broadcast_one_number_per_device], [Connection.hello_replays_then_acks],
      [Replay.record_evicts_least_recently_seen].
    - Delivery of commands: [Client.handshake_resends_outstanding] and
      [send_refuses_only_when_full] on the client; [Sync.dedup_exact_in_window],
      [DeviceSessions.inbound_dedup_survives], [ack_level_is_success_prefix] and
      [Connection.commands_run_exactly_once] on the daemon; from the dispatcher to the
      client, [Acks.acknowledged_commands_ran] and, for the assembled daemon,
      [Ledger.wire_acks_are_of_commands_run];
      [DeviceStore.numbers_drawn_once] and [reservation_terminates] for the numbers
      several commands share.
    - What a command reports: [CliStart.started_as_paired] and [unstarted_exits_one],
      [Cli.exit_status_is_truthful],
      [Receipt.success_means_it_ran] (the assembled daemon ran the very command),
      [PhoneReceipt.acknowledged_sends_ran] (and so for the phone),
      [Acks.successful_command_ran], [Cli.silent_daemon_ends_run],
      [CliRender.printed_lines_are_not_forged], [Text.logged_text_is_harmless].
    - Trust: [Frame.sealed_opens_only_as_sealed],
      [Connection.preauth_line_is_confined], [Pairing.pairing_needs_live_secret],
      [one_device_per_secret], [revoke_is_exact], [Hub.disconnect_forgets_device],
      [IdentityStore.trust_survives_restart] and [identity_is_never_replaced],
      [Commands.no_unguarded_mode], [commands_act_as_authenticated],
      [Transport.listener_fails_closed] and [push_discloses_only_tokens].
    - Pairing, end to end: [PairCode.phone_pairing_succeeds] and
      [pair_code_roundtrip], [CliPair.code_pairs_second_machine],
      [code_alone_is_trusted], [stored_key_was_proved] and [picture_is_the_code];
      the QR under it by [QrField.gf_multiplies_polynomials],
      [rs_completes_code_word], [QrCode.smallest_version_is_picked],
      [QrStandard.qr_reads_back] and [QrRender.terminal_shows_matrix].
    - Approvals: [Approvals.every_claim_answered_once], [decide_first_wins],
      [request_lifecycle], [HookBridge.close_settles_own_requests], and the audit
      trail [Db.audit_row_is_first_request], [history_is_recent_decisions],
      [reconcile_closes_orphans].
    - Sessions and jobs: [HookMargin.margin_ok_iff], [Jobs.refused_never_spawns],
      [sessions_within_cap], [queue_is_work_conserving],
      [Session.exit_emitted_once], [Daemon.live_sessions_are_open_rows].
    - What the phone shows: [Daemon.phone_mirrors_broker], [snapshot_resyncs],
      [Fleet.view_is_last_word], [MobileClient.phone_reads_lines_in_order]; that both
      ends compute the same bytes is [MobileCrypto.phone_and_daemon_agree], under the same
      key [KeyAgreement.both_ends_derive_one_key] and [derived_keys_talk].
    - Bytes and settings: [Framing.framing_roundtrip] and
      [WebSocket.stream_delivers_messages], under any cut into chunks, and
      [Utf8.chunks_read_as_one], which says which cuts keep a text whole;
      [Config.loaded_config_is_well_typed] and [refuses_iff_unacceptable].
    - The exact extent of failures: [Connection.only_null_escapes_the_guard],
      [HookMargin.margin_throws_iff], [DeviceSessions.no_ack_after_restart],
      [Jobs.store_failure_leaks_slot], [Session.late_output_revives],
      [HookBridge.stale_claim_denies_reused_request] and
      [failed_listener_strands_request], [Daemon.failed_store_leaves_approval_shown],
      [Revocation.failed_unregister_keeps_sockets], [QrStandard.second_copies], [WebSocket.declared_length_is_buffered] and
      [pong_well_formed_iff], [MobileClient.reopening_forgets],
      [DeviceStore.stale_lock_race], [Cli.unknown_device_revokes_itself].

    ** Fuel and bounds

    The loops of the source that are not structural run on fuel.
    [DeviceSessions.close_gap] removes an element of a set per turn and runs on the
    set's size; the read loops ([Framing.drain], [Framing.read_loop],
    [Session.stdout_loop], [ClientController.feed_loop], [WebSocket.parse_loop])
    shorten their buffer per turn and run on its length; [drain_unfold],
    [close_gap_tracks] and the theorems on the streams show that the fuel is never what
    stops them.  In [qr.ts], [QrCode.align] adds at most seven bits and has eight turns
    ([align_spec]), and [QrMatrix.columns] drops two columns per turn and has as many
    turns as columns.  The caps of
    the source (256 outstanding commands, the window of 2000 and 5000 remembered
    numbers, 60 s, 30 s, the line and backlog limits) are the constants of the
    source.  Bytes and code words are integers in range, with the source's masks and
    shifts.  Sequence numbers and times are unbounded integers: the source counts
    them in binary64, exact up to 2^53, which no run reaches.

    ** What is not modelled

    Strings are byte strings, and a chunk is the text [Utf8] decodes it to; the length
    caps and paddings count its characters.  A socket of the phone is silent once the next
    one is opened, and the phone's callbacks only record.  What a component logs is left out where
    nothing depends on it.  JSON is a parameter, except
    where the source looks inside parsed values.  HTTP parsing before a WebSocket
    upgrade and errors of the device store other than an existing lock are the
    platform's.  In [System] an event keeps the value it had when it was broadcast (the
    shared objects are in [Connection]), what a service of the process broadcasts reaches
    the hub when its call returns, and the inputs are lines, which [Wires] cuts from the
    chunks of the sockets ([WebSocket] from its frames); sessions, jobs and identity act there through the parts
    they are given and have their own files.  A statement of the store may throw where the
    broker's listeners ([Daemon], [System]), the job queue ([Jobs]), the start ([Boot]) and
    the services of [System] run one; the listeners of a session in [Daemon] are taken with a
    store that takes their statements.  A listener that throws past its guards ends the process in
    [Wires]; [System] goes on with the inputs after it, which [Wires] does not give it.
    The permissions of the identity file are
    its writer's.  The phone's shell (there are no screens in this repository besides its
    core) and the test suites are not modelled. *)

From stdpp Require Export prelude strings list sorting pretty.
From Stdlib Require Export ZArith Sorted Lia.

(** ** Notation scope of the development *)

Declare Scope ccr_scope.
Delimit Scope ccr_scope with ccr.

(** ** Outcomes: a JavaScript call returns a value or throws

    [Throw e] carries the message of the thrown [Error]. *)

Inductive outcome (A : Type) : Type :=
| Ok (a : A)
| Throw (e : string).
Arguments Ok {A} a.
Arguments Throw {A} e.

Definition is_ok {A} (o : outcome A) : bool :=
  match o with Ok _ => true | Throw _ => false end.

(** ** The effect monad

    [eff W A] is a computation over a world [W].  State changes made before a
    [throw] persist, as they do in JavaScript. *)

Definition eff (W A : Type) : Type := W -> outcome A * W.

Global Instance eff_ret W : MRet (eff W) := fun A (a : A) w => (Ok a, w).
Global Instance eff_bind W : MBind (eff W) :=
  fun A B (k : A -> eff W B) (m : eff W A) w =>
    match m w with
    | (Ok a, w') => k a w'
    | (Throw e, w') => (Throw e, w')
    end.

Definition throw {W A} (e : string) : eff W A := fun w => (Throw e, w).

(** [try { m } catch (e) { h e }] *)
Definition try_catch {W A} (m : eff W A) (h : string -> eff W A) : eff W A :=
  fun w =>
    match m w with
    | (Ok a, w') => (Ok a, w')
    | (Throw e, w') => h e w'
    end.

Definition modify {W} (f : W -> W) : eff W unit := fun w => (Ok tt, f w).
Definition gets {W A} (f : W -> A) : eff W A := fun w => (Ok (f w), w).

(** [for (const x of l) f(x)]: stops at the first throw. *)
Fixpoint for_each {W X} (f : X -> eff W unit) (l : list X) : eff W unit :=
  match l with
  | [] => mret tt
  | x :: l' => f x ;; for_each f l'
  end.

(** ** Preservation of an invariant by a computation, whatever its outcome *)

Definition preserves {W A} (I : W -> Prop) (m : eff W A) : Prop :=
  forall w, I w -> I (snd (m w)).

Create HintDb preserves.

Section preserves.
Context {W : Type} (I : W -> Prop).

Lemma preserves_ret {A} (a : A) : preserves I (mret a).
Proof. intros w Hw. exact Hw. Qed.

Lemma preserves_throw {A} e : preserves I (throw (A:=A) e).
Proof. intros w Hw. exact Hw. Qed.

Lemma preserves_bind {A B} (m : eff W A) (k : A -> eff W B) :
  preserves I m -> (forall a, preserves I (k a)) -> preserves I (m ≫= k).
Proof.
  intros Hm Hk w Hw. unfold mbind, eff_bind.
  specialize (Hm w Hw). destruct (m w) as [[a|e] w']; simpl in *; [|done].
  by apply Hk.
Qed.

Lemma preserves_try {A} (m : eff W A) (h : string -> eff W A) :
  preserves I m -> (forall e, preserves I (h e)) -> preserves I (try_catch m h).
Proof.
  intros Hm Hk w Hw. unfold try_catch.
  specialize (Hm w Hw). destruct (m w) as [[a|e] w']; simpl in *; [done|].
  by apply Hk.
Qed.

Lemma preserves_modify f : (forall w, I w -> I (f w)) -> preserves I (modify f).
Proof. intros Hf w Hw. by apply Hf. Qed.

Lemma preserves_gets {A} (f : W -> A) : preserves I (gets f).
Proof. intros w Hw. exact Hw. Qed.

Lemma preserves_for_each {X} (f : X -> eff W unit) l :
  (forall x, preserves I (f x)) -> preserves I (for_each f l).
Proof.
  intros Hf. induction l as [|x l IH]; simpl.
  - apply preserves_ret.
  - apply preserves_bind; auto.
Qed.

Lemma preserves_for_each_Forall {X} (f : X -> eff W unit) l :
  Forall (fun x => preserves I (f x)) l -> preserves I (for_each f l).
Proof. induction 1 as [|x l Hx _ IH]; [apply preserves_ret|by apply preserves_bind]. Qed.

(** The values [m] returns where [I] holds satisfy [Q]. *)
Definition yields {A} (m : eff W A) (Q : A -> Prop) : Prop := forall w, I w -> forall a, fst (m w) = Ok a -> Q a.

Lemma preserves_bind_yields {A B} (m : eff W A) (k : A -> eff W B) (Q : A -> Prop) :
  preserves I m -> yields m Q -> (forall a, Q a -> preserves I (k a)) -> preserves I (m ≫= k).
Proof.
  intros Hm Hq Hk w Hw. unfold mbind, eff_bind. specialize (Hm w Hw). specialize (Hq w Hw).
  destruct (m w) as [[a|e] w']; simpl in *; [|done]. by apply Hk, Hm; apply Hq.
Qed.

End preserves.

#[export] Hint Resolve preserves_ret preserves_throw preserves_bind preserves_try
  preserves_modify preserves_gets preserves_for_each : preserves.

(** ** Tactics shared by the components *)

(** Case analysis on the boolean comparisons and matches of a translated body. *)
Ltac bool_cases :=
  repeat match goal with
  | |- context [(?a <? ?b)%Z] => destruct (Z.ltb_spec a b)
  | |- context [(?a <=? ?b)%Z] => destruct (Z.leb_spec a b)
  | |- context [(?a =? ?b)%Z] => destruct (Z.eqb_spec a b)
  end.

(** ** Generic lemmas on lists *)

Lemma filter_full_length {A} (P : A -> Prop) `{forall x, Decision (P x)} (l : list A) :
  length (filter P l) = length l -> filter P l = l.
Proof.
  induction l as [|x l IH]; [done|]. rewrite filter_cons. case_decide; cbn; intros Hl.
  - f_equal. apply IH. lia.
  - pose proof (length_filter P l). lia.
Qed.

Lemma filter_id {A} (P : A -> Prop) `{forall x, Decision (P x)} (l : list A) :
  Forall P l -> filter P l = l.
Proof.
  induction 1 as [|x l Hx _ IH]; [done|].
  by rewrite filter_cons_True, IH.
Qed.

Lemma filter_none {A} (P : A -> Prop) `{forall x, Decision (P x)} (l : list A) :
  Forall (fun x => ~ P x) l -> filter P l = [].
Proof.
  induction 1 as [|x l Hx _ IH]; [done|].
  by rewrite filter_cons_False.
Qed.

(** A duplicate-free list of integers of an interval is no longer than it. *)
Lemma NoDup_Z_interval (l : list Z) (lo hi : Z) :
  NoDup l -> Forall (fun x => lo <= x <= hi)%Z l -> (lo <= hi + 1)%Z ->
  (Z.of_nat (length l) <= hi - lo + 1)%Z.
Proof.
  intros Hnd Hl Hle.
  set (all := seqZ lo (hi - lo + 1)).
  assert (Hsub : l ⊆ all).
  { intros x Hx. apply elem_of_seqZ.
    rewrite Forall_forall in Hl. specialize (Hl x Hx). lia. }
  assert (length l <= length all) as Hlen
    by (apply submseteq_length, NoDup_submseteq; auto).
  unfold all in Hlen. rewrite length_seqZ in Hlen. lia.
Qed.

Lemma filter_ext_elem {A} (P Q : A -> Prop) `{forall x, Decision (P x)} `{forall x, Decision (Q x)} (l : list A) :
  (forall x, x ∈ l -> P x <-> Q x) -> filter P l = filter Q l.
Proof.
  induction l as [|x l IH]; intros Hpq; [done|].
  rewrite !filter_cons. rewrite IH by (intros; apply Hpq; by right).
  destruct (decide (P x)), (decide (Q x)); try done;
    specialize (Hpq x ltac:(by left)); naive_solver.
Qed.

(** The first occurrence of [x] taken out. *)
Fixpoint remove_one {A} `{EqDecision A} (x : A) (l : list A) : list A :=
  match l with
  | [] => []
  | y :: l' => if decide (y = x) then l' else y :: remove_one x l'
  end.

Lemma remove_one_elem {A} `{EqDecision A} (x y : A) (l : list A) :
  NoDup l -> y ∈ remove_one x l <-> y <> x /\ y ∈ l.
Proof.
  induction 1 as [|z l Hz Hnd IH]; simpl; [set_solver|].
  case_decide; subst; [set_solver|]. set_solver.
Qed.

Lemma remove_one_NoDup {A} `{EqDecision A} (x : A) (l : list A) : NoDup l -> NoDup (remove_one x l).
Proof.
  intros Hnd. assert (Hsub : remove_one x l `sublist_of` l).
  { clear Hnd. induction l as [|z l IH]; simpl; [done|]. case_decide; [by apply sublist_cons|by apply sublist_skip]. }
  by eapply sublist_NoDup.
Qed.

(** ** Triples: what a computation establishes on return and on a throw *)

Definition triple {W A} (P : W -> Prop) (m : eff W A) (Q : A -> W -> Prop) (R : W -> Prop) : Prop :=
  forall w, P w -> match m w with (Ok a, w') => Q a w' | (Throw _, w') => R w' end.

Section triple.
Context {W : Type}.
Implicit Types (P R : W -> Prop).

Lemma triple_ret {A} (a : A) P Q R : (forall w, P w -> Q a w) -> triple P (mret a) Q R.
Proof. intros H w Hw. by apply H. Qed.

Lemma triple_throw {A} e P (Q : A -> W -> Prop) R : (forall w, P w -> R w) -> triple P (throw e) Q R.
Proof. intros H w Hw. by apply H. Qed.

Lemma triple_modify f P (Q : unit -> W -> Prop) R :
  (forall w, P w -> Q tt (f w)) -> triple P (modify f) Q R.
Proof. intros H w Hw. by apply H. Qed.

Lemma triple_gets {A} (f : W -> A) P (Q : A -> W -> Prop) R :
  (forall w, P w -> Q (f w) w) -> triple P (gets f) Q R.
Proof. intros H w Hw. by apply H. Qed.

Lemma triple_bind {A B} (m : eff W A) (k : A -> eff W B) P M Q R :
  triple P m M R -> (forall a, triple (M a) (k a) Q R) -> triple P (m ≫= k) Q R.
Proof.
  intros Hm Hk w Hw. specialize (Hm w Hw). unfold mbind, eff_bind.
  destruct (m w) as [[a|e] w']; [|done]. by apply Hk.
Qed.

Lemma triple_try {A} (m : eff W A) (h : string -> eff W A) P Q R R' :
  triple P m Q R' -> (forall e, triple R' (h e) Q R) -> triple P (try_catch m h) Q R.
Proof.
  intros Hm Hh w Hw. specialize (Hm w Hw). unfold try_catch.
  destruct (m w) as [[a|e] w']; [done|]. by apply Hh.
Qed.

Lemma triple_conseq {A} (m : eff W A) P P' (Q Q' : A -> W -> Prop) R R' :
  triple P m Q R -> (forall w, P' w -> P w) -> (forall a w, Q a w -> Q' a w) -> (forall w, R w -> R' w) ->
  triple P' m Q' R'.
Proof.
  intros Hm HP HQ HR w Hw. specialize (Hm w (HP w Hw)). destruct (m w) as [[a|e] w']; auto.
Qed.

Lemma triple_state {A} (m : eff W A) P Q R :
  triple P m Q R -> forall w, P w -> (exists a, Q a (snd (m w))) \/ R (snd (m w)).
Proof.
  intros Hm w Hw. specialize (Hm w Hw). destruct (m w) as [[a|e] w']; simpl; eauto.
Qed.

End triple.

Lemma Forall2_impl_elem {A B} (P Q : A -> B -> Prop) (l : list A) (k : list B) :
  Forall2 P l k -> (forall x y, x ∈ l -> P x y -> Q x y) -> Forall2 Q l k.
Proof.
  induction 1 as [|x y l k Hxy _ IH]; intros Hpq; constructor.
  - apply Hpq; [by left|done].
  - apply IH. intros x' y' Hin. apply Hpq. by right.
Qed.

Lemma elem_of_concat {A} (x : A) (ls : list (list A)) : x ∈ concat ls <-> exists l, l ∈ ls /\ x ∈ l.
Proof.
  induction ls as [|l ls IH]; simpl; [set_solver|]. rewrite elem_of_app, IH. set_solver.
Qed.
