(* ===== verification/JsMap.v ===== *)
(** * JavaScript [Map] and [Set]

    The insertion-ordered containers of the language's standard library, as the
    sources use them: [Map.set] on a present key keeps the key's position and
    replaces its value, [Map.set] on a new key appends, [delete] removes, and
    iteration goes in insertion order.  The order is observable (the LRU scan of
    [replay.ts], [pumpQueue] of [jobs.ts], [list()]), hence association lists
    and not finite maps. *)

From S2P Require Import Prelude.

(** ** Map *)

Abbreviation jsmap K V := (list (K * V)%type) (only parsing).

Section map_ops.
Context {K V : Type} `{EqDecision K}.

Fixpoint mget (k : K) (m : jsmap K V) : option V :=
  match m with
  | [] => None
  | (k', v) :: m' => if decide (k = k') then Some v else mget k m'
  end.

Fixpoint mset (k : K) (v : V) (m : jsmap K V) : jsmap K V :=
  match m with
  | [] => [(k, v)]
  | (k', v') :: m' => if decide (k = k') then (k, v) :: m' else (k', v') :: mset k v m'
  end.

Definition mdelete (k : K) (m : jsmap K V) : jsmap K V :=
  filter (fun kv => kv.1 <> k) m.

Definition mhas (k : K) (m : jsmap K V) : bool :=
  match mget k m with Some _ => true | None => false end.

Definition msize (m : jsmap K V) : Z := Z.of_nat (length m).
Definition mkeys (m : jsmap K V) : list K := m.*1.
Definition mvalues (m : jsmap K V) : list V := m.*2.

(** The representation invariant: no key occurs twice. *)
Definition mwf (m : jsmap K V) : Prop := NoDup (mkeys m).

(** Same contents, whatever the order: what a client that never iterates sees. *)
Definition meq (m1 m2 : jsmap K V) : Prop := forall k, mget k m1 = mget k m2.

End map_ops.

Infix "≡ₘ" := meq (at level 70, no associativity) : ccr_scope.

(** ** Set *)

Abbreviation jsset A := (list A) (only parsing).

Section set_ops.
Context {A : Type} `{EqDecision A}.

Definition shas (x : A) (s : jsset A) : bool := bool_decide (x ∈ s).
Definition sadd (x : A) (s : jsset A) : jsset A := if shas x s then s else s ++ [x].
Definition sdelete (x : A) (s : jsset A) : jsset A := filter (fun y => y <> x) s.
Definition ssize (s : jsset A) : Z := Z.of_nat (length s).

End set_ops.

(** ** Laws of [Map] *)

Create HintDb jsmap.

Section map_laws.
Context {K V : Type} `{EqDecision K}.
Implicit Types (m : jsmap K V) (k : K) (v : V).

Lemma mget_mset_eq k v m : mget k (mset k v m) = Some v.
Proof. induction m as [|[k' v'] m IH]; simpl; repeat (case_decide; simplify_eq/=); auto. Qed.

Lemma mget_mset_ne k k' v m : k' <> k -> mget k' (mset k v m) = mget k' m.
Proof.
  intros Hne. induction m as [|[k2 v2] m IH]; simpl;
    repeat (case_decide; simplify_eq/=); auto.
Qed.

Lemma mget_mset k k' v m :
  mget k' (mset k v m) = if decide (k' = k) then Some v else mget k' m.
Proof. case_decide; subst; [apply mget_mset_eq|by apply mget_mset_ne]. Qed.

Lemma mget_filter (P : K * V -> Prop) `{forall x, Decision (P x)} k m :
  (forall v, P (k, v)) -> mget k (filter P m) = mget k m.
Proof.
  intros HP. induction m as [|[k' v'] m IH]; [done|].
  rewrite filter_cons. repeat (case_decide; simplify_eq/=); auto.
  exfalso. naive_solver.
Qed.

Lemma mget_mdelete_eq k m : mget k (mdelete k m) = None.
Proof.
  unfold mdelete. induction m as [|[k' v'] m IH]; [done|].
  rewrite filter_cons. repeat (case_decide; simplify_eq/=); auto.
Qed.

Lemma mget_mdelete_ne k k' m : k' <> k -> mget k' (mdelete k m) = mget k' m.
Proof. intros. by apply mget_filter. Qed.

Lemma mget_mdelete k k' m :
  mget k' (mdelete k m) = if decide (k' = k) then None else mget k' m.
Proof. case_decide; subst; [apply mget_mdelete_eq|by apply mget_mdelete_ne]. Qed.

Lemma mget_Some_elem k v m : mget k m = Some v -> (k, v) ∈ m.
Proof.
  induction m as [|[k' v'] m IH]; simpl; [done|].
  case_decide; intros; simplify_eq; apply elem_of_cons; auto.
Qed.

Lemma mget_None_keys k m : mget k m = None <-> k ∉ mkeys m.
Proof.
  induction m as [|[k' v'] m IH]; simpl; [set_solver|].
  case_decide; simplify_eq; [set_solver|]. rewrite IH. set_solver.
Qed.

Lemma mget_is_Some_keys k m : is_Some (mget k m) <-> k ∈ mkeys m.
Proof.
  destruct (decide (k ∈ mkeys m)) as [Hin|Hin].
  - split; [done|]. intros _. destruct (mget k m) eqn:E; [eauto|].
    by apply mget_None_keys in E.
  - apply mget_None_keys in Hin as E. rewrite E. split; [|done]. by intros [? ?].
Qed.

Lemma mhas_keys k m : mhas k m = true <-> k ∈ mkeys m.
Proof.
  rewrite <- mget_is_Some_keys. unfold mhas.
  destruct (mget k m); split; try done; by intros [??].
Qed.

Lemma elem_mget k v m : mwf m -> (k, v) ∈ m -> mget k m = Some v.
Proof.
  unfold mwf. induction m as [|[k' v'] m IH]; simpl; [set_solver|].
  intros Hnd Hin. inv Hnd. apply elem_of_cons in Hin as [Heq|Hin].
  - simplify_eq. by case_decide.
  - case_decide; subst; [|auto].
    exfalso. apply (list_elem_of_fmap_2 fst) in Hin. naive_solver.
Qed.

Lemma mkeys_mset_in k v m : k ∈ mkeys m -> mkeys (mset k v m) = mkeys m.
Proof.
  unfold mkeys. induction m as [|[k' v'] m IH]; simpl; [set_solver|].
  intros Hin. case_decide; simplify_eq/=; [done|].
  f_equal. apply IH. set_solver.
Qed.

Lemma mset_notin k v m : k ∉ mkeys m -> mset k v m = m ++ [(k, v)].
Proof.
  unfold mkeys. induction m as [|[k' v'] m IH]; simpl; [done|].
  intros Hin. case_decide; simplify_eq/=; [set_solver|].
  f_equal. apply IH. set_solver.
Qed.

Lemma mkeys_mset_notin k v m : k ∉ mkeys m -> mkeys (mset k v m) = mkeys m ++ [k].
Proof. intros. rewrite mset_notin by done. unfold mkeys. by rewrite fmap_app. Qed.

Lemma elem_mkeys_mset k k' v m : k' ∈ mkeys (mset k v m) <-> k' = k \/ k' ∈ mkeys m.
Proof.
  destruct (decide (k ∈ mkeys m)) as [Hin|Hin].
  - rewrite mkeys_mset_in by done. naive_solver.
  - rewrite mkeys_mset_notin by done. set_solver.
Qed.

Lemma mkeys_mdelete k m : mkeys (mdelete k m) = filter (fun k' => k' <> k) (mkeys m).
Proof.
  unfold mkeys, mdelete. induction m as [|[k' v'] m IH]; [done|].
  rewrite fmap_cons, !filter_cons. cbn [fst snd].
  case_decide; [rewrite fmap_cons; cbn [fst]; f_equal|]; exact IH.
Qed.

Lemma elem_mkeys_mdelete k k' m : k' ∈ mkeys (mdelete k m) <-> k' <> k /\ k' ∈ mkeys m.
Proof. rewrite mkeys_mdelete, list_elem_of_filter. done. Qed.

Lemma mwf_nil : mwf (K:=K) (V:=V) [].
Proof. constructor. Qed.

Lemma mwf_mset k v m : mwf m -> mwf (mset k v m).
Proof.
  unfold mwf. intros Hnd. destruct (decide (k ∈ mkeys m)) as [Hin|Hin].
  - by rewrite mkeys_mset_in.
  - rewrite mkeys_mset_notin by done.
    apply NoDup_app. split; [done|]. split; [set_solver|apply NoDup_singleton].
Qed.

Lemma mwf_mdelete k m : mwf m -> mwf (mdelete k m).
Proof. unfold mwf. rewrite mkeys_mdelete. apply NoDup_filter. Qed.

Lemma elem_mdelete k m e : e ∈ mdelete k m -> e ∈ m.
Proof. unfold mdelete. intros Hin. by apply list_elem_of_filter in Hin as [_ Hin]. Qed.

Lemma elem_mset k v m e : e ∈ mset k v m -> e = (k, v) \/ e ∈ m.
Proof.
  induction m as [|[k' v'] m IH]; cbn [mset]; [rewrite list_elem_of_singleton; by left|].
  case_decide; rewrite !elem_of_cons; naive_solver.
Qed.

Lemma mdelete_notin k m : k ∉ mkeys m -> mdelete k m = m.
Proof.
  intros Hk. unfold mdelete. apply filter_id. rewrite Forall_forall.
  intros [k' v'] Hin Heq. simpl in Heq. subst. apply Hk.
  by apply (list_elem_of_fmap_2 fst) in Hin.
Qed.

Lemma mdelete_mset_notin k v m : k ∉ mkeys m -> mdelete k (mset k v m) = m.
Proof.
  intros Hk. rewrite mset_notin by done. unfold mdelete. rewrite filter_app.
  rewrite filter_cons_False by naive_solver. simpl. rewrite app_nil_r.
  by apply mdelete_notin.
Qed.

Lemma msize_nonneg m : (0 <= msize m)%Z.
Proof. unfold msize. lia. Qed.

Lemma msize_keys m : msize m = Z.of_nat (length (mkeys m)).
Proof. unfold msize, mkeys. by rewrite length_fmap. Qed.

Lemma msize_mset_in k v m : k ∈ mkeys m -> msize (mset k v m) = msize m.
Proof. intros. by rewrite !msize_keys, mkeys_mset_in. Qed.

Lemma msize_mset_notin k v m : k ∉ mkeys m -> msize (mset k v m) = (msize m + 1)%Z.
Proof. intros. unfold msize. rewrite mset_notin by done. rewrite length_app. simpl. lia. Qed.

Lemma msize_mdelete_le k m : (msize (mdelete k m) <= msize m)%Z.
Proof. unfold msize, mdelete. pose proof (length_filter (fun kv : K * V => kv.1 <> k) m). lia. Qed.

Lemma msize_mdelete_in k m :
  mwf m -> k ∈ mkeys m -> msize (mdelete k m) = (msize m - 1)%Z.
Proof.
  unfold mwf, msize. induction m as [|[k' v'] m IH]; simpl; [set_solver|].
  intros Hnd Hin. inv Hnd. unfold mdelete in *. simpl.
  destruct (decide (k' = k)) as [->|Hne].
  - rewrite filter_cons_False by naive_solver.
    fold (mdelete k m). rewrite mdelete_notin by done. simpl. lia.
  - rewrite filter_cons_True by done. simpl.
    rewrite !Nat2Z.inj_succ, IH; [lia|done|set_solver].
Qed.

Global Instance meq_equiv : Equivalence (@meq K V _).
Proof.
  split; unfold meq; [done|by intros ? ? H ?|intros ? ? ? H1 H2 ?; by rewrite H1].
Qed.

Global Instance mset_proper : Proper ((=) ==> (=) ==> meq ==> meq) (@mset K V _).
Proof. intros k ? <- v ? <- m1 m2 Hm k'. rewrite !mget_mset. case_decide; auto. Qed.

Global Instance mdelete_proper : Proper ((=) ==> meq ==> meq) (@mdelete K V _).
Proof. intros k ? <- m1 m2 Hm k'. rewrite !mget_mdelete. case_decide; auto. Qed.

Global Instance mget_proper : Proper ((=) ==> meq ==> (=)) (@mget K V _).
Proof. intros k ? <- m1 m2 Hm. apply Hm. Qed.

Global Instance mhas_proper : Proper ((=) ==> meq ==> (=)) (@mhas K V _).
Proof. intros k ? <- m1 m2 Hm. unfold mhas. by rewrite Hm. Qed.

Lemma mset_mset_comm k1 k2 v1 v2 m :
  k1 <> k2 -> meq (mset k1 v1 (mset k2 v2 m)) (mset k2 v2 (mset k1 v1 m)).
Proof. intros Hne k. rewrite !mget_mset. repeat case_decide; congruence. Qed.

End map_laws.

(** ** Laws of [Set] *)

Section set_laws.
Context {A : Type} `{EqDecision A}.
Implicit Types (s : jsset A) (x : A).

Lemma shas_true x s : shas x s = true <-> x ∈ s.
Proof. apply bool_decide_eq_true. Qed.

Lemma shas_false x s : shas x s = false <-> x ∉ s.
Proof. apply bool_decide_eq_false. Qed.

Lemma elem_sadd x y s : y ∈ sadd x s <-> y = x \/ y ∈ s.
Proof.
  unfold sadd, shas. case_bool_decide; [|set_solver]. naive_solver.
Qed.

Lemma NoDup_sadd x s : NoDup s -> NoDup (sadd x s).
Proof.
  intros Hnd. unfold sadd, shas. case_bool_decide; [done|].
  apply NoDup_app. split; [done|]. split; [set_solver|apply NoDup_singleton].
Qed.

Lemma ssize_sadd_le x s : (ssize (sadd x s) <= ssize s + 1)%Z.
Proof.
  unfold sadd, ssize. destruct (shas x s); [lia|]. rewrite length_app. simpl. lia.
Qed.

Lemma elem_sdelete x y s : y ∈ sdelete x s <-> y <> x /\ y ∈ s.
Proof. unfold sdelete. by rewrite list_elem_of_filter. Qed.

Lemma NoDup_sdelete x s : NoDup s -> NoDup (sdelete x s).
Proof. apply NoDup_filter. Qed.

End set_laws.

#[export] Hint Resolve mwf_nil mwf_mset mwf_mdelete NoDup_sadd NoDup_sdelete msize_nonneg : jsmap.
#[export] Hint Rewrite @mget_mset_eq @mget_mdelete_eq : jsmap.

(** Simplify lookups of updated maps, splitting on key equality. *)
Ltac map_simpl :=
  repeat first
    [ rewrite mget_mset_eq | rewrite mget_mdelete_eq
    | rewrite mget_mset_ne by congruence | rewrite mget_mdelete_ne by congruence
    | rewrite mget_mset; case_decide; subst
    | rewrite mget_mdelete; case_decide; subst ].

Section map_overwrite.
Context {K V : Type} `{EqDecision K}.
Implicit Types (m : jsmap K V).

Lemma mset_mset_eq k (v v' : V) m : mset k v (mset k v' m) = mset k v m.
Proof. induction m as [|[k' v2] m IH]; simpl; repeat (case_decide; simplify_eq/=); congruence. Qed.

Lemma mset_same k (v : V) m : mget k m = Some v -> mset k v m = m.
Proof. induction m as [|[k' v2] m IH]; simpl; [done|]. case_decide; intros; simplify_eq; [done|]. by rewrite IH. Qed.

End map_overwrite.
