(* ===== verification/Js.v ===== *)
(** * JavaScript values

    The dynamically typed values the sources inspect without a schema: parsed
    settings, hook payloads, tool inputs.  Finite numbers are exact rationals
    (the rounding of binary64 is not modelled), with [NaN] and the infinities
    apart because the code tests for them. *)

From S2P Require Import Prelude JsMap.
From Stdlib Require Export QArith Ascii.
From Stdlib Require String.

Inductive jsnum : Type :=
| NumNaN
| NumInf (negative : bool)
| NumFin (q : Q).

Inductive jsval : Type :=
| JUndef
| JNull
| JBool (b : bool)
| JNum (n : jsnum)
| JStr (s : string)
| JArr (l : list jsval)
| JObj (fields : list (string * jsval)).

(** [v?.k]: [undefined] on null, undefined, and values without the field. *)
Definition jprop (k : string) (v : jsval) : jsval :=
  match v with
  | JObj fields => default JUndef (mget k fields)
  | _ => JUndef
  end.

(** [v ?? d] *)
Definition jcoalesce (v d : jsval) : jsval :=
  match v with
  | JUndef | JNull => d
  | _ => v
  end.

(** [for (const x of v)]: arrays iterate, strings yield their characters,
    everything else is not iterable and throws a [TypeError]. *)
Definition jiter (v : jsval) : outcome (list jsval) :=
  match v with
  | JArr l => Ok l
  | JStr s => Ok ((fun c => JStr (String c EmptyString)) <$> String.list_ascii_of_string s)
  | _ => Throw "TypeError: not iterable"
  end.

(** [Number.isFinite(v)]: false on anything that is not a finite number. *)
Definition number_isFinite (v : jsval) : option Q :=
  match v with
  | JNum (NumFin q) => Some q
  | _ => None
  end.

(** [s.includes(sub)] *)
Fixpoint str_prefix (p s : string) : bool :=
  match p, s with
  | EmptyString, _ => true
  | String a p', String b s' => if decide (a = b) then str_prefix p' s' else false
  | String _ _, EmptyString => false
  end.

Fixpoint str_includes (sub s : string) : bool :=
  str_prefix sub s ||
  match s with
  | EmptyString => false
  | String _ s' => str_includes sub s'
  end.

(** Truthiness of an optional string: [undefined] and the empty string are falsy. *)
Definition truthy (o : option string) : bool :=
  match o with
  | Some (String _ _) => true
  | _ => false
  end.

(** The string of [if (o) ...], when the branch is taken. *)
Definition truthy_str (o : option string) : option string := if truthy o then o else None.

(** Truthiness of any value. *)
Definition jtruthy (x : jsval) : bool :=
  match x with
  | JUndef | JNull | JBool false | JNum NumNaN => false
  | JNum (NumFin q) => negb (Qeq_bool q 0)
  | JStr s => truthy (Some s)
  | _ => true
  end.
