(* ===== verification/Types.v ===== *)
(** * The wire types shared by the daemon and every client

    [packages/protocol/src/types.ts], one inductive or record per type or
    interface of the file, with the source's constructors and fields.  An
    optional field is an [option]; a timestamp is the number of milliseconds. *)

From S2P Require Import Prelude JsMap Js.

Local Open Scope Z_scope.

Inductive SessionState : Type :=
| starting | ready | working | waiting_approval | waiting_input | idle | finished | errored.

Record SessionInfo : Type := mkSessionInfo {
  si_id : string;
  si_claudeSessionId : option string;
  si_cwd : string;
  si_label : string;
  si_state : SessionState;
  si_model : option string;
  si_startedAt : Z;
  si_lastActivityAt : Z;
  si_pendingApprovals : Z;
}.

Inductive Verdict : Type := allow | deny.

Record DecisionRecord : Type := mkDecision {
  d_decision : Verdict;
  d_reason : string;
  d_by : string;
  d_at : Z;
}.

Record PendingApproval : Type := mkPendingApproval {
  toolUseId : string;
  pa_sessionId : string;
  toolName : string;
  toolInput : jsval;
  pa_description : option string;
  requestedAt : Z;
  deadlineAt : Z;
  decision : option DecisionRecord;
}.

Record ApprovalHistoryEntry : Type := mkHistoryEntry {
  h_toolUseId : string;
  h_sessionId : string;
  h_toolName : string;
  h_description : option string;
  h_requestedAt : Z;
  h_decision : Verdict;
  h_reason : string;
  h_decidedBy : string;
  h_decidedAt : Z;
}.

Inductive JobState : Type := queued | running | done | failed.

Inductive EffortLevel : Type := low | medium | high | xhigh | max.

Inductive PermissionMode : Type :=
| acceptEdits | auto | bypassPermissions | manual | dontAsk | plan.

Inductive PushPlatform : Type := ios | android.

Record JobInfo : Type := mkJobInfo {
  j_id : string;
  j_cwd : string;
  j_label : option string;
  j_disallowedTools : option (list string);
  j_model : option string;
  j_permissionMode : option PermissionMode;
  j_effort : option EffortLevel;
  j_state : JobState;
  j_sessionId : option string;
  j_error : option string;
  j_requestedBy : string;
  j_createdAt : Z;
  j_startedAt : option Z;
  j_finishedAt : option Z;
}.

Inductive ServerEvent : Type :=
| session_list (sessions : list SessionInfo)
| session_update (session : SessionInfo)
| approval_pending (approval : PendingApproval)
| approval_resolved (toolUseId : string) (decision : Verdict) (by_ : string)
| stream (sessionId : string) (event : jsval)
| error (message : string)
| job_update (job : JobInfo)
| revoked (deviceId : string)
| approval_history (approvals : list ApprovalHistoryEntry)
| ack (upTo : Z).

Inductive ClientCommand : Type :=
| cmd_list
| cmd_history (limit : option jsnum)
| cmd_spawn (cwd : string) (label : option string) (disallowedTools : option (list string))
    (model : option string) (permissionMode : option PermissionMode) (effort : option EffortLevel)
| cmd_send (sessionId text : string)
| cmd_interrupt (sessionId : string)
| cmd_set_model (sessionId model : string)
| cmd_set_permission_mode (sessionId : string) (mode : PermissionMode)
| cmd_decide (toolUseId : string) (decision : Verdict) (reason : option string) (by_ : string)
| cmd_revoke (deviceId : string)
| cmd_register_push (token : string) (platform : PushPlatform).

Inductive UnauthClientMessage : Type :=
| begin_pair
| complete_pair (devicePublicKey deviceName proof : string)
| hello (deviceId : string) (lastSeq : option jsnum).

Inductive UnauthServerMessage : Type :=
| pair_qr (qr : string) (expiresAt : Z)
| paired (deviceId daemonPublicKey : string)
| pair_failed
| session_salt (salt : string) (resumed : bool) (replayedCount : option Z)
| hello_failed.

(** What a sealed frame carries once opened: a command on the way to the daemon,
    an event on the way to the client. *)
Inductive Plain : Type :=
| PCmd (c : ClientCommand)
| PEv (e : ServerEvent).

Global Instance SessionState_eq_dec : EqDecision SessionState.
Proof. solve_decision. Defined.
Global Instance Verdict_eq_dec : EqDecision Verdict.
Proof. solve_decision. Defined.
Global Instance DecisionRecord_eq_dec : EqDecision DecisionRecord.
Proof. solve_decision. Defined.
Global Instance JobState_eq_dec : EqDecision JobState.
Proof. solve_decision. Defined.
Global Instance EffortLevel_eq_dec : EqDecision EffortLevel.
Proof. solve_decision. Defined.
Global Instance PermissionMode_eq_dec : EqDecision PermissionMode.
Proof. solve_decision. Defined.
Global Instance PushPlatform_eq_dec : EqDecision PushPlatform.
Proof. solve_decision. Defined.
Global Instance SessionInfo_eq_dec : EqDecision SessionInfo.
Proof. solve_decision. Defined.
Global Instance JobInfo_eq_dec : EqDecision JobInfo.
Proof. solve_decision. Defined.
Global Instance ApprovalHistoryEntry_eq_dec : EqDecision ApprovalHistoryEntry.
Proof. solve_decision. Defined.
