(* ===== verification/Encode.v ===== *)
(** * A concrete text encoding of the wire types

    The crypto laws of [Frame.v] are stated for any serialisation of the wire
    types.  This file gives one that is total and injective, so that the laws
    can be exhibited on a concrete platform: every wire type is countable, and a
    code number is written in binary digits. *)

From S2P Require Import Prelude JsMap Js Types.
From stdpp Require Import countable.

(** ** Code numbers as strings *)

Fixpoint digits (p : positive) : string :=
  match p with
  | xH => EmptyString
  | xO p' => String "0" (digits p')
  | xI p' => String "1" (digits p')
  end.

Fixpoint undigits (s : string) : positive :=
  match s with
  | EmptyString => xH
  | String c s' => if decide (c = "1"%char) then xI (undigits s') else xO (undigits s')
  end.

Lemma undigits_digits p : undigits (digits p) = p.
Proof. induction p as [p IH|p IH|]; simpl; [by rewrite IH..|done]. Qed.

(** ** Code numbers of the wire types *)

Local Ltac enum_countable f g :=
  refine (inj_countable' f g _); by intros [].

Global Instance Q_eq_dec : EqDecision Q.
Proof. solve_decision. Defined.
Global Instance Q_countable : Countable Q.
Proof. refine (inj_countable' (fun q => (Qnum q, Qden q)) (fun x => Qmake x.1 x.2) _). by intros []. Defined.

Global Instance jsnum_eq_dec : EqDecision jsnum.
Proof. solve_decision. Defined.
Global Instance jsnum_countable : Countable jsnum.
Proof.
  refine (inj_countable'
    (fun n => match n with NumNaN => inl tt | NumInf b => inr (inl b) | NumFin q => inr (inr q) end)
    (fun x => match x with inl _ => NumNaN | inr (inl b) => NumInf b | inr (inr q) => NumFin q end) _).
  by intros [].
Defined.

(** Values are trees whose leaves are constants or object keys. *)
Fixpoint jsval_tree (v : jsval) : gen_tree (bool + bool + jsnum + string) :=
  match v with
  | JUndef => GenLeaf (inl (inl (inl true)))
  | JNull => GenLeaf (inl (inl (inl false)))
  | JBool b => GenLeaf (inl (inl (inr b)))
  | JNum n => GenLeaf (inl (inr n))
  | JStr s => GenLeaf (inr s)
  | JArr l => GenNode 0 (jsval_tree <$> l)
  | JObj l => GenNode 1 ((fun kv => GenNode 2 [GenLeaf (inr kv.1); jsval_tree kv.2]) <$> l)
  end.

Fixpoint tree_jsval (t : gen_tree (bool + bool + jsnum + string)) : jsval :=
  match t with
  | GenLeaf (inl (inl (inl true))) => JUndef
  | GenLeaf (inl (inl (inl false))) => JNull
  | GenLeaf (inl (inl (inr b))) => JBool b
  | GenLeaf (inl (inr n)) => JNum n
  | GenLeaf (inr s) => JStr s
  | GenNode 0 l => JArr (tree_jsval <$> l)
  | GenNode _ l => JObj ((fun t => match t with
                               | GenNode _ [GenLeaf (inr k); t'] => (k, tree_jsval t')
                               | _ => (EmptyString, JNull)
                               end) <$> l)
  end.

Section jsval_induction.
Variable P : jsval -> Prop.
Hypothesis Hundef : P JUndef.
Hypothesis Hnull : P JNull.
Hypothesis Hbool : forall b, P (JBool b).
Hypothesis Hnum : forall n, P (JNum n).
Hypothesis Hstr : forall s, P (JStr s).
Hypothesis Harr : forall l, Forall P l -> P (JArr l).
Hypothesis Hobj : forall l, Forall (fun kv => P (snd kv)) l -> P (JObj l).

(** Structural induction through arrays and objects. *)
Fixpoint jsval_ind' (v : jsval) : P v :=
  match v with
  | JUndef => Hundef
  | JNull => Hnull
  | JBool b => Hbool b
  | JNum n => Hnum n
  | JStr s => Hstr s
  | JArr l => Harr l ((fix go l := match l return Forall P l with
                                   | [] => @List.Forall_nil _ _
                                   | x :: l' => @List.Forall_cons _ _ x l' (jsval_ind' x) (go l')
                                   end) l)
  | JObj l => Hobj l ((fix go l := match l return Forall (fun kv => P (snd kv)) l with
                                   | [] => @List.Forall_nil _ _
                                   | x :: l' => @List.Forall_cons _ _ x l' (jsval_ind' (snd x)) (go l')
                                   end) l)
  end.

End jsval_induction.

Lemma tree_jsval_tree v : tree_jsval (jsval_tree v) = v.
Proof.
  induction v as [| |b|n|s|l IH|l IH] using jsval_ind'; simpl; try done.
  - f_equal. rewrite <- list_fmap_compose. induction IH as [|x l Hx _ IH]; [done|].
    simpl. f_equal; [exact Hx|exact IH].
  - f_equal. rewrite <- list_fmap_compose. induction IH as [|[k x] l Hx _ IH]; [done|].
    simpl in *. f_equal; [by rewrite Hx|exact IH].
Qed.

Global Instance jsval_eq_dec : EqDecision jsval.
Proof.
  refine (fun v w => cast_if (decide (jsval_tree v = jsval_tree w))); [|congruence].
  by rewrite <- (tree_jsval_tree v), <- (tree_jsval_tree w); f_equal.
Defined.
Global Instance jsval_countable : Countable jsval.
Proof. apply (inj_countable' jsval_tree tree_jsval tree_jsval_tree). Defined.

Global Instance SessionState_countable : Countable SessionState.
Proof.
  refine (inj_countable' (fun s : SessionState => match s with
    | starting => 0 | ready => 1 | working => 2 | waiting_approval => 3
    | waiting_input => 4 | idle => 5 | finished => 6 | errored => 7 end)%nat
    (fun n => match n with
    | 0 => starting | 1 => ready | 2 => working | 3 => waiting_approval
    | 4 => waiting_input | 5 => idle | 6 => finished | _ => errored end)%nat _).
  by intros [].
Defined.

Global Instance Verdict_countable : Countable Verdict.
Proof.
  refine (inj_countable' (fun v => match v with allow => true | deny => false end)
                         (fun b : bool => if b then allow else deny) _).
  by intros [].
Defined.

Global Instance JobState_countable : Countable JobState.
Proof.
  refine (inj_countable' (fun s : JobState => match s with
    | queued => 0 | running => 1 | done => 2 | failed => 3 end)%nat
    (fun n => match n with 0 => queued | 1 => running | 2 => done | _ => failed end)%nat _).
  by intros [].
Defined.

Global Instance EffortLevel_countable : Countable EffortLevel.
Proof.
  refine (inj_countable' (fun s : EffortLevel => match s with
    | low => 0 | medium => 1 | high => 2 | xhigh => 3 | Types.max => 4 end)%nat
    (fun n => match n with 0 => low | 1 => medium | 2 => high | 3 => xhigh | _ => Types.max end)%nat _).
  by intros [].
Defined.

Global Instance PermissionMode_countable : Countable PermissionMode.
Proof.
  refine (inj_countable' (fun s : PermissionMode => match s with
    | acceptEdits => 0 | auto => 1 | bypassPermissions => 2
    | manual => 3 | dontAsk => 4 | plan => 5 end)%nat
    (fun n => match n with 0 => acceptEdits | 1 => auto | 2 => bypassPermissions
    | 3 => manual | 4 => dontAsk | _ => plan end)%nat _).
  by intros [].
Defined.

Global Instance PushPlatform_countable : Countable PushPlatform.
Proof.
  refine (inj_countable' (fun v => match v with ios => true | android => false end)
                         (fun b : bool => if b then ios else android) _).
  by intros [].
Defined.

Global Instance DecisionRecord_countable : Countable DecisionRecord.
Proof.
  refine (inj_countable' (fun d => (d_decision d, d_reason d, d_by d, d_at d))
    (fun '(a, b, c, d) => mkDecision a b c d) _).
  by intros [].
Defined.

Global Instance SessionInfo_countable : Countable SessionInfo.
Proof.
  refine (inj_countable' (fun s => (si_id s, si_claudeSessionId s, si_cwd s, si_label s, si_state s,
      si_model s, si_startedAt s, si_lastActivityAt s, si_pendingApprovals s))
    (fun '(a, b, c, d, e, f, g, h, i) => mkSessionInfo a b c d e f g h i) _).
  by intros [].
Defined.

Global Instance PendingApproval_eq_dec : EqDecision PendingApproval.
Proof. solve_decision. Defined.
Global Instance PendingApproval_countable : Countable PendingApproval.
Proof.
  refine (inj_countable' (fun p => (toolUseId p, pa_sessionId p, toolName p, toolInput p,
      pa_description p, requestedAt p, deadlineAt p, decision p))
    (fun '(a, b, c, d, e, f, g, h) => mkPendingApproval a b c d e f g h) _).
  by intros [].
Defined.

Global Instance ApprovalHistoryEntry_countable : Countable ApprovalHistoryEntry.
Proof.
  refine (inj_countable' (fun x => (h_toolUseId x, h_sessionId x, h_toolName x, h_description x,
      h_requestedAt x, h_decision x, h_reason x, h_decidedBy x, h_decidedAt x))
    (fun '(a, b, c, d, e, f, g, h, i) => mkHistoryEntry a b c d e f g h i) _).
  by intros [].
Defined.

Global Instance JobInfo_countable : Countable JobInfo.
Proof.
  refine (inj_countable' (fun j => (j_id j, j_cwd j, j_label j, j_disallowedTools j, j_model j,
      j_permissionMode j, j_effort j, j_state j, j_sessionId j, j_error j, j_requestedBy j,
      j_createdAt j, j_startedAt j, j_finishedAt j))
    (fun '(a, b, c, d, e, f, g, h, i, j, k, l, m, n) => mkJobInfo a b c d e f g h i j k l m n) _).
  by intros [].
Defined.

Global Instance ServerEvent_eq_dec : EqDecision ServerEvent.
Proof. solve_decision. Defined.
Global Instance ClientCommand_eq_dec : EqDecision ClientCommand.
Proof. solve_decision. Defined.
Global Instance Plain_eq_dec : EqDecision Plain.
Proof. solve_decision. Defined.

(** Unions are coded by the constructor's number and its payload's code. *)

Global Instance ServerEvent_countable : Countable ServerEvent.
Proof.
  refine (inj_countable (fun e => match e with
    | session_list l => (0, encode l)
    | session_update s => (1, encode s)
    | approval_pending a => (2, encode a)
    | approval_resolved t d b => (3, encode (t, d, b))
    | stream s v => (4, encode (s, v))
    | error m => (5, encode m)
    | job_update j => (6, encode j)
    | revoked d => (7, encode d)
    | approval_history l => (8, encode l)
    | ack n => (9, encode n)
    end)%nat
    (fun x => match x.1 with
    | 0 => session_list <$> decode x.2
    | 1 => session_update <$> decode x.2
    | 2 => approval_pending <$> decode x.2
    | 3 => (fun '(t, d, b) => approval_resolved t d b) <$> decode x.2
    | 4 => (fun '(s, v) => stream s v) <$> decode x.2
    | 5 => error <$> decode x.2
    | 6 => job_update <$> decode x.2
    | 7 => revoked <$> decode x.2
    | 8 => approval_history <$> decode x.2
    | _ => ack <$> decode x.2
    end)%nat _).
  intros []; cbn [fst snd]; by rewrite decode_encode.
Defined.

Global Instance ClientCommand_countable : Countable ClientCommand.
Proof.
  refine (inj_countable (fun c => match c with
    | cmd_list => (0, encode tt)
    | cmd_history l => (1, encode l)
    | cmd_spawn a b c d e f => (2, encode (a, b, c, d, e, f))
    | cmd_send s t => (3, encode (s, t))
    | cmd_interrupt s => (4, encode s)
    | cmd_set_model s m => (5, encode (s, m))
    | cmd_set_permission_mode s m => (6, encode (s, m))
    | cmd_decide t d r b => (7, encode (t, d, r, b))
    | cmd_revoke d => (8, encode d)
    | cmd_register_push t p => (9, encode (t, p))
    end)%nat
    (fun x => match x.1 with
    | 0 => Some cmd_list
    | 1 => cmd_history <$> decode x.2
    | 2 => (fun '(a, b, c, d, e, f) => cmd_spawn a b c d e f) <$> decode x.2
    | 3 => (fun '(s, t) => cmd_send s t) <$> decode x.2
    | 4 => cmd_interrupt <$> decode x.2
    | 5 => (fun '(s, m) => cmd_set_model s m) <$> decode x.2
    | 6 => (fun '(s, m) => cmd_set_permission_mode s m) <$> decode x.2
    | 7 => (fun '(t, d, r, b) => cmd_decide t d r b) <$> decode x.2
    | 8 => cmd_revoke <$> decode x.2
    | _ => (fun '(t, p) => cmd_register_push t p) <$> decode x.2
    end)%nat _).
  intros []; cbn [fst snd]; try done; by rewrite decode_encode.
Defined.

Global Instance Plain_countable : Countable Plain.
Proof.
  refine (inj_countable' (fun p => match p with PCmd c => inl c | PEv e => inr e end)
                         (fun x => match x with inl c => PCmd c | inr e => PEv e end) _).
  by intros [].
Defined.

(** ** The text of a wire value *)

Definition text_of (p : Plain) : string := digits (encode p).
Definition of_text (s : string) : option Plain := decode (undigits s).

Lemma of_text_text_of p : of_text (text_of p) = Some p.
Proof. unfold of_text, text_of. by rewrite undigits_digits, decode_encode. Qed.
