(* ===== verification/Frame.v ===== *)
(** * Sealed frames and the crypto seam

    [packages/protocol/src/frame.ts] (the wire contract), the [SessionCrypto]
    interface of [packages/protocol/src/client.ts], and the [node:crypto]
    implementation of it, [packages/protocol/src/crypto-node.ts].  AES-256-GCM,
    X25519 and HKDF belong to the platform: they are parameters, with what the
    code relies on as laws. *)

From S2P Require Import Prelude JsMap Js Types Encode.

Local Open Scope Z_scope.

(** ** The wire contract (frame.ts) *)

Record SealedFrame : Type := mkFrame {
  f_n : string;
  f_c : string;
  f_t : string;
  f_seq : Z;
}.

Inductive Direction : Type := d2c | c2d.

Global Instance Direction_eq_dec : EqDecision Direction.
Proof. solve_decision. Defined.

Definition direction_string (d : Direction) : string :=
  match d with d2c => "d2c" | c2d => "c2d" end.

(** [`${direction}:${seq}`] *)
Definition frameAADString (direction : Direction) (seq : Z) : string :=
  direction_string direction +:+ ":" +:+ pretty seq.

Definition FIELD_POLICY_metadata : list string :=
  ["seq"; "n"; "c"; "t"; "deviceId"; "ts"].

Definition FIELD_POLICY_encrypted : list string :=
  ["sessions"; "transcript"; "toolInput"; "toolName"; "description";
   "cwd"; "label"; "prompt"; "decision"; "reason"; "diff"; "fileContent";
   "model"; "claudeSessionId"; "apiKeys"; "env"; "token"; "upTo"].

(** ** The crypto operations the client engine is written against *)

(** [SessionCrypto] of client.ts.  [nonce] makes the randomness of [seal] explicit. *)
Class SessionCrypto (Key Nonce : Type) := {
  seal : Key -> Z -> Plain -> Direction -> Nonce -> SealedFrame;
  open_frame : Key -> SealedFrame -> Direction -> option Plain;
}.

(** The sealed body [b] presented with the sequence number [s]: the number is in
    clear, so this is what an on-path party can turn a frame into. *)
Definition with_seq (f : SealedFrame) (s : Z) : SealedFrame :=
  mkFrame (f_n f) (f_c f) (f_t f) s.

(** What an implementation promises about the values JSON carries faithfully:
    opening inverts sealing, the frame carries the sequence number in clear, and
    a sealed body opens only under the key, direction and sequence number it was
    sealed for. *)
Class SessionCryptoLaws (Key Nonce : Type) `{SessionCrypto Key Nonce}
    (serializable : Plain -> Prop) : Prop := {
  open_seal k s p d r : serializable p -> open_frame k (seal k s p d r) d = Some p;
  seal_seq k s p d r : f_seq (seal k s p d r) = s;
  open_bound k k' s s' p p' d d' r : serializable p ->
    open_frame k' (with_seq (seal k s p d r) s') d' = Some p' ->
    k' = k /\ s' = s /\ d' = d /\ p' = p;
}.

(** ** The node:crypto implementation (crypto-node.ts) *)

(** AES-256-GCM with associated data, base64 and JSON, as the platform offers them. *)
Class Platform (Key : Type) := {
  gcm_encrypt : Key -> string -> string -> string -> string * string;
  gcm_decrypt : Key -> string -> string -> string -> string -> option string;
  base64 : string -> string;
  unbase64 : string -> string;
  stringify : Plain -> string;
  parse : string -> option Plain;
}.

Class PlatformLaws (Key : Type) `{Platform Key} (serializable : Plain -> Prop) : Prop := {
  gcm_decrypt_encrypt k n a p :
    gcm_decrypt k n a (gcm_encrypt k n a p).1 (gcm_encrypt k n a p).2 = Some p;
  (** Decryption succeeds only on what encryption of the result yields. *)
  gcm_authentic k n a c t p :
    gcm_decrypt k n a c t = Some p -> gcm_encrypt k n a p = (c, t);
  (** Ideal authentication: equal outputs come from equal keys, data and texts. *)
  gcm_binding k k' n n' a a' p p' :
    gcm_encrypt k n a p = gcm_encrypt k' n' a' p' -> k = k' /\ a = a' /\ p = p';
  unbase64_base64 b : unbase64 (base64 b) = b;
  parse_stringify p : serializable p -> parse (stringify p) = Some p;
}.

Section node_crypto.
Context {Key : Type} `{Platform Key}.

Definition node_seal (key : Key) (seq : Z) (plaintext : Plain) (direction : Direction)
    (nonce : string) : SealedFrame :=
  let '(body, tag) :=
    gcm_encrypt key nonce (frameAADString direction seq) (stringify plaintext) in
  mkFrame (base64 nonce) (base64 body) (base64 tag) seq.

Definition node_open (key : Key) (frame : SealedFrame) (direction : Direction) : option Plain :=
  match gcm_decrypt key (unbase64 (f_n frame)) (frameAADString direction (f_seq frame))
                    (unbase64 (f_c frame)) (unbase64 (f_t frame)) with
  | Some plain => parse plain
  | None => None
  end.

Global Instance node_SessionCrypto : SessionCrypto Key string := {
  seal := node_seal;
  open_frame := node_open;
}.

End node_crypto.

(** ** A concrete platform satisfying the laws *)

(** A tag that spells out key and associated data, each escaped and terminated. *)
Fixpoint escape (s : string) : string :=
  match s with
  | EmptyString => "."
  | String c s' => String "+" (String c (escape s'))
  end.

Definition toy_platform : Platform string := {|
  gcm_encrypt k n a p := (p, escape k +:+ escape a);
  gcm_decrypt k n a c t := if decide (t = escape k +:+ escape a) then Some c else None;
  base64 b := b;
  unbase64 b := b;
  stringify := text_of;
  parse := of_text;
|}.

(** ** The associated data is unambiguous *)

Lemma direction_string_length d : String.length (direction_string d) = 3%nat.
Proof. by destruct d. Qed.

Lemma direction_string_inj d d' : direction_string d = direction_string d' -> d = d'.
Proof. by destruct d, d'. Qed.

(** The associated data determines direction and sequence number. *)
Lemma frameAADString_injective d d' s s' :
  frameAADString d s = frameAADString d' s' -> d = d' /\ s = s'.
Proof.
  unfold frameAADString. intros Heq.
  destruct d, d'; simpl in Heq; simplify_eq; split; try done.
Qed.

(** ** Laws of the node implementation *)

Section node_laws.
Context {Key : Type} `{PlatformLaws Key serializable}.

Lemma node_open_seal k s p d r :
  serializable p -> node_open k (node_seal k s p d r) d = Some p.
Proof.
  intros Hp. unfold node_open, node_seal.
  pose proof (gcm_decrypt_encrypt k r (frameAADString d s) (stringify p)) as Hd.
  destruct (gcm_encrypt _ _ _ _) as [body tag]. simpl in *.
  rewrite !unbase64_base64, Hd. by apply parse_stringify.
Qed.

Lemma node_seal_seq k s p d r : f_seq (node_seal k s p d r) = s.
Proof. unfold node_seal. by destruct (gcm_encrypt _ _ _ _). Qed.

Lemma node_open_bound k k' s s' p p' d d' r :
  serializable p ->
  node_open k' (with_seq (node_seal k s p d r) s') d' = Some p' ->
  k' = k /\ s' = s /\ d' = d /\ p' = p.
Proof.
  intros Hp. unfold node_open, node_seal.
  destruct (gcm_encrypt k r (frameAADString d s) (stringify p)) as [body tag] eqn:Henc. simpl.
  rewrite !unbase64_base64.
  destruct (gcm_decrypt _ _ _ _ _) as [q|] eqn:Hdec; [|done].
  apply gcm_authentic in Hdec. rewrite <- Henc in Hdec.
  apply gcm_binding in Hdec as (-> & Haad & ->).
  apply frameAADString_injective in Haad as [-> ->].
  rewrite parse_stringify by done. naive_solver.
Qed.

Global Instance node_SessionCryptoLaws : SessionCryptoLaws Key string serializable.
Proof.
  split.
  - intros. by apply node_open_seal.
  - intros. apply node_seal_seq.
  - intros *. by apply node_open_bound.
Qed.

(** C16. What [seal] produced is opened by [open] exactly under the key, direction
    and sequence number it was sealed for, and then to what was sealed: a frame
    reflected to the other direction, presented at another sequence number or
    under another key is refused. *)
Theorem sealed_opens_only_as_sealed `{EqDecision Key} k k' s s' p d d' r :
  serializable p ->
  node_open k' (with_seq (node_seal k s p d r) s') d' =
    if decide (k' = k /\ s' = s /\ d' = d) then Some p else None.
Proof.
  intros Hp. case_decide as Hd.
  - destruct Hd as (-> & -> & ->). replace (with_seq (node_seal k s p d r) s) with (node_seal k s p d r).
    + by apply node_open_seal.
    + unfold with_seq, node_seal. by destruct (gcm_encrypt _ _ _ _).
  - destruct (node_open _ _ _) eqn:E; [|done].
    apply node_open_bound in E as (-> & -> & -> & _); naive_solver.
Qed.

End node_laws.

Lemma escape_app_inj a a' x x' : escape a +:+ x = escape a' +:+ x' -> a = a' /\ x = x'.
Proof.
  revert a'. induction a as [|c a IH]; intros [|c' a']; simpl; intros; simplify_eq; [done|].
  naive_solver.
Qed.

Lemma toy_platform_laws : @PlatformLaws string toy_platform (fun _ => True).
Proof.
  split; cbn -[decide escape].
  - intros. by rewrite decide_True.
  - intros k n a c t p Heq. case_decide; by simplify_eq.
  - intros k k' n n' a a' p p' [= -> Ht]. apply escape_app_inj in Ht as [-> He].
    split; [done|]. split; [|done].
    apply (f_equal (fun x => x +:+ "")) in He. by apply escape_app_inj in He as [-> _].
  - done.
  - intros. apply of_text_text_of.
Qed.

Lemma sealed_opens_only_as_sealed_witness :
  @node_open string toy_platform "k"
    (with_seq (@node_seal string toy_platform "k" 7 (PEv (ack 3)) d2c "n") 7) c2d = None.
Proof.
  rewrite (@sealed_opens_only_as_sealed string toy_platform (fun _ => True) toy_platform_laws
             _ "k" "k" 7 7 (PEv (ack 3)) d2c c2d "n" I).
  by rewrite decide_False by (intros (_ & _ & [=])).
Defined.
