(* ===== verification/Sync.v ===== *)
(** * Sequence counters and inbound deduplication

    [packages/protocol/src/sync.ts].  Module [OutboundStream] is the per-device
    monotonic counter, module [InboundStream] the receiver's duplicate filter.
    Sequence numbers are JavaScript numbers used as integers far below 2^53, so
    they are modelled by [Z]. *)

From S2P Require Import Prelude JsMap.

Local Open Scope Z_scope.

Module OutboundStream.

Record t := mk { seq : Z }.

(** [constructor(startSeq = 0)] *)
Definition new (startSeq : Z) : t := mk startSeq.

(** [next() { return ++this.seq; }] *)
Definition next (s : t) : Z * t := (seq s + 1, mk (seq s + 1)).

(** [get current()] *)
Definition current (s : t) : Z := seq s.

End OutboundStream.

Module InboundStream.

Record t := mk { seen : jsset Z; highest : Z }.

Definition new : t := mk [] 0.

Definition accept (s : t) (seq : Z) : bool * t :=
  if (seq <=? highest s) && shas seq (seen s) then (false, s)
  else
    let seen1 := sadd seq (seen s) in
    let highest1 := if highest s <? seq then seq else highest s in
    let seen2 :=
      if 5000 <? ssize seen1
      then filter (fun x => ~ (x < highest1 - 2000)) seen1
      else seen1 in
    (true, mk seen2 highest1).

(** [get lastSeq()] *)
Definition lastSeq (s : t) : Z := highest s.

(** The stream after it was offered the sequence numbers of [l], in order. *)
Definition run (l : list Z) : t := foldl (fun s seq => snd (accept s seq)) new l.

(** The sequence numbers of [l] that [accept] let through, in order. *)
Fixpoint accepted (s : t) (l : list Z) : list Z :=
  match l with
  | [] => []
  | x :: l' =>
      let (ok, s') := accept s x in
      if ok then x :: accepted s' l' else accepted s' l'
  end.

(** ** Invariant *)

Record wf (s : t) : Prop := {
  wf_nodup : NoDup (seen s);
  wf_le : Forall (fun x => x <= highest s) (seen s);
  wf_size : ssize (seen s) <= 5000;
  wf_nonneg : 0 <= highest s;
}.

End InboundStream.

Import InboundStream.

Lemma inbound_wf_new : wf new.
Proof. split; simpl; [constructor|constructor|unfold ssize; simpl; lia|lia]. Qed.

(** A number above everything accepted so far is never refused. *)
Lemma accept_fresh s seq : highest s < seq -> fst (accept s seq) = true.
Proof.
  intros. unfold accept. destruct (Z.leb_spec seq (highest s)); [lia|]. done.
Qed.

Lemma accept_highest s seq :
  highest (snd (accept s seq)) = Z.max (highest s) seq \/ snd (accept s seq) = s.
Proof.
  unfold accept. destruct (_ && _) eqn:E; [by right|]. left. simpl. bool_cases; lia.
Qed.

Lemma accept_highest_max s seq : highest (snd (accept s seq)) = Z.max (highest s) seq.
Proof.
  unfold accept. destruct (_ && _) eqn:E; simpl.
  - apply andb_true_iff in E as [E _]. apply Z.leb_le in E. lia.
  - bool_cases; lia.
Qed.

(** Whatever is not pruned stays, and the offered number is remembered. *)
Lemma accept_elem s seq x :
  x ∈ seen (snd (accept s seq)) -> x = seq \/ x ∈ seen s.
Proof.
  unfold accept. destruct (_ && _); simpl; [by right|].
  destruct (5000 <? _); [rewrite list_elem_of_filter; intros [_ ?]|intros ?];
    by apply elem_sadd.
Qed.

Lemma accept_keeps s seq x :
  wf s -> (x = seq \/ x ∈ seen s) -> highest (snd (accept s seq)) - 2000 <= x ->
  x ∈ seen (snd (accept s seq)).
Proof.
  intros Hwf Hx. rewrite accept_highest_max. unfold accept.
  destruct (_ && _) eqn:E; simpl.
  - intros _. destruct Hx as [->|?]; [|done].
    apply andb_true_iff in E as [_ E]. by apply shas_true.
  - intros Hw. assert (x ∈ sadd seq (seen s)) by (by apply elem_sadd).
    destruct (5000 <? _); [|done]. apply list_elem_of_filter. split; [|done].
    bool_cases; lia.
Qed.

Lemma inbound_wf_accept s seq : wf s -> wf (snd (accept s seq)).
Proof.
  intros Hwf. pose proof (accept_highest_max s seq) as Hhi.
  assert (Hle : Forall (fun x => x <= highest (snd (accept s seq))) (seen (snd (accept s seq)))).
  { rewrite Forall_forall. intros x Hx. rewrite Hhi. apply accept_elem in Hx as [->|Hx]; [lia|].
    pose proof (wf_le _ Hwf) as Hall. rewrite Forall_forall in Hall. specialize (Hall x Hx). simpl in Hall. lia. }
  assert (Hnd : NoDup (seen (snd (accept s seq)))).
  { unfold accept. destruct (_ && _); simpl; [apply Hwf|].
    destruct (5000 <? _); [apply NoDup_filter|]; apply NoDup_sadd, Hwf. }
  split; [done|done| |].
  - revert Hle Hnd. unfold accept. destruct (_ && _); simpl; [intros; apply Hwf|].
    destruct (Z.ltb_spec 5000 (ssize (sadd seq (seen s)))); simpl; [|intros; lia].
    set (h := if highest s <? seq then seq else highest s). intros Hle Hnd.
    assert (Forall (fun x => h - 2000 <= x <= h) (filter (fun x => ~ x < h - 2000) (sadd seq (seen s)))) as Hr.
    { rewrite Forall_forall in Hle |- *. intros x Hx. specialize (Hle x Hx). simpl in Hle.
      apply list_elem_of_filter in Hx as [? _]. lia. }
    pose proof (NoDup_Z_interval _ _ _ Hnd Hr ltac:(lia)). unfold ssize. lia.
  - rewrite Hhi. pose proof (wf_nonneg _ Hwf). lia.
Qed.

Lemma run_snoc l x : run (l ++ [x]) = snd (accept (run l) x).
Proof. unfold run. by rewrite foldl_app. Qed.

Lemma inbound_wf_run l : wf (run l).
Proof.
  induction l as [|x l IH] using rev_ind; [apply inbound_wf_new|].
  rewrite run_snoc. by apply inbound_wf_accept.
Qed.

Lemma run_highest l : highest (run l) = foldr Z.max 0 l.
Proof.
  induction l as [|x l IH] using rev_ind; [done|].
  rewrite run_snoc, accept_highest_max, IH, foldr_app. simpl.
  clear IH. revert x. induction l as [|y l IHl]; intros x; simpl; [lia|]. rewrite <- IHl. lia.
Qed.

Lemma run_seen_offered l x : x ∈ seen (run l) -> x ∈ l.
Proof.
  induction l as [|y l IH] using rev_ind; [set_solver|].
  rewrite run_snoc. intros [->|?]%accept_elem; set_solver.
Qed.

Lemma run_remembers l x : x ∈ l -> highest (run l) - 2000 <= x -> x ∈ seen (run l).
Proof.
  induction l as [|y l IH] using rev_ind; [set_solver|].
  rewrite run_snoc. intros Hin Hw. apply accept_keeps; [apply inbound_wf_run| |done].
  rewrite accept_highest_max in Hw.
  apply elem_of_app in Hin as [Hin|Hin]; [right; apply IH; [done|lia]|left; set_solver].
Qed.

#[export] Hint Resolve inbound_wf_new inbound_wf_accept inbound_wf_run : jsmap.

Lemma accept_exact (l : list Z) (x : Z) :
  foldr Z.max 0 l - 2000 <= x ->
  fst (accept (run l) x) = negb (bool_decide (x ∈ l)).
Proof.
  rewrite <- run_highest. intros Hw. unfold accept.
  case_bool_decide as Hin; simpl.
  - pose proof (run_remembers _ _ Hin Hw) as Hs.
    assert (x <= highest (run l)).
    { pose proof (wf_le _ (inbound_wf_run l)) as Hle. rewrite Forall_forall in Hle. by apply Hle. }
    destruct (Z.leb_spec x (highest (run l))); [|lia].
    apply shas_true in Hs. by rewrite Hs.
  - destruct (shas x (seen (run l))) eqn:E.
    + apply shas_true, run_seen_offered in E. done.
    + by rewrite andb_false_r.
Qed.

(** The duplicate filter is exact inside its window: after any history [l]
    of offered sequence numbers, a number no more than 2000 below the highest
    one is accepted if and only if it was never offered before. *)
Theorem dedup_exact_in_window (l : list Z) (x : Z) :
  foldr Z.max 0 l - 2000 <= x ->
  fst (accept (run l) x) = negb (bool_decide (x ∈ l)).
Proof. apply accept_exact. Qed.

(** The filter's memory is bounded: whatever is offered, never more than
    5000 numbers are retained. *)
Theorem dedup_memory_bounded (l : list Z) : ssize (seen (run l)) <= 5000.
Proof. apply wf_size, inbound_wf_run. Qed.

(** ** An ascending history, as one client produces it *)

Lemma seqZ_snoc n : 0 <= n -> seqZ 1 (n + 1) = seqZ 1 n ++ [n + 1].
Proof.
  intros. rewrite seqZ_app by lia. change (seqZ (1 + n) 1) with [1 + n].
  by rewrite Z.add_comm.
Qed.

Lemma accept_ascending n :
  0 <= n < 5000 ->
  accept (mk (seqZ 1 n) n) (n + 1) = (true, mk (seqZ 1 (n + 1)) (n + 1)).
Proof.
  intros Hn. unfold accept; simpl.
  destruct (Z.leb_spec (n + 1) n); [lia|]. simpl.
  assert (Hs : sadd (n + 1) (seqZ 1 n) = seqZ 1 (n + 1)).
  { unfold sadd. destruct (shas _ _) eqn:E.
    - apply shas_true, elem_of_seqZ in E. lia.
    - by rewrite seqZ_snoc by lia. }
  rewrite Hs. unfold ssize. rewrite length_seqZ, Z2Nat.id by lia.
  destruct (Z.ltb_spec 5000 (n + 1)); [lia|].
  destruct (Z.ltb_spec n (n + 1)); [done|lia].
Qed.

Lemma run_ascending n : 0 <= n <= 5000 -> run (seqZ 1 n) = mk (seqZ 1 n) n.
Proof.
  intros [H0 H1]. revert H1. pattern n. apply natlike_ind; [done| |done].
  intros m Hm IH Hle. replace (Z.succ m) with (m + 1) by lia.
  rewrite seqZ_snoc, run_snoc, IH, accept_ascending by lia. simpl.
  by rewrite seqZ_snoc by lia.
Qed.

(** The window is a real limit: one command past 5000, everything more than
    2000 below it is forgotten. *)
Lemma accept_prunes n x :
  n = 5000 -> x < n - 1999 ->
  x ∉ seen (snd (accept (mk (seqZ 1 n) n) (n + 1))).
Proof.
  intros Hn Hx. unfold accept. cbn [seen highest].
  destruct (Z.leb_spec (n + 1) n); [lia|]. cbn [andb snd seen].
  assert (Hs : ssize (sadd (n + 1) (seqZ 1 n)) = n + 1).
  { unfold sadd. replace (shas (n + 1) (seqZ 1 n)) with false.
    - unfold ssize. rewrite length_app, Nat2Z.inj_add, length_seqZ, Z2Nat.id by lia.
      cbn [length]. lia.
    - symmetry. apply shas_false. rewrite elem_of_seqZ. lia. }
  rewrite Hs. destruct (Z.ltb_spec 5000 (n + 1)); [|lia].
  destruct (Z.ltb_spec n (n + 1)); [|lia]. rewrite list_elem_of_filter. lia.
Qed.

Lemma window_limit n : n = 5000 -> fst (accept (run (seqZ 1 (n + 1))) 1) = true.
Proof.
  intros Hn. rewrite seqZ_snoc, run_snoc, run_ascending by lia.
  pose proof (accept_prunes n 1 Hn ltac:(lia)) as Hni. apply shas_false in Hni.
  revert Hni. generalize (snd (accept (mk (seqZ 1 n) n) (n + 1))). intros s Hni.
  unfold accept. by rewrite Hni, andb_false_r.
Qed.

Lemma dedup_exact_in_window_witness :
  fst (accept (run [1; 3; 2]) 2) = false /\ fst (accept (run [1; 3; 2]) 4) = true.
Proof.
  split.
  - refine (eq_trans (dedup_exact_in_window [1; 3; 2] 2 _) _); [simpl; lia|].
    by rewrite bool_decide_true by set_solver.
  - refine (eq_trans (dedup_exact_in_window [1; 3; 2] 4 _) _); [simpl; lia|].
    by rewrite bool_decide_false by set_solver.
Defined.
