(* ===== verification/Resend.v ===== *)
(** * The client's buffer of unacknowledged commands

    [packages/protocol/src/resend.ts].  The buffer is a [Map] from sequence
    number to command; [pending] sorts its entries for the resend loop. *)

From S2P Require Import Prelude JsMap.

Local Open Scope Z_scope.

Module ResendBuffer.

Section buffer.
Context {Cmd : Type}.

Record t := mk { pendingCmds : jsmap Z Cmd; capacity : Z }.

(** [constructor(capacity = 256)] *)
Definition new (cap : Z) : t := mk [] cap.

Definition default_capacity : Z := 256.

Definition add (b : t) (seq : Z) (cmd : Cmd) : bool * t :=
  if capacity b <=? msize (pendingCmds b) then (false, b)
  else (true, mk (mset seq cmd (pendingCmds b)) (capacity b)).

(** The loop deletes from the map it iterates over, the current key only. *)
Definition ackUpTo (b : t) (n : Z) : t :=
  mk (foldl (fun m seq => if seq <=? n then mdelete seq m else m)
            (pendingCmds b) (mkeys (pendingCmds b)))
     (capacity b).

(** [[...entries].sort((a, b) => a[0] - b[0])]: a stable sort on the number. *)
Fixpoint insert_by_seq (e : Z * Cmd) (l : list (Z * Cmd)) : list (Z * Cmd) :=
  match l with
  | [] => [e]
  | e' :: l' => if fst e <? fst e' then e :: l else e' :: insert_by_seq e l'
  end.

Definition sort_by_seq (l : list (Z * Cmd)) : list (Z * Cmd) :=
  foldl (fun acc e => insert_by_seq e acc) [] l.

Definition pending (b : t) : list (Z * Cmd) := sort_by_seq (pendingCmds b).

Definition size (b : t) : Z := msize (pendingCmds b).
Definition isFull (b : t) : bool := capacity b <=? msize (pendingCmds b).

Record wf (b : t) : Prop := {
  wf_keys : mwf (pendingCmds b);
  wf_cap : msize (pendingCmds b) <= Z.max 0 (capacity b);
}.

End buffer.
Arguments t : clear implicits.

End ResendBuffer.

Import ResendBuffer.

Section laws.
Context {Cmd : Type}.
Implicit Types (b : t Cmd) (l : list (Z * Cmd)).

Definition seq_lt (e1 e2 : Z * Cmd) : Prop := e1.1 < e2.1.

Lemma insert_by_seq_perm e l : insert_by_seq e l ≡ₚ e :: l.
Proof.
  induction l as [|e' l IH]; simpl; [done|]. destruct (_ <? _); [done|].
  rewrite IH. apply Permutation_swap.
Qed.

Lemma sort_by_seq_perm l : sort_by_seq l ≡ₚ l.
Proof.
  unfold sort_by_seq. enough (forall acc, foldl (fun acc e => insert_by_seq e acc) acc l ≡ₚ acc ++ l) as H by apply H.
  induction l as [|e l IH]; intros acc; simpl; [by rewrite app_nil_r|].
  rewrite IH, insert_by_seq_perm. by rewrite <- Permutation_middle.
Qed.

Lemma insert_by_seq_sorted e l :
  e.1 ∉ l.*1 -> StronglySorted seq_lt l -> StronglySorted seq_lt (insert_by_seq e l).
Proof.
  intros Hni Hs. induction Hs as [|e' l Hs IH Hall]; simpl; [repeat constructor|].
  simpl in Hni. apply not_elem_of_cons in Hni as [Hne Hni].
  destruct (Z.ltb_spec e.1 e'.1).
  - constructor; [by constructor|]. constructor; [done|].
    eapply Forall_impl; [exact Hall|]. unfold seq_lt. intros; lia.
  - constructor; [auto|]. rewrite insert_by_seq_perm. constructor; [unfold seq_lt; lia|done].
Qed.

Lemma sort_by_seq_sorted l : NoDup l.*1 -> StronglySorted seq_lt (sort_by_seq l).
Proof.
  unfold sort_by_seq.
  enough (forall acc, NoDup (acc ++ l).*1 -> StronglySorted seq_lt acc ->
    StronglySorted seq_lt (foldl (fun acc e => insert_by_seq e acc) acc l)) as H.
  { intros. apply H; [done|constructor]. }
  induction l as [|e l IH]; intros acc Hnd Hs; simpl; [done|].
  apply IH.
  - rewrite insert_by_seq_perm. by rewrite <- Permutation_middle in Hnd.
  - apply insert_by_seq_sorted; [|done].
    rewrite <- Permutation_middle in Hnd. simpl in Hnd. apply NoDup_cons in Hnd as [Hni _].
    rewrite fmap_app in Hni. set_solver.
Qed.

Lemma ackUpTo_filter b n :
  mwf (pendingCmds b) ->
  pendingCmds (ackUpTo b n) = filter (fun e : Z * Cmd => ~ e.1 <= n) (pendingCmds b).
Proof.
  intros Hwf. unfold ackUpTo; simpl.
  assert (Hdel : forall m, mwf m ->
    foldl (fun m seq => if seq <=? n then mdelete seq m else m) m (mkeys (pendingCmds b)) =
    filter (fun e : Z * Cmd => ~ (e.1 ∈ mkeys (pendingCmds b) /\ e.1 <= n)) m).
  { generalize (mkeys (pendingCmds b)) as ks. induction ks as [|k ks IH]; intros m Hm; simpl.
    - symmetry. apply filter_id. apply Forall_true. set_solver.
    - destruct (Z.leb_spec k n).
      + rewrite IH by auto with jsmap. unfold mdelete.
        rewrite list_filter_filter. apply list_filter_iff. intros e.
        rewrite elem_of_cons. split; intros; destruct (decide (e.1 = k)); naive_solver.
      + rewrite IH by done. apply list_filter_iff. intros e. rewrite elem_of_cons.
        split; intros Hx [Hin Hle]; apply Hx; split; try done.
        * destruct Hin as [Heq|]; [lia|done].
        * by right. }
  rewrite Hdel by done. apply filter_ext_elem. intros e He.
  apply (list_elem_of_fmap_2 fst) in He. naive_solver.
Qed.

Lemma resend_wf_new cap : wf (new (Cmd:=Cmd) cap).
Proof. split; simpl; [constructor|]. unfold msize; simpl. lia. Qed.

Lemma resend_wf_add b seq cmd : wf b -> wf (snd (add b seq cmd)).
Proof.
  intros [Hk Hc]. unfold add. destruct (Z.leb_spec (capacity b) (msize (pendingCmds b))); [by split|].
  split; simpl; [auto with jsmap|].
  destruct (decide (seq ∈ mkeys (pendingCmds b))).
  - rewrite msize_mset_in by done. lia.
  - rewrite msize_mset_notin by done. lia.
Qed.

Lemma resend_wf_ack b n : wf b -> wf (ackUpTo b n).
Proof.
  intros [Hk Hc]. split; rewrite ackUpTo_filter by done.
  - unfold mwf, mkeys in *. clear Hc. induction (pendingCmds b) as [|e m IH]; [done|].
    rewrite filter_cons. simpl in Hk. apply NoDup_cons in Hk as [Hni Hk].
    case_decide; [|auto]. simpl. constructor; [|auto].
    rewrite list_elem_of_fmap. intros (e' & Heq & He'). apply list_elem_of_filter in He' as [_ He'].
    apply (list_elem_of_fmap_2 fst) in He'. rewrite <- Heq in He'. done.
  - unfold msize in *. simpl. etransitivity; [|exact Hc].
    pose proof (length_filter (fun e : Z * Cmd => ~ e.1 <= n) (pendingCmds b)). lia.
Qed.

Lemma pending_elem b e : e ∈ pending b <-> e ∈ pendingCmds b.
Proof. unfold pending. by rewrite sort_by_seq_perm. Qed.

Lemma pending_sorted b : wf b -> StronglySorted seq_lt (pending b).
Proof. intros Hwf. apply sort_by_seq_sorted, Hwf. Qed.

(** Two strictly sorted lists with the same entries are equal. *)
Lemma strictly_sorted_unique l1 l2 :
  StronglySorted seq_lt l1 -> StronglySorted seq_lt l2 ->
  (forall e, e ∈ l1 <-> e ∈ l2) -> l1 = l2.
Proof.
  intros H1. revert l2. induction H1 as [|e1 l1 Hs1 IH Ha1]; intros l2 H2 Hin.
  - destruct l2 as [|e l2]; [done|]. exfalso. assert (e ∈ @nil (Z*Cmd)) by (apply Hin; by left). set_solver.
  - destruct H2 as [|e2 l2 Hs2 Ha2].
    { exfalso. assert (e1 ∈ @nil (Z*Cmd)) by (apply Hin; by left). set_solver. }
    rewrite Forall_forall in Ha1, Ha2. unfold seq_lt in Ha1, Ha2.
    assert (e1 = e2) as ->.
    { assert (e1 ∈ e2 :: l2) as [?|Hx]%elem_of_cons by (apply Hin; by left); [done|].
      assert (e2 ∈ e1 :: l1) as [?|Hy]%elem_of_cons by (apply Hin; by left); [done|].
      apply Ha2 in Hx. apply Ha1 in Hy. lia. }
    f_equal. apply IH; [done|]. intros e. split; intros He.
    + assert (e ∈ e2 :: l2) as [->|?]%elem_of_cons by (apply Hin; by right); [|done].
      apply Ha1 in He. lia.
    + assert (e ∈ e2 :: l1) as [->|?]%elem_of_cons by (apply Hin; by right); [|done].
      apply Ha2 in He. lia.
Qed.

End laws.

#[export] Hint Resolve resend_wf_new resend_wf_add resend_wf_ack : jsmap.
