(* ===== verification/Client.v ===== *)
(** * The client's reliable-delivery engine

    [packages/protocol/src/client.ts], class [ReliableClient]: a sans-IO state
    machine.  Every host input ([onOpen], [onMessage], [send], [onClose],
    [drain]) is a function on the state.  A callback of the host is the last
    action of every branch that makes one, so an input returns the list of
    callbacks to run, in order, and a re-entrant [send] from a callback is a
    later input. *)

From S2P Require Import Prelude JsMap Js Types Encode Frame Sync Resend.

Local Open Scope Z_scope.

(** A decoded message from the socket: the fields [onMessage] reads before
    authenticating ([type], [seq], the handshake fields) and the sealed body. *)
Record WireMsg : Type := mkWireMsg {
  w_type : option string;
  w_seq : option Z;
  w_salt : string;
  w_resumed : bool;
  w_replayedCount : option Z;
  w_n : string;
  w_c : string;
  w_t : string;
}.

Definition wire_frame (m : WireMsg) (seq : Z) : SealedFrame :=
  mkFrame (w_n m) (w_c m) (w_t m) seq.

(** A sealed frame and a [session_salt] as they arrive on the wire. *)
Definition msg_of_frame (f : SealedFrame) : WireMsg :=
  mkWireMsg None (Some (f_seq f)) "" false None (f_n f) (f_c f) (f_t f).

Definition msg_of_salt (salt : string) (resumed : bool) (count : option Z) : WireMsg :=
  mkWireMsg (Some "session_salt") None salt resumed count "" "" "".

Module ReliableClient.

(** A message the host must write to the socket. *)
Inductive Outbound : Type :=
| OHello (deviceId : string) (lastSeq : option Z)
| OFrame (f : SealedFrame).

(** The host callbacks of [ReliableClientHandlers]. *)
Inductive Callback : Type :=
| onReady (resumed : bool) (replayedCount : Z)
| onEvent (event : Plain) (seq : Z)
| onAck (upTo : Z)
| onHelloRejected
| onAuthError.

Definition ResendOverflowError : string :=
  "resend buffer full, too many un-acknowledged commands (daemon unreachable)".

Section engine.
Context {Key Nonce : Type} `{SessionCrypto Key Nonce}.
Variable deviceId : string.
Variable deriveKey : string -> Key.

Record t := mk {
  inb : InboundStream.t;
  resend : ResendBuffer.t Plain;
  maxAcked : Z;
  key : option Key;
  outbox : list Outbound;
}.

Definition new : t :=
  mk InboundStream.new (ResendBuffer.new ResendBuffer.default_capacity) 0 None [].

(** [onOpen()] *)
Definition onOpen (c : t) : t :=
  let lastSeq :=
    if 0 <? InboundStream.lastSeq (inb c) then Some (InboundStream.lastSeq (inb c)) else None in
  mk (inb c) (resend c) (maxAcked c) (key c) (outbox c ++ [OHello deviceId lastSeq]).

(** The frames of the resend loop; [rnd] supplies one nonce per [seal]. *)
Fixpoint seal_all (k : Key) (rnd : nat -> Nonce) (cmds : list (Z * Plain)) : list Outbound :=
  match cmds with
  | [] => []
  | (seq, cmd) :: cmds' =>
      OFrame (seal k seq cmd c2d (rnd 0%nat)) :: seal_all k (fun i => rnd (S i)) cmds'
  end.

(** [onSessionSalt(m)] *)
Definition onSessionSalt (rnd : nat -> Nonce) (c : t) (m : WireMsg) : t * list Callback :=
  let k := deriveKey (w_salt m) in
  let inb' := if w_resumed m then inb c else InboundStream.new in
  let out := outbox c ++ seal_all k rnd (ResendBuffer.pending (resend c)) in
  (mk inb' (resend c) (maxAcked c) (Some k) out,
   [onReady (w_resumed m) (default 0 (w_replayedCount m))]).

(** [onMessage(msg)] *)
Definition onMessage (rnd : nat -> Nonce) (c : t) (m : WireMsg) : t * list Callback :=
  match key c with
  | None =>
      if decide (w_type m = Some "hello_failed") then (c, [onHelloRejected])
      else if decide (w_type m = Some "session_salt") then onSessionSalt rnd c m
      else (c, [])
  | Some k =>
      match w_seq m with
      | None => (c, [])
      | Some seq =>
          match open_frame k (wire_frame m seq) d2c with
          | None => (c, [onAuthError])
          | Some ev =>
              let (fresh, inb') := InboundStream.accept (inb c) seq in
              if fresh then
                match ev with
                | PEv (ack upTo) =>
                    (mk inb' (ResendBuffer.ackUpTo (resend c) upTo)
                        (Z.max (maxAcked c) upTo) (key c) (outbox c),
                     [onAck upTo])
                | _ =>
                    (mk inb' (resend c) (maxAcked c) (key c) (outbox c), [onEvent ev seq])
                end
              else (mk inb' (resend c) (maxAcked c) (key c) (outbox c), [])
          end
      end
  end.

(** [send(command, { reliable })]; [seq] is what [nextSeq()] returned.  The
    number is consumed even when the buffer is full and the call throws. *)
Definition send (nonce : Nonce) (seq : Z) (command : Plain) (reliable : bool) (c : t)
    : outcome Z * t :=
  let emit (buf : ResendBuffer.t Plain) : t :=
    match key c with
    | Some k => mk (inb c) buf (maxAcked c) (key c)
                   (outbox c ++ [OFrame (seal k seq command c2d nonce)])
    | None => mk (inb c) buf (maxAcked c) (key c) (outbox c)
    end in
  if reliable then
    let (ok, buf) := ResendBuffer.add (resend c) seq command in
    if ok then (Ok seq, emit buf) else (Throw ResendOverflowError, c)
  else (Ok seq, emit (resend c)).

(** [onClose()] *)
Definition onClose (c : t) : t :=
  mk (inb c) (resend c) (maxAcked c) None (outbox c).

(** [drain()] *)
Definition drain (c : t) : list Outbound * t :=
  (outbox c, mk (inb c) (resend c) (maxAcked c) (key c) []).

Definition lastAcked (c : t) : Z := maxAcked c.
Definition resumeSeq (c : t) : Z := InboundStream.lastSeq (inb c).
Definition is_ready (c : t) : bool := match key c with Some _ => true | None => false end.

(** ** The inputs of the host, and a run of the engine *)

Inductive Input : Type :=
| IOpen
| IMessage (rnd : nat -> Nonce) (m : WireMsg)
| ISend (nonce : Nonce) (seq : Z) (command : Plain) (reliable : bool)
| IClose
| IDrain.

Definition step (c : t) (i : Input) : t :=
  match i with
  | IOpen => onOpen c
  | IMessage rnd m => fst (onMessage rnd c m)
  | ISend nonce seq cmd reliable => snd (send nonce seq cmd reliable c)
  | IClose => onClose c
  | IDrain => snd (drain c)
  end.

Definition run (c : t) (l : list Input) : t := foldl step c l.

(** The acknowledgement an input delivers in state [c], if it delivers one: an
    authenticated [ack] frame that is not a duplicate. *)
Definition acks (c : t) (i : Input) : option Z :=
  match i with
  | IMessage rnd m =>
      match snd (onMessage rnd c m) with [onAck n] => Some n | _ => None end
  | _ => None
  end.

(** The reliable command an input adds to the buffer, if it adds one. *)
Definition issues (c : t) (i : Input) : option (Z * Plain) :=
  match i with
  | ISend _ seq cmd true =>
      if ResendBuffer.isFull (resend c) then None else Some (seq, cmd)
  | _ => None
  end.

(** The abstract account of what is outstanding: issue adds, an acknowledgement
    removes everything up to it. *)
Fixpoint outstanding (c : t) (l : list Input) (acc : list (Z * Plain)) : list (Z * Plain) :=
  match l with
  | [] => acc
  | i :: l' =>
      let acc1 := match acks c i with
                  | Some n => filter (fun e : Z * Plain => ~ e.1 <= n) acc
                  | None => acc
                  end in
      let acc2 := match issues c i with Some e => acc1 ++ [e] | None => acc1 end in
      outstanding (step c i) l' acc2
  end.

(** [nextSeq] is monotonic: every number drawn is above the earlier ones. *)
Fixpoint seqs_above (n : Z) (l : list Input) : Prop :=
  match l with
  | [] => True
  | ISend _ seq _ _ :: l' => n < seq /\ seqs_above seq l'
  | _ :: l' => seqs_above n l'
  end.

Record wf (c : t) : Prop := {
  wf_inb : InboundStream.wf (inb c);
  wf_resend : ResendBuffer.wf (resend c);
  wf_capacity : ResendBuffer.capacity (resend c) = 256;
}.

End engine.
Arguments t : clear implicits.
Arguments Input : clear implicits.

End ReliableClient.

Import ReliableClient.

Section laws.
Context {Key Nonce : Type} `{SessionCrypto Key Nonce}.
Variable deviceId : string.
Variable deriveKey : string -> Key.

Implicit Types c : ReliableClient.t Key.

Abbreviation step := (ReliableClient.step deviceId deriveKey).
Abbreviation run := (ReliableClient.run deviceId deriveKey).
Abbreviation onMessage := (ReliableClient.onMessage deriveKey).
Abbreviation outstanding := (ReliableClient.outstanding deviceId deriveKey).

Lemma client_wf_new : wf (new (Key:=Key)).
Proof. split; simpl; auto with jsmap. Qed.

Lemma onMessage_resend rnd c m :
  resend (onMessage rnd c m).1 = resend c \/
  exists n, (onMessage rnd c m).2 = [onAck n] /\
            resend (onMessage rnd c m).1 = ResendBuffer.ackUpTo (resend c) n.
Proof.
  unfold ReliableClient.onMessage. destruct (key c) as [k|].
  - destruct (w_seq m) as [s|]; [|by left].
    destruct (open_frame _ _ _) as [ev|]; [|by left].
    destruct (InboundStream.accept _ _) as [[] inb']; [|by left].
    destruct ev as [cmd|[]]; try by left. right. eauto.
  - repeat case_decide; by left.
Qed.

Lemma onMessage_inb rnd c m :
  inb (onMessage rnd c m).1 = inb c \/ inb (onMessage rnd c m).1 = InboundStream.new \/
  exists s, inb (onMessage rnd c m).1 = (InboundStream.accept (inb c) s).2.
Proof.
  unfold ReliableClient.onMessage. destruct (key c) as [k|].
  - destruct (w_seq m) as [s|]; [|by left].
    destruct (open_frame _ _ _) as [ev|]; [|by left]. right. right. exists s.
    destruct (InboundStream.accept _ _) as [[] inb']; [|done].
    by destruct ev as [cmd|[]].
  - repeat case_decide; [by left| |by left]. unfold onSessionSalt; simpl.
    destruct (w_resumed m); auto.
Qed.

Lemma send_resend nonce seq cmd reliable c :
  resend (send nonce seq cmd reliable c).2 = resend c \/
  (reliable = true /\ ResendBuffer.isFull (resend c) = false /\
   resend (send nonce seq cmd reliable c).2 = (ResendBuffer.add (resend c) seq cmd).2).
Proof.
  unfold send, ResendBuffer.isFull, ResendBuffer.add.
  destruct reliable; [|left; by destruct (key c)].
  destruct (_ <=? _); [by left|]. right. by destruct (key c).
Qed.

Lemma send_inb nonce seq cmd reliable c : inb (send nonce seq cmd reliable c).2 = inb c.
Proof.
  unfold send. destruct reliable; [destruct (ResendBuffer.add _ _ _) as [[] ?]|];
    by destruct (key c).
Qed.

Lemma ack_capacity (b : ResendBuffer.t Plain) n :
  ResendBuffer.capacity (ResendBuffer.ackUpTo b n) = ResendBuffer.capacity b.
Proof. done. Qed.

Lemma add_capacity (b : ResendBuffer.t Plain) s p :
  ResendBuffer.capacity (ResendBuffer.add b s p).2 = ResendBuffer.capacity b.
Proof. unfold ResendBuffer.add. by destruct (_ <=? _). Qed.

Lemma client_wf_step c i : wf c -> wf (step c i).
Proof.
  intros [Hi Hr Hc]. destruct i as [|rnd m|nonce s p r| |]; simpl; try by split.
  - split.
    + destruct (onMessage_inb rnd c m) as [->|[->|[s ->]]]; auto with jsmap.
    + destruct (onMessage_resend rnd c m) as [->|(n & _ & ->)]; auto with jsmap.
    + destruct (onMessage_resend rnd c m) as [->|(n & _ & ->)]; done.
  - split.
    + by rewrite send_inb.
    + destruct (send_resend nonce s p r c) as [->|(_ & _ & ->)]; auto with jsmap.
    + destruct (send_resend nonce s p r c) as [->|(_ & _ & ->)]; by rewrite ?add_capacity.
Qed.

Lemma client_wf_run c l : wf c -> wf (run c l).
Proof.
  revert c. induction l as [|i l IH]; intros c Hc; [done|]. apply IH. by apply client_wf_step.
Qed.

(** *** The buffer holds exactly the outstanding commands *)

Lemma acks_spec rnd c m n :
  (onMessage rnd c m).2 = [onAck n] -> acks deriveKey c (IMessage rnd m) = Some n.
Proof. simpl. by intros ->. Qed.

Lemma acks_None rnd c m :
  acks deriveKey c (IMessage rnd m) = None -> resend (onMessage rnd c m).1 = resend c.
Proof.
  intros Hn. destruct (onMessage_resend rnd c m) as [?|(n & Hcb & _)]; [done|].
  apply acks_spec in Hcb. congruence.
Qed.

Lemma acks_Some rnd c m n :
  acks deriveKey c (IMessage rnd m) = Some n ->
  resend (onMessage rnd c m).1 = ResendBuffer.ackUpTo (resend c) n.
Proof.
  simpl. unfold ReliableClient.onMessage. destruct (key c) as [k|].
  - destruct (w_seq m) as [s|]; [|done].
    destruct (open_frame _ _ _) as [ev|]; [|done].
    destruct (InboundStream.accept _ _) as [[] inb']; [|done].
    destruct ev as [cmd|[]]; naive_solver.
  - repeat case_decide; done.
Qed.

Lemma step_pendingCmds c i :
  wf c -> (forall nonce s p, i = ISend nonce s p true -> s ∉ mkeys (ResendBuffer.pendingCmds (resend c))) ->
  ResendBuffer.pendingCmds (resend (step c i)) =
    (match acks deriveKey c i with
     | Some n => filter (fun e : Z * Plain => ~ e.1 <= n) (ResendBuffer.pendingCmds (resend c))
     | None => ResendBuffer.pendingCmds (resend c)
     end) ++ match issues c i with Some e => [e] | None => [] end.
Proof.
  intros Hwf Hnew. destruct i as [|rnd m|nonce s p [|]| |];
    try (cbn [acks issues]; rewrite ?app_nil_r; done).
  - destruct (acks deriveKey c (IMessage rnd m)) as [n|] eqn:E;
      cbn [issues ReliableClient.step]; rewrite app_nil_r.
    + rewrite (acks_Some _ _ _ _ E). apply ackUpTo_filter, Hwf.
    + by rewrite (acks_None _ _ _ E).
  - simpl. unfold send, ResendBuffer.add, ResendBuffer.isFull.
    destruct (_ <=? _); [by rewrite app_nil_r|].
    destruct (key c); simpl; rewrite mset_notin by eauto; done.
  - simpl. unfold send. rewrite app_nil_r. by destruct (key c).
Qed.

Lemma filter_sorted (P : Z * Plain -> Prop) `{forall x, base.Decision (P x)} l :
  StronglySorted (seq_lt (Cmd:=Plain)) l -> StronglySorted (seq_lt (Cmd:=Plain)) (filter P l).
Proof.
  induction 1 as [|e l Hs IH Ha]; [constructor|]. rewrite filter_cons. case_decide; [|done].
  constructor; [done|]. rewrite Forall_forall in Ha |- *. intros x Hx.
  apply list_elem_of_filter in Hx as [_ Hx]. by apply Ha.
Qed.

Lemma snoc_sorted l e :
  StronglySorted (seq_lt (Cmd:=Plain)) l -> Forall (fun x => x.1 < e.1) l ->
  StronglySorted (seq_lt (Cmd:=Plain)) (l ++ [e]).
Proof.
  induction 1 as [|x l Hs IH Ha]; intros Hall; simpl; [repeat constructor|].
  inv Hall. constructor; [auto|]. apply Forall_app. split; [done|]. repeat constructor. done.
Qed.

Lemma sort_sorted_id l : NoDup l.*1 -> StronglySorted (seq_lt (Cmd:=Plain)) l -> ResendBuffer.sort_by_seq l = l.
Proof.
  intros Hnd Hs. apply strictly_sorted_unique; [by apply sort_by_seq_sorted|done|].
  intros e. by rewrite sort_by_seq_perm.
Qed.

Lemma pending_outstanding_gen l c n :
  wf c -> seqs_above n l ->
  StronglySorted (seq_lt (Cmd:=Plain)) (ResendBuffer.pendingCmds (resend c)) ->
  Forall (fun e : Z * Plain => e.1 <= n) (ResendBuffer.pendingCmds (resend c)) ->
  ResendBuffer.pendingCmds (resend (run c l)) = outstanding c l (ResendBuffer.pendingCmds (resend c)) /\
  StronglySorted (seq_lt (Cmd:=Plain)) (ResendBuffer.pendingCmds (resend (run c l))).
Proof.
  revert c n. induction l as [|i l IH]; intros c n Hwf Hab Hs Hle; [done|].
  assert (Hnew : forall nonce s p, i = ISend nonce s p true ->
    s ∉ mkeys (ResendBuffer.pendingCmds (resend c))).
  { intros nonce s p -> Hin. destruct Hab as [Hlt _]. unfold mkeys in Hin.
    apply list_elem_of_fmap in Hin as (e & -> & He).
    rewrite Forall_forall in Hle. apply Hle in He. lia. }
  pose proof (step_pendingCmds c i Hwf Hnew) as Hstep.
  set (acc1 := match acks deriveKey c i with
    | Some n0 => filter (fun e : Z * Plain => ~ e.1 <= n0) (ResendBuffer.pendingCmds (resend c))
    | None => ResendBuffer.pendingCmds (resend c) end) in *.
  assert (Hs1 : StronglySorted (seq_lt (Cmd:=Plain)) acc1)
    by (unfold acc1; destruct (acks _ _ _); [by apply filter_sorted|done]).
  assert (Hle1 : Forall (fun e : Z * Plain => e.1 <= n) acc1).
  { unfold acc1. destruct (acks _ _ _); [|done]. rewrite Forall_forall in Hle |- *.
    intros x Hx%list_elem_of_filter. apply Hle, Hx. }
  assert (Hacc2 : match issues c i with Some e => acc1 ++ [e] | None => acc1 end =
    ResendBuffer.pendingCmds (resend (step c i))).
  { rewrite Hstep. destruct (issues c i); [done|by rewrite app_nil_r]. }
  assert (exists n', seqs_above n' l /\ n <= n' /\
    forall e, issues c i = Some e -> n < e.1 <= n') as (n' & Hab' & Hn' & Hiss).
  { destruct i as [|rnd m|nonce s p [|]| |]; simpl in Hab; try (exists n; naive_solver lia).
    - exists s. split; [tauto|]. split; [lia|]. intros e. simpl.
      destruct (ResendBuffer.isFull _); intros; simplify_eq/=. lia.
    - exists s. split; [tauto|]. split; [lia|]. done. }
  cbn [ReliableClient.outstanding]. fold acc1. rewrite Hacc2.
  apply (IH (step c i) n'); [by apply client_wf_step|done| |]; rewrite <- Hacc2.
  - destruct (issues c i) as [e|]; [|done]. apply snoc_sorted; [done|].
    eapply Forall_impl; [exact Hle1|]. intros x Hx. specialize (Hiss e eq_refl). simpl in Hx. lia.
  - destruct (issues c i) as [e|].
    + apply Forall_app. split; [|constructor; [|constructor]].
      * eapply Forall_impl; [exact Hle1|]. simpl. lia.
      * specialize (Hiss e eq_refl). lia.
    + eapply Forall_impl; [exact Hle1|]. simpl. lia.
Qed.

Lemma pending_outstanding l :
  seqs_above 0 l -> ResendBuffer.pending (resend (run new l)) = outstanding new l [].
Proof.
  intros Hab. destruct (pending_outstanding_gen l new 0) as [Heq Hs];
    [apply client_wf_new|done|constructor|constructor|].
  unfold ResendBuffer.pending. rewrite sort_sorted_id; [done| |done].
  apply (client_wf_run new l client_wf_new).
Qed.

(** *** What the daemon reads of the resend loop *)

(** The sequence number of an outbound frame and what it opens to under [k]. *)
Definition read_frame (k : Key) (o : Outbound) : option (Z * option Plain) :=
  match o with
  | OFrame f => Some (f_seq f, open_frame k f c2d)
  | OHello _ _ => None
  end.

Lemma read_seal_all `{!SessionCryptoLaws Key Nonce serializable} k cmds rnd :
  Forall (fun e : Z * Plain => serializable e.2) cmds ->
  read_frame k <$> seal_all k rnd cmds = (fun e : Z * Plain => Some (e.1, Some e.2)) <$> cmds.
Proof.
  intros Hser. revert rnd. induction Hser as [|[s p] cmds Hp _ IH]; intros rnd; [done|].
  cbn [seal_all fmap list_fmap]. f_equal; [|apply IH].
  cbn [read_frame]. by rewrite seal_seq, open_seal.
Qed.

(** C15. On every handshake the engine resends exactly the reliable commands that
    were issued and not acknowledged since, in ascending order and at their
    original sequence numbers, sealed so that the daemon reads them under the
    new key, and all of it is queued before the host is told the session is
    ready. *)
Theorem handshake_resends_outstanding `{!SessionCryptoLaws Key Nonce serializable}
    (l : list (Input Nonce)) (rnd : nat -> Nonce) (m : WireMsg) :
  seqs_above 0 l ->
  Forall (fun e : Z * Plain => serializable e.2) (outstanding new l []) ->
  key (run new l) = None -> w_type m = Some "session_salt" ->
  exists resent,
    outbox (onMessage rnd (run new l) m).1 = outbox (run new l) ++ resent /\
    read_frame (deriveKey (w_salt m)) <$> resent =
      (fun e : Z * Plain => Some (e.1, Some e.2)) <$> outstanding new l [] /\
    (onMessage rnd (run new l) m).2 = [onReady (w_resumed m) (default 0 (w_replayedCount m))] /\
    key (onMessage rnd (run new l) m).1 = Some (deriveKey (w_salt m)).
Proof.
  intros Hab Hser Hkey Htype.
  exists (seal_all (deriveKey (w_salt m)) rnd (ResendBuffer.pending (resend (run new l)))).
  rewrite pending_outstanding by done.
  assert (Hsalt : onMessage rnd (run new l) m = onSessionSalt deriveKey rnd (run new l) m).
  { unfold ReliableClient.onMessage. rewrite Hkey, Htype.
    rewrite decide_False by done. by rewrite decide_True. }
  rewrite Hsalt. unfold onSessionSalt. cbn [fst snd outbox key].
  rewrite pending_outstanding by done. split_and!; try done. by apply read_seal_all.
Qed.

Lemma outstanding_snoc_send (l : list (Input Nonce)) nonce seq cmd c acc :
  outstanding c (l ++ [ISend nonce seq cmd true]) acc =
  outstanding c l acc ++
    match issues (run c l) (ISend nonce seq cmd true) with Some e => [e] | None => [] end.
Proof.
  revert c acc. induction l as [|i l IH]; intros c acc.
  - cbn [app ReliableClient.outstanding acks]. change (run c []) with c.
    by destruct (issues _ _); rewrite ?app_nil_r.
  - cbn [app ReliableClient.outstanding]. apply IH.
Qed.

(** A full buffer refuses a reliable command and changes nothing, so no
    command already issued is dropped; otherwise the command becomes
    outstanding.  The refusal happens exactly at 256 outstanding commands. *)
Theorem send_refuses_only_when_full (l : list (Input Nonce)) (nonce : Nonce) (seq : Z) (cmd : Plain) :
  seqs_above 0 (l ++ [ISend nonce seq cmd true]) ->
  let c := run new l in
  if 256 <=? Z.of_nat (length (outstanding new l [])) then
    send nonce seq cmd true c = (Throw ResendOverflowError, c)
  else
    fst (send nonce seq cmd true c) = Ok seq /\
    ResendBuffer.pending (resend (snd (send nonce seq cmd true c))) =
      outstanding new l [] ++ [(seq, cmd)].
Proof.
  intros Hab c.
  assert (Hl : seqs_above 0 l).
  { clear c. revert Hab. generalize 0. induction l as [|[] l IH]; simpl; naive_solver. }
  assert (Hsz : msize (ResendBuffer.pendingCmds (resend c)) = Z.of_nat (length (outstanding new l []))).
  { unfold msize. rewrite <- pending_outstanding by done. unfold ResendBuffer.pending.
    by rewrite sort_by_seq_perm. }
  assert (Hcap : ResendBuffer.capacity (resend c) = 256) by apply client_wf_run, client_wf_new.
  pose proof (pending_outstanding (l ++ [ISend nonce seq cmd true]) Hab) as Hpend.
  unfold run, ReliableClient.run in Hpend. rewrite foldl_app in Hpend. cbn [foldl] in Hpend.
  change (foldl step new l) with c in Hpend. cbn [ReliableClient.step] in Hpend.
  pose proof (outstanding_snoc_send l nonce seq cmd new []) as Hout. fold c in Hout.
  destruct (Z.leb_spec 256 (Z.of_nat (length (outstanding new l [])))) as [Hfull|Hfull].
  - unfold send, ResendBuffer.add. rewrite Hcap, Hsz.
    destruct (Z.leb_spec 256 (Z.of_nat (length (outstanding new l [])))); [done|lia].
  - split.
    + unfold send, ResendBuffer.add. rewrite Hcap, Hsz.
      destruct (Z.leb_spec 256 (Z.of_nat (length (outstanding new l [])))); [lia|done].
    + rewrite Hpend, Hout. unfold issues, ResendBuffer.isFull. rewrite Hcap, Hsz.
      destruct (Z.leb_spec 256 (Z.of_nat (length (outstanding new l [])))); [lia|done].
Qed.

End laws.

(** ** The engine over the concrete platform of [Frame.v] *)

Lemma handshake_resends_outstanding_witness :
  let P := toy_platform in
  let l := [ISend "n1" 1 (PCmd cmd_list) true; ISend "n2" 2 (PCmd (cmd_interrupt "s")) true] in
  exists resent,
    (onMessage (fun s => s) (fun _ => "n") (run (Key:=string) "dev" (fun s => s) new l)
       (msg_of_salt "salt" false None)).1.(outbox) = [] ++ resent /\
    read_frame "salt" <$> resent =
      [Some (1, Some (PCmd cmd_list)); Some (2, Some (PCmd (cmd_interrupt "s")))].
Proof.
  intros P l.
  destruct (handshake_resends_outstanding (Key:=string) "dev" (fun s => s)
    (serializable:=fun _ => True)
    (SessionCryptoLaws0:=@node_SessionCryptoLaws string toy_platform (fun _ => True) toy_platform_laws)
    l (fun _ => "n") (msg_of_salt "salt" false None)) as (resent & Hout & Hread & _).
  - simpl. lia.
  - by repeat constructor.
  - done.
  - done.
  - exists resent. split; [exact Hout|exact Hread].
Defined.

Lemma send_refuses_only_when_full_witness :
  let P := toy_platform in
  fst (send (Key:=string) "n" 1 (PCmd cmd_list) true new) = Ok 1.
Proof.
  intros P.
  refine (proj1 (send_refuses_only_when_full (Key:=string) "dev" (fun s => s)
    [] "n" 1 (PCmd cmd_list) _)).
  simpl. lia.
Defined.
