(* ===== verification/Sends.v ===== *)
(** * What a host has its engine send

    The engine of [packages/protocol/src/client.ts] under any host: every frame it puts in
    its outbox holds a command the host has sent, under the number it drew, sealed under a
    key derived for the device; and what it has been through, as inputs whose messages come
    from lines the host has heard. *)

From S2P Require Import Prelude JsMap Js Types Frame Sync Resend Client.

Local Open Scope Z_scope.

Module Sends.

Section sends.
Context {Key Nonce : Type} `{SessionCrypto Key Nonce}.
Variables (deriveKey : string -> Key) (sent : Z -> Plain -> Prop).

(** A message the engine may put on the wire, when the host has sent the commands [sent]. *)
Definition own (o : ReliableClient.Outbound) : Prop :=
  match o with
  | ReliableClient.OHello _ _ => True
  | ReliableClient.OFrame f => exists salt seq pl nonce, sent seq pl /\ f = seal (deriveKey salt) seq pl c2d nonce
  end.

(** An engine whose buffer, key and outbox are of that host. *)
Record sincere (c : ReliableClient.t Key) : Prop := {
  sc_pending e : e ∈ ResendBuffer.pendingCmds (ReliableClient.resend c) -> sent e.1 e.2;
  sc_key k : ReliableClient.key c = Some k -> exists salt, k = deriveKey salt;
  sc_outbox : Forall own (ReliableClient.outbox c);
}.

(** The engine has been through inputs whose messages come from the lines of [L]. *)
Definition followed (deviceId : string) (parse : string -> option WireMsg) (L : list string) (c : ReliableClient.t Key) : Prop :=
  exists l : list (ReliableClient.Input Nonce), c = ReliableClient.run deviceId deriveKey ReliableClient.new l /\
    forall rnd m, ReliableClient.IMessage rnd m ∈ l -> exists line, line ∈ L /\ parse line = Some m.

End sends.

End Sends.

Import Sends.

Section laws.
Context {Key Nonce : Type} `{SessionCrypto Key Nonce}.
Variables (deriveKey : string -> Key) (sent : Z -> Plain -> Prop).
Notation own := (own deriveKey sent).
Notation sincere := (sincere deriveKey sent).
Implicit Types c : ReliableClient.t Key.

Lemma own_seal_all salt (cmds : list (Z * Plain)) : (forall e, e ∈ cmds -> sent e.1 e.2) ->
  forall rnd, Forall own (ReliableClient.seal_all (deriveKey salt) rnd cmds).
Proof.
  induction cmds as [|[seq pl] cmds IH]; intros Hc rnd; cbn [ReliableClient.seal_all]; [constructor|]. constructor.
  - exists salt, seq, pl, (rnd 0%nat). split; [apply (Hc (seq, pl)); by left|done].
  - apply IH. intros e He. apply Hc. by right.
Qed.

Lemma ackUpTo_elem (b : ResendBuffer.t Plain) n e :
  e ∈ ResendBuffer.pendingCmds (ResendBuffer.ackUpTo b n) -> e ∈ ResendBuffer.pendingCmds b.
Proof.
  unfold ResendBuffer.ackUpTo. cbn. generalize (mkeys (ResendBuffer.pendingCmds b)) as ks. generalize (ResendBuffer.pendingCmds b) as m.
  intros m ks. revert m. induction ks as [|k ks IH]; intros m; cbn [foldl]; [done|]. intros Hin%IH.
  destruct (k <=? n); [by apply elem_mdelete in Hin|done].
Qed.

Lemma sincere_new : sincere ReliableClient.new.
Proof. split; cbn; [intros e Hin; by apply not_elem_of_nil in Hin|done|constructor]. Qed.

Lemma sincere_open deviceId c : sincere c -> sincere (ReliableClient.onOpen deviceId c).
Proof. intros [Hp Hk Ho]. split; [exact Hp|exact Hk|]. apply Forall_app. split; [exact Ho|]. by apply Forall_singleton. Qed.

Lemma sincere_close c : sincere c -> sincere (ReliableClient.onClose c).
Proof. intros [Hp _ Ho]. by split. Qed.

Lemma sincere_drain c : sincere c -> Forall own (fst (ReliableClient.drain c)) /\ sincere (snd (ReliableClient.drain c)).
Proof. intros [Hp Hk Ho]. split; [exact Ho|]. by split. Qed.

Lemma sincere_message rnd c m : sincere c -> sincere (fst (ReliableClient.onMessage deriveKey rnd c m)).
Proof.
  intros Hc. pose proof Hc as [Hp Hk Ho]. unfold ReliableClient.onMessage. destruct (ReliableClient.key c) as [k|] eqn:Hkey.
  - repeat case_match; try exact Hc; split; cbn; rewrite ?Hkey; try done. intros x Hin%ackUpTo_elem. by apply Hp.
  - repeat case_decide; [exact Hc| |exact Hc]. split; cbn; [done|intros k [= <-]; by eexists|].
    apply Forall_app. split; [done|]. apply own_seal_all. intros e Hin%pending_elem. by apply Hp.
Qed.

Lemma sincere_send nonce seq pl reliable c : sent seq pl -> sincere c -> sincere (snd (ReliableClient.send nonce seq pl reliable c)).
Proof.
  intros Hpl [Hp Hk Ho].
  assert (He : forall b, (forall e, e ∈ ResendBuffer.pendingCmds b -> sent e.1 e.2) ->
    sincere (match ReliableClient.key c with
      | Some k => ReliableClient.mk (ReliableClient.inb c) b (ReliableClient.maxAcked c) (ReliableClient.key c)
                    (ReliableClient.outbox c ++ [ReliableClient.OFrame (seal k seq pl c2d nonce)])
      | None => ReliableClient.mk (ReliableClient.inb c) b (ReliableClient.maxAcked c) (ReliableClient.key c) (ReliableClient.outbox c)
      end)).
  { intros b Hb. destruct (ReliableClient.key c) as [k|] eqn:Hkey; split; cbn; rewrite ?Hkey; try done.
    apply Forall_app. split; [done|]. apply Forall_singleton. destruct (Hk k eq_refl) as [salt ->]. by exists salt, seq, pl, nonce. }
  unfold ReliableClient.send. destruct reliable; [|by apply He]. unfold ResendBuffer.add.
  destruct (_ <=? _); cbn; [by split|]. apply He. cbn. intros e [->|Hin]%elem_mset; [done|by apply Hp].
Qed.

Lemma sincere_weaken (sent' : Z -> Plain -> Prop) c : (forall seq pl, sent seq pl -> sent' seq pl) -> sincere c -> Sends.sincere deriveKey sent' c.
Proof.
  intros Hs [Hp Hk Ho]. split; [intros e He; by apply Hs, Hp|exact Hk|]. eapply Forall_impl; [exact Ho|].
  intros [|f]; [done|]. intros (salt & seq & pl & nonce & Hpl & Hf). exists salt, seq, pl, nonce. by split; [apply Hs|].
Qed.

(** *** The trace *)

Variables (deviceId : string) (parse : string -> option WireMsg).
Notation followed := (followed (Nonce:=Nonce) deriveKey deviceId parse).

Lemma followed_new : followed [] ReliableClient.new.
Proof. exists []. split; [done|]. intros rnd m Hin. by apply not_elem_of_nil in Hin. Qed.

Lemma followed_weaken L L' c : followed L c -> followed (L ++ L') c.
Proof.
  intros (l & Hc & Hl). exists l. split; [done|]. intros rnd m Hin.
  destruct (Hl rnd m Hin) as (line & Hline & Hp). exists line. split; [apply elem_of_app; by left|done].
Qed.

Lemma followed_input L c (i : ReliableClient.Input Nonce) :
  (forall rnd m, i = ReliableClient.IMessage rnd m -> exists line, line ∈ L /\ parse line = Some m) ->
  followed L c -> followed L (ReliableClient.step deviceId deriveKey c i).
Proof.
  intros Hi (l & Hc & Hl). exists (l ++ [i]). split.
  - unfold ReliableClient.run. rewrite foldl_app. cbn [foldl]. by rewrite Hc.
  - intros rnd m [Hin|Heq%list_elem_of_singleton]%elem_of_app; [by apply (Hl rnd)|by apply (Hi rnd)].
Qed.

End laws.
