(* ===== verification/Replay.v ===== *)
(** * The per-device replay log

    [packages/daemon/src/domain/replay.ts], class [DeviceReplayLog].  The log
    keeps a reference to each event and never looks inside it, so the event type
    is a parameter.  [Date.now()] is the argument [now] of the operations that
    read the clock. *)

From S2P Require Import Prelude JsMap Js.

Local Open Scope Z_scope.

Module DeviceReplayLog.

Section log.
Context {E : Type}.

Record Entry : Type := mkEntry { events : list (Z * E); lastSeenAt : Z }.

Record t : Type := mk {
  byDevice : jsmap string Entry;
  maxDevices : Z;
  maxEventsPerDevice : Z;
}.

(** [constructor(maxDevices = 200, maxEventsPerDevice = 200)] *)
Definition new (maxDevices maxEventsPerDevice : Z) : t := mk [] maxDevices maxEventsPerDevice.

Definition default_max : Z := 200.

(** The scan of [evictLRUIfOverCap]: the first entry of strictly smallest
    [lastSeenAt], in iteration order; [oldest] is the best one so far, [None]
    standing for [oldestAt = Infinity]. *)
Fixpoint oldest_entry (m : jsmap string Entry) (oldest : option (string * Z)) : option (string * Z) :=
  match m with
  | [] => oldest
  | (id, entry) :: m' =>
      let better := match oldest with None => true | Some (_, at_) => lastSeenAt entry <? at_ end in
      oldest_entry m' (if better then Some (id, lastSeenAt entry) else oldest)
  end.

(** [evictLRUIfOverCap()] *)
Definition evictLRUIfOverCap (l : t) : option string * t :=
  if msize (byDevice l) <=? maxDevices l then (None, l)
  else
    let oldestId := fst <$> oldest_entry (byDevice l) None in
    match truthy_str oldestId with
    | Some id => (oldestId, mk (mdelete id (byDevice l)) (maxDevices l) (maxEventsPerDevice l))
    | None => (oldestId, l)
    end.

(** [entry.events.push(...)], then [splice] down to the cap. *)
Definition push (cap : Z) (entry : Entry) (e : Z * E) : Entry :=
  let evs := events entry ++ [e] in
  let over := Z.of_nat (length evs) - cap in
  mkEntry (if cap <? Z.of_nat (length evs) then drop (Z.to_nat over) evs else evs)
          (lastSeenAt entry).

(** [record(deviceId, seq, ev)].  The push goes through the reference [entry]:
    when the scan evicted that very device, the pushed-to object is no longer in
    the map and the push is lost. *)
Definition record (now : Z) (deviceId : string) (seq : Z) (ev : E) (l : t) : option string * t :=
  let '(evicted, l1) :=
    match mget deviceId (byDevice l) with
    | Some _ => (None, l)
    | None =>
        evictLRUIfOverCap
          (mk (mset deviceId (mkEntry [] now) (byDevice l)) (maxDevices l) (maxEventsPerDevice l))
    end in
  let l2 :=
    match mget deviceId (byDevice l1) with
    | Some entry =>
        mk (mset deviceId (push (maxEventsPerDevice l) entry (seq, ev)) (byDevice l1))
           (maxDevices l1) (maxEventsPerDevice l1)
    | None => l1
    end in
  (evicted, l2).

(** [replayFrom(deviceId, currentSeq, lastSeq)]: the events and the gap flag. *)
Definition replayFrom (deviceId : string) (currentSeq lastSeq : Z) (l : t) : list (Z * E) * bool :=
  if currentSeq <? lastSeq then ([], true)
  else if lastSeq =? currentSeq then ([], false)
  else
    match mget deviceId (byDevice l) with
    | None => ([], true)
    | Some entry =>
        match events entry with
        | [] => ([], true)
        | (oldest, _) :: _ =>
            if lastSeq + 1 <? oldest then (events entry, true)
            else (filter (fun e : Z * E => lastSeq < e.1) (events entry), false)
        end
    end.

(** [touch(deviceId)] *)
Definition touch (now : Z) (deviceId : string) (l : t) : t :=
  match mget deviceId (byDevice l) with
  | Some entry =>
      mk (mset deviceId (mkEntry (events entry) now) (byDevice l)) (maxDevices l) (maxEventsPerDevice l)
  | None => l
  end.

(** [evict(deviceId)] *)
Definition evict (deviceId : string) (l : t) : t :=
  mk (mdelete deviceId (byDevice l)) (maxDevices l) (maxEventsPerDevice l).

(** [get deviceCount()] *)
Definition deviceCount (l : t) : Z := msize (byDevice l).

(** ** Vocabulary of the properties *)

(** The tail of [l] that fits the cap. *)
Definition last_n (cap : Z) (l : list (Z * E)) : list (Z * E) :=
  drop (length l - Z.to_nat cap) l.

Definition wf (l : t) : Prop := mwf (byDevice l).

End log.
Arguments Entry : clear implicits.
Arguments t : clear implicits.

End DeviceReplayLog.

Import DeviceReplayLog.

(** ** Laws *)

Section laws.
Context {E : Type}.
Implicit Types (l : DeviceReplayLog.t E) (entry : Entry E) (m : jsmap string (Entry E)).

Lemma evictLRU_maxima l :
  maxDevices (evictLRUIfOverCap l).2 = maxDevices l /\
  maxEventsPerDevice (evictLRUIfOverCap l).2 = maxEventsPerDevice l.
Proof. unfold evictLRUIfOverCap. destruct (_ <=? _); [done|]. by destruct (truthy_str _). Qed.

Lemma evictLRU_get l d :
  mget d (byDevice (evictLRUIfOverCap l).2) =
    if decide (truthy_str (evictLRUIfOverCap l).1 = Some d) then None else mget d (byDevice l).
Proof.
  unfold evictLRUIfOverCap. destruct (_ <=? _); [done|].
  destruct (truthy_str (fst <$> oldest_entry (byDevice l) None)) as [id|] eqn:Ht;
    cbn [fst snd byDevice]; rewrite Ht; [|done].
  rewrite mget_mdelete. repeat case_decide; congruence.
Qed.

Lemma record_caps now d s e l :
  maxDevices (record now d s e l).2 = maxDevices l /\
  maxEventsPerDevice (record now d s e l).2 = maxEventsPerDevice l.
Proof.
  unfold record. destruct (mget d (byDevice l)) as [en|] eqn:Hd; [by rewrite Hd|].
  match goal with |- context [evictLRUIfOverCap ?x] => pose proof (evictLRU_maxima x) as Hm end.
  destruct (evictLRUIfOverCap _) as [ev l1]. cbn [fst snd] in *.
  by destruct (mget d (byDevice l1)).
Qed.

(** What [record] leaves in the map: the event appended to the device's entry,
    every other entry as it was, the evicted entry gone. *)
Lemma record_get now d s e l d' :
  mget d' (byDevice (record now d s e l).2) =
    if decide (truthy_str (record now d s e l).1 = Some d') then None
    else if decide (d' = d) then
      Some (push (maxEventsPerDevice l) (default (mkEntry [] now) (mget d (byDevice l))) (s, e))
    else mget d' (byDevice l).
Proof.
  unfold record. destruct (mget d (byDevice l)) as [en|] eqn:Hd.
  - rewrite Hd. cbn [fst snd byDevice]. rewrite decide_False by done. by rewrite mget_mset.
  - match goal with |- context [evictLRUIfOverCap ?x] => pose proof (evictLRU_get x) as Hm end.
    destruct (evictLRUIfOverCap _) as [ev l1]. cbn [fst snd byDevice] in *.
    pose proof (Hm d) as Hmd. rewrite mget_mset_eq in Hmd.
    rewrite Hmd. repeat case_decide; cbn [byDevice]; rewrite ?mget_mset, ?Hm, ?mget_mset;
      repeat case_decide; simplify_eq; done.
Qed.

Lemma replay_wf_new a b : wf (new (E:=E) a b).
Proof. apply mwf_nil. Qed.

Lemma replay_wf_touch now d l : wf l -> wf (touch now d l).
Proof. unfold wf, touch. destruct (mget _ _); simpl; auto with jsmap. Qed.

Lemma replay_wf_evict d l : wf l -> wf (evict d l).
Proof. unfold wf, evict. simpl. auto with jsmap. Qed.

Lemma replay_wf_evictLRU l : wf l -> wf (evictLRUIfOverCap l).2.
Proof.
  unfold wf, evictLRUIfOverCap. destruct (_ <=? _); [done|].
  destruct (truthy_str _); simpl; auto with jsmap.
Qed.

Lemma replay_wf_record now d s e l : wf l -> wf (record now d s e l).2.
Proof.
  intros Hwf. unfold record. destruct (mget d (byDevice l)) as [en|] eqn:Hd.
  - rewrite Hd. unfold wf in *. simpl. auto with jsmap.
  - match goal with |- context [evictLRUIfOverCap ?x] =>
      assert (wf (evictLRUIfOverCap x).2) as Hw by (apply replay_wf_evictLRU; unfold wf in *; simpl; auto with jsmap) end.
    destruct (evictLRUIfOverCap _) as [ev l1]. simpl in *.
    destruct (mget d (byDevice l1)); unfold wf in *; simpl; auto with jsmap.
Qed.

(** ** The LRU scan *)

Lemma oldest_entry_spec m o :
  match oldest_entry m o with
  | None => m = [] /\ o = None
  | Some (id, at_) =>
      (o = Some (id, at_) \/ exists entry, (id, entry) ∈ m /\ lastSeenAt entry = at_) /\
      (forall id' entry', (id', entry') ∈ m -> at_ <= lastSeenAt entry') /\
      (forall id' at', o = Some (id', at') -> at_ <= at')
  end.
Proof.
  revert o. induction m as [|[id en] m IH]; intros o; simpl.
  - destruct o as [[id at_]|]; [|done]. split_and!; [by left|set_solver|intros; by simplify_eq].
  - set (o' := if match o with None => true | Some (_, at_) => lastSeenAt en <? at_ end
               then Some (id, lastSeenAt en) else o).
    specialize (IH o'). destruct (oldest_entry m o') as [[id1 at1]|].
    + destruct IH as (H1 & H2 & H3).
      assert (Hle : at1 <= lastSeenAt en /\ forall id' at', o = Some (id', at') -> at1 <= at').
      { subst o'. destruct o as [[id2 at2]|].
        - destruct (Z.ltb_spec (lastSeenAt en) at2).
          + specialize (H3 _ _ eq_refl). split; [done|]. intros; simplify_eq; lia.
          + specialize (H3 _ _ eq_refl). split; [lia|]. intros; by simplify_eq.
        - specialize (H3 _ _ eq_refl). split; [done|]. done. }
      split_and!; [|intros id' en' Hin; apply elem_of_cons in Hin as [Heq|Hin]; [by simplify_eq; tauto|eauto]|tauto].
      destruct H1 as [H1|(en1 & Hin & Hat)]; [|right; exists en1; set_solver].
      subst o'. destruct (match o with None => true | Some _ => _ end);
        [|by left]. simplify_eq. right. exists en. set_solver.
    + destruct IH as [-> Ho]. subst o'. destruct o as [[id2 at2]|]; [|done].
      by destruct (lastSeenAt en <? at2).
Qed.

End laws.

#[export] Hint Resolve replay_wf_new replay_wf_touch replay_wf_evict replay_wf_record : jsmap.

(** ** The bound on devices *)

Section bound.
Context {E : Type}.
Implicit Types (l : DeviceReplayLog.t E) (entry : Entry E) (m : jsmap string (Entry E)).

(** Device identifiers are never empty, and the cap holds. *)
Record bounded (l : DeviceReplayLog.t E) : Prop := {
  bounded_wf : wf l;
  bounded_ids : "" ∉ mkeys (byDevice l);
  bounded_size : msize (byDevice l) <= maxDevices l;
  bounded_cap : 0 < maxDevices l;
}.

Lemma truthy_str_nonempty id : id <> "" -> truthy_str (Some id) = Some id.
Proof. by destruct id. Qed.

(** What [evictLRUIfOverCap] does to a map that is over its cap by one. *)
Lemma evictLRU_over l :
  wf l -> "" ∉ mkeys (byDevice l) -> 0 < maxDevices l -> msize (byDevice l) = maxDevices l + 1 ->
  exists id entry,
    evictLRUIfOverCap l =
      (Some id, mk (mdelete id (byDevice l)) (maxDevices l) (maxEventsPerDevice l)) /\
    mget id (byDevice l) = Some entry /\
    forall id' entry', mget id' (byDevice l) = Some entry' -> lastSeenAt entry <= lastSeenAt entry'.
Proof.
  intros Hwf Hids Hcap Hsz. unfold evictLRUIfOverCap.
  destruct (Z.leb_spec (msize (byDevice l)) (maxDevices l)); [lia|].
  pose proof (oldest_entry_spec (byDevice l) None) as Hs.
  destruct (oldest_entry (byDevice l) None) as [[id at_]|].
  - destruct Hs as ([?|(entry & Hin & <-)] & Hmin & _); [done|].
    assert (id <> "") as Hne.
    { intros ->. apply Hids. by apply (list_elem_of_fmap_2 fst) in Hin. }
    cbn [fmap option_fmap option_map fst]. rewrite truthy_str_nonempty by done.
    exists id, entry. split; [done|]. split; [by apply elem_mget|].
    intros id' entry' Hg%mget_Some_elem. by apply (Hmin id').
  - destruct Hs as [Hs _]. rewrite Hs in Hsz. unfold msize in Hsz. simpl in Hsz. lia.
Qed.

Lemma bounded_new a b : 0 < a -> bounded (new (E:=E) a b).
Proof. intros. split; simpl; [apply mwf_nil|apply not_elem_of_nil|unfold msize; simpl; lia|done]. Qed.

Lemma bounded_touch now d l : bounded l -> bounded (touch now d l).
Proof.
  intros [Hw Hi Hs Hc]. unfold touch. destruct (mget d (byDevice l)) eqn:Hd; [|by split].
  assert (Hin : d ∈ mkeys (byDevice l)) by (apply mget_is_Some_keys; eauto).
  split; unfold wf in *; simpl; [auto with jsmap|by rewrite mkeys_mset_in|by rewrite msize_mset_in|done].
Qed.

Lemma bounded_evict d l : bounded l -> bounded (evict d l).
Proof.
  intros [Hw Hi Hs Hc]. split; unfold wf in *; simpl; [auto with jsmap| | |done].
  - rewrite elem_mkeys_mdelete. tauto.
  - pose proof (msize_mdelete_le d (byDevice l)). lia.
Qed.

(** The map right after the device's empty entry is inserted, before the scan. *)
Lemma record_new_device now d s e l :
  mget d (byDevice l) = None -> bounded l -> d <> "" ->
  exists ev l1,
    evictLRUIfOverCap (mk (mset d (mkEntry [] now) (byDevice l)) (maxDevices l) (maxEventsPerDevice l)) = (ev, l1) /\
    bounded l1 /\ (record now d s e l).1 = ev /\
    (mkeys (byDevice (record now d s e l).2) = mkeys (byDevice l1)) /\
    match ev with
    | None => msize (byDevice l) < maxDevices l /\ byDevice l1 = mset d (mkEntry [] now) (byDevice l)
    | Some v => msize (byDevice l) = maxDevices l /\
        byDevice l1 = mdelete v (mset d (mkEntry [] now) (byDevice l)) /\
        exists entry, mget v (mset d (mkEntry [] now) (byDevice l)) = Some entry /\
        forall id' entry', mget id' (mset d (mkEntry [] now) (byDevice l)) = Some entry' ->
          lastSeenAt entry <= lastSeenAt entry'
    end.
Proof.
  intros Hd [Hw Hi Hs Hc] Hne. apply mget_None_keys in Hd as Hk.
  set (l0 := mk (mset d (mkEntry [] now) (byDevice l)) (maxDevices l) (maxEventsPerDevice l)).
  assert (Hsz0 : msize (byDevice l0) = msize (byDevice l) + 1) by (by apply msize_mset_notin).
  assert (Hw0 : wf l0) by (unfold wf in *; simpl; auto with jsmap).
  assert (Hi0 : "" ∉ mkeys (byDevice l0)) by (simpl; rewrite elem_mkeys_mset; naive_solver).
  assert (Hrec : record now d s e l = ((evictLRUIfOverCap l0).1,
     match mget d (byDevice (evictLRUIfOverCap l0).2) with
     | Some entry => mk (mset d (push (maxEventsPerDevice l) entry (s, e)) (byDevice (evictLRUIfOverCap l0).2))
           (maxDevices (evictLRUIfOverCap l0).2) (maxEventsPerDevice (evictLRUIfOverCap l0).2)
     | None => (evictLRUIfOverCap l0).2 end)).
  { unfold record. rewrite Hd. fold l0. by destruct (evictLRUIfOverCap l0). }
  assert (Hkeys : mkeys (byDevice (record now d s e l).2) = mkeys (byDevice (evictLRUIfOverCap l0).2)).
  { rewrite Hrec. cbn [snd]. destruct (mget d (byDevice (evictLRUIfOverCap l0).2)) eqn:Hg; [|done].
    cbn [byDevice]. apply mkeys_mset_in. apply mget_is_Some_keys; eauto. }
  destruct (decide (msize (byDevice l) < maxDevices l)) as [Hlt|Hge].
  - assert (He : evictLRUIfOverCap l0 = (None, l0)).
    { unfold evictLRUIfOverCap. destruct (Z.leb_spec (msize (byDevice l0)) (maxDevices l0)); [done|]. simpl in *. lia. }
    exists None, l0. rewrite Hrec, He in *. split_and!; try done.
    split; [done|done|rewrite Hsz0; simpl; lia|done].
  - destruct (evictLRU_over l0) as (v & entry & He & Hg & Hmin); [done|done|done|simpl in *; lia|].
    exists (Some v), (mk (mdelete v (byDevice l0)) (maxDevices l) (maxEventsPerDevice l)).
    rewrite Hrec, He in *. split_and!; try done; [|lia|by exists entry].
    split; unfold wf in *; cbn [byDevice maxDevices]; [auto with jsmap| | |done].
    + rewrite elem_mkeys_mdelete. tauto.
    + rewrite msize_mdelete_in; [lia|done|]. apply mget_is_Some_keys; eauto.
Qed.

Lemma bounded_record now d s e l : d <> "" -> bounded l -> bounded (record now d s e l).2.
Proof.
  intros Hne Hb. pose proof (replay_wf_record now d s e l (bounded_wf _ Hb)) as Hw.
  pose proof (record_caps now d s e l) as [Hc1 Hc2].
  destruct (mget d (byDevice l)) eqn:Hd.
  - assert (Hk : mkeys (byDevice (record now d s e l).2) = mkeys (byDevice l)).
    { unfold record. rewrite Hd, Hd. cbn [snd byDevice]. apply mkeys_mset_in.
      apply mget_is_Some_keys; eauto. }
    destruct Hb. split; rewrite ?Hc1; [done|by rewrite Hk| |done].
    by rewrite msize_keys, Hk, <- msize_keys.
  - destruct (record_new_device now d s e l Hd Hb Hne) as (ev & l1 & Hev & [Hw1 Hi1 Hs1 Hm1] & _ & Hk & _).
    pose proof (evictLRU_maxima (mk (mset d (mkEntry [] now) (byDevice l)) (maxDevices l) (maxEventsPerDevice l))) as [Hmx _].
    rewrite Hev in Hmx. cbn [snd maxDevices] in Hmx.
    split; rewrite ?Hc1; [done|by rewrite Hk| |by apply Hb].
    rewrite msize_keys, Hk, <- msize_keys. by rewrite <- Hmx.
Qed.

(** Recording for a device keeps the number of buffered devices within the
    cap; it forgets another device only when the cap was reached and the device
    is new, and then the forgotten one was seen no later than any other, and
    nothing else is lost. *)
Theorem record_evicts_least_recently_seen now d s e l :
  bounded l -> d <> "" ->
  let '(evicted, l') := record now d s e l in
  deviceCount l' <= maxDevices l /\
  match evicted with
  | None => forall d' entry, d' <> d -> mget d' (byDevice l) = Some entry -> mget d' (byDevice l') = Some entry
  | Some v =>
      deviceCount l = maxDevices l /\ mget d (byDevice l) = None /\ mget v (byDevice l') = None /\
      (v = d \/ exists entry, mget v (byDevice l) = Some entry /\ lastSeenAt entry <= now /\
         forall d' entry', mget d' (byDevice l) = Some entry' -> lastSeenAt entry <= lastSeenAt entry') /\
      (v = d -> forall d' entry', mget d' (byDevice l) = Some entry' -> now <= lastSeenAt entry') /\
      forall d' entry, d' <> d -> d' <> v -> mget d' (byDevice l) = Some entry -> mget d' (byDevice l') = Some entry
  end.
Proof.
  intros Hb Hne. pose proof (record_get now d s e l) as Hg.
  pose proof (bounded_record now d s e l Hne Hb) as Hb'.
  pose proof (record_caps now d s e l) as [Hc _].
  destruct (mget d (byDevice l)) as [en|] eqn:Hd.
  - assert (Hev : (record now d s e l).1 = None) by (unfold record; by rewrite Hd, Hd).
    destruct (record now d s e l) as [ev l']. cbn [fst snd] in *. subst ev.
    split; [rewrite <- Hc; apply Hb'|]. intros d' entry Hd' Hen. rewrite Hg.
    rewrite decide_False by done. by rewrite decide_False.
  - destruct (record_new_device now d s e l Hd Hb Hne) as (ev & l1 & _ & _ & Hev & Hk & Hcase).
    destruct (record now d s e l) as [ev' l']. cbn [fst snd] in *. subst ev'.
    split; [rewrite <- Hc; apply Hb'|].
    destruct ev as [v|].
    + destruct Hcase as (Hsz & Hl1 & entry & Hv & Hmin).
      assert (Hvne : v <> "").
      { intros ->. rewrite mget_mset in Hv. case_decide; [congruence|].
        destruct Hb as [_ Hi _ _]. apply Hi, mget_is_Some_keys. eauto. }
      rewrite truthy_str_nonempty in Hg by done.
      split_and!; [done|done|by rewrite Hg, decide_True| | |].
      * destruct (decide (v = d)) as [|Hvd]; [by left|right]. exists entry.
        rewrite mget_mset_ne in Hv by done. split_and!; [done| |].
        -- apply (Hmin d (mkEntry [] now)). apply mget_mset_eq.
        -- intros d' entry' Hd'. apply (Hmin d'). rewrite mget_mset. case_decide; congruence.
      * intros -> d' entry' Hd'. rewrite mget_mset_eq in Hv. simplify_eq.
        apply (Hmin d' entry'). rewrite mget_mset. case_decide; congruence.
      * intros d' en' Hne1 Hne2 Hen. rewrite Hg. repeat case_decide; congruence.
    + intros d' en' Hne1 Hen. rewrite Hg. by rewrite decide_False, decide_False.
Qed.

End bound.

#[export] Hint Resolve bounded_new bounded_touch bounded_evict bounded_record : jsmap.

Lemma record_evicts_least_recently_seen_witness :
  let l := (record 10 "a" 1 true (record 20 "b" 1 true (new 2 200)).2).2 in
  (record 30 "c" 1 true l).1 = Some "a" /\ deviceCount (record 30 "c" 1 true l).2 <= 2.
Proof.
  intros l. split; [reflexivity|].
  assert (bounded l) as Hl.
  { apply bounded_record; [done|]. apply bounded_record; [done|]. by apply bounded_new. }
  pose proof (record_evicts_least_recently_seen 30 "c" 1 true l Hl ltac:(done)) as Hrec.
  destruct (record 30 "c" 1 true l) as [ev l']. exact (proj1 Hrec).
Defined.
