(* ===== verification/DeviceSessions.v ===== *)
(** * Per-device sessions across reconnects

    [packages/daemon/src/domain/deviceSessions.ts], class
    [DeviceSessionRegistry]: per device, the outbound counter, the replay log,
    the inbound duplicate filter and the acknowledgement level. *)

From S2P Require Import Prelude JsMap Js Sync Replay.

Local Open Scope Z_scope.

Module DeviceSessions.

Section registry.
Context {E : Type}.

(** The value type of the [processed] map. *)
Record Processed : Type := mkProcessed { through : Z; ahead : jsset Z }.

Record t : Type := mk {
  outbound : jsmap string OutboundStream.t;
  log : DeviceReplayLog.t E;
  inbound : jsmap string InboundStream.t;
  processed : jsmap string Processed;
}.

Definition new (maxDevices maxEventsPerDevice : Z) : t :=
  mk [] (DeviceReplayLog.new maxDevices maxEventsPerDevice) [] [].

(** [outboundFor(deviceId)]: the stream, whether it is new, the registry after. *)
Definition outboundFor (deviceId : string) (r : t) : OutboundStream.t * bool * t :=
  match mget deviceId (outbound r) with
  | Some out => (out, false, r)
  | None =>
      let out := OutboundStream.new 0 in
      (out, true, mk (mset deviceId out (outbound r)) (log r) (inbound r) (processed r))
  end.

(** [resumeFor(deviceId, lastSeq)]: [resume], where [None] is [null]. *)
Definition resumeFor (now : Z) (deviceId : string) (lastSeq : option Z) (r : t)
    : option (list (Z * E)) * t :=
  let '(out, isNew, r1) := outboundFor deviceId r in
  let r2 := mk (outbound r1) (DeviceReplayLog.touch now deviceId (log r1)) (inbound r1) (processed r1) in
  match lastSeq with
  | None => (None, r2)
  | Some lastSeq =>
      if isNew then (None, r2)
      else
        let '(events, gap) :=
          DeviceReplayLog.replayFrom deviceId (OutboundStream.current out) lastSeq (log r2) in
        (if gap : bool then None else Some events, r2)
  end.

(** [recordSent(deviceId, event)] *)
Definition recordSent (now : Z) (deviceId : string) (event : E) (r : t) : Z * t :=
  let '(out, _, r1) := outboundFor deviceId r in
  let (seq, out') := OutboundStream.next out in
  let outbound1 := mset deviceId out' (outbound r1) in
  let (evicted, log1) := DeviceReplayLog.record now deviceId seq event (log r1) in
  let outbound2 :=
    match truthy_str evicted with Some v => mdelete v outbound1 | None => outbound1 end in
  (seq, mk outbound2 log1 (inbound r1) (processed r1)).

(** [knownDeviceIds()] *)
Definition knownDeviceIds (r : t) : list string := mkeys (outbound r).

(** [acceptInbound(deviceId, seq)] *)
Definition acceptInbound (deviceId : string) (seq : Z) (r : t) : bool * t :=
  let s := default InboundStream.new (mget deviceId (inbound r)) in
  let (ok, s') := InboundStream.accept s seq in
  (ok, mk (outbound r) (log r) (mset deviceId s' (inbound r)) (processed r)).

(** [inboundLastSeq(deviceId)] *)
Definition inboundLastSeq (deviceId : string) (r : t) : Z :=
  match mget deviceId (inbound r) with Some s => InboundStream.lastSeq s | None => 0 end.

(** [while (p.ahead.delete(p.through + 1)) p.through++]; each turn removes an
    element of the set, so its size bounds the turns. *)
Fixpoint close_gap (fuel : nat) (p : Processed) : Processed :=
  match fuel with
  | O => p
  | S fuel' =>
      if shas (through p + 1) (ahead p)
      then close_gap fuel' (mkProcessed (through p + 1) (sdelete (through p + 1) (ahead p)))
      else p
  end.

Definition mark (seq : Z) (p : Processed) : Processed :=
  if seq =? through p + 1 then close_gap (length (ahead p)) (mkProcessed seq (ahead p))
  else if through p <? seq then mkProcessed (through p) (sadd seq (ahead p))
  else p.

(** [markProcessed(deviceId, seq)] *)
Definition markProcessed (deviceId : string) (seq : Z) (r : t) : t :=
  let p := default (mkProcessed 0 []) (mget deviceId (processed r)) in
  mk (outbound r) (log r) (inbound r) (mset deviceId (mark seq p) (processed r)).

(** [ackLevel(deviceId)] *)
Definition ackLevel (deviceId : string) (r : t) : Z :=
  match mget deviceId (processed r) with Some p => through p | None => 0 end.

(** [evict(deviceId)] *)
Definition evict (deviceId : string) (r : t) : t :=
  mk (mdelete deviceId (outbound r)) (DeviceReplayLog.evict deviceId (log r))
     (mdelete deviceId (inbound r)) (mdelete deviceId (processed r)).

(** ** Operations as a sequence *)

Inductive Op : Type :=
| OpHello (now : Z) (deviceId : string) (lastSeq : option Z)
| OpSent (now : Z) (deviceId : string) (event : E)
| OpAccept (deviceId : string) (seq : Z)
| OpProcessed (deviceId : string) (seq : Z)
| OpEvict (deviceId : string).

Definition step (r : t) (op : Op) : t :=
  match op with
  | OpHello now d lastSeq => snd (resumeFor now d lastSeq r)
  | OpSent now d ev => snd (recordSent now d ev r)
  | OpAccept d seq => snd (acceptInbound d seq r)
  | OpProcessed d seq => markProcessed d seq r
  | OpEvict d => evict d r
  end.

Definition run (r : t) (ops : list Op) : t := foldl step r ops.

(** ** The abstract account

    The journal of a device: every event sent to it since the registry last
    forgot it ([None] for a device the registry does not know). *)

Definition journal : Type := string -> option (list E).

Definition sent_to (d : string) (op : Op) : list E :=
  match op with
  | OpSent _ d' ev => if decide (d' = d) then [ev] else []
  | _ => []
  end.

(** What the journal becomes when the registry has moved to [r']. *)
Definition jstep (op : Op) (r' : t) (j : journal) : journal := fun d =>
  if decide (d ∈ knownDeviceIds r') then Some (default [] (j d) ++ sent_to d op) else None.

Fixpoint journal_of (r : t) (ops : list Op) (j : journal) : journal :=
  match ops with
  | [] => j
  | op :: ops' => journal_of (step r op) ops' (jstep op (step r op) j)
  end.

(** [h] with the sequence numbers 1, 2, ... *)
Definition numbered (h : list E) : list (Z * E) := imap (fun i e => (Z.of_nat (S i), e)) h.

(** What a reconnecting device is owed: the events after [lastSeq], if [lastSeq]
    was really issued and at most [cap] events followed it. *)
Definition owed (cap : Z) (h : list E) (lastSeq : Z) : option (list (Z * E)) :=
  if (lastSeq <=? Z.of_nat (length h)) && (Z.of_nat (length h) - Z.max 0 cap <=? lastSeq)
  then Some (drop (Z.to_nat lastSeq) (numbered h))
  else None.

(** The registry represents the journal. *)
Record represents (r : t) (j : journal) : Prop := {
  rep_wf : mwf (outbound r);
  rep_known d : j d = None <-> mget d (outbound r) = None;
  rep_seq d out h : mget d (outbound r) = Some out -> j d = Some h ->
    OutboundStream.current out = Z.of_nat (length h);
  rep_log d h : j d = Some h -> h <> [] ->
    DeviceReplayLog.events <$> mget d (DeviceReplayLog.byDevice (log r)) =
      Some (DeviceReplayLog.last_n (DeviceReplayLog.maxEventsPerDevice (log r)) (numbered h));
  rep_none d : j d = None \/ j d = Some [] -> mget d (DeviceReplayLog.byDevice (log r)) = None;
}.

End registry.
Arguments t : clear implicits.
Arguments Op : clear implicits.
Arguments journal : clear implicits.

End DeviceSessions.

Import DeviceSessions.

(** ** Laws *)

Section laws.
Context {E : Type}.
Implicit Types (r : DeviceSessions.t E) (j : journal E) (h : list E) (d : string).

Lemma length_numbered h : length (numbered h) = length h.
Proof. apply length_imap. Qed.

Lemma numbered_snoc h (e : E) :
  numbered (h ++ [e]) = numbered h ++ [(Z.of_nat (length h) + 1, e)].
Proof.
  unfold numbered. rewrite imap_app. f_equal. simpl. repeat f_equal. lia.
Qed.

Lemma last_n_snoc cap (l : list (Z * E)) x entry :
  DeviceReplayLog.events entry = DeviceReplayLog.last_n cap l ->
  DeviceReplayLog.events (DeviceReplayLog.push cap entry x) = DeviceReplayLog.last_n cap (l ++ [x]).
Proof.
  unfold DeviceReplayLog.push, DeviceReplayLog.last_n. intros ->. cbn [DeviceReplayLog.events].
  rewrite !length_app, length_drop. cbn [length].
  destruct (Z.ltb_spec cap (Z.of_nat (length l - (length l - Z.to_nat cap) + 1))).
  - destruct (decide (cap <= 0)).
    + rewrite !drop_ge; [done| |]; rewrite ?length_app, ?length_drop; cbn [length]; lia.
    + replace (Z.to_nat (Z.of_nat _ - cap)) with 1%nat by lia.
      rewrite !drop_app_le; [|rewrite ?length_drop; try lia..].
      rewrite drop_drop. do 2 f_equal; lia.
  - rewrite drop_app_le by lia. do 2 f_equal; lia.
Qed.

Lemma outboundFor_get now_d r d' :
  mget d' (outbound (outboundFor now_d r).2) =
    if decide (d' = now_d) then Some (default (OutboundStream.new 0) (mget now_d (outbound r)))
    else mget d' (outbound r).
Proof.
  unfold outboundFor. destruct (mget now_d (outbound r)) eqn:Hd; cbn [snd outbound default].
  - case_decide; subst; simpl; congruence.
  - by rewrite mget_mset.
Qed.

Lemma outboundFor_fst d r :
  (outboundFor d r).1.1 = default (OutboundStream.new 0) (mget d (outbound r)) /\
  (outboundFor d r).1.2 = negb (mhas d (outbound r)) /\
  log (outboundFor d r).2 = log r.
Proof. unfold outboundFor, mhas. by destruct (mget d (outbound r)). Qed.

Lemma outboundFor_wf d r : mwf (outbound r) -> mwf (outbound (outboundFor d r).2).
Proof. unfold outboundFor. destruct (mget d (outbound r)); simpl; auto with jsmap. Qed.

Lemma resumeFor_state now d lastSeq r :
  outbound (resumeFor now d lastSeq r).2 = outbound (outboundFor d r).2 /\
  log (resumeFor now d lastSeq r).2 = DeviceReplayLog.touch now d (log r).
Proof.
  unfold resumeFor. pose proof (outboundFor_fst d r) as (_ & _ & Hlog).
  destruct (outboundFor d r) as [[out isNew] r1]. cbn [fst snd] in *. rewrite <- Hlog.
  destruct lastSeq; [|done]. destruct isNew; [done|]. by destruct (DeviceReplayLog.replayFrom _ _ _ _).
Qed.

(** The number the next event to [d] gets. *)
Definition next_seq (d : string) (r : DeviceSessions.t E) : Z :=
  match mget d (outbound r) with Some out => OutboundStream.current out + 1 | None => 1 end.

Lemma recordSent_spec now d ev r :
  let rec := DeviceReplayLog.record now d (next_seq d r) ev (log r) in
  (recordSent now d ev r).1 = next_seq d r /\
  log (recordSent now d ev r).2 = rec.2 /\
  (mwf (outbound r) -> mwf (outbound (recordSent now d ev r).2)) /\
  forall d', mget d' (outbound (recordSent now d ev r).2) =
    if decide (truthy_str rec.1 = Some d') then None
    else if decide (d' = d) then Some (OutboundStream.mk (next_seq d r)) else mget d' (outbound r).
Proof.
  cbn zeta. unfold recordSent.
  pose proof (outboundFor_fst d r) as (Hout & _ & Hlog). pose proof (outboundFor_get d r) as Hget.
  pose proof (outboundFor_wf d r) as Hwf.
  destruct (outboundFor d r) as [[out isNew] r1]. cbn [fst snd] in *. subst out.
  assert (Hn : OutboundStream.next (default (OutboundStream.new 0) (mget d (outbound r))) =
               (next_seq d r, OutboundStream.mk (next_seq d r)))
    by (unfold next_seq; by destruct (mget d (outbound r))).
  rewrite Hn, Hlog. destruct (DeviceReplayLog.record _ _ _ _ _) as [evd log1]. cbn [fst snd outbound log].
  split_and!; [done|done| |].
  - intros Hw%Hwf. destruct (truthy_str evd); auto with jsmap.
  - intros d'. destruct (truthy_str evd) as [v|]; rewrite ?mget_mdelete, ?mget_mset, ?Hget;
      repeat case_decide; congruence.
Qed.

Lemma known_mget d r : d ∈ knownDeviceIds r <-> is_Some (mget d (outbound r)).
Proof. unfold knownDeviceIds. by rewrite mget_is_Some_keys. Qed.

Lemma jstep_None op r' j d : jstep op r' j d = None <-> mget d (outbound r') = None.
Proof.
  unfold jstep. case_decide as Hk; rewrite known_mget in Hk.
  - destruct Hk as [x Hx]. rewrite Hx. done.
  - destruct (mget d (outbound r')); [by destruct Hk; eauto|done].
Qed.

Lemma jstep_Some op r' j d h :
  jstep op r' j d = Some h -> is_Some (mget d (outbound r')) /\ h = default [] (j d) ++ sent_to d op.
Proof. unfold jstep. case_decide as Hk; [|done]. rewrite known_mget in Hk. naive_solver. Qed.

Lemma touch_events now d (l : DeviceReplayLog.t E) d' :
  DeviceReplayLog.events <$> mget d' (DeviceReplayLog.byDevice (DeviceReplayLog.touch now d l)) =
  DeviceReplayLog.events <$> mget d' (DeviceReplayLog.byDevice l).
Proof.
  unfold DeviceReplayLog.touch. destruct (mget d (DeviceReplayLog.byDevice l)) as [en|] eqn:Hd; [|done].
  cbn [DeviceReplayLog.byDevice]. rewrite mget_mset. case_decide; [|done]. subst. by rewrite Hd.
Qed.

Lemma touch_cap now d (l : DeviceReplayLog.t E) :
  DeviceReplayLog.maxEventsPerDevice (DeviceReplayLog.touch now d l) = DeviceReplayLog.maxEventsPerDevice l.
Proof. unfold DeviceReplayLog.touch. by destruct (mget d _). Qed.

Lemma events_none (o : option (DeviceReplayLog.Entry E)) : DeviceReplayLog.events <$> o = None -> o = None.
Proof. by destruct o. Qed.

Lemma represents_new a b : represents (E:=E) (new a b) (fun _ => None).
Proof. split; simpl; [apply mwf_nil|done|done|done|done]. Qed.

(** A registry whose counters and log did not move represents the same journal. *)
Lemma represents_same r r' j op :
  represents r j -> outbound r' = outbound r -> log r' = log r -> (forall d, sent_to d op = []) ->
  represents r' (jstep op r' j).
Proof.
  intros [Hw Hk Hs Hl Hn] Ho Hlg Hsent.
  assert (Hj : forall d, jstep op r' j d = j d).
  { intros d. unfold jstep. rewrite Hsent, app_nil_r. case_decide as Hd; rewrite known_mget, Ho in Hd.
    - destruct (j d) eqn:Hjd; [done|]. apply Hk in Hjd. rewrite Hjd in Hd. by destruct Hd.
    - destruct (j d) eqn:Hjd; [|done]. destruct (mget d (outbound r)) eqn:Hm; [by destruct Hd; eauto|].
      apply Hk in Hm. congruence. }
  split; [by rewrite Ho|..]; intros d; rewrite ?Hj, ?Ho, ?Hlg; [apply Hk|apply Hs|apply Hl|apply Hn].
Qed.

Lemma represents_hello now d lastSeq r j :
  represents r j ->
  represents (resumeFor now d lastSeq r).2 (jstep (OpHello now d lastSeq) (resumeFor now d lastSeq r).2 j).
Proof.
  intros [Hw Hk Hs Hl Hn]. pose proof (resumeFor_state now d lastSeq r) as [Ho Hlg].
  pose proof (outboundFor_get d r) as Hg.
  assert (Hd0 : mget d (outbound r) = None -> j d = None) by (intros; by apply Hk).
  split.
  - rewrite Ho. by apply outboundFor_wf.
  - intros d'. apply jstep_None.
  - intros d' out h. rewrite Ho, Hg. intros Hout [_ ->]%jstep_Some. cbn [sent_to]. rewrite app_nil_r.
    case_decide; subst; [|destruct (j d') eqn:Hj; [by eapply Hs|apply Hk in Hj; congruence]].
    destruct (mget d (outbound r)) as [out0|] eqn:Hd; simplify_eq/=.
    + destruct (j d) eqn:Hj; [by eapply Hs|]. apply Hk in Hj. congruence.
    + by rewrite Hd0.
  - intros d' h [_ ->]%jstep_Some. cbn [sent_to]. rewrite app_nil_r. intros Hne.
    rewrite Hlg, touch_events, touch_cap. apply Hl; [|done]. by destruct (j d').
  - intros d' Hor. rewrite Hlg. apply events_none. rewrite touch_events.
    rewrite Hn; [done|]. destruct Hor as [Hor|Hor].
    + apply jstep_None in Hor. rewrite Ho, Hg in Hor. case_decide; [done|]. left. by apply Hk.
    + apply jstep_Some in Hor as [_ Hor]. cbn [sent_to] in Hor. rewrite app_nil_r in Hor.
      destruct (j d'); naive_solver.
Qed.

Lemma represents_default r j d :
  represents r j -> next_seq d r = Z.of_nat (length (default [] (j d))) + 1 /\
  DeviceReplayLog.events (default (DeviceReplayLog.mkEntry [] 0) (mget d (DeviceReplayLog.byDevice (log r)))) =
    DeviceReplayLog.last_n (DeviceReplayLog.maxEventsPerDevice (log r)) (numbered (default [] (j d))).
Proof.
  intros [Hw Hk Hs Hl Hn]. split.
  - unfold next_seq. destruct (mget d (outbound r)) as [out|] eqn:Hd.
    + destruct (j d) eqn:Hj; [|apply Hk in Hj; congruence]. by rewrite (Hs d out l).
    + apply Hk in Hd. by rewrite Hd.
  - destruct (j d) as [[|x h]|] eqn:Hj; cbn [default].
    + by rewrite Hn by auto.
    + specialize (Hl d _ Hj ltac:(done)). destruct (mget d _); naive_solver.
    + by rewrite Hn by auto.
Qed.

Lemma represents_sent now d ev r j :
  represents r j ->
  represents (recordSent now d ev r).2 (jstep (OpSent now d ev) (recordSent now d ev r).2 j).
Proof.
  intros Hr. pose proof (represents_default r j d Hr) as [Hseq Hev].
  pose proof (recordSent_spec now d ev r) as (_ & Hlg & Hwf & Hg).
  pose proof (record_get now d (next_seq d r) ev (log r)) as Hrg.
  pose proof (record_caps now d (next_seq d r) ev (log r)) as [_ Hcap].
  destruct (DeviceReplayLog.record now d (next_seq d r) ev (log r)) as [evd l1] eqn:Hrec. cbn [fst snd] in *.
  destruct Hr as [Hw Hk Hs Hl Hn].
  assert (Hsame : forall d', d' <> d -> default [] (j d') ++ sent_to d' (OpSent now d ev) = default [] (j d')).
  { intros d' Hne. cbn [sent_to]. rewrite decide_False by congruence. by rewrite app_nil_r. }
  split.
  - auto.
  - intros d'. apply jstep_None.
  - intros d' out h Hout [_ ->]%jstep_Some. rewrite Hg in Hout. case_decide; [done|]. case_decide; subst.
    + simplify_eq. cbn [OutboundStream.current OutboundStream.seq sent_to].
      rewrite decide_True, length_app by done. simpl. lia.
    + rewrite Hsame by done. destruct (j d') eqn:Hj; [by eapply Hs|]. apply Hk in Hj. congruence.
  - intros d' h [[out Hout] ->]%jstep_Some Hne. rewrite Hg in Hout. case_decide as Hev'; [done|].
    rewrite Hlg, Hrg, Hcap. rewrite decide_False by done.
    case_decide; subst.
    + cbn [fmap option_fmap option_map sent_to]. rewrite decide_True by done. f_equal.
      rewrite numbered_snoc, <- Hseq. apply last_n_snoc. rewrite <- Hev. by destruct (mget d _).
    + rewrite Hsame in * by done. apply Hl; [|done]. by destruct (j d').
  - intros d' Hor. rewrite Hlg, Hrg. case_decide as Hev'; [done|].
    destruct Hor as [Hor|Hor].
    + apply jstep_None in Hor. rewrite Hg, decide_False in Hor by done.
      case_decide; [done|]. apply Hn. left. by apply Hk.
    + apply jstep_Some in Hor as [_ Hor]. case_decide; subst.
      * cbn [sent_to] in Hor. rewrite decide_True in Hor by done. by destruct (default [] (j d)).
      * rewrite Hsame in Hor by done. apply Hn. destruct (j d'); naive_solver.
Qed.

Lemma represents_evict d r j :
  represents r j -> represents (evict d r) (jstep (OpEvict d) (evict d r) j).
Proof.
  intros [Hw Hk Hs Hl Hn].
  assert (Hj : forall d', jstep (OpEvict d) (evict d r) j d' = if decide (d' = d) then None else j d').
  { intros d'. unfold jstep. cbn [sent_to]. rewrite app_nil_r.
    case_decide as Hd; rewrite known_mget in Hd; cbn [evict outbound] in Hd; rewrite mget_mdelete in Hd.
    - case_decide; [by destruct Hd|]. destruct (j d') eqn:E1; [done|]. apply Hk in E1. rewrite E1 in Hd. by destruct Hd.
    - case_decide; [done|]. destruct (j d') eqn:E1; [|done]. destruct (mget d' (outbound r)) eqn:E2; [by destruct Hd; eauto|].
      apply Hk in E2. congruence. }
  split; cbn [evict outbound log DeviceReplayLog.evict DeviceReplayLog.byDevice DeviceReplayLog.maxEventsPerDevice];
    [auto with jsmap|..]; intros d'; rewrite Hj, ?mget_mdelete; (case_decide; [try done|]).
  - apply Hk.
  - apply Hs.
  - apply Hl.
  - apply Hn.
Qed.


Lemma represents_step op r j : represents r j -> represents (step r op) (jstep op (step r op) j).
Proof.
  intros Hr. destruct op as [now d ls|now d ev|d s|d s|d]; cbn [step].
  - by apply represents_hello.
  - by apply represents_sent.
  - unfold acceptInbound. destruct (InboundStream.accept _ _). by apply (represents_same r).
  - by apply (represents_same r).
  - by apply represents_evict.
Qed.

Lemma represents_run ops r j : represents r j -> represents (run r ops) (journal_of r ops j).
Proof.
  revert r j. induction ops as [|op ops IH]; intros r j Hr; [done|]. by apply IH, represents_step.
Qed.

(** *** Resuming *)

Lemma filter_numbered_from k (n : Z) h :
  0 <= k -> filter (fun e : Z * E => n < e.1) (imap (fun i e => (k + Z.of_nat (S i), e)) h) =
  drop (Z.to_nat (n - k)) (imap (fun i e => (k + Z.of_nat (S i), e)) h).
Proof.
  revert k. induction h as [|e h IH]; intros k Hk; [by destruct (Z.to_nat (n - k))|].
  simpl imap. assert (Hsh : imap ((fun i e => (k + Z.of_nat (S i), e)) ∘ S) h =
    imap (fun i e => ((k + 1) + Z.of_nat (S i), e)) h) by (apply imap_ext; intros; simpl; f_equal; lia).
  rewrite Hsh, filter_cons. cbn [fst]. case_decide as Hd.
  - replace (Z.to_nat (n - k)) with 0%nat by lia. cbn [drop]. f_equal.
    rewrite IH by lia. by replace (Z.to_nat (n - (k + 1))) with 0%nat by lia.
  - rewrite IH by lia. replace (Z.to_nat (n - k)) with (S (Z.to_nat (n - (k + 1)))) by lia. done.
Qed.

Lemma numbered_lookup h i e : numbered h !! i = Some e -> e.1 = Z.of_nat (S i).
Proof. unfold numbered. rewrite list_lookup_imap. destruct (h !! i); [|done]. cbn. by intros [= <-]. Qed.

Lemma filter_numbered (n : Z) h :
  filter (fun e : Z * E => n < e.1) (numbered h) = drop (Z.to_nat n) (numbered h).
Proof.
  pose proof (filter_numbered_from 0 n h ltac:(lia)) as H. rewrite Z.sub_0_r in H.
  unfold numbered. exact H.
Qed.

Lemma filter_drop_numbered (n : Z) k h :
  (k <= Z.to_nat n)%nat -> filter (fun e : Z * E => n < e.1) (drop k (numbered h)) = drop (Z.to_nat n) (numbered h).
Proof.
  intros Hk. rewrite <- filter_numbered.
  rewrite <- (take_drop k (numbered h)) at 2. rewrite filter_app.
  rewrite (filter_none _ (take k (numbered h))); [done|].
  apply Forall_lookup. intros i e Hi. apply lookup_take_Some in Hi as [Hi Hlt].
  apply numbered_lookup in Hi. lia.
Qed.

Lemma numbered_head k h e l :
  drop k (numbered h) = e :: l -> e.1 = Z.of_nat (S k).
Proof.
  intros Hd. apply (numbered_lookup h). assert (drop k (numbered h) !! 0%nat = Some e) as Hl by by rewrite Hd.
  rewrite lookup_drop, Nat.add_0_r in Hl. done.
Qed.

(** The log, given the true counter, answers exactly what is owed. *)
Lemma replayFrom_owed (l : DeviceReplayLog.t E) d h (n : Z) :
  0 <= n ->
  (h <> [] -> DeviceReplayLog.events <$> mget d (DeviceReplayLog.byDevice l) =
     Some (DeviceReplayLog.last_n (DeviceReplayLog.maxEventsPerDevice l) (numbered h))) ->
  (let '(evs, gap) := DeviceReplayLog.replayFrom d (Z.of_nat (length h)) n l in
   if gap : bool then None else Some evs) = owed (DeviceReplayLog.maxEventsPerDevice l) h n.
Proof.
  intros Hn Hlog. unfold DeviceReplayLog.replayFrom, owed.
  set (cap := DeviceReplayLog.maxEventsPerDevice l) in *.
  destruct (Z.ltb_spec (Z.of_nat (length h)) n) as [Hlt|Hle].
  { destruct (Z.leb_spec n (Z.of_nat (length h))); [lia|done]. }
  destruct (Z.leb_spec n (Z.of_nat (length h))); [|lia]. cbn [andb].
  destruct (Z.eqb_spec n (Z.of_nat (length h))) as [->|Hne].
  { destruct (Z.leb_spec (Z.of_nat (length h) - Z.max 0 cap) (Z.of_nat (length h))); [|lia].
    rewrite drop_ge; [done|]. rewrite length_numbered. lia. }
  assert (Hh : h <> []) by (intros ->; simpl in *; lia).
  specialize (Hlog Hh). destruct (mget d (DeviceReplayLog.byDevice l)) as [en|]; [|done].
  apply (inj Some) in Hlog. cbn [fmap option_fmap option_map] in Hlog. rewrite Hlog.
  unfold DeviceReplayLog.last_n. rewrite length_numbered.
  set (k := (length h - Z.to_nat cap)%nat).
  destruct (drop k (numbered h)) as [|[oldest e0] rest] eqn:Hd.
  { apply (f_equal length) in Hd. rewrite length_drop, length_numbered in Hd. simpl in Hd. subst k.
    destruct (Z.leb_spec (Z.of_nat (length h) - Z.max 0 cap) n); [lia|done]. }
  pose proof (numbered_head _ _ _ _ Hd) as Hold. cbn [fst] in Hold. subst oldest.
  destruct (Z.ltb_spec (n + 1) (Z.of_nat (S k))); subst k;
    destruct (Z.leb_spec (Z.of_nat (length h) - Z.max 0 cap) n); try lia; [done|].
  rewrite <- Hd. f_equal. apply filter_drop_numbered. lia.
Qed.

Lemma resumeFor_fst now d (n : Z) r :
  (resumeFor now d (Some n) r).1 =
    match mget d (outbound r) with
    | None => None
    | Some out => let '(evs, gap) := DeviceReplayLog.replayFrom d (OutboundStream.current out) n
                    (DeviceReplayLog.touch now d (log r)) in if gap : bool then None else Some evs
    end.
Proof.
  unfold resumeFor, outboundFor. destruct (mget d (outbound r)); [|done]. cbn [outbound log snd fst].
  by destruct (DeviceReplayLog.replayFrom _ _ _ _).
Qed.

(** A resume, in a registry that represents a journal. *)
Lemma resumeFor_owed r j now d (n : Z) :
  represents r j -> 0 <= n ->
  (resumeFor now d (Some n) r).1 =
    match j d with
    | Some h => owed (DeviceReplayLog.maxEventsPerDevice (log r)) h n
    | None => None
    end.
Proof.
  intros [Hw Hk Hs Hl Hno] Hn. rewrite resumeFor_fst. destruct (mget d (outbound r)) as [out|] eqn:Hout.
  - destruct (j d) as [h|] eqn:Hj; [|apply Hk in Hj; congruence].
    rewrite (Hs d out h Hout Hj). erewrite replayFrom_owed; [by rewrite touch_cap|done|].
    intros Hh. rewrite touch_events, touch_cap. by apply Hl.
  - apply Hk in Hout. by rewrite Hout.
Qed.

Lemma run_cap ops r :
  DeviceReplayLog.maxEventsPerDevice (log (run r ops)) = DeviceReplayLog.maxEventsPerDevice (log r).
Proof.
  revert r. induction ops as [|op ops IH]; intros r; [done|]. unfold run in *. cbn [foldl]. rewrite IH.
  destruct op as [now d ls|now d ev|d s|d s|d]; cbn [step]; try done.
  - pose proof (resumeFor_state now d ls r) as [_ ->]. apply touch_cap.
  - pose proof (recordSent_spec now d ev r) as (_ & -> & _). apply record_caps.
  - unfold acceptInbound. by destruct (InboundStream.accept _ _).
Qed.

End laws.

(** C10. Whatever the history of hellos, events, commands and revocations, a
    device that reconnects claiming [n] is resumed with exactly the events sent
    to it after [n], each at its original number, in order and without a hole;
    it is told to take a full resync exactly when the registry does not know it,
    when [n] was never issued, or when more events followed [n] than are kept. *)
Theorem resume_replays_exactly {E} (maxDevices maxEvents : Z) (ops : list (Op E)) now d (n : Z) :
  0 <= n ->
  fst (resumeFor now d (Some n) (run (new maxDevices maxEvents) ops)) =
    match journal_of (new maxDevices maxEvents) ops (fun _ => None) d with
    | Some h => owed maxEvents h n
    | None => None
    end.
Proof.
  intros Hn. pose proof (represents_run ops _ _ (represents_new (E:=E) maxDevices maxEvents)) as Hrep.
  rewrite (resumeFor_owed _ _ now d n Hrep Hn), run_cap. done.
Qed.

Lemma resume_replays_exactly_witness :
  fst (resumeFor 9 "d" (Some 1)
    (run (new 200 200) [OpHello 1 "d" None; OpSent 2 "d" "x"; OpSent 3 "e" "y"; OpSent 4 "d" "z"]))
  = Some [(2, "z")].
Proof. rewrite (resume_replays_exactly (E:=string)); [reflexivity|lia]. Defined.

(** The number an event is sent under is the device's count of events since
    the registry last forgot it: consecutive for a device that is not forgotten,
    whether it is connected or not, and never advanced by a hello. *)
Theorem sent_numbers_are_consecutive {E} (maxDevices maxEvents : Z) (ops : list (Op E)) now d (ev : E) :
  fst (recordSent now d ev (run (new maxDevices maxEvents) ops)) =
    Z.of_nat (length (default [] (journal_of (new maxDevices maxEvents) ops (fun _ => None) d))) + 1.
Proof.
  pose proof (represents_run ops _ _ (represents_new (E:=E) maxDevices maxEvents)) as Hr.
  pose proof (recordSent_spec now d ev (run (new maxDevices maxEvents) ops)) as (-> & _).
  apply (represents_default _ _ d Hr).
Qed.

(** *** Acknowledgement level and deduplication *)

Section inbound_laws.
Context {E : Type}.
Implicit Types (r : DeviceSessions.t E).

(** The successes reported for [d], and the numbers offered by [d], since the
    device was last revoked. *)
Definition marked_op (d : string) (l : list Z) (op : Op E) : list Z :=
  match op with
  | OpProcessed d' seq => if decide (d' = d) then l ++ [seq] else l
  | OpEvict d' => if decide (d' = d) then [] else l
  | _ => l
  end.

Definition offered_op (d : string) (l : list Z) (op : Op E) : list Z :=
  match op with
  | OpAccept d' seq => if decide (d' = d) then l ++ [seq] else l
  | OpEvict d' => if decide (d' = d) then [] else l
  | _ => l
  end.

Definition marked (d : string) (ops : list (Op E)) : list Z := foldl (marked_op d) [] ops.
Definition offered (d : string) (ops : list (Op E)) : list Z := foldl (offered_op d) [] ops.

(** [p] records the successes of [l]: everything up to [through], the rest in
    [ahead], [gap] past the level. *)
Record tracks (gap : Z) (p : Processed) (l : list Z) : Prop := {
  tr_nonneg : 0 <= through p;
  tr_through k : 1 <= k <= through p -> k ∈ l;
  tr_ahead k : k ∈ ahead p -> k ∈ l /\ through p + gap < k;
  tr_all k : k ∈ l -> k <= through p \/ k ∈ ahead p;
}.

Lemma sdelete_shrinks (x : Z) (s : jsset Z) : x ∈ s -> (length (sdelete x s) < length s)%nat.
Proof.
  unfold sdelete. induction s as [|y s IH]; intros Hin; [by apply not_elem_of_nil in Hin|].
  rewrite filter_cons. case_decide.
  - simpl. apply elem_of_cons in Hin as [->|Hin]; [done|]. specialize (IH Hin). lia.
  - simpl. pose proof (length_filter (fun y => y <> x) s). lia.
Qed.

(** The loop ends with the gap open, whatever the set holds. *)
Lemma close_gap_tracks fuel p l :
  (length (ahead p) <= fuel)%nat -> tracks 0 p l -> tracks 1 (close_gap fuel p) l.
Proof.
  revert p. induction fuel as [|fuel IH]; intros p Hf [Hn Ht Ha Hl]; simpl.
  - destruct (ahead p) eqn:Hp; [|simpl in Hf; lia]. split; rewrite ?Hp; try done. intros k Hk. by apply not_elem_of_nil in Hk.
  - destruct (shas _ _) eqn:Hs; [apply shas_true in Hs|apply shas_false in Hs].
    + apply IH; cbn [ahead through].
      * pose proof (sdelete_shrinks _ _ Hs). lia.
      * split; cbn [ahead through]; [lia| | |].
        -- intros k Hk. destruct (decide (k = through p + 1)) as [->|]; [by apply Ha|apply Ht; lia].
        -- intros k [Hk1 Hk2]%elem_sdelete. split; [by apply Ha|]. specialize (Ha k Hk2). lia.
        -- intros k Hk. destruct (Hl k Hk); [left; lia|]. destruct (decide (k = through p + 1)) as [->|]; [left; lia|].
           right. by apply elem_sdelete.
    + split; [done|done| |done]. intros k Hk. specialize (Ha k Hk). split; [tauto|].
      destruct (decide (k = through p + 1)) as [->|]; [done|lia].
Qed.

Lemma mark_tracks p l seq : tracks 1 p l -> tracks 1 (mark seq p) (l ++ [seq]).
Proof.
  intros [Hn Ht Ha Hl]. unfold mark.
  destruct (Z.eqb_spec seq (through p + 1)) as [->|Hne].
  - apply close_gap_tracks; [done|]. split; cbn [ahead through]; [lia| | |].
    + intros k Hk. apply elem_of_app. destruct (decide (k = through p + 1)) as [->|]; [right; set_solver|left; apply Ht; lia].
    + intros k Hk. specialize (Ha k Hk). split; [apply elem_of_app; tauto|lia].
    + intros k [Hk|Hk]%elem_of_app; [destruct (Hl k Hk); [left; lia|by right]|]. left. set_solver by lia.
  - destruct (Z.ltb_spec (through p) seq); split; cbn [ahead through]; try done.
    + intros k Hk. apply elem_of_app. left. by apply Ht.
    + intros k [->|Hk]%elem_sadd; rewrite elem_of_app; [split; [right; set_solver|lia]|].
      specialize (Ha k Hk). tauto.
    + intros k [Hk|Hk]%elem_of_app; rewrite elem_sadd; [destruct (Hl k Hk); tauto|set_solver].
    + intros k Hk. apply elem_of_app. left. by apply Ht.
    + intros k Hk. rewrite elem_of_app. specialize (Ha k Hk). tauto.
    + intros k [Hk|Hk]%elem_of_app; [by apply Hl|]. left. set_solver by lia.
Qed.

Lemma run_snoc_reg r ops op : run r (ops ++ [op]) = step (run r ops) op.
Proof. unfold run. by rewrite foldl_app. Qed.

Lemma step_processed_other r op :
  (match op with OpProcessed _ _ | OpEvict _ => False | _ => True end) ->
  processed (step r op) = processed r.
Proof.
  destruct op as [now d ls|now d ev|d s|d s|d]; try done; intros _; cbn [step].
  - unfold resumeFor, outboundFor. destruct (mget d (outbound r)); cbn; destruct ls; try done.
    by destruct (DeviceReplayLog.replayFrom _ _ _ _).
  - unfold recordSent, outboundFor. destruct (mget d (outbound r)); cbn; by destruct (DeviceReplayLog.record _ _ _ _ _).
  - unfold acceptInbound. by destruct (InboundStream.accept _ _).
Qed.

Lemma step_inbound_other r op :
  (match op with OpAccept _ _ | OpEvict _ => False | _ => True end) ->
  inbound (step r op) = inbound r.
Proof.
  destruct op as [now d ls|now d ev|d s|d s|d]; try done; intros _; cbn [step].
  - unfold resumeFor, outboundFor. destruct (mget d (outbound r)); cbn; destruct ls; try done.
    by destruct (DeviceReplayLog.replayFrom _ _ _ _).
  - unfold recordSent, outboundFor. destruct (mget d (outbound r)); cbn; by destruct (DeviceReplayLog.record _ _ _ _ _).
Qed.

Lemma processed_tracks a b (ops : list (Op E)) d :
  tracks 1 (default (mkProcessed 0 []) (mget d (processed (run (new a b) ops)))) (marked d ops).
Proof.
  unfold marked. induction ops as [|op ops IH] using rev_ind.
  - split; simpl; [lia|lia|set_solver|set_solver].
  - rewrite run_snoc_reg, foldl_app. cbn [foldl]. set (r := run _ _) in *.
    destruct op as [now d' ls|now d' ev|d' s|d' s|d']; cbn [marked_op];
      try (rewrite step_processed_other by done; exact IH).
    + cbn [step markProcessed processed]. rewrite mget_mset. case_decide as H1; [subst; rewrite decide_True by done|].
      * cbn [default]. by apply mark_tracks.
      * by rewrite decide_False by congruence.
    + cbn [step evict processed]. rewrite mget_mdelete. case_decide as H1; [subst; rewrite decide_True by done|].
      * split; simpl; [lia|lia|set_solver|set_solver].
      * by rewrite decide_False by congruence.
Qed.

Lemma inbound_stream a b (ops : list (Op E)) d :
  default InboundStream.new (mget d (inbound (run (new a b) ops))) = InboundStream.run (offered d ops).
Proof.
  unfold offered. induction ops as [|op ops IH] using rev_ind; [done|].
  rewrite run_snoc_reg, foldl_app. cbn [foldl]. set (r := run _ _) in *.
  destruct op as [now d' ls|now d' ev|d' s|d' s|d']; cbn [offered_op];
    try (rewrite step_inbound_other by done; exact IH).
  - cbn [step]. unfold acceptInbound.
    destruct (InboundStream.accept (default InboundStream.new (mget d' (inbound r))) s) as [ok s'] eqn:Ha.
    cbn [snd inbound]. rewrite mget_mset. case_decide as H1; [subst; rewrite decide_True by done|].
    + rewrite run_snoc, <- IH, Ha. done.
    + by rewrite decide_False by congruence.
  - cbn [step evict inbound]. rewrite mget_mdelete. case_decide as H1; [subst; by rewrite decide_True|].
    by rewrite decide_False by congruence.
Qed.

End inbound_laws.

Lemma level_marked {E} (a b : Z) (ops : list (Op E)) d k :
  1 <= k <= ackLevel d (run (new a b) ops) -> k ∈ marked d ops.
Proof.
  pose proof (processed_tracks a b ops d) as [_ Ht _ _]. unfold ackLevel.
  destruct (mget d (processed (run (new a b) ops))) as [p|]; [apply Ht|lia].
Qed.

(** The acknowledgement level is exactly the length of the contiguous prefix
    of successes: every command up to it was handled successfully, and the next
    one was not, whatever the order the successes came in; so an acknowledgement
    never confirms a command that failed. *)
Theorem ack_level_is_success_prefix {E} (a b : Z) (ops : list (Op E)) d :
  let n := ackLevel d (run (new a b) ops) in
  0 <= n /\ (forall k, 1 <= k <= n -> k ∈ marked d ops) /\ n + 1 ∉ marked d ops.
Proof.
  pose proof (processed_tracks a b ops d) as [Hn Ht Ha Hl].
  unfold ackLevel. destruct (mget d (processed (run (new a b) ops))) as [p|]; unfold id in *; cbn [default from_option through ahead] in *.
  - split_and!; [done|done|]. intros Hin. destruct (Hl _ Hin) as [?|Hin']; [lia|]. specialize (Ha _ Hin'). lia.
  - split_and!; [done|done|]. intros Hin. destruct (Hl _ Hin) as [H|H]; simpl in H; [lia|set_solver].
Qed.

(** Command deduplication is per device and survives hellos, reconnects and
    replay-log evictions: until the device is revoked, a command within 2000 of
    its highest number is let through if and only if it was never offered. *)
Theorem inbound_dedup_survives {E} (a b : Z) (ops : list (Op E)) d (seq : Z) :
  foldr Z.max 0 (offered d ops) - 2000 <= seq ->
  fst (acceptInbound d seq (run (new a b) ops)) = negb (bool_decide (seq ∈ offered d ops)).
Proof.
  intros Hw. unfold acceptInbound. rewrite inbound_stream.
  rewrite <- (accept_exact _ _ Hw). by destruct (InboundStream.accept _ _).
Qed.

Lemma inbound_dedup_survives_witness :
  let ops := [OpAccept "d" 1; OpHello 1 "d" None; OpSent 2 "e" "x"; OpSent 3 "d" "y"; OpSent 4 "e" "z"] in
  fst (acceptInbound "d" 1 (run (new 1 200) ops)) = false.
Proof.
  intros ops. refine (eq_trans (inbound_dedup_survives 1 200 ops "d" 1 _) _); [simpl; lia|reflexivity].
Defined.

(** A daemon that never sees a device's command number 1 succeed never
    acknowledges any of the device's commands: its level stays 0, however many
    later ones succeed.  This is the state of every device whose counter
    continues across a restart of the daemon. *)
Theorem no_ack_after_restart {E} (a b : Z) (ops : list (Op E)) d :
  Forall (fun seq => 2 <= seq) (marked d ops) -> ackLevel d (run (new a b) ops) = 0.
Proof.
  intros Hall. rewrite Forall_forall in Hall. pose proof (processed_tracks a b ops d) as [Hn Ht _ _].
  unfold ackLevel. destruct (mget d (processed (run (new a b) ops))) as [p|]; [|done].
  cbn [default from_option id] in *. destruct (decide (through p = 0)) as [|Hne]; [done|].
  specialize (Hall 1 (Ht 1 ltac:(unfold id in *; lia))). simpl in Hall. lia.
Qed.

Lemma no_ack_after_restart_witness :
  ackLevel "cli" (run (new (E:=string) 200 200)
    [OpHello 1 "cli" None; OpAccept "cli" 8; OpProcessed "cli" 8; OpAccept "cli" 9; OpProcessed "cli" 9]) = 0.
Proof. apply no_ack_after_restart. simpl. repeat constructor; lia. Defined.
