(* ===== verification/Approvals.v ===== *)
(** * The approval broker

    [packages/daemon/src/domain/approvals.ts], class [ApprovalBroker].  The
    listeners of its events and the waiters' callbacks are code of other
    components, so they are a record of ports over an external state; any of
    them may throw, and then the rest of the operation does not run.  A waiter
    is an opaque handle (the source's [respond] closure, made once per [open]). *)

From S2P Require Import Prelude JsMap Js Types.

Local Open Scope Z_scope.

Module ApprovalBroker.

Section broker.
Context {W X : Type}.

Record Ports : Type := mkPorts {
  respond : W -> Verdict -> string -> eff X unit;
  on_pending : PendingApproval -> eff X unit;
  on_resolved : PendingApproval -> eff X unit;
}.

(** The broker's maps, the identifiers of the scheduled 60 s purge timers, the
    external state, and the account of every [respond] call made so far. *)
Record t : Type := mk {
  pending : jsmap string PendingApproval;
  waiters : jsmap string W;
  timers : list string;
  ext : X;
  answered : list (W * Verdict * string);
}.

Definition new (x : X) : t := mk [] [] [] x [].

Inductive DecideResult : Type := ok | already | unknown.

Definition set_pending (m : jsmap string PendingApproval) (b : t) : t :=
  mk m (waiters b) (timers b) (ext b) (answered b).
Definition set_waiters (m : jsmap string W) (b : t) : t :=
  mk (pending b) m (timers b) (ext b) (answered b).

(** A call of outside code. *)
Definition outside (m : eff X unit) : eff t unit := fun b =>
  let (o, x') := m (ext b) in
  (o, mk (pending b) (waiters b) (timers b) x' (answered b)).

(** [waiter?.respond(decision, reason)] *)
Definition call_waiter (p : Ports) (w : option W) (v : Verdict) (reason : string) : eff t unit :=
  match w with
  | None => mret tt
  | Some w =>
      modify (fun b => mk (pending b) (waiters b) (timers b) (ext b) (answered b ++ [(w, v, reason)])) ;;
      outside (respond p w v reason)
  end.

(** [setTimeout(() => this.pending.delete(toolUseId), 60_000)] *)
Definition schedule_purge (id : string) : eff t unit :=
  modify (fun b => mk (pending b) (waiters b) (timers b ++ [id]) (ext b) (answered b)).

Definition with_decision (a : PendingApproval) (d : DecisionRecord) : PendingApproval :=
  mkPendingApproval (toolUseId a) (pa_sessionId a) (toolName a) (toolInput a)
    (pa_description a) (requestedAt a) (deadlineAt a) (Some d).

(** [open(approval, waiter)] *)
Definition open (p : Ports) (approval : PendingApproval) (waiter : W) : eff t bool :=
  b ← gets id;
  if mhas (toolUseId approval) (pending b) then mret false
  else
    modify (fun b => set_pending (mset (toolUseId approval) approval (pending b)) b) ;;
    modify (fun b => set_waiters (mset (toolUseId approval) waiter (waiters b)) b) ;;
    outside (on_pending p approval) ;;
    mret true.

(** [list()] *)
Definition list_undecided (b : t) : list PendingApproval :=
  filter (fun a => decision a = None) (mvalues (pending b)).

(** [get(toolUseId)] *)
Definition get (toolUseId : string) (b : t) : option PendingApproval := mget toolUseId (pending b).

(** [decide(toolUseId, decision, reason, by)] *)
Definition decide (p : Ports) (now : Z) (toolUseId : string) (v : Verdict) (reason by_ : string)
    : eff t DecideResult :=
  b ← gets id;
  match mget toolUseId (pending b) with
  | None => mret unknown
  | Some approval =>
      match decision approval with
      | Some _ => mret already
      | None =>
          let approval' := with_decision approval (mkDecision v reason by_ now) in
          modify (fun b => set_pending (mset toolUseId approval' (pending b)) b) ;;
          waiter ← gets (fun b => mget toolUseId (waiters b));
          modify (fun b => set_waiters (mdelete toolUseId (waiters b)) b) ;;
          call_waiter p waiter v reason ;;
          outside (on_resolved p approval') ;;
          schedule_purge toolUseId ;;
          mret ok
      end
  end.

Definition abandoned : string := "request abandoned".

(** [abandon(toolUseId)] *)
Definition abandon (p : Ports) (now : Z) (toolUseId : string) : eff t unit :=
  b ← gets id;
  match mget toolUseId (pending b) with
  | None => mret tt
  | Some a =>
      match decision a with
      | Some _ => mret tt
      | None =>
          waiter ← gets (fun b => mget toolUseId (waiters b));
          modify (fun b => set_waiters (mdelete toolUseId (waiters b)) b) ;;
          let a' := with_decision a (mkDecision deny abandoned "daemon" now) in
          modify (fun b => set_pending (mset toolUseId a' (pending b)) b) ;;
          call_waiter p waiter deny abandoned ;;
          outside (on_resolved p a') ;;
          schedule_purge toolUseId
      end
  end.

(** A purge timer fires: [this.pending.delete(toolUseId)]. *)
Definition purge (toolUseId : string) (b : t) : t :=
  mk (mdelete toolUseId (pending b)) (waiters b)
     (remove_one toolUseId (timers b)) (ext b) (answered b).

(** ** Steps: one call from a socket handler, or a timer *)

Inductive Op : Type :=
| OpOpen (approval : PendingApproval) (waiter : W)
| OpDecide (now : Z) (id : string) (v : Verdict) (reason by_ : string)
| OpAbandon (now : Z) (id : string)
| OpPurge (id : string).

(** The fresh requests are undecided, and a timer fires only if it was set. *)
Inductive step (p : Ports) : t -> Op -> t -> Prop :=
| step_open b a w : decision a = None -> step p b (OpOpen a w) (snd (open p a w b))
| step_decide b now id v r by_ : step p b (OpDecide now id v r by_) (snd (decide p now id v r by_ b))
| step_abandon b now id : step p b (OpAbandon now id) (snd (abandon p now id b))
| step_purge b id : id ∈ timers b -> step p b (OpPurge id) (purge id b).

(** The handle an [open] registers, when it wins the identifier. *)
Definition winner (op : Op) (b : t) : list W :=
  match op with
  | OpOpen a w => if mhas (toolUseId a) (pending b) then [] else [w]
  | _ => []
  end.

(** The handles of the requests that were presented. *)
Definition handle (op : Op) : list W :=
  match op with OpOpen _ w => [w] | _ => [] end.

(** [reach p x ops won b]: the sequence [ops] leads a new broker to [b], and
    [won] are the handles that won their identifier, in order. *)
Inductive reach (p : Ports) (x : X) : list Op -> list W -> t -> Prop :=
| reach_nil : reach p x [] [] (new x)
| reach_snoc ops won b op b' :
    reach p x ops won b -> step p b op b' -> reach p x (ops ++ [op]) (won ++ winner op b) b'.

Definition handles (ops : list Op) : list W := mbind handle ops.

(** The answers given to the handle [w]. *)
Definition answers_of `{EqDecision W} (w : W) (b : t) : list (W * Verdict * string) :=
  filter (fun x => x.1.1 = w) (answered b).

Record wf (b : t) : Prop := {
  wf_pending : mwf (pending b);
  wf_waiters : mwf (waiters b);
  wf_id id a : mget id (pending b) = Some a -> toolUseId a = id;
  (** a request has a waiter exactly while it is undecided *)
  wf_waiting id : mhas id (waiters b) = true <->
    exists a, mget id (pending b) = Some a /\ decision a = None;
  (** only decided requests are scheduled for removal *)
  wf_timers id : id ∈ timers b -> exists a, mget id (pending b) = Some a /\ decision a <> None;
  wf_nodup : NoDup (timers b);
}.

End broker.
Arguments Ports : clear implicits.
Arguments t : clear implicits.
Arguments Op : clear implicits.

End ApprovalBroker.

Import ApprovalBroker.

(** ** Laws *)

Section laws.
Context {W X : Type} `{EqDecision W}.
Implicit Types (b : ApprovalBroker.t W X) (p : Ports W X).

(** What settling an undecided request does, wherever a callback throws. *)
Record settled (id : string) (a' : PendingApproval) (v : Verdict) (reason : string) b b' : Prop := {
  st_pending : pending b' = mset id a' (pending b);
  st_waiters : waiters b' = mdelete id (waiters b);
  st_timers : timers b' = timers b \/ timers b' = timers b ++ [id];
  st_answered : answered b' = answered b ++
    match mget id (waiters b) with Some w => [(w, v, reason)] | None => [] end;
}.

Lemma outside_state (m : eff X unit) b :
  pending (snd (outside (W:=W) m b)) = pending b /\ waiters (snd (outside m b)) = waiters b /\
  timers (snd (outside m b)) = timers b /\ answered (snd (outside m b)) = answered b.
Proof. unfold outside. by destruct (m (ext b)). Qed.

Lemma call_waiter_state p o v reason b :
  let b' := snd (call_waiter p o v reason b) in
  pending b' = pending b /\ waiters b' = waiters b /\ timers b' = timers b /\
  answered b' = answered b ++ match o with Some w => [(w, v, reason)] | None => [] end.
Proof.
  destruct o as [w|]; simpl; [|by rewrite app_nil_r].
  unfold modify, mbind, eff_bind. simpl. apply (outside_state (respond p w v reason)
    (mk (pending b) (waiters b) (timers b) (ext b) (answered b ++ [(w, v, reason)]))).
Qed.

(** The common tail of [decide] and [abandon]. *)
Lemma settle_tail {A} p o v reason a' id (k : eff (ApprovalBroker.t W X) A) b :
  (forall b', snd (k b') = b') ->
  let b' := snd ((call_waiter p o v reason ;; outside (on_resolved p a') ;; schedule_purge id ;; k) b) in
  pending b' = pending b /\ waiters b' = waiters b /\
  (timers b' = timers b \/ timers b' = timers b ++ [id]) /\
  answered b' = answered b ++ match o with Some w => [(w, v, reason)] | None => [] end.
Proof.
  intros Hk. unfold mbind, eff_bind. pose proof (call_waiter_state p o v reason b) as Hc.
  destruct (call_waiter p o v reason b) as [[u|e] b1]; cbn [snd] in *; [|naive_solver].
  pose proof (outside_state (on_resolved p a') b1) as Ho.
  destruct (outside (on_resolved p a') b1) as [[u'|e] b2]; cbn [snd] in *; [|naive_solver congruence].
  cbn [schedule_purge modify snd]. rewrite Hk. cbn [pending waiters timers answered].
  destruct Ho as (-> & -> & -> & ->), Hc as (-> & -> & Hc3 & ->). rewrite Hc3. naive_solver.
Qed.

Lemma decide_settles p now id v reason by_ b a :
  mget id (pending b) = Some a -> decision a = None ->
  settled id (with_decision a (mkDecision v reason by_ now)) v reason b (snd (decide p now id v reason by_ b)).
Proof.
  intros Ha Hd. unfold decide. unfold mbind at 1, eff_bind at 1, gets at 1. cbn [Datatypes.id].
  rewrite Ha, Hd. unfold mbind at 1, eff_bind at 1, modify at 1.
  unfold mbind at 1, eff_bind at 1, gets at 1. unfold mbind at 1, eff_bind at 1, modify at 1.
  cbn [set_pending set_waiters pending waiters timers ext answered].
  match goal with |- settled _ _ _ _ _ (snd (_ ?b1)) =>
    pose proof (settle_tail p (mget id (waiters b)) v reason (with_decision a (mkDecision v reason by_ now)) id
      (mret ok) b1 ltac:(done)) as (H1 & H2 & H3 & H4) end.
  split; [exact H1|exact H2|exact H3|exact H4].
Qed.

Lemma abandon_settles p now id b a :
  mget id (pending b) = Some a -> decision a = None ->
  settled id (with_decision a (mkDecision deny abandoned "daemon" now)) deny abandoned b
    (snd (abandon p now id b)).
Proof.
  intros Ha Hd. unfold abandon. unfold mbind at 1, eff_bind at 1, gets at 1. cbn [Datatypes.id].
  rewrite Ha, Hd. unfold mbind at 1, eff_bind at 1, gets at 1.
  unfold mbind at 1, eff_bind at 1, modify at 1. unfold mbind at 1, eff_bind at 1, modify at 1.
  cbn [set_pending set_waiters pending waiters timers ext answered].
  match goal with |- settled _ _ _ _ _ (snd (_ ?b1)) =>
    pose proof (settle_tail p (mget id (waiters b)) deny abandoned
      (with_decision a (mkDecision deny abandoned "daemon" now)) id (mret tt) b1 ltac:(done)) as (H1 & H2 & H3 & H4) end.
  split; [exact H1|exact H2|exact H3|exact H4].
Qed.

Lemma open_lost p a w b : mhas (toolUseId a) (pending b) = true -> open p a w b = (Ok false, b).
Proof. intros Hh. unfold open, mbind, eff_bind, gets. cbn. by rewrite Hh. Qed.

Lemma open_won p a w b :
  mhas (toolUseId a) (pending b) = false ->
  let b' := snd (open p a w b) in
  pending b' = mset (toolUseId a) a (pending b) /\ waiters b' = mset (toolUseId a) w (waiters b) /\
  timers b' = timers b /\ answered b' = answered b.
Proof.
  intros Hh. unfold open, mbind, eff_bind, gets. cbn. rewrite Hh. unfold modify, set_pending, set_waiters.
  cbn [pending waiters timers ext answered].
  match goal with |- context [outside _ ?b1] => pose proof (outside_state (on_pending p a) b1) as Ho;
    destruct (outside (on_pending p a) b1) as [[u|e] b2] end; cbn in *; naive_solver.
Qed.

(** A step leaves the maps alone, opens a fresh identifier, settles an undecided
    request, or purges a decided one. *)
Inductive effect (op : Op W) b b' : Prop :=
| eff_none : b' = b -> winner op b = [] -> effect op b b'
| eff_open a w : op = OpOpen a w -> decision a = None -> mhas (toolUseId a) (pending b) = false ->
    pending b' = mset (toolUseId a) a (pending b) -> waiters b' = mset (toolUseId a) w (waiters b) ->
    timers b' = timers b -> answered b' = answered b -> winner op b = [w] -> effect op b b'
| eff_settle id a d : (exists now, (exists v r by_, op = OpDecide now id v r by_) \/ op = OpAbandon now id) ->
    mget id (pending b) = Some a -> decision a = None ->
    settled id (with_decision a d) (d_decision d) (d_reason d) b b' -> winner op b = [] -> effect op b b'
| eff_purge id : op = OpPurge id -> id ∈ timers b -> b' = purge id b -> winner op b = [] -> effect op b b'.

Lemma decide_idle p now id v reason by_ b :
  (forall a, mget id (pending b) = Some a -> decision a <> None) ->
  snd (decide p now id v reason by_ b) = b /\
  fst (decide p now id v reason by_ b) =
    Ok match mget id (pending b) with None => unknown | Some _ => already end.
Proof.
  intros Hd. unfold decide, mbind, eff_bind, gets. cbn. destruct (mget id (pending b)) as [a|]; [|done].
  specialize (Hd a eq_refl). by destruct (decision a).
Qed.

Lemma abandon_idle p now id b :
  (forall a, mget id (pending b) = Some a -> decision a <> None) -> snd (abandon p now id b) = b.
Proof.
  intros Hd. unfold abandon, mbind, eff_bind, gets. cbn. destruct (mget id (pending b)) as [a|]; [|done].
  specialize (Hd a eq_refl). by destruct (decision a).
Qed.

Lemma step_effect p b op b' : step p b op b' -> effect op b b'.
Proof.
  destruct 1 as [b a w Ha|b now id v r by_|b now id|b id Hin].
  - destruct (mhas (toolUseId a) (pending b)) eqn:Hh.
    + rewrite open_lost by done. apply eff_none; [done|]. simpl. by rewrite Hh.
    + pose proof (open_won p a w b Hh) as (H1 & H2 & H3 & H4). eapply eff_open; try done. simpl. by rewrite Hh.
  - destruct (mget id (pending b)) as [a|] eqn:Hid; [destruct (decision a) eqn:Hd|].
    + apply eff_none; [|done]. apply decide_idle. intros a' Ha'. congruence.
    + eapply (eff_settle _ _ _ id a (mkDecision v r by_ now)); eauto 10. by apply decide_settles.
    + apply eff_none; [|done]. apply decide_idle. intros a' Ha'. congruence.
  - destruct (mget id (pending b)) as [a|] eqn:Hid; [destruct (decision a) eqn:Hd|].
    + apply eff_none; [|done]. apply abandon_idle. intros a' Ha'. congruence.
    + eapply (eff_settle _ _ _ id a (mkDecision deny abandoned "daemon" now)); eauto 10. by apply abandon_settles.
    + apply eff_none; [|done]. apply abandon_idle. intros a' Ha'. congruence.
  - by eapply eff_purge.
Qed.

Lemma broker_wf_new (x : X) : wf (new (W:=W) x).
Proof.
  split; simpl; try done; try apply mwf_nil; try constructor; try done.
  - intros (a & [=] & _).
  - intros i Hin. by apply not_elem_of_nil in Hin.
Qed.

Lemma mhas_mset {K V} `{EqDecision K} (k k' : K) (v : V) m :
  mhas k' (mset k v m) = if base.decide (k' = k) then true else mhas k' m.
Proof. unfold mhas. rewrite mget_mset. by case_decide. Qed.

Lemma mhas_mdelete {K V} `{EqDecision K} (k k' : K) (m : list (K * V)) :
  mhas k' (mdelete k m) = if base.decide (k' = k) then false else mhas k' m.
Proof. unfold mhas. rewrite mget_mdelete. by case_decide. Qed.

Lemma broker_wf_effect op b b' : wf b -> effect op b b' -> wf b'.
Proof.
  intros [Hp Hw Hid Hwait Ht Hnd] He.
  destruct He as [->|a w -> Hd Hh Hp' Hw' Ht' _|id a d _ Ha Hd [Hp' Hw' Ht' _]|id -> Hin ->]; [by split|..].
  - assert (Hnone : mget (toolUseId a) (pending b) = None)
      by (unfold mhas in Hh; by destruct (mget (toolUseId a) (pending b))).
    split; rewrite ?Hp', ?Hw', ?Ht'; auto with jsmap.
    + intros id a'. rewrite mget_mset. case_decide; naive_solver.
    + intros id. rewrite mhas_mset, mget_mset. case_decide; [|apply Hwait]. naive_solver.
    + intros id Hin. destruct (Ht id Hin) as (a' & Ha' & Hd'). rewrite mget_mset.
      case_decide; [congruence|eauto].
  - assert (Hnt : id ∉ timers b) by (intros Hin; destruct (Ht id Hin) as (a' & Ha' & Hd'); congruence).
    split; rewrite ?Hp', ?Hw'; auto with jsmap.
    + intros id' a'. rewrite mget_mset. case_decide; [|apply Hid]. intros [= <-]. subst. exact (Hid _ _ Ha).
    + intros id'. rewrite mhas_mdelete, mget_mset. case_decide; [|apply Hwait].
      split; [done|]. intros (a' & [= <-] & Hd'). done.
    + intros id' Hin. rewrite mget_mset. case_decide; [eauto|].
      apply Ht. destruct Ht' as [Ht'|Ht']; rewrite Ht' in Hin; [done|]. set_solver.
    + destruct Ht' as [->| ->]; [done|]. apply NoDup_app. split; [done|]. split; [set_solver|apply NoDup_singleton].
  - destruct (Ht id Hin) as (a & Ha & Hd). split; simpl; auto with jsmap.
    + intros id' a'. rewrite mget_mdelete. case_decide; [done|apply Hid].
    + intros id'. rewrite mget_mdelete. rewrite Hwait. case_decide; [|done]. subst.
      split; [intros (a' & ? & ?); congruence|by intros (? & ? & _)].
    + intros id' [Hne Hin']%remove_one_elem; [|done]. rewrite mget_mdelete. case_decide; [done|auto].
    + by apply remove_one_NoDup.
Qed.

Lemma broker_wf_reach p x ops won b : reach p x ops won b -> wf b.
Proof.
  induction 1 as [|ops won b op b' _ IH Hst]; [apply broker_wf_new|].
  apply step_effect in Hst. by eapply broker_wf_effect.
Qed.

(** *** The account of answers *)

(** Waiting handles and answered handles are disjoint, duplicate-free, and
    together they are the handles that won. *)
Record accounted (won : list W) b : Prop := {
  ac_perm : mvalues (waiters b) ++ (answered b).*1.*1 ≡ₚ won;
}.

Lemma mvalues_mset_new {K V} `{EqDecision K} (k : K) (v : V) m :
  mhas k m = false -> mvalues (mset k v m) = mvalues m ++ [v].
Proof.
  intros Hh. rewrite mset_notin; [unfold mvalues; by rewrite fmap_app|].
  rewrite <- mhas_keys. by rewrite Hh.
Qed.

Lemma mvalues_mdelete {K V} `{EqDecision K} (k : K) (v : V) m :
  mwf m -> mget k m = Some v -> mvalues m ≡ₚ v :: mvalues (mdelete k m).
Proof.
  unfold mwf, mkeys, mvalues, mdelete. induction m as [|[k' v'] m IH]; simpl; [done|].
  intros Hnd. inv Hnd. rewrite filter_cons. destruct (base.decide (k = k')) as [->|Hne].
  - intros [= ->]. cbn [fst]. rewrite decide_False by naive_solver.
    rewrite filter_id; [done|]. rewrite Forall_forall. intros [k2 v2] Hin Heq. simpl in Heq. subst.
    apply (list_elem_of_fmap_2 fst) in Hin. done.
  - intros Hg. cbn [fst]. rewrite decide_True by congruence. simpl. rewrite (IH ltac:(done) Hg).
    apply Permutation_swap.
Qed.

Lemma accounted_effect op won b b' :
  wf b -> accounted won b -> effect op b b' -> accounted (won ++ winner op b) b'.
Proof.
  intros Hwf [Hp] He. destruct He as [-> Hn|a w -> Hd Hh Hp' Hw' Ht' Ha' Hn|id a d Hop Ha Hd [Hp' Hw' Ht' Ha'] Hn|id -> Hin -> Hn];
    rewrite Hn, ?app_nil_r; split; try done.
  - rewrite Hw', Ha', mvalues_mset_new.
    + rewrite <- Hp. by rewrite <- !(assoc_L (++)), (comm (++) [w]).
    + apply not_true_is_false. rewrite (wf_waiting _ Hwf). intros (a' & Ha2 & _).
      unfold mhas in Hh. by rewrite Ha2 in Hh.
  - rewrite Hw', Ha', <- Hp.
    destruct (mget id (waiters b)) as [w|] eqn:Hg.
    + rewrite (mvalues_mdelete id w (waiters b)) by (done || apply Hwf).
      rewrite !fmap_app. simpl. rewrite assoc_L by apply _. by rewrite <- Permutation_cons_append.
    + rewrite app_nil_r, mdelete_notin; [done|]. by apply mget_None_keys.
Qed.

Lemma accounted_reach p x ops won b : reach p x ops won b -> accounted won b.
Proof.
  induction 1 as [|ops won b op b' Hr IH Hst]; [by split|].
  apply step_effect in Hst. eapply accounted_effect; [by eapply broker_wf_reach|done|done].
Qed.

Lemma won_handles p x ops won b : reach p x ops won b -> won `sublist_of` handles ops.
Proof.
  induction 1 as [|ops won b op b' Hr IH Hst]; [constructor|].
  unfold handles. rewrite bind_app. apply sublist_app; [done|].
  destruct op as [a w| | |]; simpl; [destruct (mhas _ _)|..]; simpl; repeat constructor.
Qed.

Lemma answers_of_nil w b : answers_of w b = [] <-> w ∉ (answered b).*1.*1.
Proof.
  unfold answers_of. induction (answered b) as [|[[w' v] r] l IH]; [set_solver|].
  rewrite filter_cons. cbn [fst fmap list_fmap]. case_decide; [set_solver|].
  rewrite IH. set_solver.
Qed.

Lemma answers_of_one w b :
  NoDup (answered b).*1.*1 -> w ∈ (answered b).*1.*1 -> exists v r, answers_of w b = [(w, v, r)].
Proof.
  unfold answers_of. induction (answered b) as [|[[w' v] r] l IH]; intros Hnd Hin; [by apply not_elem_of_nil in Hin|].
  rewrite filter_cons. cbn [fst fmap list_fmap] in *. inv Hnd. case_decide as Hw.
  - subst. exists v, r. f_equal. apply filter_none. rewrite Forall_forall. intros [[w2 v2] r2] Hl Heq.
    simpl in Heq. subst. apply (list_elem_of_fmap_2 fst), (list_elem_of_fmap_2 fst) in Hl. done.
  - apply elem_of_cons in Hin as [?|Hin]; [congruence|]. auto.
Qed.

Lemma waiting_value b w :
  wf b -> w ∈ mvalues (waiters b) ->
  exists id a, mget id (waiters b) = Some w /\ mget id (pending b) = Some a /\ decision a = None.
Proof.
  intros Hwf [[id w'] [Heq Hin]]%list_elem_of_fmap. simpl in Heq. subst w'.
  apply elem_mget in Hin; [|apply Hwf].
  destruct (proj1 (wf_waiting _ Hwf id)) as (a & Ha & Hd); [unfold mhas; by rewrite Hin|]. eauto 10.
Qed.

(** C11. Every blocked hook consumes exactly one answer: a handle that won its
    identifier is either still waiting on an undecided request and unanswered,
    or has been answered exactly once; a handle that lost was never answered.
    This holds after any sequence of opens, decisions, abandons and purges,
    whatever the callbacks do or throw. *)
Theorem every_claim_answered_once p x ops won b w :
  reach p x ops won b -> NoDup (handles ops) -> w ∈ handles ops ->
  if bool_decide (w ∈ won) then
    (answers_of w b = [] /\ exists id a, mget id (waiters b) = Some w /\
        mget id (pending b) = Some a /\ decision a = None) \/
    ((exists v reason, answers_of w b = [(w, v, reason)]) /\ w ∉ mvalues (waiters b))
  else answers_of w b = [].
Proof.
  intros Hr Hnd Hin. pose proof (broker_wf_reach _ _ _ _ _ Hr) as Hwf.
  pose proof (ac_perm _ _ (accounted_reach _ _ _ _ _ Hr)) as Hperm.
  assert (Hndw : NoDup (mvalues (waiters b) ++ (answered b).*1.*1)).
  { rewrite Hperm. eapply sublist_NoDup; [done|]. by eapply won_handles. }
  apply NoDup_app in Hndw as (_ & Hdis & Hnda). case_bool_decide as Hw.
  - rewrite <- Hperm in Hw. apply elem_of_app in Hw as [Hw|Hw].
    + left. split; [apply answers_of_nil; auto|]. by apply waiting_value.
    + right. split; [by apply answers_of_one|]. intros Hw2. by apply (Hdis w).
  - apply answers_of_nil. intros Ha. apply Hw. rewrite <- Hperm. apply elem_of_app. by right.
Qed.

(** The life of a request, from any state: an undecided request keeps its
    content through every operation until a decision or an abandon of its own
    identifier settles it, a decided one never changes again, and only a decided
    one is ever removed, by its own timer. *)
Theorem request_lifecycle p x ops won b op b' id a :
  reach p x ops won b -> step p b op b' -> mget id (pending b) = Some a ->
  mget id (pending b') = Some a \/
  (decision a = None /\ (exists d, mget id (pending b') = Some (with_decision a d)) /\
   exists now, (exists v r by_, op = OpDecide now id v r by_) \/ op = OpAbandon now id) \/
  (decision a <> None /\ op = OpPurge id /\ mget id (pending b') = None).
Proof.
  intros Hr Hst Ha. pose proof (broker_wf_reach _ _ _ _ _ Hr) as Hwf.
  apply step_effect in Hst as [->|a' w -> Hd Hh Hp' _ _ _ _|id' a' d Hop Ha' Hd [Hp' _ _ _] _|id' -> Hin -> _].
  - by left.
  - left. rewrite Hp', mget_mset. case_decide; [|done]. subst. unfold mhas in Hh. by rewrite Ha in Hh.
  - rewrite Hp', mget_mset. case_decide; [|by left]. right. left. subst. rewrite Ha in Ha'. simplify_eq. eauto 10.
  - cbn [purge pending]. rewrite mget_mdelete. case_decide; [|by left]. right. right. subst.
    destruct (wf_timers _ Hwf id' Hin) as (a' & Ha2 & Hd). split_and!; congruence.
Qed.

(** What [decide] answers and does on every branch, the callbacks being
    allowed to throw: 'unknown' and 'already' change nothing; the winner's
    decision is recorded, its waiter is released with that very decision, and
    the outcome is 'ok' unless a callback threw. *)
Theorem decide_first_wins p now id v reason by_ b :
  wf b ->
  match mget id (pending b) with
  | None => decide p now id v reason by_ b = (Ok unknown, b)
  | Some a =>
      match decision a with
      | Some _ => decide p now id v reason by_ b = (Ok already, b)
      | None =>
          let '(o, b') := decide p now id v reason by_ b in
          mget id (pending b') = Some (with_decision a (mkDecision v reason by_ now)) /\
          (exists w, mget id (waiters b) = Some w /\ answered b' = answered b ++ [(w, v, reason)]) /\
          mhas id (waiters b') = false /\
          match o with Ok r => r = ok /\ id ∈ timers b' | Throw _ => True end
      end
  end.
Proof.
  intros Hwf. destruct (mget id (pending b)) as [a|] eqn:Ha; [destruct (decision a) eqn:Hd|].
  - unfold decide, mbind, eff_bind, gets. cbn. by rewrite Ha, Hd.
  - pose proof (decide_settles p now id v reason by_ b a Ha Hd) as [Hp' Hw' Ht' Hans].
    assert (Hres : forall r b', decide p now id v reason by_ b = (Ok r, b') -> r = ok /\ id ∈ timers b').
    { intros r b'. unfold decide, mbind, eff_bind, gets. cbn. rewrite Ha, Hd. cbn.
      match goal with |- context [call_waiter ?q ?o ?v ?r ?b1] => destruct (call_waiter q o v r b1) as [[?|?] b2] end; [|done].
      match goal with |- context [outside ?m b2] => destruct (outside m b2) as [[?|?] b3] end; [|done].
      cbn. intros [= <- <-]. split; [done|]. cbn. set_solver. }
    destruct (decide p now id v reason by_ b) as [o b']. cbn [snd] in *.
    split_and!.
    + rewrite Hp'. apply mget_mset_eq.
    + destruct (mget id (waiters b)) as [w|] eqn:Hg; [by exists w|].
      assert (mhas id (waiters b) = true) as Hh by (apply Hwf; eauto). unfold mhas in Hh. by rewrite Hg in Hh.
    + rewrite Hw', mhas_mdelete. by rewrite decide_True.
    + destruct o; [by apply Hres|done].
  - unfold decide, mbind, eff_bind, gets. cbn. by rewrite Ha.
Qed.

End laws.

(** ** A concrete broker: callbacks that do nothing, and one that throws *)

Definition quiet_ports : Ports nat unit :=
  mkPorts (fun _ _ _ => mret tt) (fun _ => mret tt) (fun _ => mret tt).
Definition faulty_ports : Ports nat unit :=
  mkPorts (fun _ _ _ => throw "EPIPE") (fun _ => mret tt) (fun _ => throw "SQLITE_BUSY").

Definition sample_approval (id tool : string) : PendingApproval :=
  mkPendingApproval id "s1" tool (JObj []) None 0 1000 None.

(** Two hooks present the same identifier; the phone refuses it. *)
Definition quiet_open : ApprovalBroker.t nat unit :=
  snd (open quiet_ports (sample_approval "t1" "Bash") 1%nat (new tt)).
Definition quiet_end : ApprovalBroker.t nat unit :=
  snd (decide quiet_ports 5 "t1" deny "no" "phone"
    (snd (open quiet_ports (sample_approval "t1" "Read") 2%nat quiet_open))).

Lemma quiet_reach :
  reach quiet_ports tt
    [OpOpen (sample_approval "t1" "Bash") 1%nat; OpOpen (sample_approval "t1" "Read") 2%nat;
     OpDecide 5 "t1" deny "no" "phone"]
    [1%nat]
    quiet_end.
Proof.
  apply (reach_snoc _ _ [OpOpen (sample_approval "t1" "Bash") 1%nat; OpOpen (sample_approval "t1" "Read") 2%nat]
    [1%nat] (snd (open quiet_ports (sample_approval "t1" "Read") 2%nat quiet_open)) (OpDecide 5 "t1" deny "no" "phone")); [|constructor].
  apply (reach_snoc _ _ [OpOpen (sample_approval "t1" "Bash") 1%nat] [1%nat] quiet_open
    (OpOpen (sample_approval "t1" "Read") 2%nat)); [|by constructor].
  apply (reach_snoc _ _ [] [] (new tt) (OpOpen (sample_approval "t1" "Bash") 1%nat)); [|by constructor].
  apply reach_nil.
Qed.

Lemma every_claim_answered_once_witness :
  answers_of 2%nat quiet_end = [] /\ answers_of 1%nat quiet_end = [(1%nat, deny, "no")].
Proof.
  split; [|reflexivity].
  refine (every_claim_answered_once _ _ _ _ _ 2%nat quiet_reach _ _).
  - simpl. repeat constructor; set_solver.
  - simpl. set_solver.
Defined.

Lemma request_lifecycle_witness : mget "t1" (pending (purge "t1" quiet_end)) = None.
Proof.
  set (a := with_decision (sample_approval "t1" "Bash") (mkDecision deny "no" "phone" 5)).
  destruct (request_lifecycle _ _ _ _ _ (OpPurge "t1") (purge "t1" quiet_end) "t1" a quiet_reach
    ltac:(apply step_purge, list_elem_of_here) eq_refl) as [H|[(H & _)|(_ & _ & H)]];
    [discriminate H|discriminate H|exact H].
Defined.

Lemma decide_first_wins_witness :
  let b := snd (open faulty_ports (sample_approval "t1" "Bash") 1%nat (new tt)) in
  mhas "t1" (waiters (snd (decide faulty_ports 5 "t1" allow "" "cli" b))) = false.
Proof.
  intros b. assert (wf b) as Hwf.
  { eapply broker_wf_effect; [apply broker_wf_new|]. by eapply (step_effect faulty_ports), step_open. }
  pose proof (decide_first_wins faulty_ports 5 "t1" allow "" "cli" b Hwf) as H.
  change (mget "t1" (pending b)) with (Some (sample_approval "t1" "Bash")) in H. cbn [decision sample_approval] in H.
  destruct (decide faulty_ports 5 "t1" allow "" "cli" b) as [o b']. exact (proj1 (proj2 (proj2 H))).
Defined.
