(* ===== verification/HookMargin.v ===== *)
(** * The spawn preconditions

    The hook-margin rule ([packages/daemon/src/domain/hookMargin.ts]), its
    reader ([packages/daemon/src/infrastructure/hookMarginFile.ts]) and the
    permission-mode rule ([packages/daemon/src/domain/permissionMode.ts]).
    Refusal reasons are values carrying what the source interpolates into the
    English text.  Numbers are exact rationals ([Js.v]). *)

From S2P Require Import Prelude JsMap Js Types.

Module HookMargin.

Definition MIN_MARGIN_MS : Z := 30000.

Inductive Reason : Type :=
| NoBridgeHook (label : string)
| TightMargin (settingsTimeoutMs marginMs : Q) (selfDenyMs : Z)
| NoSettings (path : string)
| InvalidJson (path : string).

Inductive MarginResult : Type :=
| MarginOk
| MarginRefused (reason : Reason).

(** [h.timeout], when [h] is a hook that runs the bridge with a finite timeout. *)
Definition bridge_timeout (h : jsval) : option Q :=
  match jprop "command" h with
  | JStr command =>
      if str_includes "approve-bridge.mjs" command then number_isFinite (jprop "timeout" h) else None
  | _ => None
  end.

(** The inner loop, over [entry?.hooks ?? []]. *)
Fixpoint scan_hooks (hooks : list jsval) (timeouts : list Q) : list Q :=
  match hooks with
  | [] => timeouts
  | h :: hooks' =>
      scan_hooks hooks' (match bridge_timeout h with Some t => timeouts ++ [t] | None => timeouts end)
  end.

(** The outer loop, over the entries of [PreToolUse]. *)
Fixpoint scan_entries (entries : list jsval) (timeouts : list Q) : outcome (list Q) :=
  match entries with
  | [] => Ok timeouts
  | entry :: entries' =>
      match jiter (jcoalesce (jprop "hooks" entry) (JArr [])) with
      | Throw e => Throw e
      | Ok hooks => scan_entries entries' (scan_hooks hooks timeouts)
      end
  end.

(** [Math.min(t, ...ts)] *)
Definition qmin (a b : Q) : Q := if Qle_bool a b then a else b.
Definition math_min (t : Q) (ts : list Q) : Q := foldl qmin t ts.

(** The decision on the collected timeouts. *)
Definition judge (timeouts : list Q) (selfDenyMs : Z) (label : string) : MarginResult :=
  match timeouts with
  | [] => MarginRefused (NoBridgeHook label)
  | t :: ts =>
      let settingsTimeoutMs := (math_min t ts * inject_Z 1000)%Q in
      let marginMs := (settingsTimeoutMs - inject_Z selfDenyMs)%Q in
      if Qle_bool (inject_Z MIN_MARGIN_MS) marginMs then MarginOk
      else MarginRefused (TightMargin settingsTimeoutMs marginMs selfDenyMs)
  end.

Definition evaluateHookMargin (settings : jsval) (selfDenyMs : Z) (label : string) : outcome MarginResult :=
  match jiter (jcoalesce (jprop "PreToolUse" (jprop "hooks" settings)) (JArr [])) with
  | Throw e => Throw e
  | Ok entries =>
      match scan_entries entries [] with
      | Throw e => Throw e
      | Ok timeouts => Ok (judge timeouts selfDenyMs label)
      end
  end.

(** [FileHookMarginPolicy.check], over the file system's [readFileSync] and
    [JSON.parse], each [None] where the call throws. *)
Definition check (readFile : string -> option string) (parseJson : string -> option jsval)
    (cwd : string) (selfDenyMs : Z) : outcome MarginResult :=
  let settingsPath := cwd +:+ "/.claude/settings.json" in
  match readFile settingsPath with
  | None => Ok (MarginRefused (NoSettings settingsPath))
  | Some raw =>
      match parseJson raw with
      | None => Ok (MarginRefused (InvalidJson settingsPath))
      | Some settings => evaluateHookMargin settings selfDenyMs settingsPath
      end
  end.

(** ** The rule, stated without loops *)

(** [settings] installs the bridge with timeout [t] (in seconds). *)
Definition installs (settings : jsval) (t : Q) : Prop :=
  exists entries entry hooks h command,
    jprop "PreToolUse" (jprop "hooks" settings) = JArr entries /\ entry ∈ entries /\
    jprop "hooks" entry = JArr hooks /\ h ∈ hooks /\
    jprop "command" h = JStr command /\ str_includes "approve-bridge.mjs" command = true /\
    jprop "timeout" h = JNum (NumFin t).

(** A timeout of [t] seconds leaves the margin over the self-deny. *)
Definition leaves_margin (selfDenyMs : Z) (t : Q) : Prop :=
  (inject_Z selfDenyMs + inject_Z MIN_MARGIN_MS <= t * inject_Z 1000)%Q.

End HookMargin.

Module PermissionModePolicy.

Definition APPROVAL_PRESERVING_MODES : list PermissionMode := [plan].

Definition permissionModeIsAllowed (mode : PermissionMode) : bool :=
  bool_decide (mode ∈ APPROVAL_PRESERVING_MODES).

Definition mode_string (mode : PermissionMode) : string :=
  match mode with
  | acceptEdits => "acceptEdits" | auto => "auto" | bypassPermissions => "bypassPermissions"
  | manual => "manual" | dontAsk => "dontAsk" | plan => "plan"
  end.

Fixpoint join (sep : string) (l : list string) : string :=
  match l with
  | [] => ""
  | [s] => s
  | s :: l' => s +:+ sep +:+ join sep l'
  end.

Definition permissionModeRefusal (mode : PermissionMode) : string :=
  "refusing permission mode '" +:+ mode_string mode +:+
  "': it can let a tool run without a remote approval, " +:+
  "which is the guarantee this daemon exists to enforce. Allowed: " +:+
  join ", " (mode_string <$> APPROVAL_PRESERVING_MODES) +:+ " " +:+
  "(or omit it for the default per-tool approval flow).".

End PermissionModePolicy.

Import HookMargin.

(** ** Laws *)

Lemma bridge_timeout_Some h t :
  bridge_timeout h = Some t <->
  exists command, jprop "command" h = JStr command /\ str_includes "approve-bridge.mjs" command = true /\
    jprop "timeout" h = JNum (NumFin t).
Proof.
  unfold bridge_timeout. split.
  - destruct (jprop "command" h) as [| | | |c| |]; try done.
    destruct (str_includes _ _) eqn:Hi; [|done]. intros Ht. exists c. split_and!; [done|done|].
    destruct (jprop "timeout" h) as [| | |[| |q]| | |]; naive_solver.
  - intros (c & -> & -> & ->). done.
Qed.

Lemma elem_scan_hooks hooks acc t :
  t ∈ scan_hooks hooks acc <-> t ∈ acc \/ exists h, h ∈ hooks /\ bridge_timeout h = Some t.
Proof.
  revert acc. induction hooks as [|h hooks IH]; intros acc; simpl; [set_solver|].
  rewrite IH. destruct (bridge_timeout h) eqn:Hb; set_solver.
Qed.

(** The hooks an entry contributes: none unless its [hooks] is an array. *)
Lemma jiter_hooks entry hooks h t :
  jiter (jcoalesce (jprop "hooks" entry) (JArr [])) = Ok hooks -> h ∈ hooks -> bridge_timeout h = Some t ->
  jprop "hooks" entry = JArr hooks.
Proof.
  destruct (jprop "hooks" entry) as [| | | |s|l|]; simpl; try done; intros [= <-]; try done.
  - intros Hin. by apply not_elem_of_nil in Hin.
  - intros Hin. by apply not_elem_of_nil in Hin.
  - intros (c & -> & _)%list_elem_of_fmap. done.
Qed.

Lemma elem_scan_entries entries acc ts t :
  scan_entries entries acc = Ok ts ->
  t ∈ ts <-> t ∈ acc \/ exists entry hooks h, entry ∈ entries /\ jprop "hooks" entry = JArr hooks /\
    h ∈ hooks /\ bridge_timeout h = Some t.
Proof.
  revert acc. induction entries as [|entry entries IH]; intros acc; cbn [scan_entries].
  - intros [= ->]. split; [by left|]. intros [?|(e & hs & h & Hin & _)]; [done|].
    by apply not_elem_of_nil in Hin.
  - destruct (jiter _) as [hooks|e] eqn:Hit; [|done]. intros Hs.
    rewrite (IH _ Hs), elem_scan_hooks. split.
    + intros [[?|(h & Hin & Hb)]|(e & hs & h & Hin & ?)]; [by left| |right; exists e, hs, h; set_solver].
      right. exists entry, hooks, h. split_and!; try done; [by left|]. by eapply jiter_hooks.
    + intros [?|(e & hs & h & Hin & Hh & Hhin & Hb)]; [by do 2 left|].
      apply elem_of_cons in Hin as [->|Hin]; [|right; naive_solver].
      left. right. exists h. rewrite Hh in Hit. by simplify_eq/=.
Qed.

Lemma math_min_le t ts x : (x <= math_min t ts)%Q <-> (x <= t)%Q /\ Forall (fun y => (x <= y)%Q) ts.
Proof.
  unfold math_min. revert t. induction ts as [|y ts IH]; intros t; cbn [foldl].
  - split; [by intros; split|tauto].
  - rewrite IH, Forall_cons. unfold qmin. destruct (Qle_bool t y) eqn:Hle.
    + apply Qle_bool_iff in Hle. split; [intros [H1 H2]|tauto]. split_and!; [done|by eapply Qle_trans|done].
    + assert (Hyt : (y <= t)%Q).
      { apply Qlt_le_weak, Qnot_le_lt. intros H. apply Qle_bool_iff in H. congruence. }
      split; [intros [H1 H2]|tauto]. split_and!; [by eapply Qle_trans|done|done].
Qed.

Lemma margin_enough (selfDenyMs : Z) (t : Q) :
  (inject_Z MIN_MARGIN_MS <= t * inject_Z 1000 - inject_Z selfDenyMs)%Q <->
  (inject_Z (selfDenyMs + MIN_MARGIN_MS) / inject_Z 1000 <= t)%Q.
Proof.
  unfold MIN_MARGIN_MS. destruct t as [n d]. unfold Qle, Qminus, Qdiv, Qopp, Qplus, Qmult, Qinv, inject_Z. simpl. nia.
Qed.

Lemma leaves_margin_div (selfDenyMs : Z) (t : Q) :
  leaves_margin selfDenyMs t <-> (inject_Z (selfDenyMs + MIN_MARGIN_MS) / inject_Z 1000 <= t)%Q.
Proof.
  unfold leaves_margin, MIN_MARGIN_MS. destruct t as [n d].
  unfold Qle, Qdiv, Qplus, Qmult, Qinv, inject_Z. simpl. nia.
Qed.

Lemma judge_ok ts selfDenyMs label :
  judge ts selfDenyMs label = MarginOk <->
  ts <> [] /\ forall t, t ∈ ts -> leaves_margin selfDenyMs t.
Proof.
  unfold judge. destruct ts as [|t ts]; [split; [done|by intros [? _]]|].
  destruct (Qle_bool _ _) eqn:Hle.
  - apply Qle_bool_iff, margin_enough, math_min_le in Hle as [H1 H2]. rewrite Forall_forall in H2.
    split; [|done]. intros _. split; [done|]. intros t' [->|Hin]%elem_of_cons; apply leaves_margin_div; auto.
  - split; [done|]. intros [_ Hall]. apply not_true_iff_false in Hle. destruct Hle.
    apply Qle_bool_iff, margin_enough, math_min_le. split; [apply leaves_margin_div, Hall; by left|].
    rewrite Forall_forall. intros t' Hin. apply leaves_margin_div, Hall. by right.
Qed.

(** What is collected is exactly what is installed. *)
Lemma collected_installed settings ts t :
  match jiter (jcoalesce (jprop "PreToolUse" (jprop "hooks" settings)) (JArr [])) with
  | Ok entries => scan_entries entries [] = Ok ts
  | Throw _ => False
  end -> t ∈ ts <-> installs settings t.
Proof.
  destruct (jiter _) as [entries|] eqn:Hit; [|done]. intros Hs.
  rewrite (elem_scan_entries _ _ _ _ Hs). unfold installs.
  destruct (jprop "PreToolUse" (jprop "hooks" settings)) as [| | | |s|l|]; cbn [jcoalesce jiter] in Hit; try discriminate Hit; injection Hit as <-.
  - split; [intros [H|(e & hs & h & H & _)]; by apply not_elem_of_nil in H|naive_solver].
  - split; [intros [H|(e & hs & h & H & _)]; by apply not_elem_of_nil in H|naive_solver].
  - split; [|naive_solver].
    intros [H|(e & hs & h & He & Hh & _)]; [by apply not_elem_of_nil in H|].
    by apply list_elem_of_fmap in He as (c & -> & _).
  - split.
    + intros [H|(e & hs & h & He & Hh & Hin & Hb)]; [by apply not_elem_of_nil in H|].
      apply bridge_timeout_Some in Hb as (c & ?). exists l, e, hs, h, c. tauto.
    + intros (es & e & hs & h & c & [= <-] & He & Hh & Hin & Hb). right. exists e, hs, h.
      split_and!; try done. apply bridge_timeout_Some. eauto.
Qed.

(** The hook-margin rule lets a project spawn exactly when the evaluation of
    its settings completes, at least one PreToolUse hook runs the bridge with a
    finite timeout, and every such timeout leaves 30 s over the bridge's own
    self-deny: a missing, non-finite or single tight timeout refuses. *)
Theorem margin_ok_iff settings selfDenyMs label :
  evaluateHookMargin settings selfDenyMs label = Ok MarginOk <->
  is_ok (evaluateHookMargin settings selfDenyMs label) = true /\
  (exists t, installs settings t) /\
  (forall t, installs settings t -> leaves_margin selfDenyMs t).
Proof.
  pose proof (collected_installed settings) as Hc. unfold evaluateHookMargin.
  destruct (jiter _) as [entries|]; [|split; [done|by intros [? _]]].
  destruct (scan_entries entries []) as [ts|] eqn:Hs; [|split; [done|by intros [? _]]].
  specialize (Hc ts). assert (Hj : forall r r' : MarginResult, Ok r = Ok r' <-> r = r') by (intros; split; congruence).
  rewrite Hj, judge_ok. split.
  - intros [Hne Hall]. split_and!; [done| |].
    + destruct ts as [|t ts]; [done|]. exists t. apply Hc; [done|by left].
    + intros t Ht. apply Hall. by apply Hc.
  - intros (_ & [t Ht] & Hall). split.
    + apply Hc in Ht; [|done]. intros ->. by apply not_elem_of_nil in Ht.
    + intros t' Ht'. apply Hall. by apply Hc.
Qed.

(** The reader never permits a spawn the rule does not permit: without a
    readable, parsable settings file the answer is a refusal, otherwise it is
    the rule's own, and it throws only where the rule throws. *)
Theorem check_fails_closed readFile parseJson cwd selfDenyMs :
  let path := cwd +:+ "/.claude/settings.json" in
  match readFile path ≫= parseJson with
  | Some settings => check readFile parseJson cwd selfDenyMs = evaluateHookMargin settings selfDenyMs path
  | None => exists reason, check readFile parseJson cwd selfDenyMs = Ok (MarginRefused reason)
  end.
Proof.
  unfold check. cbn zeta. destruct (readFile _) as [raw|]; cbn; [|eauto].
  destruct (parseJson raw); eauto.
Qed.

(** A settings file whose [PreToolUse] is not iterable makes the rule throw a
    [TypeError] instead of answering. *)
Definition settings_of (preToolUse : jsval) : jsval := JObj [("hooks", JObj [("PreToolUse", preToolUse)])].

(** The rule is total on every value except two shapes: a [PreToolUse], or a
    [hooks] of one of its entries, that is present and neither an array nor a
    string.  On those it throws, so neither it nor its reader answers. *)
Theorem margin_throws_iff settings selfDenyMs label :
  is_ok (evaluateHookMargin settings selfDenyMs label) = false <->
  let pre := jcoalesce (jprop "PreToolUse" (jprop "hooks" settings)) (JArr []) in
  is_ok (jiter pre) = false \/
  exists entries entry, jiter pre = Ok entries /\ entry ∈ entries /\
    is_ok (jiter (jcoalesce (jprop "hooks" entry) (JArr []))) = false.
Proof.
  unfold evaluateHookMargin. cbn zeta. destruct (jiter _) as [entries|e]; cbn [is_ok]; [|naive_solver].
  assert (Hsc : forall acc, (match scan_entries entries acc with Ok _ => true | Throw _ => false end) = false <->
    exists entry, entry ∈ entries /\ is_ok (jiter (jcoalesce (jprop "hooks" entry) (JArr []))) = false).
  { induction entries as [|entry entries IH]; intros acc; cbn [scan_entries].
    - split; [done|]. intros (x & Hin & _). by apply not_elem_of_nil in Hin.
    - destruct (jiter (jcoalesce (jprop "hooks" entry) (JArr []))) as [hooks|] eqn:Hit.
      + rewrite IH. split.
        * intros (x & Hin & Hx). exists x. split; [by right|done].
        * intros (x & [->|Hin]%elem_of_cons & Hx); [by rewrite Hit in Hx|eauto].
      + split; [|done]. intros _. exists entry. split; [by left|]. by rewrite Hit. }
  specialize (Hsc []). destruct (scan_entries entries []) as [ts|]; cbn [is_ok] in *.
  - split; [done|]. intros [?|(es & entry & [= <-] & ?)]; [done|]. apply Hsc. eauto.
  - split; [|done]. intros _. right. destruct (proj1 Hsc eq_refl) as (entry & ?). exists entries, entry. tauto.
Qed.

Lemma margin_throws_example : is_ok (evaluateHookMargin (settings_of (JNum (NumFin 5))) 600000 "s") = false.
Proof. reflexivity. Qed.

Lemma margin_ok_example :
  evaluateHookMargin (settings_of (JArr [JObj [("hooks", JArr [JObj
    [("command", JStr "node hook/approve-bridge.mjs"); ("timeout", JNum (NumFin 3600))]])]])) 3540000 "s" = Ok MarginOk.
Proof. reflexivity. Qed.

(** Of the six permission modes a client can name, only [plan] is ever
    applied to a session. *)
Theorem only_plan_is_allowed (mode : PermissionMode) :
  PermissionModePolicy.permissionModeIsAllowed mode = true <-> mode = plan.
Proof. by destruct mode. Qed.
