(* ===== verification/Jobs.v ===== *)
(** * The job queue

    [packages/daemon/src/application/jobs.ts], class [JobQueue].  A [Job] is a
    mutable object shared between the live map, the event listeners and the exit
    closure, so jobs live in a heap indexed by their identifier and the live map
    is the insertion-ordered set of the identifiers it holds.  Everything the
    queue is given ([db], [hookMargin], [spawnSession], [onSession], the
    ['update'] listeners) is a record of ports over an external state; each may
    throw, and the state changes made before a throw persist. *)

From S2P Require Import Prelude JsMap Js Types.

Local Open Scope Z_scope.

Record SpawnRequest : Type := mkSpawnRequest {
  rq_cwd : string;
  rq_label : option string;
  rq_disallowedTools : option (list string);
  rq_model : option string;
  rq_permissionMode : option PermissionMode;
  rq_effort : option EffortLevel;
}.

(** The patch of [updateJobState]. *)
Record JobPatch : Type := mkJobPatch {
  jp_state : JobState;
  jp_sessionId : option string;
  jp_error : option string;
  jp_startedAt : option Z;
  jp_finishedAt : option Z;
}.

(** [mergeSnapshotJobs(live, durable)] *)
Definition mergeSnapshotJobs (live durable : list JobInfo) : list JobInfo :=
  let liveIds := foldl (fun s j => sadd (j_id j) s) [] live in
  live ++ filter (fun j => ~ j_id j ∈ liveIds) durable.

(** ** Assignments to the fields of a job *)

Definition set_state (s : JobState) (j : JobInfo) : JobInfo :=
  mkJobInfo (j_id j) (j_cwd j) (j_label j) (j_disallowedTools j) (j_model j) (j_permissionMode j)
    (j_effort j) s (j_sessionId j) (j_error j) (j_requestedBy j) (j_createdAt j) (j_startedAt j) (j_finishedAt j).
Definition set_sessionId (s : string) (j : JobInfo) : JobInfo :=
  mkJobInfo (j_id j) (j_cwd j) (j_label j) (j_disallowedTools j) (j_model j) (j_permissionMode j)
    (j_effort j) (j_state j) (Some s) (j_error j) (j_requestedBy j) (j_createdAt j) (j_startedAt j) (j_finishedAt j).
Definition set_error (e : string) (j : JobInfo) : JobInfo :=
  mkJobInfo (j_id j) (j_cwd j) (j_label j) (j_disallowedTools j) (j_model j) (j_permissionMode j)
    (j_effort j) (j_state j) (j_sessionId j) (Some e) (j_requestedBy j) (j_createdAt j) (j_startedAt j) (j_finishedAt j).
Definition set_startedAt (t : Z) (j : JobInfo) : JobInfo :=
  mkJobInfo (j_id j) (j_cwd j) (j_label j) (j_disallowedTools j) (j_model j) (j_permissionMode j)
    (j_effort j) (j_state j) (j_sessionId j) (j_error j) (j_requestedBy j) (j_createdAt j) (Some t) (j_finishedAt j).
Definition set_finishedAt (t : Z) (j : JobInfo) : JobInfo :=
  mkJobInfo (j_id j) (j_cwd j) (j_label j) (j_disallowedTools j) (j_model j) (j_permissionMode j)
    (j_effort j) (j_state j) (j_sessionId j) (j_error j) (j_requestedBy j) (j_createdAt j) (j_startedAt j) (Some t).

Module JobQueue.

Section queue.
(** [S] is the session type, [X] the state of everything outside the queue. *)
Context {S X : Type}.

(** [JobQueueOpts], with the ['update'] listeners and the clock.  [check]
    returns the refusal reason, [None] when the margin is fine;
    [maxConcurrent = None] is the default [Infinity]. *)
Record Ports : Type := mkPorts {
  insertJob : JobInfo -> eff X unit;
  updateJobState : string -> JobPatch -> eff X unit;
  maxConcurrent : option Z;
  selfDenyMs : Z;
  check : string -> Z -> eff X (option string);
  spawnSession : SpawnRequest -> eff X S;
  onSession : JobInfo -> S -> eff X unit;
  emit_update : JobInfo -> eff X unit;
  session_id : S -> string;
  clock : X -> Z;
}.

(** [watched] holds the exit listeners: the sessions whose exit the queue will
    learn of, each with the job its closure captured. *)
Record t : Type := mk {
  heap : jsmap string JobInfo;
  jobs : jsset string;
  running : Z;
  watched : list (S * string);
  ext : X;
}.

Definition new (x : X) : t := mk [] [] 0 [] x.

Definition call {A} (m : eff X A) : eff t A := fun q =>
  let (o, x') := m (ext q) in (o, mk (heap q) (jobs q) (running q) (watched q) x').

(** [job.field = value] *)
Definition assign (id : string) (f : JobInfo -> JobInfo) : eff t unit :=
  modify (fun q => match mget id (heap q) with
                   | Some j => mk (mset id (f j) (heap q)) (jobs q) (running q) (watched q) (ext q)
                   | None => q
                   end).

Definition add_running (d : Z) : eff t unit :=
  modify (fun q => mk (heap q) (jobs q) (running q + d) (watched q) (ext q)).

Definition jobs_delete (id : string) : eff t unit :=
  modify (fun q => mk (heap q) (sdelete id (jobs q)) (running q) (watched q) (ext q)).

(** Dereference: the job's current fields. *)
Definition deref {A} (id : string) (k : JobInfo -> eff t A) (dead : A) : eff t A := fun q =>
  match mget id (heap q) with
  | Some j => k j q
  | None => (Ok dead, q)
  end.

Definition emit (p : Ports) (id : string) : eff t unit :=
  deref id (fun j => call (emit_update p j)) tt.

Definition request_of (j : JobInfo) : SpawnRequest :=
  mkSpawnRequest (j_cwd j) (j_label j) (j_disallowedTools j) (j_model j) (j_permissionMode j) (j_effort j).

Definition at_capacity (p : Ports) (q : t) : bool :=
  match maxConcurrent p with Some m => m <=? running q | None => false end.

(** [job.state = 'failed'; job.error = ...; job.finishedAt = Date.now();
    db.updateJobState(...); emit('update', job); jobs.delete(job.id)] *)
Definition fail_job (p : Ports) (id message : string) : eff t unit :=
  assign id (set_state failed) ;;
  assign id (set_error message) ;;
  now ← gets (fun q => clock p (ext q));
  assign id (set_finishedAt now) ;;
  call (updateJobState p id (mkJobPatch failed None (Some message) None (Some now))) ;;
  emit p id ;;
  jobs_delete id.

(** The [try] block of [tryStart]. *)
Definition spawn_block (p : Ports) (id : string) : eff t (option S) :=
  deref id (fun job =>
    session ← call (spawnSession p (request_of job));
    assign id (set_sessionId (session_id p session)) ;;
    call (updateJobState p id (mkJobPatch Types.running (Some (session_id p session)) None None None)) ;;
    deref id (fun job => call (onSession p job session)) tt ;;
    mret (Some session)) None.

(** [tryStart(job)] *)
Definition tryStart (p : Ports) (id : string) : eff t unit :=
  deref id (fun job =>
    full ← gets (at_capacity p);
    if negb (bool_decide (j_state job = queued)) || full then mret tt
    else
      margin ← call (check p (j_cwd job) (selfDenyMs p));
      match margin with
      | Some reason => fail_job p id ("refusing to spawn: " +:+ reason)
      | None =>
          assign id (set_state Types.running) ;;
          now ← gets (fun q => clock p (ext q));
          assign id (set_startedAt now) ;;
          add_running 1 ;;
          call (updateJobState p id (mkJobPatch Types.running None None (Some now) None)) ;;
          emit p id ;;
          r ← try_catch (spawn_block p id) (fun err =>
                add_running (-1) ;;
                fail_job p id ("failed to spawn: " +:+ err) ;;
                mret None);
          match r with
          | None => mret tt
          | Some session =>
              modify (fun q => mk (heap q) (jobs q) (running q) (watched q ++ [(session, id)]) (ext q))
          end
      end) tt.

(** The loop of [pumpQueue] over the live map.  Only the job being started can
    leave the map during the loop, so the keys are those at its start. *)
Fixpoint pump (p : Ports) (ids : list string) : eff t unit :=
  match ids with
  | [] => mret tt
  | id :: ids' =>
      full ← gets (at_capacity p);
      if full : bool then mret tt
      else
        deref id (fun job => if bool_decide (j_state job = queued) then tryStart p id else mret tt) tt ;;
        pump p ids'
  end.

Definition pumpQueue (p : Ports) : eff t unit := fun q => pump p (jobs q) q.

(** [enqueue(req, requestedBy)]; [id] is the fresh [randomUUID()].  The result
    is the job object, read when the call returns. *)
Definition enqueue (p : Ports) (id : string) (req : SpawnRequest) (requestedBy : string) : eff t (option JobInfo) :=
  created ← gets (fun q => clock p (ext q));
  modify (fun q =>
    mk (mset id (mkJobInfo id (rq_cwd req) (rq_label req) (rq_disallowedTools req) (rq_model req)
                   (rq_permissionMode req) (rq_effort req) queued None None requestedBy created None None) (heap q))
       (jobs q) (running q) (watched q) (ext q)) ;;
  margin ← call (check p (rq_cwd req) (selfDenyMs p));
  match margin with
  | Some reason =>
      assign id (set_state failed) ;;
      assign id (set_error ("refusing to spawn: " +:+ reason)) ;;
      now ← gets (fun q => clock p (ext q));
      assign id (set_finishedAt now) ;;
      deref id (fun job => call (insertJob p job)) tt ;;
      emit p id ;;
      gets (fun q => mget id (heap q))
  | None =>
      modify (fun q => mk (heap q) (sadd id (jobs q)) (running q) (watched q) (ext q)) ;;
      deref id (fun job => call (insertJob p job)) tt ;;
      emit p id ;;
      tryStart p id ;;
      gets (fun q => mget id (heap q))
  end.

(** The exit closure of [tryStart], for the session that started job [id]. *)
Definition exit_message (code : option Z) (err : option string) : string :=
  match err with
  | Some m => "failed to spawn: " +:+ m
  | None => "session exited with code " +:+ match code with Some c => pretty c | None => "null" end
  end.

Definition onExit (p : Ports) (id : string) (code : option Z) (err : option string) : eff t unit :=
  add_running (-1) ;;
  let st := if bool_decide (code = Some 0) then done else failed in
  assign id (set_state st) ;;
  now ← gets (fun q => clock p (ext q));
  assign id (set_finishedAt now) ;;
  (if bool_decide (st = failed) then assign id (set_error (exit_message code err)) else mret tt) ;;
  deref id (fun job => call (updateJobState p id (mkJobPatch (j_state job) None (j_error job) None (j_finishedAt job)))) tt ;;
  emit p id ;;
  jobs_delete id ;;
  pumpQueue p.

(** [list()] *)
Definition list_jobs (q : t) : list JobInfo := omap (fun id => mget id (heap q)) (jobs q).

(** A session's exit event, delivered to the closure registered for it. *)
Definition exit_event (p : Ports) (s : S) (id : string) (code : option Z) (err : option string)
    (rest : list (S * string)) : eff t unit :=
  modify (fun q => mk (heap q) (jobs q) (running q) rest (ext q)) ;;
  onExit p id code err.

(** ** Steps: a spawn command, or the exit of a watched session.

    An identifier is fresh ([randomUUID]) and a session exits once (the guards
    of [session.ts]). *)

Inductive step (p : Ports) : t -> t -> Prop :=
| step_enqueue q id req by_ :
    mget id (heap q) = None -> step p q (snd (enqueue p id req by_ q))
| step_exit q w1 s id w2 code err :
    watched q = w1 ++ (s, id) :: w2 ->
    step p q (snd (exit_event p s id code err (w1 ++ w2) q))
| step_outside q x :
    step p q (mk (heap q) (jobs q) (running q) (watched q) x).

Inductive reach (p : Ports) (x : X) : t -> Prop :=
| reach_new : reach p x (new x)
| reach_step q q' : reach p x q -> step p q q' -> reach p x q'.

(** ** Vocabulary *)

Definition job_state (q : t) (id : string) : option JobState := j_state <$> mget id (heap q).

End queue.
Arguments Ports : clear implicits.
Arguments t : clear implicits.

End JobQueue.

Import JobQueue.

(** ** Slot accounting, whatever the ports do *)

Section slots.
Context {S X : Type}.
Implicit Types (q : JobQueue.t S X) (p : Ports S X).

(** A property of the slot account: the counter and the watched sessions. *)
Definition slots (P : Z -> list (S * string) -> Prop) q : Prop := P (running q) (watched q).

(** [m] leaves the slot account alone, on return and on a throw. *)
Definition frames {A} (m : eff (JobQueue.t S X) A) : Prop :=
  forall q, running (snd (m q)) = running q /\ watched (snd (m q)) = watched q.

Lemma frames_ret {A} (a : A) : frames (mret a).
Proof. done. Qed.

Lemma frames_gets {A} (f : JobQueue.t S X -> A) : frames (gets f).
Proof. done. Qed.

Lemma frames_bind {A B} (m : eff (JobQueue.t S X) A) (k : A -> eff (JobQueue.t S X) B) :
  frames m -> (forall a, frames (k a)) -> frames (m ≫= k).
Proof.
  intros Hm Hk q. specialize (Hm q). unfold mbind, eff_bind.
  destruct (m q) as [[a|e] q']; [|done]. cbn [snd] in Hm. destruct (Hk a q') as [-> ->]. done.
Qed.

Lemma frames_call {A} (m : eff X A) : frames (call m).
Proof. intros q. unfold call. by destruct (m (ext q)). Qed.

Lemma frames_assign id f : frames (assign id f).
Proof. intros q. unfold assign, modify. simpl. by destruct (mget id (heap q)). Qed.

Lemma frames_deref {A} id (k : JobInfo -> eff (JobQueue.t S X) A) dead :
  (forall j, frames (k j)) -> frames (deref id k dead).
Proof. intros Hk q. unfold deref. destruct (mget id (heap q)); [apply Hk|done]. Qed.

Lemma frames_delete id : frames (jobs_delete id).
Proof. done. Qed.

Lemma frames_emit p id : frames (emit p id).
Proof. apply frames_deref. intros. apply frames_call. Qed.

Create HintDb slots.
Hint Resolve frames_ret frames_gets frames_bind frames_call frames_assign frames_deref frames_delete frames_emit : slots.

Lemma frames_fail_job p id msg : frames (fail_job p id msg).
Proof. unfold fail_job. auto 20 with slots. Qed.

Lemma frames_spawn_block p id : frames (spawn_block p id).
Proof. unfold spawn_block. auto 20 with slots. Qed.

Hint Resolve frames_fail_job frames_spawn_block : slots.

Lemma triple_frames {A} (m : eff (JobQueue.t S X) A) P :
  frames m -> triple (slots P) m (fun _ => slots P) (slots P).
Proof.
  intros Hm q Hq. specialize (Hm q). destruct (m q) as [[a|e] q']; cbn [snd] in Hm;
    unfold slots in *; by destruct Hm as [-> ->].
Qed.

Lemma triple_deref {A} id (k : JobInfo -> eff (JobQueue.t S X) A) dead P Q R :
  (forall j, triple P (k j) Q R) -> (forall q, P q -> Q dead q) -> triple P (deref id k dead) Q R.
Proof. intros Hk Hd q Hq. unfold deref. destruct (mget id (heap q)) as [j|]; [by apply Hk|by apply Hd]. Qed.

(** The account between operations, just before a slot is reserved, and while
    one is reserved for a session that is not watched yet. *)
Definition under (p : Ports S X) (r : Z) : Prop :=
  forall m, maxConcurrent p = Some m -> r <= Z.max 0 m.
Definition settled_slots (p : Ports S X) (r : Z) (w : list (S * string)) : Prop :=
  Z.of_nat (length w) <= r /\ under p r.
Definition free_slot (p : Ports S X) (r : Z) (w : list (S * string)) : Prop :=
  Z.of_nat (length w) <= r /\ under p r /\ under p (r + 1).
Definition reserved_slot (p : Ports S X) (r : Z) (w : list (S * string)) : Prop :=
  Z.of_nat (length w) + 1 <= r /\ under p r.

Lemma reserved_settled p q : slots (reserved_slot p) q -> slots (settled_slots p) q.
Proof. unfold slots, reserved_slot, settled_slots. intros [? ?]. split; [lia|done]. Qed.

Lemma free_settled p q : slots (free_slot p) q -> slots (settled_slots p) q.
Proof. unfold slots, free_slot, settled_slots. tauto. Qed.

Lemma capacity_free p q : at_capacity p q = false -> slots (settled_slots p) q -> slots (free_slot p) q.
Proof.
  unfold at_capacity, slots, settled_slots, free_slot, under. intros Hf [Hl Hu].
  split_and!; [done|done|]. intros m Hm. rewrite Hm in Hf. apply Z.leb_gt in Hf. lia.
Qed.

(** One step that leaves the account [P] alone; a throw there gives up the
    reservation [P] may hold. *)
Ltac framed P :=
  first [ apply (triple_frames _ P); solve [auto 20 with slots]
        | eapply triple_conseq;
          [apply (triple_frames _ P); solve [auto 20 with slots]|done
          |intros; first [done | by apply free_settled | by apply reserved_settled]
          |first [apply free_settled | apply reserved_settled]] ].
Ltac framed_step P := eapply triple_bind; [framed P|intros ?].

Lemma frames_modify (f : JobQueue.t S X -> JobQueue.t S X) :
  (forall q, running (f q) = running q /\ watched (f q) = watched q) -> frames (modify f).
Proof. intros Hf q. apply Hf. Qed.

Hint Extern 1 (frames (modify _)) => (apply frames_modify; done) : slots.
Hint Extern 1 (frames (if _ then _ else _)) => case_match : slots.

(** Releasing a slot turns a reservation into a settled account. *)
Lemma release_slots p :
  triple (slots (reserved_slot p)) (add_running (-1)) (fun _ => slots (settled_slots p)) (slots (settled_slots p)).
Proof.
  apply triple_modify. unfold slots, reserved_slot, settled_slots, under. simpl. intros q [H1 H2].
  split; [lia|]. intros m Hm. specialize (H2 m Hm). lia.
Qed.

Lemma reserve_slots p :
  triple (slots (free_slot p)) (add_running 1) (fun _ => slots (reserved_slot p)) (slots (settled_slots p)).
Proof.
  apply triple_modify. unfold slots, free_slot, reserved_slot. simpl. intros q (? & ? & ?). split; [lia|done].
Qed.

(** The spawn with its [catch]: a session keeps the reservation, a failure
    releases it. *)
Lemma guarded_spawn_slots p id :
  triple (slots (reserved_slot p))
    (try_catch (spawn_block p id) (fun err =>
       add_running (-1) ;; fail_job p id ("failed to spawn: " +:+ err) ;; mret None))
    (fun r => match r with Some _ => slots (reserved_slot p) | None => slots (settled_slots p) end)
    (slots (settled_slots p)).
Proof.
  eapply triple_try.
  - eapply triple_conseq; [apply (triple_frames _ (reserved_slot p)); auto with slots|done| |done].
    intros [s|] q Hq; [done|by apply reserved_settled].
  - intros e. eapply triple_bind; [apply release_slots|]. intros ?.
    framed_step (settled_slots p). by apply triple_ret.
Qed.

Lemma tryStart_slots p id :
  triple (slots (settled_slots p)) (tryStart p id) (fun _ => slots (settled_slots p)) (slots (settled_slots p)).
Proof.
  unfold tryStart. apply triple_deref; [|done]. intros job.
  eapply triple_bind; [apply (triple_gets _ _ (fun full q => slots (settled_slots p) q /\ full = at_capacity p q)); done|].
  intros full. destruct (_ || full) eqn:Hf; [apply triple_ret; naive_solver|].
  apply orb_false_iff in Hf as [_ ->].
  apply (triple_conseq _ (slots (free_slot p)) _ (fun _ => slots (settled_slots p)) _ (slots (settled_slots p)));
    [|intros q [? ?]; by apply capacity_free|done|done].
  framed_step (free_slot p). destruct a as [reason|]; [framed (free_slot p)|].
  do 3 framed_step (free_slot p).
  eapply triple_bind; [apply reserve_slots|]. intros ?.
  do 2 framed_step (reserved_slot p).
  eapply triple_bind; [apply guarded_spawn_slots|].
  intros [s|]; [|by apply triple_ret]. apply triple_modify.
  unfold slots, reserved_slot, settled_slots. simpl. intros q [H1 H2]. rewrite length_app. simpl. split; [lia|done].
Qed.

Lemma pump_slots p ids :
  triple (slots (settled_slots p)) (pump p ids) (fun _ => slots (settled_slots p)) (slots (settled_slots p)).
Proof.
  induction ids as [|id ids IH]; cbn [pump]; [by apply triple_ret|].
  framed_step (settled_slots p). destruct a; [by apply triple_ret|].
  eapply triple_bind; [|intros; apply IH].
  apply triple_deref; [|done]. intros job. destruct (bool_decide _); [apply tryStart_slots|by apply triple_ret].
Qed.

Lemma enqueue_slots p id req by_ :
  triple (slots (settled_slots p)) (enqueue p id req by_) (fun _ => slots (settled_slots p)) (slots (settled_slots p)).
Proof.
  unfold enqueue. do 3 framed_step (settled_slots p). destruct a1 as [reason|]; [framed (settled_slots p)|].
  do 3 framed_step (settled_slots p).
  eapply triple_bind; [apply tryStart_slots|]. intros ?. framed (settled_slots p).
Qed.

(** While an exit is delivered the session is no longer watched and its slot not
    yet released. *)
Lemma exit_slots p s id code err w :
  triple (fun q => slots (reserved_slot p) (mk (heap q) (jobs q) (running q) w (ext q)))
    (exit_event p s id code err w) (fun _ => slots (settled_slots p)) (slots (settled_slots p)).
Proof.
  unfold exit_event, onExit.
  eapply (triple_bind _ _ _ (fun _ => slots (reserved_slot p))); [by apply triple_modify|]. intros ?.
  eapply triple_bind; [apply release_slots|]. intros ?.
  do 7 framed_step (settled_slots p). intros q Hq. by apply pump_slots.
Qed.

Lemma step_slots p q q' : step p q q' -> slots (settled_slots p) q -> slots (settled_slots p) q'.
Proof.
  intros [q0 id req by_ _|q0 w1 s id w2 code err Hw|q0 x] Hq.
  - by destruct (triple_state _ _ _ _ (enqueue_slots p id req by_) q0 Hq) as [[_ ?]|?].
  - destruct (triple_state _ _ _ _ (exit_slots p s id code err (w1 ++ w2)) q0) as [[_ ?]|?]; try done.
    unfold slots, settled_slots, reserved_slot in *. cbn [running watched]. rewrite Hw in Hq.
    rewrite !length_app in *. simpl in *. split; [lia|tauto].
  - done.
Qed.

(** C31. Concurrency never exceeds its cap: in every reachable state, even when
    the store, the listeners, the hook check, the spawn or the session set-up
    throw at any point, the sessions whose exit is awaited are at most the
    reserved slots, and the reserved slots at most [maxConcurrent]. *)
Theorem sessions_within_cap p x q :
  reach p x q ->
  Z.of_nat (length (watched q)) <= running q /\
  forall m, maxConcurrent p = Some m -> running q <= Z.max 0 m.
Proof.
  induction 1 as [|q q' _ IH Hst]; [split; simpl; lia|]. exact (step_slots p q q' Hst IH).
Qed.

End slots.

(** ** The queue over ports whose store, listeners and check do not throw *)

Section quiet.
Context {S X : Type}.
Implicit Types (q : JobQueue.t S X) (p : Ports S X) (h : jsmap string JobInfo).

Definition never_throws {A} (m : eff X A) : Prop := forall x, is_ok (fst (m x)) = true.

(** Spawning and setting a session up may still throw. *)
Record quiet (p : Ports S X) : Prop := {
  quiet_insert j : never_throws (insertJob p j);
  quiet_update id patch : never_throws (updateJobState p id patch);
  quiet_check cwd sd : never_throws (check p cwd sd);
  quiet_emit j : never_throws (emit_update p j);
}.

(** The queue's own state is [h] with the job [id] replaced by one satisfying
    [P], and [js], [r], [w]; only the external state is left open. *)
Definition upd h (id : string) (P : JobInfo -> Prop) (js : jsset string) (r : Z) (w : list (S * string)) q : Prop :=
  exists j, P j /\ heap q = mset id j h /\ jobs q = js /\ running q = r /\ watched q = w.

Definition no q : Prop := False.

Lemma upd_weaken h id (P P' : JobInfo -> Prop) js r w q :
  (forall j, P j -> P' j) -> upd h id P js r w q -> upd h id P' js r w q.
Proof. intros HP (j & Hj & Hq). exists j. auto. Qed.

Lemma upd_call {A} (m : eff X A) h id P js r w R :
  never_throws m -> triple (upd h id P js r w) (call m) (fun _ => upd h id P js r w) R.
Proof.
  intros Hm q Hq. unfold call. specialize (Hm (ext q)). destruct (m (ext q)) as [[a|e] x']; [|done].
  exact Hq.
Qed.

Lemma upd_call_any {A} (m : eff X A) h id P js r w :
  triple (upd h id P js r w) (call m) (fun _ => upd h id P js r w) (upd h id P js r w).
Proof. intros q Hq. unfold call. by destruct (m (ext q)) as [[a|e] x']. Qed.

Lemma upd_assign h id P P' js r w f (R : JobQueue.t S X -> Prop) :
  (forall j, P j -> P' (f j)) -> triple (upd h id P js r w) (assign id f) (fun _ => upd h id P' js r w) R.
Proof.
  intros Hf. apply triple_modify. intros q (j & Hj & Hh & Hq). rewrite Hh, mget_mset_eq, mset_mset_eq.
  exists (f j). auto.
Qed.

Lemma upd_deref {A} h id (P : JobInfo -> Prop) js r w (k : JobInfo -> eff (JobQueue.t S X) A) dead Q R :
  (forall j, P j -> triple (upd h id P js r w) (k j) Q R) -> triple (upd h id P js r w) (deref id k dead) Q R.
Proof.
  intros Hk q Hq. pose proof Hq as (j & Hj & Hh & _). unfold deref. rewrite Hh, mget_mset_eq. by apply Hk.
Qed.

Lemma upd_modify h id P js r w js' r' w' (f : JobQueue.t S X -> JobQueue.t S X) R :
  (forall q, jobs q = js -> running q = r -> watched q = w ->
     heap (f q) = heap q /\ jobs (f q) = js' /\ running (f q) = r' /\ watched (f q) = w') ->
  triple (upd h id P js r w) (modify f) (fun _ => upd h id P js' r' w') R.
Proof.
  intros Hf. apply triple_modify. intros q (j & Hj & Hh & Hjs & Hr & Hw).
  destruct (Hf q Hjs Hr Hw) as (H1 & H2 & H3 & H4). exists j. rewrite H1. auto.
Qed.

Lemma upd_emit p h id P js r w R :
  quiet p -> triple (upd h id P js r w) (emit p id) (fun _ => upd h id P js r w) R.
Proof. intros Hp. apply upd_deref. intros j Hj. apply upd_call, Hp. Qed.

Lemma upd_now {A} (f : JobQueue.t S X -> A) h id P js r w R :
  triple (upd h id P js r w) (gets f) (fun _ => upd h id P js r w) R.
Proof. by apply triple_gets. Qed.

(** [fail_job] leaves the job failed and out of the live map. *)
Lemma upd_fail_job p h id P js r w msg :
  quiet p ->
  triple (upd h id P js r w) (fail_job p id msg)
    (fun _ => upd h id (fun j => j_state j = failed) (sdelete id js) r w) no.
Proof.
  intros Hp. unfold fail_job.
  eapply triple_bind; [by apply (upd_assign _ _ _ (fun j => j_state j = failed))|intros ?].
  eapply triple_bind; [by apply (upd_assign _ _ _ (fun j => j_state j = failed))|intros ?].
  eapply triple_bind; [apply upd_now|intros now].
  eapply triple_bind; [by apply (upd_assign _ _ _ (fun j => j_state j = failed))|intros ?].
  eapply triple_bind; [apply upd_call, Hp|intros ?].
  eapply triple_bind; [by apply upd_emit|intros ?].
  apply upd_modify. simpl. intros q' -> -> ->. done.
Qed.

Lemma upd_spawn_block p h id js r w :
  quiet p ->
  let P := fun j => j_state j = Types.running in
  triple (upd h id P js r w) (spawn_block p id)
    (fun o q => (exists s, o = Some s) /\ upd h id P js r w q) (upd h id P js r w).
Proof.
  intros Hp P. unfold spawn_block. apply upd_deref. intros j Hj.
  eapply triple_bind; [apply upd_call_any|intros s].
  eapply triple_bind; [by apply (upd_assign _ _ _ P)|intros ?].
  eapply triple_bind; [apply upd_call, Hp|intros ?].
  eapply triple_bind; [apply upd_deref; intros; apply upd_call_any|intros ?].
  apply triple_ret. eauto.
Qed.

(** What an attempt to start a queued job does below capacity: it runs in a slot
    of its own, or it is failed and gone from the live map. *)
Definition started h id js r w q : Prop :=
  (exists s, upd h id (fun j => j_state j = Types.running) js (r + 1) (w ++ [(s, id)]) q) \/
  upd h id (fun j => j_state j = failed) (sdelete id js) r w q.

Lemma upd_start p h id js r w :
  quiet p ->
  triple (fun q => upd h id (fun j => j_state j = queued) js r w q /\ at_capacity p q = false)
    (tryStart p id) (fun _ => started h id js r w) no.
Proof.
  intros Hp q [Hq Hcap]. pose proof Hq as (j & Hj & Hh & _). unfold tryStart, deref.
  rewrite Hh, mget_mset_eq. unfold mbind at 1, eff_bind at 1, gets at 1. rewrite Hcap, Hj. cbn [negb orb].
  rewrite bool_decide_true by done. cbn [negb orb]. revert q Hcap Hq Hh.
  match goal with |- forall q, _ -> upd ?h ?id ?P ?js ?r ?w q -> _ -> match ?m _ with _ => _ end =>
    enough (triple (upd h id P js r w) m (fun _ => started h id js r w) no) as Ht by (intros q _ Hq _; exact (Ht q Hq)) end.
  eapply triple_bind; [apply upd_call, Hp|]. intros [reason|].
  - eapply triple_conseq; [by apply upd_fail_job|done|intros ? ? ?; by right|done].
  - set (R := fun j => j_state j = Types.running).
    eapply triple_bind; [by apply (upd_assign _ _ _ R)|intros ?].
    eapply triple_bind; [apply upd_now|intros now].
    eapply triple_bind; [by apply (upd_assign _ _ _ R)|intros ?].
    eapply triple_bind; [apply (upd_modify _ _ _ _ _ _ js (r + 1) w); simpl; intros q' -> -> ->; done|intros ?].
    eapply triple_bind; [apply upd_call, Hp|intros ?].
    eapply triple_bind; [by apply upd_emit|intros ?].
    eapply (triple_bind _ _ _ (fun o q => match o with
      | Some s => upd h id R js (r + 1) w q
      | None => upd h id (fun j => j_state j = failed) (sdelete id js) r w q end)).
    + eapply triple_try.
      * eapply triple_conseq; [by apply upd_spawn_block|done| |done]. intros o q ((s & ->) & Hq). exact Hq.
      * intros e. eapply triple_bind; [apply (upd_modify _ _ _ _ _ _ js r w); simpl; intros q' -> -> ->; split_and!; try done; lia|intros ?].
        eapply triple_bind; [by apply upd_fail_job|intros ?]. by apply triple_ret.
    + intros [s|]; [|apply triple_ret; intros ? ?; by right].
      eapply triple_conseq; [apply (upd_modify h id R js (r + 1) w js (r + 1) (w ++ [(s, id)])); simpl; intros q' -> -> ->; done|done| |done].
      intros ? q Hq. left. by exists s.
Qed.

Lemma at_capacity_running p q q' : running q = running q' -> at_capacity p q = at_capacity p q'.
Proof. unfold at_capacity. by intros ->. Qed.

(** *** The live map *)

(** Live jobs are queued or running, and the running ones are exactly those whose
    session is watched, one slot each. *)
Record live q : Prop := {
  lv_jobs : NoDup (jobs q);
  lv_state id : id ∈ jobs q -> job_state q id = Some queued \/ job_state q id = Some Types.running;
  lv_watched : NoDup (watched q).*2;
  lv_running id : id ∈ (watched q).*2 <-> id ∈ jobs q /\ job_state q id = Some Types.running;
  lv_count : running q = Z.of_nat (length (watched q));
}.

(** A job waits only while every slot is taken, or while it is in [ids]. *)
Definition waits_in p (ids : list string) q : Prop :=
  forall id, id ∈ jobs q -> job_state q id = Some queued -> id ∈ ids \/ at_capacity p q = true.

Lemma upd_job_state h id P js r w q id' :
  upd h id P js r w q ->
  exists j, P j /\ job_state q id' = if decide (id' = id) then Some (j_state j) else j_state <$> mget id' h.
Proof.
  intros (j & Hj & Hh & _). exists j. split; [done|]. unfold job_state. rewrite Hh, mget_mset. by case_decide.
Qed.

Lemma upd_here q id st :
  job_state q id = Some st -> upd (heap q) id (fun j => j_state j = st) (jobs q) (running q) (watched q) q.
Proof.
  unfold job_state. destruct (mget id (heap q)) as [j|] eqn:Hj; [|done]. intros [= <-].
  exists j. by rewrite mset_same.
Qed.

(** Starting a job keeps the live map well-formed and touches no other job. *)
Lemma started_live h id js r w q q' :
  live q -> heap q = h -> jobs q = js -> running q = r -> watched q = w ->
  id ∈ js -> job_state q id = Some queued -> started h id js r w q' ->
  live q' /\ (id ∈ jobs q' -> job_state q' id <> Some queued) /\
  (forall id', id' <> id -> (id' ∈ jobs q' <-> id' ∈ jobs q) /\ job_state q' id' = job_state q id') /\
  (jobs q' = js \/ jobs q' = sdelete id js).
Proof.
  intros [Hnd Hst Hwn Hrun Hc] Hh Hjs Hr Hw Hin Hq Hstart. subst h js r w.
  assert (Hnw : id ∉ (watched q).*2) by (intros Hx%Hrun; destruct Hx as [_ Hx]; congruence).
  destruct Hstart as [[s Hu]|Hu]; pose proof Hu as (j & Hj & Hh' & Hjs' & Hr' & Hw');
    assert (Hoth : forall id', job_state q' id' =
      if decide (id' = id) then Some (j_state j) else job_state q id')
      by (intros id'; unfold job_state; rewrite Hh', mget_mset; by case_decide).
  - rewrite Hj in Hoth. split_and!.
    + split; rewrite ?Hjs', ?Hr', ?Hw'; [done| | | |].
      * intros id' Hid'. rewrite Hoth. case_decide; [by right|by apply Hst].
      * rewrite fmap_app. simpl. apply NoDup_app. split; [done|]. split; [|apply NoDup_singleton].
        by intros x Hx ->%list_elem_of_singleton.
      * intros id'. rewrite fmap_app, elem_of_app, Hoth. simpl. rewrite list_elem_of_singleton.
        case_decide; [subst; tauto|rewrite Hrun; tauto].
      * rewrite length_app. simpl. lia.
    + rewrite Hoth, decide_True by done. done.
    + intros id' Hne. rewrite Hoth, decide_False, Hjs' by done. done.
    + by left.
  - rewrite Hj in Hoth. split_and!.
    + split; rewrite ?Hjs', ?Hr', ?Hw'; [by apply NoDup_sdelete| |done| |done].
      * intros id' [Hne Hid']%elem_sdelete. rewrite Hoth, decide_False by done. by apply Hst.
      * intros id'. rewrite Hoth, Hrun, elem_sdelete. case_decide; [subst|tauto].
        split; [intros [_ Hx]; congruence|tauto].
    + rewrite Hjs', elem_sdelete. tauto.
    + intros id' Hne. rewrite Hoth, decide_False, Hjs', elem_sdelete by done. tauto.
    + by right.
Qed.

Lemma tryStart_live p q id :
  quiet p -> live q -> id ∈ jobs q -> job_state q id = Some queued -> at_capacity p q = false ->
  exists q', tryStart p id q = (Ok tt, q') /\ live q' /\ (id ∈ jobs q' -> job_state q' id <> Some queued) /\
  (forall id', id' <> id -> (id' ∈ jobs q' <-> id' ∈ jobs q) /\ job_state q' id' = job_state q id').
Proof.
  intros Hp Hl Hin Hq Hcap.
  pose proof (upd_start p (heap q) id (jobs q) (running q) (watched q) Hp q (conj (upd_here q id queued Hq) Hcap)) as Ht.
  destruct (tryStart p id q) as [[[]|e] q']; [|done]. exists q'. split; [done|].
  destruct (started_live _ _ _ _ _ q q' Hl eq_refl eq_refl eq_refl eq_refl Hin Hq Ht) as (H1 & H2 & H3 & _). auto.
Qed.

Lemma pump_live p ids q :
  quiet p -> live q -> NoDup ids -> (forall id, id ∈ ids -> id ∈ jobs q) -> waits_in p ids q ->
  exists q', pump p ids q = (Ok tt, q') /\ live q' /\ waits_in p [] q'.
Proof.
  intros Hp. revert q. induction ids as [|id ids IH]; intros q Hl Hnd Hsub Hw.
  - exists q. split; [done|]. done.
  - cbn [pump]. unfold mbind at 1, eff_bind at 1, gets at 1. destruct (at_capacity p q) eqn:Hcap.
    { exists q. split; [done|]. split; [done|]. intros id' ? ?. by right. }
    inv Hnd. assert (Hin : id ∈ jobs q) by (apply Hsub; by left).
    destruct (lv_state _ Hl id Hin) as [Hs|Hs]; unfold mbind at 1, eff_bind at 1, deref at 1; pose proof Hs as Hs';
      unfold job_state in Hs'; destruct (mget id (heap q)) as [j|]; try done; injection Hs' as Hs'; rewrite Hs'.
    + rewrite bool_decide_true by done.
      destruct (tryStart_live p q id Hp Hl Hin Hs Hcap) as (q' & -> & Hl' & Hid & Hoth).
      apply IH; [done|done| |].
      * intros id' Hid'. apply Hoth; [set_solver|]. apply Hsub. by right.
      * intros id' Hid' Hq'. destruct (decide (id' = id)) as [->|Hne]; [by destruct (Hid Hid')|].
        destruct (Hoth id' Hne) as [Hj Hst]. rewrite Hst in Hq'. apply Hj in Hid'.
        destruct (Hw id' Hid' Hq') as [[->|?]%elem_of_cons|?]; [done|by left|congruence].
    + rewrite bool_decide_false by done. cbn. apply IH; [done|done| |].
      * intros id' Hid'. apply Hsub. by right.
      * intros id' Hid' Hq'. destruct (Hw id' Hid' Hq') as [[->|?]%elem_of_cons|?]; [congruence|by left|by right].
Qed.

Lemma tryStart_full p id q : at_capacity p q = true -> tryStart p id q = (Ok tt, q).
Proof.
  intros Hcap. unfold tryStart, deref. destruct (mget id (heap q)); [|done].
  unfold mbind at 1, eff_bind at 1, gets at 1. rewrite Hcap, orb_true_r. done.
Qed.

(** A new job enters the live map queued. *)
Lemma added_live id q q1 :
  live q -> mget id (heap q) = None ->
  upd (heap q) id (fun j => j_state j = queued) (sadd id (jobs q)) (running q) (watched q) q1 ->
  live q1 /\ id ∈ jobs q1 /\ job_state q1 id = Some queued /\
  forall id', id' <> id -> (id' ∈ jobs q1 <-> id' ∈ jobs q) /\ job_state q1 id' = job_state q id'.
Proof.
  intros [Hnd Hst Hwn Hrun Hc] Hnone Hu. pose proof Hu as (j & Hj & Hh & Hjs & Hr & Hw).
  assert (Hoth : forall id', job_state q1 id' = if decide (id' = id) then Some queued else job_state q id').
  { intros id'. unfold job_state. rewrite Hh, mget_mset. case_decide; [|done]. simpl. by rewrite Hj. }
  assert (Hni : id ∉ jobs q).
  { intros Hin. destruct (Hst id Hin) as [Hx|Hx]; unfold job_state in Hx; by rewrite Hnone in Hx. }
  split_and!.
  - split; rewrite ?Hjs, ?Hr, ?Hw; [by apply NoDup_sadd| |done| |done].
    + intros id' Hid'%elem_sadd. rewrite Hoth. case_decide; [by left|]. apply Hst. naive_solver.
    + intros id'. rewrite Hrun, elem_sadd, Hoth. case_decide; [subst|naive_solver]. naive_solver.
  - rewrite Hjs. apply elem_sadd. by left.
  - rewrite Hoth. by rewrite decide_True.
  - intros id' Hne. rewrite Hoth, decide_False, Hjs, elem_sadd by done. naive_solver.
Qed.

(** A job failed outside the live map changes nothing in it. *)
Lemma outside_live p id q q1 P :
  live q -> waits_in p [] q -> id ∉ jobs q ->
  upd (heap q) id P (jobs q) (running q) (watched q) q1 -> live q1 /\ waits_in p [] q1.
Proof.
  intros [Hnd Hst Hwn Hrun Hc] Hwait Hni (j & Hj & Hh & Hjs & Hr & Hw).
  assert (Hoth : forall id', id' ∈ jobs q -> job_state q1 id' = job_state q id').
  { intros id' Hin. unfold job_state. rewrite Hh, mget_mset. case_decide; [by subst|done]. }
  split.
  - split; rewrite ?Hjs, ?Hr, ?Hw; [done| |done| |done].
    + intros id' Hin. rewrite Hoth by done. by apply Hst.
    + intros id'. rewrite Hrun. split; intros [Hin Hx]; (split; [done|]); [by rewrite Hoth|by rewrite <- Hoth].
  - intros id'. rewrite Hjs. intros Hin. rewrite Hoth by done. intros Hq. right.
    destruct (Hwait id' Hin Hq) as [Hx|Hx]; [by apply not_elem_of_nil in Hx|]. by rewrite (at_capacity_running p q1 q).
Qed.

Lemma enqueue_live p id req by_ q :
  quiet p -> live q -> waits_in p [] q -> mget id (heap q) = None ->
  exists o q', enqueue p id req by_ q = (Ok o, q') /\ live q' /\ waits_in p [] q'.
Proof.
  intros Hp Hl Hwait Hnone.
  assert (Hni : id ∉ jobs q).
  { intros Hin. destruct (lv_state _ Hl id Hin) as [Hx|Hx]; unfold job_state in Hx; by rewrite Hnone in Hx. }
  assert (Ht : triple (fun q0 => q0 = q) (enqueue p id req by_) (fun _ q' => live q' /\ waits_in p [] q') no).
  { unfold enqueue. set (U := fun st => upd (heap q) id (fun j => j_state j = st) (jobs q) (running q) (watched q)).
    eapply triple_bind; [by apply (triple_gets _ _ (fun _ q0 => q0 = q)); intros|intros now].
    eapply (triple_bind _ _ _ (fun _ => U queued)).
    { apply triple_modify. intros q0 ->. eexists (mkJobInfo id _ _ _ _ _ _ queued _ _ _ _ _ _). by split_and!. }
    intros ?. eapply triple_bind; [apply upd_call, Hp|]. intros [reason|].
    - eapply triple_conseq; [|done|intros o q'; apply (outside_live p id q q' (fun j => j_state j = failed) Hl Hwait Hni)|done].
      eapply triple_bind; [by apply (upd_assign _ _ _ (fun j => j_state j = failed))|intros ?].
      eapply triple_bind; [by apply (upd_assign _ _ _ (fun j => j_state j = failed))|intros ?].
      eapply triple_bind; [apply upd_now|intros t1].
      eapply triple_bind; [by apply (upd_assign _ _ _ (fun j => j_state j = failed))|intros ?].
      eapply triple_bind; [apply upd_deref; intros; apply upd_call, Hp|intros ?].
      eapply triple_bind; [by apply upd_emit|intros ?]. apply upd_now.
    - eapply triple_bind; [apply (upd_modify _ _ _ _ _ _ (sadd id (jobs q)) (running q) (watched q)); simpl; intros q' -> -> ->; done|intros ?].
      eapply triple_bind; [apply upd_deref; intros; apply upd_call, Hp|intros ?].
      eapply triple_bind; [by apply upd_emit|intros ?].
      apply (triple_bind _ _ _ (fun _ q' => live q' /\ waits_in p [] q')); [|intros ?; by apply triple_gets].
      intros q1 Hu. destruct (added_live id q q1 Hl Hnone Hu) as (Hl1 & Hin1 & Hq1 & Hoth).
      assert (Hcap : at_capacity p q1 = at_capacity p q) by (apply at_capacity_running; by destruct Hu as (? & ? & ? & ? & ? & ?)).
      destruct (at_capacity p q1) eqn:Hc1.
      + rewrite tryStart_full by done. split; [done|]. intros ? ? ?. by right.
      + destruct (tryStart_live p q1 id Hp Hl1 Hin1 Hq1 Hc1) as (q' & -> & Hl' & Hid & Hoth'). split; [done|].
        intros id' Hin' Hq'. destruct (decide (id' = id)) as [->|Hne]; [by destruct (Hid Hin')|].
        destruct (Hoth' id' Hne) as [H1 H2], (Hoth id' Hne) as [H3 H4]. rewrite H2, H4 in Hq'.
        destruct (Hwait id') as [Hx|Hx]; [tauto|done|by apply not_elem_of_nil in Hx|congruence]. }
  specialize (Ht q eq_refl). destruct (enqueue p id req by_ q) as [[o|e] q']; [|done]. exists o, q'. tauto.
Qed.

Lemma fmap_snd_mid (w1 w2 : list (S * string)) s id :
  (w1 ++ (s, id) :: w2).*2 ≡ₚ id :: (w1 ++ w2).*2.
Proof. by rewrite <- Permutation_middle. Qed.

(** The exiting session's job leaves the live map and its slot is released. *)
Lemma exited_live q q' h id s w1 w2 P :
  live q -> watched q = w1 ++ (s, id) :: w2 -> heap q = h ->
  upd h id P (sdelete id (jobs q)) (running q - 1) (w1 ++ w2) q' -> live q'.
Proof.
  intros [Hnd Hst Hwn Hrun Hc] Hwat <- (j & Hj & Hh & Hjs & Hr & Hw).
  assert (Hoth : forall id', id' <> id -> job_state q' id' = job_state q id').
  { intros id' Hne. unfold job_state. by rewrite Hh, mget_mset_ne. }
  rewrite Hwat, fmap_snd_mid in Hwn. apply NoDup_cons in Hwn as [Hni Hwn].
  assert (Hw2 : forall id', id' ∈ (watched q).*2 <-> id' = id \/ id' ∈ (w1 ++ w2).*2)
    by (intros id'; rewrite Hwat, fmap_snd_mid; by rewrite elem_of_cons).
  split; rewrite ?Hjs, ?Hr, ?Hw; [by apply NoDup_sdelete| |done| |].
  - intros id' [Hne Hin]%elem_sdelete. rewrite Hoth by done. by apply Hst.
  - intros id'. rewrite elem_sdelete. split.
    + intros Hin. assert (Hne : id' <> id) by (by intros ->). rewrite Hoth by done.
      destruct (proj1 (Hrun id')) as [? ?]; [apply Hw2; by right|]. done.
    + intros [[Hne Hin] Hs]. rewrite Hoth in Hs by done.
      destruct (proj1 (Hw2 id') (proj2 (Hrun id') (conj Hin Hs))); done.
  - rewrite Hc, Hwat, !length_app. simpl. lia.
Qed.

Lemma exit_live p q s id code err w1 w2 :
  quiet p -> live q -> watched q = w1 ++ (s, id) :: w2 ->
  exists q', exit_event p s id code err (w1 ++ w2) q = (Ok tt, q') /\ live q' /\ waits_in p [] q'.
Proof.
  intros Hp Hl Hwat.
  assert (Hrun : id ∈ jobs q /\ job_state q id = Some Types.running).
  { apply (lv_running _ Hl). rewrite Hwat, fmap_snd_mid. by left. }
  assert (Ht : triple (fun q0 => q0 = q) (exit_event p s id code err (w1 ++ w2)) (fun _ q' => live q' /\ waits_in p [] q') no).
  { unfold exit_event, onExit.
    set (U := upd (heap q) id (fun _ => True)).
    eapply (triple_bind _ _ _ (fun _ => U (jobs q) (running q) (w1 ++ w2))).
    { apply triple_modify. intros q0 ->. destruct (upd_here q id _ (proj2 Hrun)) as (j & _ & Hh & _). exists j. by split_and!. }
    intros ?. eapply triple_bind; [apply (upd_modify _ _ _ _ _ _ (jobs q) (running q - 1) (w1 ++ w2)); simpl; intros q' -> -> ->; split_and!; try done; lia|intros ?].
    eapply triple_bind; [by apply (upd_assign _ _ _ (fun _ => True))|intros ?].
    eapply triple_bind; [apply upd_now|intros now].
    eapply triple_bind; [by apply (upd_assign _ _ _ (fun _ => True))|intros ?].
    apply (triple_bind _ _ _ (fun _ => U (jobs q) (running q - 1) (w1 ++ w2)));
      [destruct (bool_decide _); [by apply (upd_assign _ _ _ (fun _ => True))|by apply triple_ret]|intros ?].
    eapply triple_bind; [apply upd_deref; intros; apply upd_call, Hp|intros ?].
    eapply triple_bind; [by apply upd_emit|intros ?].
    eapply triple_bind; [apply (upd_modify _ _ _ _ _ _ (sdelete id (jobs q)) (running q - 1) (w1 ++ w2)); simpl; intros q' -> -> ->; done|intros ?].
    intros q1 Hu. pose proof (exited_live _ _ _ _ _ _ _ _ Hl Hwat eq_refl Hu) as Hl1.
    destruct (pump_live p (jobs q1) q1 Hp Hl1 (lv_jobs _ Hl1)) as (q' & Hpump & ?); [done|intros ? ? ?; by left|].
    unfold pumpQueue. by rewrite Hpump. }
  specialize (Ht q eq_refl). destruct (exit_event _ _ _ _ _ _ _) as [[[]|e] q']; [|done]. exists q'. tauto.
Qed.

Lemma reach_live p x q : quiet p -> reach p x q -> live q /\ waits_in p [] q.
Proof.
  intros Hp. induction 1 as [|q q' _ [Hl Hw] Hst].
  - split; [|intros id Hin; by apply not_elem_of_nil in Hin].
    split; simpl; try constructor; intros; set_solver.
  - destruct Hst as [q id req by_ Hn|q w1 s id w2 code err Hwat|q x'].
    + by destruct (enqueue_live p id req by_ q Hp Hl Hw Hn) as (o & q' & -> & ?).
    + by destruct (exit_live p q s id code err w1 w2 Hp Hl Hwat) as (q' & -> & ?).
    + by destruct Hl.
Qed.

(** C32. While the store, the listeners and the hook check do not fail (spawning
    and session set-up may), the queue keeps its books exactly: the slots in use
    are the sessions being watched, one per running job, every live job is queued
    or running, and no job waits while a slot is free. *)
Theorem queue_is_work_conserving p x q :
  quiet p -> reach p x q ->
  running q = Z.of_nat (length (watched q)) /\
  (forall id, id ∈ (watched q).*2 <-> id ∈ jobs q /\ job_state q id = Some Types.running) /\
  (forall id, id ∈ jobs q -> job_state q id = Some queued \/ job_state q id = Some Types.running) /\
  (forall id, id ∈ jobs q -> job_state q id = Some queued -> at_capacity p q = true).
Proof.
  intros Hp Hr. destruct (reach_live p x q Hp Hr) as [[Hnd Hst Hwn Hrun Hc] Hw].
  split_and!; [done|done|done|]. intros id Hin Hq.
  destruct (Hw id Hin Hq) as [Hx|]; [by apply not_elem_of_nil in Hx|done].
Qed.

End quiet.

(** ** Refusals never spawn *)

Ltac frames_auto :=
  repeat first [apply frames_bind; [|intros ?] | apply frames_assign | apply frames_gets | apply frames_emit
    | apply frames_deref; intros ? | apply frames_call].

Section refusal.
Context {S X : Type}.
Implicit Types (q : JobQueue.t S X) (p : Ports S X).

(** The same ports with other ways to spawn and set up sessions. *)
Definition with_spawn p (sp : SpawnRequest -> eff X S) (os : JobInfo -> S -> eff X unit) : Ports S X :=
  mkPorts (insertJob p) (updateJobState p) (maxConcurrent p) (selfDenyMs p) (check p) sp os
    (emit_update p) (session_id p) (clock p).

Definition refuses p (cwd : string) : Prop :=
  forall x, exists reason x', check p cwd (selfDenyMs p) x = (Ok (Some reason), x').

(** When the hook check refuses a directory, neither [enqueue] nor a later
    dequeue spawns anything there: their whole outcome is the same whatever
    spawning would do, and the slots in use do not move. *)
Theorem refused_never_spawns p sp os id req by_ q :
  (refuses p (rq_cwd req) -> enqueue p id req by_ q = enqueue (with_spawn p sp os) id req by_ q) /\
  (forall j, mget id (heap q) = Some j -> refuses p (j_cwd j) ->
     tryStart p id q = tryStart (with_spawn p sp os) id q) /\
  (refuses p (rq_cwd req) ->
     running (snd (enqueue p id req by_ q)) = running q /\ watched (snd (enqueue p id req by_ q)) = watched q).
Proof.
  split_and!.
  - intros Href. unfold enqueue, mbind, eff_bind, gets, modify, call. cbn.
    destruct (Href (ext q)) as (reason & x' & ->). done.
  - intros j Hj Href. unfold tryStart, deref. rewrite Hj. unfold mbind, eff_bind, gets, call. cbn.
    change (at_capacity (with_spawn p sp os) q) with (at_capacity p q).
    destruct (negb _ || _); [done|]. destruct (Href (ext q)) as (reason & x' & ->). done.
  - intros Href. set (P := fun r (w : list (S * string)) => r = running q /\ w = watched q).
    assert (Ht : triple (slots P) (enqueue p id req by_) (fun _ => slots P) (slots P)).
    { unfold enqueue.
      eapply triple_bind; [apply triple_frames, frames_gets|intros ?].
      eapply triple_bind; [by apply triple_frames|intros ?].
      eapply (triple_bind _ _ _ (fun o q' => slots P q' /\ exists reason, o = Some reason)).
      - intros q1 Hq1. unfold call. destruct (Href (ext q1)) as (reason & x' & ->). eauto.
      - intros o q1 [Hq1 [reason ->]]. revert q1 Hq1. apply triple_frames. frames_auto. }
    destruct (triple_state _ _ _ _ Ht q) as [[_ ?]|?]; done.
Qed.

End refusal.

(** ** A slot leaked by a failing store *)

Section leak.
Context {S X : Type}.
Implicit Types (q : JobQueue.t S X) (p : Ports S X).

Lemma full_step p q q' m :
  step p q q' -> maxConcurrent p = Some m -> m <= running q -> watched q = [] ->
  running q' = running q /\ watched q' = [].
Proof.
  intros [q0 id req by_ _|q0 w1 s id w2 code err Hw'|q0 x] Hm Hr Hw; [|rewrite Hw in Hw'; by destruct w1|done].
  set (P := fun r (w : list (S * string)) => r = running q0 /\ w = []).
  assert (Hfr : forall q1, slots P q1 -> at_capacity p q1 = true).
  { intros q1 [H1 _]. unfold at_capacity. rewrite Hm, H1. by apply Z.leb_le. }
  assert (Ht : triple (slots P) (enqueue p id req by_) (fun _ => slots P) (slots P)).
  { unfold enqueue.
    eapply triple_bind; [apply triple_frames, frames_gets|intros ?].
    eapply triple_bind; [by apply triple_frames|intros ?].
    eapply triple_bind; [apply triple_frames, frames_call|intros [reason|]].
    - apply triple_frames. frames_auto.
    - eapply triple_bind; [by apply triple_frames|intros ?].
      eapply triple_bind; [apply triple_frames, frames_deref; intros; apply frames_call|intros ?].
      eapply triple_bind; [apply triple_frames, frames_emit|intros ?].
      eapply triple_bind; [|intros ?; apply triple_frames, frames_gets].
      intros q1 Hq1. by rewrite tryStart_full by auto. }
  destruct (triple_state _ _ _ _ Ht q0) as [[_ [? ?]]|[? ?]]; [by split|done|done].
Qed.

Lemma full_forever p q q' m :
  maxConcurrent p = Some m -> m <= running q -> watched q = [] -> rtc (step p) q q' ->
  running q' = running q /\ watched q' = [].
Proof.
  intros Hm Hr Hw Hs. revert Hr Hw. induction Hs as [q|q q1 q2 Hst _ IH]; intros Hr Hw; [done|].
  destruct (full_step p q q1 m Hst Hm Hr Hw) as [H1 H2]. destruct IH as [H3 H4]; [lia|done|].
  split; [congruence|done].
Qed.

End leak.

(** Ports over a clock: everything succeeds, except that the store's update
    throws while [bad] and that spawning fails for the directory "/missing". *)
Definition demo_ports (cap : option Z) (bad : bool) : Ports string Z := {|
  insertJob _ := mret tt;
  updateJobState _ _ := if bad then throw "SQLITE_BUSY" else mret tt;
  maxConcurrent := cap;
  selfDenyMs := 1000;
  check cwd _ := mret (if bool_decide (cwd = "/unsafe") then Some "no hook" else None);
  spawnSession req := if bool_decide (rq_cwd req = "/missing") then throw "ENOENT" else mret ("s:" +:+ rq_cwd req);
  onSession _ _ := mret tt;
  emit_update _ := mret tt;
  session_id s := s;
  clock x := x;
|}.

Definition demo_request (cwd : string) : SpawnRequest := mkSpawnRequest cwd None None None None None.

(** One failed write of the job store, at the moment a job starts, takes its
    slot away for good: with a cap of one, the queue afterwards never starts a
    session again, whatever is enqueued and even though the store works again.
    (The reservation is made before the [try] block that releases it.) *)
Theorem store_failure_leaks_slot q' :
  let q := snd (enqueue (demo_ports (Some 1) true) "j1" (demo_request "/p") "d" (new 0)) in
  rtc (step (demo_ports (Some 1) false)) q q' ->
  fst (enqueue (demo_ports (Some 1) true) "j1" (demo_request "/p") "d" (new 0)) = Throw "SQLITE_BUSY" /\
  running q' = 1 /\ watched q' = [].
Proof.
  intros q Hs. split; [reflexivity|].
  exact (full_forever (demo_ports (Some 1) false) q q' 1 eq_refl ltac:(vm_compute; discriminate) eq_refl Hs).
Qed.

Lemma store_failure_leaks_slot_witness :
  let q := snd (enqueue (demo_ports (Some 1) true) "j1" (demo_request "/p") "d" (new 0)) in
  watched (snd (enqueue (demo_ports (Some 1) false) "j2" (demo_request "/q") "d" q)) = [].
Proof.
  intros q. apply (store_failure_leaks_slot (snd (enqueue (demo_ports (Some 1) false) "j2" (demo_request "/q") "d" q))).
  apply rtc_once, step_enqueue. reflexivity.
Defined.

(** Two spawns under a cap of one, then the first session exits. *)
Definition demo_queue : JobQueue.t string Z :=
  let p := demo_ports (Some 1) false in
  snd (enqueue p "j2" (demo_request "/q") "d" (snd (enqueue p "j1" (demo_request "/p") "d" (new 0)))).

Lemma demo_reach : reach (demo_ports (Some 1) false) 0 demo_queue.
Proof.
  eapply reach_step; [|by apply step_enqueue]. eapply reach_step; [|by apply step_enqueue]. apply reach_new.
Qed.

Lemma sessions_within_cap_witness : running demo_queue <= 1.
Proof. exact (proj2 (sessions_within_cap _ _ _ demo_reach) 1 eq_refl). Defined.

Lemma demo_quiet cap : quiet (demo_ports cap false).
Proof. by split. Qed.

Lemma queue_is_work_conserving_witness :
  at_capacity (demo_ports (Some 1) false) demo_queue = true /\
  watched (snd (exit_event (demo_ports (Some 1) false) "s:/p" "j1" (Some 0) None [] demo_queue)) = [("s:/q", "j2")].
Proof.
  split; [|reflexivity].
  destruct (queue_is_work_conserving _ _ _ (demo_quiet (Some 1)) demo_reach) as (_ & _ & _ & H).
  apply (H "j2"); [apply (bool_decide_eq_true_1 _); vm_compute; reflexivity|vm_compute; reflexivity].
Defined.

Lemma refused_never_spawns_witness :
  running (snd (enqueue (demo_ports None false) "j" (demo_request "/unsafe") "d" (new 0))) = 0.
Proof.
  apply (proj2 (proj2 (refused_never_spawns (demo_ports None false) (fun _ => throw "") (fun _ _ => throw "")
    "j" (demo_request "/unsafe") "d" (new 0)))).
  intros x. exists "no hook", x. reflexivity.
Defined.
