(* ===== verification/Framing.v ===== *)
(** * Newline framing

    The read loop every socket and pipe of the program uses:
    [buf += chunk; while ((i = buf.indexOf('\n')) >= 0) { line = buf.slice(0, i);
    buf = buf.slice(i + 1); ... }].  [session.ts], [hookBridge.ts] and
    [clientConnection.ts] share it. *)

From S2P Require Import Prelude JsMap Js.

Module Framing.

Definition newline : ascii := "010"%char.

(** [indexOf('\n')] with the two [slice]s: the first line and what follows it. *)
Fixpoint take_line (buf : string) : option (string * string) :=
  match buf with
  | EmptyString => None
  | String c buf' =>
      if decide (c = newline) then Some (EmptyString, buf')
      else match take_line buf' with
           | Some (line, rest) => Some (String c line, rest)
           | None => None
           end
  end.

(** The loop: the lines it takes, in order, and the buffer it leaves.  Each turn
    shortens the buffer, so its length bounds the turns. *)
Fixpoint drain_loop (fuel : nat) (buf : string) : list string * string :=
  match fuel with
  | O => ([], buf)
  | S fuel' =>
      match take_line buf with
      | None => ([], buf)
      | Some (line, rest) => let (lines, left) := drain_loop fuel' rest in (line :: lines, left)
      end
  end.

Definition drain (buf : string) : list string * string := drain_loop (String.length buf) buf.

(** [!line.trim()], for the ASCII white space. *)
Definition is_space (c : ascii) : bool :=
  bool_decide (c = " "%char) || bool_decide (c = "009"%char) || bool_decide (c = "010"%char) ||
  bool_decide (c = "011"%char) || bool_decide (c = "012"%char) || bool_decide (c = "013"%char).

Fixpoint is_blank (s : string) : bool :=
  match s with
  | EmptyString => true
  | String c s' => is_space c && is_blank s'
  end.

(** What a writer sends: [JSON.stringify(frame) + '\n'] for each frame. *)
Fixpoint unlines (lines : list string) : string :=
  match lines with
  | [] => ""
  | line :: lines' => line +:+ String newline (unlines lines')
  end.

Fixpoint has_newline (s : string) : bool :=
  match s with
  | EmptyString => false
  | String c s' => bool_decide (c = newline) || has_newline s'
  end.

(** The loop with its body: [f] runs on each line as it is taken, and the result is
    the buffer left; a throw of [f] leaves the loop. *)
Fixpoint each_line {W} (f : string -> eff W unit) (fuel : nat) (buf : string) : eff W string :=
  match fuel with
  | O => mret buf
  | S fuel' =>
      match take_line buf with
      | None => mret buf
      | Some (line, rest) => f line ;; each_line f fuel' rest
      end
  end.

Definition read_loop {W} (f : string -> eff W unit) (buf : string) : eff W string :=
  each_line f (String.length buf) buf.

End Framing.

Import Framing.

(** ** Laws *)

Lemma string_cons_app c (a b : string) : String c a +:+ b = String c (a +:+ b).
Proof. done. Qed.

Lemma string_nil_app (b : string) : "" +:+ b = b.
Proof. done. Qed.

Lemma string_app_assoc (a b c : string) : (a +:+ b) +:+ c = a +:+ (b +:+ c).
Proof. induction a as [|x a IH]; [done|]. by rewrite !string_cons_app, IH. Qed.

Lemma string_app_empty_r (a : string) : a +:+ "" = a.
Proof. induction a as [|x a IH]; [done|]. by rewrite string_cons_app, IH. Qed.

Lemma string_length_app (a b : string) : String.length (a +:+ b) = (String.length a + String.length b)%nat.
Proof. induction a as [|x a IH]; [done|]. rewrite string_cons_app. simpl. by rewrite IH. Qed.

Lemma take_line_None buf : take_line buf = None <-> has_newline buf = false.
Proof.
  induction buf as [|c buf IH]; simpl; [done|].
  case_decide as Hc; [rewrite bool_decide_true by done; done|rewrite bool_decide_false by done; simpl].
  rewrite <- IH. by destruct (take_line buf) as [[? ?]|].
Qed.

Lemma take_line_Some buf line rest :
  take_line buf = Some (line, rest) ->
  buf = line +:+ String newline rest /\ has_newline line = false.
Proof.
  revert line. induction buf as [|c buf IH]; intros line; simpl; [done|].
  case_decide as Hc; [intros; simplify_eq; done|].
  destruct (take_line buf) as [[l r]|] eqn:Ht; [|done]. intros [= <- ->].
  destruct (IH l eq_refl) as [-> Hl]. simpl. rewrite bool_decide_false by done. done.
Qed.

Lemma take_line_app line rest :
  has_newline line = false -> take_line (line +:+ String newline rest) = Some (line, rest).
Proof.
  induction line as [|c line IH]; simpl; intros Hl; rewrite ?string_nil_app, ?string_cons_app; simpl.
  - first [done | by rewrite decide_True].
  - apply orb_false_iff in Hl as [Hc Hl]. apply bool_decide_eq_false in Hc.
    rewrite decide_False by done. by rewrite IH.
Qed.

(** More fuel than the buffer is long changes nothing. *)
Lemma drain_loop_fuel f1 f2 buf :
  (String.length buf <= f1)%nat -> (String.length buf <= f2)%nat -> drain_loop f1 buf = drain_loop f2 buf.
Proof.
  revert f2 buf. induction f1 as [|f1 IH]; intros f2 buf H1 H2.
  - destruct buf; simpl in *; [by destruct f2|lia].
  - destruct f2 as [|f2]; [destruct buf; simpl in *; [done|lia]|]. simpl.
    destruct (take_line buf) as [[line rest]|] eqn:Ht; [|done].
    apply take_line_Some in Ht as [-> _]. rewrite string_length_app in H1, H2. simpl in H1, H2.
    rewrite (IH f2 rest) by lia. done.
Qed.

Lemma drain_unfold buf :
  drain buf = match take_line buf with
              | None => ([], buf)
              | Some (line, rest) => let (lines, left) := drain rest in (line :: lines, left)
              end.
Proof.
  unfold drain. destruct (take_line buf) as [[line rest]|] eqn:Ht.
  - pose proof (take_line_Some _ _ _ Ht) as [Hb _].
    destruct (String.length buf) as [|n] eqn:Hn.
    + subst buf. rewrite string_length_app in Hn. simpl in Hn. lia.
    + simpl. rewrite Ht. rewrite (drain_loop_fuel n (String.length rest)); [done| |done].
      subst buf. rewrite string_length_app in Hn. simpl in Hn. lia.
  - destruct (String.length buf) as [|n]; simpl; [done|]. by rewrite Ht.
Qed.

(** The loop has run to its end: what it leaves holds no newline. *)
Lemma drain_complete buf : has_newline (drain buf).2 = false.
Proof.
  remember (String.length buf) as n eqn:Hn. revert buf Hn.
  induction (lt_wf n) as [n _ IH]. intros buf ->. rewrite drain_unfold.
  destruct (take_line buf) as [[line rest]|] eqn:Ht; [|by apply take_line_None].
  pose proof (take_line_Some _ _ _ Ht) as [Hb _].
  assert (Hlt : (String.length rest < String.length buf)%nat)
    by (rewrite Hb, string_length_app; simpl; lia).
  specialize (IH _ Hlt rest eq_refl). by destruct (drain rest).
Qed.

Lemma take_line_app_chunk a b line rest :
  take_line a = Some (line, rest) -> take_line (a +:+ b) = Some (line, rest +:+ b).
Proof.
  intros Ht. apply take_line_Some in Ht as [-> Hl]. rewrite string_app_assoc. by apply take_line_app.
Qed.

(** Splitting the input into chunks does not matter. *)
Lemma drain_app a b :
  drain (a +:+ b) = let (l1, r1) := drain a in let (l2, r2) := drain (r1 +:+ b) in (l1 ++ l2, r2).
Proof.
  remember (String.length a) as n eqn:Hn. revert a Hn.
  induction (lt_wf n) as [n _ IH]. intros a ->. rewrite (drain_unfold a).
  destruct (take_line a) as [[line rest]|] eqn:Ht.
  - rewrite drain_unfold, (take_line_app_chunk _ b _ _ Ht).
    pose proof (take_line_Some _ _ _ Ht) as [Hb _].
    assert (Hlt : (String.length rest < String.length a)%nat)
      by (rewrite Hb, string_length_app; simpl; lia).
    rewrite (IH _ Hlt rest eq_refl). destruct (drain rest) as [l1 r1]. by destruct (drain (r1 +:+ b)).
  - by destruct (drain (a +:+ b)).
Qed.

(** Nothing is lost and nothing is invented. *)
Lemma drain_lossless buf : unlines (drain buf).1 +:+ (drain buf).2 = buf.
Proof.
  remember (String.length buf) as n eqn:Hn. revert buf Hn.
  induction (lt_wf n) as [n _ IH]. intros buf ->. rewrite drain_unfold.
  destruct (take_line buf) as [[line rest]|] eqn:Ht; [|done].
  pose proof (take_line_Some _ _ _ Ht) as [Hb _].
  assert (Hlt : (String.length rest < String.length buf)%nat)
    by (rewrite Hb, string_length_app; simpl; lia).
  specialize (IH _ Hlt rest eq_refl). destruct (drain rest) as [lines left]. simpl in *.
  rewrite Hb, string_app_assoc, string_cons_app. by rewrite IH.
Qed.

Lemma drain_unlines lines r :
  Forall (fun l => has_newline l = false) lines -> has_newline r = false -> drain (unlines lines +:+ r) = (lines, r).
Proof.
  intros Hl Hr. induction Hl as [|line lines Hline _ IH]; simpl.
  - rewrite string_nil_app, drain_unfold. apply take_line_None in Hr. by rewrite Hr.
  - rewrite string_app_assoc, string_cons_app, drain_unfold, take_line_app by done. by rewrite IH.
Qed.

Lemma drain_one_line line : has_newline line = false ->
  drain (line +:+ String newline EmptyString) = ([line], EmptyString).
Proof.
  intros Hn. pose proof (drain_unlines [line] EmptyString) as Hd. rewrite string_app_empty_r in Hd. by apply Hd; [constructor|].
Qed.

(** The loop with a body runs it on the lines the plain loop takes, in order. *)
Lemma read_loop_drain {W} (f : string -> eff W unit) buf w :
  read_loop f buf w = (for_each f (drain buf).1 ;; mret (drain buf).2) w.
Proof.
  unfold read_loop, drain. generalize (String.length buf). intros fuel. revert buf w.
  induction fuel as [|fuel IH]; intros buf w; [done|]. cbn [each_line drain_loop].
  destruct (take_line buf) as [[line rest]|]; [|done]. specialize (IH rest).
  destruct (drain_loop fuel rest) as [lines left]. cbn [fst snd for_each] in *.
  unfold mbind, eff_bind in *. destruct (f line w) as [[u|e] w1]; [apply IH|done].
Qed.

Lemma triple_read_loop {W} (f : string -> eff W unit) (P R : W -> Prop) buf :
  (forall line, triple P (f line) (fun _ => P) R) -> triple P (read_loop f buf) (fun _ => P) R.
Proof.
  intros Hf. unfold read_loop. generalize (String.length buf). intros n. revert buf.
  induction n as [|n IH]; intros buf; cbn [each_line]; [by apply triple_ret|].
  destruct (take_line buf) as [[line rest]|]; [|by apply triple_ret]. by eapply triple_bind; [apply Hf|].
Qed.

(** The whole reader: the lines taken from a sequence of chunks. *)
Definition read_chunks (buf : string) (chunks : list string) : list string * string :=
  foldl (fun st chunk => let (lines, buf') := drain (snd st +:+ chunk) in (fst st ++ lines, buf')) ([], buf) chunks.

Lemma read_chunks_snoc buf chunks c :
  read_chunks buf (chunks ++ [c]) =
    let (lines, buf') := drain ((read_chunks buf chunks).2 +:+ c) in ((read_chunks buf chunks).1 ++ lines, buf').
Proof. unfold read_chunks. by rewrite foldl_app. Qed.

Lemma read_chunks_join chunks : read_chunks "" chunks = drain (foldr String.append "" chunks).
Proof.
  induction chunks as [|c chunks IH] using rev_ind; [done|].
  rewrite read_chunks_snoc, IH.
  assert (Hf : foldr String.append "" (chunks ++ [c]) = foldr String.append "" chunks +:+ c).
  { clear IH. induction chunks as [|x chunks IH]; simpl; [by rewrite string_app_empty_r|].
    rewrite IH. by rewrite string_app_assoc. }
  rewrite Hf, (drain_app (foldr String.append "" chunks) c). destruct (drain (foldr String.append "" chunks)) as [l1 r1].
  cbn [fst snd]. by destruct (drain (r1 +:+ c)).
Qed.

(** Framing round trip under any segmentation: however the transport cuts
    the stream of newline-terminated messages into chunks, the read loop takes
    exactly the messages that were written, in order, and an unfinished message
    stays in the buffer. *)
Theorem framing_roundtrip (lines : list string) (partial : string) (chunks : list string) :
  Forall (fun l => has_newline l = false) lines -> has_newline partial = false ->
  foldr String.append "" chunks = unlines lines +:+ partial ->
  read_chunks "" chunks = (lines, partial).
Proof. intros Hl Hp Hc. rewrite read_chunks_join, Hc. by apply drain_unlines. Qed.

Lemma framing_roundtrip_witness :
  read_chunks "" ["a"; "b" +:+ String newline "c"; "d" +:+ String newline ""; "e"] = (["ab"; "cd"], "e").
Proof.
  refine (framing_roundtrip ["ab"; "cd"] "e" ["a"; "b" +:+ String newline "c"; "d" +:+ String newline ""; "e"] _ eq_refl eq_refl).
  apply Forall_cons; split; [reflexivity|]. apply Forall_cons; split; [reflexivity|]. apply Forall_nil_2.
Defined.
