(* ===== verification/Session.v ===== *)
(** * One headless session

    [packages/daemon/src/infrastructure/session.ts] and
    [packages/daemon/src/infrastructure/sessionState.ts].  The child process is
    outside: its spawn, output, exit and error events are inputs, what the
    session writes to its stdin is an output.  Emitted events are listed in
    order; [JSON.parse] is a parameter. *)

From S2P Require Import Prelude JsMap Js Types Framing.
Import Framing.Framing.

Local Open Scope Z_scope.

(** [v === 's'] *)
Definition is_str (s : string) (v : jsval) : bool :=
  match v with JStr s' => bool_decide (s' = s) | _ => false end.

(** [deriveSessionState(ev)] *)
Definition deriveSessionState (ev : jsval) : option SessionState :=
  if is_str "system" (jprop "type" ev) && is_str "init" (jprop "subtype" ev) then Some idle
  else if is_str "system" (jprop "type" ev) && is_str "notification" (jprop "subtype" ev) then
    let nt := jprop "notification_type" ev in
    if is_str "permission_prompt" nt then Some waiting_approval
    else if is_str "agent_needs_input" nt || is_str "idle_prompt" nt then Some waiting_input
    else if is_str "agent_completed" nt then Some idle
    else None
  else if is_str "assistant" (jprop "type" ev) then Some working
  else if is_str "result" (jprop "type" ev) then Some idle
  else None.

Module Session.

Record SpawnOptions : Type := mkSpawnOptions {
  so_cwd : string;
  so_label : option string;
  so_disallowedTools : option (list string);
  so_model : option string;
  so_permissionMode : option PermissionMode;
  so_effort : option EffortLevel;
  so_socketPath : string;
  so_selfDenyMs : Z;
}.

Inductive Emit : Type :=
| EmitState (s : SessionState)
| EmitStream (ev : jsval)
| EmitStderr (text : string)
| EmitExit (code : option Z) (err : option string).

Record t : Type := mk {
  id : string;
  cwd : string;
  label : string;
  claudeSessionId : jsval;
  model : jsval;
  state : SessionState;
  startedAt : Z;
  lastActivityAt : Z;
  pendingApprovals : jsset string;
  buf : string;
  emitted : list Emit;
  stdin : list jsval;
}.

Definition set_state_field st (s : t) : t :=
  mk (id s) (cwd s) (label s) (claudeSessionId s) (model s) st (startedAt s) (lastActivityAt s)
     (pendingApprovals s) (buf s) (emitted s) (stdin s).
Definition set_activity now (s : t) : t :=
  mk (id s) (cwd s) (label s) (claudeSessionId s) (model s) (state s) (startedAt s) now
     (pendingApprovals s) (buf s) (emitted s) (stdin s).
Definition set_identity csid m (s : t) : t :=
  mk (id s) (cwd s) (label s) csid m (state s) (startedAt s) (lastActivityAt s)
     (pendingApprovals s) (buf s) (emitted s) (stdin s).
Definition set_pending pa (s : t) : t :=
  mk (id s) (cwd s) (label s) (claudeSessionId s) (model s) (state s) (startedAt s) (lastActivityAt s)
     pa (buf s) (emitted s) (stdin s).
Definition set_buf b (s : t) : t :=
  mk (id s) (cwd s) (label s) (claudeSessionId s) (model s) (state s) (startedAt s) (lastActivityAt s)
     (pendingApprovals s) b (emitted s) (stdin s).
Definition emit e (s : t) : t :=
  mk (id s) (cwd s) (label s) (claudeSessionId s) (model s) (state s) (startedAt s) (lastActivityAt s)
     (pendingApprovals s) (buf s) (emitted s ++ [e]) (stdin s).
Definition write msg (s : t) : t :=
  mk (id s) (cwd s) (label s) (claudeSessionId s) (model s) (state s) (startedAt s) (lastActivityAt s)
     (pendingApprovals s) (buf s) (emitted s) (stdin s ++ [msg]).

(** [cwd.split('/').pop()]: what follows the last slash. *)
Fixpoint last_segment (acc s : string) : string :=
  match s with
  | EmptyString => acc
  | String c s' => if decide (c = "/"%char) then last_segment "" s' else last_segment (acc +:+ String c "") s'
  end.

Definition effort_string (e : EffortLevel) : string :=
  match e with low => "low" | medium => "medium" | high => "high" | xhigh => "xhigh" | Types.max => "max" end.
Definition mode_string (m : PermissionMode) : string :=
  match m with
  | acceptEdits => "acceptEdits" | auto => "auto" | bypassPermissions => "bypassPermissions"
  | manual => "manual" | dontAsk => "dontAsk" | plan => "plan"
  end.

(** The command line of [claude], as the constructor builds it. *)
Definition claude_args (o : SpawnOptions) : list string :=
  ["-p"; "--input-format"; "stream-json"; "--output-format"; "stream-json"; "--verbose"] ++
  mbind (fun t => ["--disallowedTools"; t]) (default [] (so_disallowedTools o)) ++
  (if truthy (so_model o) then ["--model"; default "" (so_model o)] else []) ++
  match so_permissionMode o with Some m => ["--permission-mode"; mode_string m] | None => [] end ++
  match so_effort o with Some e => ["--effort"; effort_string e] | None => [] end.

(** The variables [claude], and so the bridge, finds in its environment besides the
    daemon's own. *)
Definition environment (o : SpawnOptions) : jsmap string string :=
  [("CC_DAEMON_SOCK", so_socketPath o); ("CC_HOOK_SELF_DENY_MS", pretty (so_selfDenyMs o))].

(** The constructor, when [spawn] returns; [uuid] is [randomUUID()]. *)
Definition new (now : Z) (uuid : string) (o : SpawnOptions) : t :=
  mk uuid (so_cwd o) (default (last_segment "" (so_cwd o)) (so_label o)) JNull
     (if truthy (so_model o) then JStr (default "" (so_model o)) else JNull)
     starting now now [] "" [] [].

Definition isTerminal (s : t) : bool :=
  match state s with finished | errored => true | _ => false end.

(** [setState(s)] *)
Definition setState (st : SessionState) (s : t) : t :=
  if decide (state s = st) then s else emit (EmitState st) (set_state_field st s).

(** [proc.once('spawn', ...)] *)
Definition onSpawn (s : t) : t :=
  if decide (state s = starting) then setState ready s else s.

(** [proc.on('exit', (code) => ...)] *)
Definition onExit (code : option Z) (s : t) : t :=
  if isTerminal s then s
  else emit (EmitExit code None) (setState (if decide (code = Some 0) then finished else errored) s).

(** [proc.on('error', (err) => ...)] *)
Definition onError (err : string) (s : t) : t :=
  if isTerminal s then s else emit (EmitExit None (Some err)) (setState errored s).

(** [handleEvent(ev)]; reading a property of [null] throws. *)
Definition handleEvent (now : Z) (ev : jsval) : eff t unit :=
  modify (set_activity now) ;;
  match ev with
  | JNull | JUndef => throw "TypeError: Cannot read properties of null (reading 'type')"
  | _ =>
      (if is_str "system" (jprop "type" ev) && is_str "init" (jprop "subtype" ev) then
         modify (set_identity (jcoalesce (jprop "session_id" ev) JNull) (jcoalesce (jprop "model" ev) JNull))
       else mret tt) ;;
      match deriveSessionState ev with
      | Some next => modify (setState next)
      | None => mret tt
      end ;;
      modify (emit (EmitStream ev))
  end.

Section stdout.
Variable parseJson : string -> option jsval.

Definition handle_line (now : Z) (line : string) : eff t unit :=
  if is_blank line then mret tt
  else match parseJson line with
       | None => mret tt
       | Some ev => handleEvent now ev
       end.

(** The read loop; each turn shortens the buffer. *)
Fixpoint stdout_loop (fuel : nat) (now : Z) : eff t unit :=
  match fuel with
  | O => mret tt
  | S fuel' =>
      b ← gets buf;
      match take_line b with
      | None => mret tt
      | Some (line, rest) =>
          modify (set_buf rest) ;; handle_line now line ;; stdout_loop fuel' now
      end
  end.

(** [onStdout(chunk)] *)
Definition onStdout (now : Z) (chunk : string) : eff t unit :=
  modify (fun s => set_buf (buf s +:+ chunk) s) ;;
  b ← gets buf;
  stdout_loop (String.length b) now.

End stdout.

Definition onStderr (text : string) (s : t) : t := emit (EmitStderr text) s.

Definition control_request (uuid : string) (request : list (string * jsval)) : jsval :=
  JObj [("type", JStr "control_request"); ("request_id", JStr uuid); ("request", JObj request)].

(** [send(text)] *)
Definition send (text : string) (s : t) : t :=
  if isTerminal s then s
  else setState working (write (JObj [("type", JStr "user"); ("message", JObj [("role", JStr "user");
         ("content", JArr [JObj [("type", JStr "text"); ("text", JStr text)]])])]) s).

(** [interrupt()] *)
Definition interrupt (uuid : string) (s : t) : t :=
  if isTerminal s then s else write (control_request uuid [("subtype", JStr "interrupt")]) s.

(** [setModel(model)] *)
Definition setModel (uuid m : string) (s : t) : t :=
  if isTerminal s then s
  else write (control_request uuid [("subtype", JStr "set_model"); ("model", JStr m)])
         (set_identity (claudeSessionId s) (JStr m) s).

(** [setPermissionMode(mode)] *)
Definition setPermissionMode (uuid : string) (m : PermissionMode) (s : t) : t :=
  if isTerminal s then s
  else write (control_request uuid [("subtype", JStr "set_permission_mode"); ("mode", JStr (mode_string m))]) s.

Definition trackPendingApproval (toolUseId : string) (s : t) : t :=
  set_pending (sadd toolUseId (pendingApprovals s)) s.
Definition untrackPendingApproval (toolUseId : string) (s : t) : t :=
  set_pending (sdelete toolUseId (pendingApprovals s)) s.

Definition opt_string (v : jsval) : option string := match v with JStr s => Some s | _ => None end.

(** [info()] *)
Definition info (s : t) : SessionInfo :=
  mkSessionInfo (id s) (opt_string (claudeSessionId s)) (cwd s) (label s) (state s)
    (opt_string (model s)) (startedAt s) (lastActivityAt s) (ssize (pendingApprovals s)).

(** ** Inputs and runs *)

Inductive Input : Type :=
| InSpawn
| InStdout (now : Z) (chunk : string)
| InStderr (text : string)
| InExit (code : option Z)
| InError (err : string)
| InSend (text : string)
| InInterrupt (uuid : string)
| InSetModel (uuid m : string)
| InSetMode (uuid : string) (m : PermissionMode)
| InTrack (toolUseId : string)
| InUntrack (toolUseId : string).

Definition step (parseJson : string -> option jsval) (s : t) (i : Input) : t :=
  match i with
  | InSpawn => onSpawn s
  | InStdout now chunk => snd (onStdout parseJson now chunk s)
  | InStderr text => onStderr text s
  | InExit code => onExit code s
  | InError err => onError err s
  | InSend text => send text s
  | InInterrupt uuid => interrupt uuid s
  | InSetModel uuid m => setModel uuid m s
  | InSetMode uuid m => setPermissionMode uuid m s
  | InTrack x => trackPendingApproval x s
  | InUntrack x => untrackPendingApproval x s
  end.

Definition run parseJson (s : t) (l : list Input) : t := foldl (step parseJson) s l.

Definition is_exit (e : Emit) : Prop := match e with EmitExit _ _ => True | _ => False end.
Global Instance is_exit_dec e : base.Decision (is_exit e).
Proof. destruct e; simpl; apply _. Defined.

(** The exit events emitted so far. *)
Definition exits (s : t) : list Emit := filter is_exit (emitted s).

(** No output of the child is delivered once the session is terminal. *)
Fixpoint quiet_after_exit parseJson (s : t) (l : list Input) : Prop :=
  match l with
  | [] => True
  | i :: l' =>
      match i with InStdout _ _ => isTerminal s = false | _ => True end /\
      quiet_after_exit parseJson (step parseJson s i) l'
  end.

End Session.

Import Session.

(** ** Laws *)

Section laws.
Variable parseJson : string -> option jsval.
Implicit Types s : Session.t.

Lemma setState_state st s : state (setState st s) = st.
Proof. unfold setState. by case_decide. Qed.

Lemma setState_exits st s : exits (setState st s) = exits s.
Proof.
  unfold setState. case_decide; [done|]. unfold exits. simpl.
  by rewrite filter_app, filter_cons_False, app_nil_r by (intros []).
Qed.

Lemma emit_exits e s : ~ is_exit e -> exits (emit e s) = exits s.
Proof. intros He. unfold exits. simpl. by rewrite filter_app, filter_cons_False, app_nil_r by done. Qed.

(** [m] emits no exit, whether it returns or throws. *)
Definition no_exit (m : eff Session.t unit) : Prop := forall s, exits (snd (m s)) = exits s.

Lemma no_exit_modify f : (forall s, exits (f s) = exits s) -> no_exit (modify f).
Proof. intros Hf s. apply Hf. Qed.

Lemma no_exit_bind {A} (m : eff Session.t A) (k : A -> eff Session.t unit) :
  (forall s, exits (snd (m s)) = exits s) -> (forall a, no_exit (k a)) -> no_exit (m ≫= k).
Proof.
  intros Hm Hk s. specialize (Hm s). unfold mbind, eff_bind.
  destruct (m s) as [[a|e] s']; cbn [snd] in *; [by rewrite Hk|done].
Qed.

Lemma no_exit_handle now ev : no_exit (handleEvent now ev).
Proof.
  unfold handleEvent. apply no_exit_bind; [done|]. intros _. destruct ev; try done;
    (apply no_exit_bind; [destruct (_ && _); done|intros _];
     apply no_exit_bind; [destruct (deriveSessionState _); [intros ?; apply setState_exits|done]|intros _];
     apply no_exit_modify; intros ?; apply emit_exits; by intros []).
Qed.

Lemma no_exit_loop now fuel : no_exit (stdout_loop parseJson fuel now).
Proof.
  induction fuel as [|fuel IH]; [done|]. cbn [stdout_loop]. apply no_exit_bind; [done|]. intros b.
  destruct (take_line b) as [[line rest]|]; [|done]. apply no_exit_bind; [done|]. intros _.
  apply no_exit_bind; [|done]. unfold handle_line. destruct (is_blank line); [done|].
  destruct (parseJson line); [apply no_exit_handle|done].
Qed.

Lemma no_exit_stdout now chunk : no_exit (onStdout parseJson now chunk).
Proof.
  unfold onStdout. apply no_exit_bind; [done|]. intros _. apply no_exit_bind; [done|]. intros b. apply no_exit_loop.
Qed.

(** Terminal sessions have emitted their exit, live ones have not. *)
Definition exit_account s : Prop := length (exits s) = if isTerminal s then 1%nat else 0%nat.

Lemma exits_emit_exit c e s : exits (emit (EmitExit c e) s) = exits s ++ [EmitExit c e].
Proof. unfold exits. simpl. by rewrite filter_app, filter_cons_True by done. Qed.

(** The states an output event leads to are not terminal. *)
Lemma derive_not_terminal ev st : deriveSessionState ev = Some st -> st <> finished /\ st <> errored.
Proof. unfold deriveSessionState. repeat case_match; intros; simplify_eq; done. Qed.

Lemma isTerminal_state s st : state s = st -> isTerminal s = match st with finished | errored => true | _ => false end.
Proof. unfold isTerminal. by intros ->. Qed.

Lemma setState_terminal st s :
  isTerminal (setState st s) = match st with finished | errored => true | _ => false end.
Proof. apply isTerminal_state, setState_state. Qed.

(** Output never makes a session terminal. *)
Definition keeps_alive (m : eff Session.t unit) : Prop :=
  forall s, isTerminal s = false -> isTerminal (snd (m s)) = false.

Lemma keeps_alive_bind {A} (m : eff Session.t A) (k : A -> eff Session.t unit) :
  (forall s, isTerminal s = false -> isTerminal (snd (m s)) = false) -> (forall a, keeps_alive (k a)) -> keeps_alive (m ≫= k).
Proof.
  intros Hm Hk s Hs. specialize (Hm s Hs). unfold mbind, eff_bind.
  destruct (m s) as [[a|e] s']; cbn [snd] in *; [by apply Hk|done].
Qed.

Local Ltac same_terminal := intros ? Hsame; exact Hsame.

Lemma keeps_alive_handle now ev : keeps_alive (handleEvent now ev).
Proof.
  unfold handleEvent. apply keeps_alive_bind; [same_terminal|]. intros _. destruct ev; try (intros ? ?; assumption);
    (apply keeps_alive_bind; [destruct (_ && _); same_terminal|intros _];
     apply keeps_alive_bind; [|intros _ ? Hx; exact Hx];
     destruct (deriveSessionState _) as [st|] eqn:Hd; [|same_terminal];
     intros ? _; cbn [snd modify]; rewrite setState_terminal;
     apply derive_not_terminal in Hd as [? ?]; by destruct st).
Qed.

Lemma keeps_alive_loop now fuel : keeps_alive (stdout_loop parseJson fuel now).
Proof.
  induction fuel as [|fuel IH]; [same_terminal|]. cbn [stdout_loop]. apply keeps_alive_bind; [same_terminal|]. intros b.
  destruct (take_line b) as [[line rest]|]; [|same_terminal]. apply keeps_alive_bind; [same_terminal|]. intros _.
  apply keeps_alive_bind; [|intros _; exact IH]. unfold handle_line. destruct (is_blank line); [same_terminal|].
  destruct (parseJson line); [apply keeps_alive_handle|same_terminal].
Qed.

Lemma keeps_alive_stdout now chunk : keeps_alive (onStdout parseJson now chunk).
Proof.
  unfold onStdout. apply keeps_alive_bind; [same_terminal|]. intros _. apply keeps_alive_bind; [same_terminal|]. intros b. apply keeps_alive_loop.
Qed.

Lemma exit_account_step s i :
  match i with InStdout _ _ => isTerminal s = false | _ => True end ->
  exit_account s -> exit_account (step parseJson s i).
Proof.
  unfold exit_account. intros Hq Ha. destruct i as [|now chunk|text|code|err|text|u|u m|u m|x|x]; cbn [step].
  - unfold onSpawn. case_decide as Hs; [|done]. rewrite setState_exits, setState_terminal.
    unfold isTerminal in Ha. by rewrite Hs in Ha.
  - rewrite no_exit_stdout, keeps_alive_stdout by done. by rewrite Hq in Ha.
  - unfold onStderr. rewrite emit_exits by (intros []). done.
  - unfold onExit. destruct (isTerminal s) eqn:Ht; [by rewrite Ht|].
    rewrite exits_emit_exit, setState_exits, length_app, Ha, ?Ht. simpl.
    change (isTerminal (emit ?e ?x)) with (isTerminal x). rewrite setState_terminal. by case_decide.
  - unfold onError. destruct (isTerminal s) eqn:Ht; [by rewrite Ht|].
    rewrite exits_emit_exit, setState_exits, length_app, Ha, ?Ht. simpl.
    change (isTerminal (emit ?e ?x)) with (isTerminal x). by rewrite setState_terminal.
  - unfold send. destruct (isTerminal s) eqn:Ht; [by rewrite Ht|]. rewrite setState_exits, setState_terminal. done.
  - unfold interrupt. destruct (isTerminal s) eqn:Ht; [by rewrite Ht|]. replace (isTerminal (write _ _)) with false by (symmetry; exact Ht). exact Ha.
  - unfold setModel. destruct (isTerminal s) eqn:Ht; [by rewrite Ht|]. replace (isTerminal (write _ _)) with false by (symmetry; exact Ht). exact Ha.
  - unfold setPermissionMode. destruct (isTerminal s) eqn:Ht; [by rewrite Ht|]. replace (isTerminal (write _ _)) with false by (symmetry; exact Ht). exact Ha.
  - done.
  - done.
Qed.

Lemma exit_account_run s l : quiet_after_exit parseJson s l -> exit_account s -> exit_account (run parseJson s l).
Proof.
  revert s. induction l as [|i l IH]; intros s Hq Ha; [done|]. destruct Hq as [Hi Hq].
  apply (IH _ Hq). by apply exit_account_step.
Qed.

End laws.

(** A session reports its end exactly once: whatever order its child's spawn,
    output, exit and error events and the operator's commands come in, as long as
    no output arrives after the end, exactly one exit event has been emitted when
    the session is terminal and none before. *)
Theorem exit_emitted_once parseJson now uuid o (l : list Input) :
  quiet_after_exit parseJson (new now uuid o) l ->
  let s := run parseJson (new now uuid o) l in
  length (exits s) = if isTerminal s then 1%nat else 0%nat.
Proof. intros Hq. apply exit_account_run; [done|]. done. Qed.

(** A terminal session cannot be steered: [send], [interrupt], [setModel] and
    [setPermissionMode] write nothing to the dead child and change nothing. *)
Theorem steering_dead_session_is_noop parseJson s text u m mode :
  isTerminal s = true ->
  Forall (fun i => step parseJson s i = s) [InSend text; InInterrupt u; InSetModel u m; InSetMode u mode].
Proof.
  intros Ht. repeat constructor; simpl; unfold send, interrupt, setModel, setPermissionMode; by rewrite Ht.
Qed.

(** The session of the examples, with a reader of two texts. *)
Definition demo_options : SpawnOptions := mkSpawnOptions "/w/app" None None None None None "/sock" 1000.
Definition demo_parse (line : string) : option jsval :=
  if decide (line = "result") then Some (JObj [("type", JStr "result")])
  else if decide (line = "null") then Some JNull else None.

(** Output delivered after the child's exit brings a terminal session back to
    life: [handleEvent] sets the state without the terminal guard the other
    writers have, so a late line makes the session [idle] again, and a following
    error makes it report its end a second time. *)
Theorem late_output_revives now now' code :
  let s := run demo_parse (new now "id" demo_options)
             [InSpawn; InExit code; InStdout now' ("result" +:+ String newline "")] in
  state s = idle /\ isTerminal s = false /\
  length (exits (run demo_parse s [InError "boom"])) = 2%nat.
Proof. destruct code as [[| |]|]; vm_compute; done. Qed.

Lemma exit_emitted_once_witness :
  let l := [InSpawn; InStdout 5 ("result" +:+ String newline ""); InExit (Some 1); InError "late"] in
  let s := run demo_parse (new 0 "id" demo_options) l in
  length (exits s) = if isTerminal s then 1%nat else 0%nat.
Proof.
  intros l. apply (exit_emitted_once demo_parse 0 "id" demo_options l).
  vm_compute. repeat split.
Defined.

Lemma steering_dead_session_is_noop_witness :
  let s := onExit (Some 0) (new 0 "id" demo_options) in
  step demo_parse s (InSend "hello") = s.
Proof.
  intros s. exact (Forall_inv (steering_dead_session_is_noop demo_parse s "hello" "u" "m" plan eq_refl)).
Defined.
