(* ===== verification/Db.v ===== *)
(** * The durable store

    [packages/daemon/src/infrastructure/db.ts], class [Db]: its four tables, each
    a list of rows in insertion order, and one function per prepared statement,
    with the statement's SQL as its body.  A column that may be NULL is an
    [option].  The engine's own failures (locking, disk) are not modelled here:
    the clients of the store take it as ports that may throw.  [ORDER BY ... DESC]
    leaves ties in insertion order. *)

From S2P Require Import Prelude JsMap Js Types Jobs.

Local Open Scope Z_scope.

Module Db.

Record ApprovalRow : Type := mkApprovalRow {
  ar_tool_use_id : string;
  ar_session_id : string;
  ar_tool_name : string;
  ar_tool_input : jsval;
  ar_description : option string;
  ar_requested_at : Z;
  ar_deadline_at : Z;
  ar_decision : option Verdict;
  ar_reason : option string;
  ar_decided_by : option string;
  ar_decided_at : option Z;
}.

Inductive FinalState : Type := FinalSession (s : SessionState) | Orphaned.

Record SessionRow : Type := mkSessionRow {
  sr_id : string;
  sr_claude_session_id : option string;
  sr_cwd : string;
  sr_label : string;
  sr_model : option string;
  sr_started_at : Z;
  sr_last_activity_at : Z;
  sr_ended_at : option Z;
  sr_final_state : option FinalState;
  sr_exit_code : option Z;
}.

Record JobRow : Type := mkJobRow {
  jr_id : string;
  jr_cwd : string;
  jr_label : option string;
  jr_disallowed_tools : option (list string);
  jr_state : JobState;
  jr_session_id : option string;
  jr_error : option string;
  jr_requested_by : string;
  jr_created_at : Z;
  jr_started_at : option Z;
  jr_finished_at : option Z;
}.

Record PushRow : Type := mkPushRow {
  pr_device_id : string;
  pr_token : string;
  pr_platform : PushPlatform;
  pr_updated_at : Z;
}.

Record t : Type := mk {
  approvals : list ApprovalRow;
  sessions : list SessionRow;
  jobs : list JobRow;
  push_registrations : list PushRow;
}.

Definition empty : t := mk [] [] [] [].

(** [UPDATE ... SET f WHERE P], with the number of rows changed. *)
Definition update_where {A} (P : A -> bool) (f : A -> A) (rows : list A) : list A * Z :=
  ((fun r => if P r then f r else r) <$> rows, Z.of_nat (length (filter (fun r => P r = true) rows))).

(** [ORDER BY key DESC], stable. *)
Fixpoint insert_desc {A} (key : A -> Z) (x : A) (l : list A) : list A :=
  match l with
  | [] => [x]
  | y :: l' => if key y <? key x then x :: l else y :: insert_desc key x l'
  end.
Definition order_desc {A} (key : A -> Z) (l : list A) : list A :=
  foldl (fun acc x => insert_desc key x acc) [] l.

(** [COALESCE(?, column)] *)
Definition coalesce {A} (v column : option A) : option A :=
  match v with Some _ => v | None => column end.

Definition is_key {A} (key : A -> string) (k : string) (r : A) : bool := bool_decide (key r = k).

(** *** Approvals *)

Definition recordApprovalRequested (a : PendingApproval) (d : t) : t :=
  if existsb (is_key ar_tool_use_id (toolUseId a)) (approvals d) then d
  else mk (approvals d ++ [mkApprovalRow (toolUseId a) (pa_sessionId a) (toolName a) (toolInput a)
             (pa_description a) (requestedAt a) (deadlineAt a) None None None None])
          (sessions d) (jobs d) (push_registrations d).

Definition set_decision (v : Verdict) (reason by_ : string) (at_ : Z) (r : ApprovalRow) : ApprovalRow :=
  mkApprovalRow (ar_tool_use_id r) (ar_session_id r) (ar_tool_name r) (ar_tool_input r) (ar_description r)
    (ar_requested_at r) (ar_deadline_at r) (Some v) (Some reason) (Some by_) (Some at_).

Definition recordApprovalDecision (id : string) (v : Verdict) (reason by_ : string) (at_ : Z) (d : t) : t :=
  mk (update_where (is_key ar_tool_use_id id) (set_decision v reason by_ at_) (approvals d)).1
     (sessions d) (jobs d) (push_registrations d).

Definition history_entry (r : ApprovalRow) : option ApprovalHistoryEntry :=
  match ar_decision r, ar_reason r, ar_decided_by r, ar_decided_at r with
  | Some v, Some reason, Some by_, Some at_ =>
      Some (mkHistoryEntry (ar_tool_use_id r) (ar_session_id r) (ar_tool_name r) (ar_description r)
              (ar_requested_at r) v reason by_ at_)
  | _, _, _, _ => None
  end.

(** [WHERE decision IS NOT NULL ORDER BY decided_at DESC LIMIT ?] *)
Definition queryRecentApprovals (limit : nat) (d : t) : list ApprovalHistoryEntry :=
  take limit (order_desc h_decidedAt (omap history_entry (approvals d))).

(** *** Sessions *)

(** A bare INSERT: a duplicate primary key throws. *)
Definition recordSessionStarted (id cwd label : string) (startedAt : Z) (d : t) : outcome t :=
  if existsb (is_key sr_id id) (sessions d) then Throw "UNIQUE constraint failed: sessions.id"
  else Ok (mk (approvals d)
              (sessions d ++ [mkSessionRow id None cwd label None startedAt startedAt None None None])
              (jobs d) (push_registrations d)).

Definition updateSessionActivity (id : string) (claudeSessionId model : option string) (at_ : Z) (d : t) : t :=
  mk (approvals d)
     (update_where (is_key sr_id id) (fun r => mkSessionRow (sr_id r) claudeSessionId (sr_cwd r) (sr_label r) model
        (sr_started_at r) at_ (sr_ended_at r) (sr_final_state r) (sr_exit_code r)) (sessions d)).1
     (jobs d) (push_registrations d).

Definition recordSessionEnded (id : string) (finalState : SessionState) (exitCode : option Z) (at_ : Z) (d : t) : t :=
  mk (approvals d)
     (update_where (is_key sr_id id) (fun r => mkSessionRow (sr_id r) (sr_claude_session_id r) (sr_cwd r) (sr_label r)
        (sr_model r) (sr_started_at r) (sr_last_activity_at r) (Some at_) (Some (FinalSession finalState)) exitCode) (sessions d)).1
     (jobs d) (push_registrations d).

Definition is_open (r : SessionRow) : bool := match sr_final_state r with None => true | Some _ => false end.

Definition reconcileOrphanedSessions (bootTime : Z) (d : t) : Z * t :=
  let (rows, n) := update_where is_open
    (fun r => mkSessionRow (sr_id r) (sr_claude_session_id r) (sr_cwd r) (sr_label r)
       (sr_model r) (sr_started_at r) (sr_last_activity_at r) (Some bootTime) (Some Orphaned) (sr_exit_code r)) (sessions d) in
  (n, mk (approvals d) rows (jobs d) (push_registrations d)).

(** *** Jobs *)

Definition row_of_job (j : JobInfo) : JobRow :=
  mkJobRow (j_id j) (j_cwd j) (j_label j) (j_disallowedTools j) (j_state j) (j_sessionId j) (j_error j)
    (j_requestedBy j) (j_createdAt j) (j_startedAt j) (j_finishedAt j).

Definition insertJob (j : JobInfo) (d : t) : outcome t :=
  if existsb (is_key jr_id (j_id j)) (jobs d) then Throw "UNIQUE constraint failed: jobs.id"
  else Ok (mk (approvals d) (sessions d) (jobs d ++ [row_of_job j]) (push_registrations d)).

Definition patch_row (p : JobPatch) (r : JobRow) : JobRow :=
  mkJobRow (jr_id r) (jr_cwd r) (jr_label r) (jr_disallowed_tools r) (jp_state p)
    (coalesce (jp_sessionId p) (jr_session_id r)) (coalesce (jp_error p) (jr_error r)) (jr_requested_by r)
    (jr_created_at r) (coalesce (jp_startedAt p) (jr_started_at r)) (coalesce (jp_finishedAt p) (jr_finished_at r)).

Definition updateJobState (id : string) (p : JobPatch) (d : t) : t :=
  mk (approvals d) (sessions d) (update_where (is_key jr_id id) (patch_row p) (jobs d)).1 (push_registrations d).

(** The columns the table has; [model], [permissionMode] and [effort] have none. *)
Definition job_of_row (r : JobRow) : JobInfo :=
  mkJobInfo (jr_id r) (jr_cwd r) (jr_label r) (jr_disallowed_tools r) None None None (jr_state r)
    (jr_session_id r) (jr_error r) (jr_requested_by r) (jr_created_at r) (jr_started_at r) (jr_finished_at r).

Definition queryRecentJobs (limit : nat) (d : t) : list JobInfo :=
  job_of_row <$> take limit (order_desc jr_created_at (jobs d)).

Definition is_unfinished (r : JobRow) : bool :=
  match jr_state r with queued | running => true | done | failed => false end.

Definition restarted_error : string := "daemon restarted before this completed".

Definition reconcileOrphanedJobs (bootTime : Z) (d : t) : Z * t :=
  let (rows, n) := update_where is_unfinished
    (fun r => mkJobRow (jr_id r) (jr_cwd r) (jr_label r) (jr_disallowed_tools r) failed (jr_session_id r)
       (Some restarted_error) (jr_requested_by r) (jr_created_at r) (jr_started_at r) (Some bootTime)) (jobs d) in
  (n, mk (approvals d) (sessions d) rows (push_registrations d)).

(** *** Push registrations *)

Definition upsertPushRegistration (deviceId token : string) (platform : PushPlatform) (at_ : Z) (d : t) : t :=
  mk (approvals d) (sessions d) (jobs d)
     (if existsb (is_key pr_device_id deviceId) (push_registrations d)
      then (update_where (is_key pr_device_id deviceId)
              (fun r => mkPushRow (pr_device_id r) token platform at_) (push_registrations d)).1
      else push_registrations d ++ [mkPushRow deviceId token platform at_]).

Definition listPushTokens (d : t) : list string := pr_token <$> push_registrations d.

Definition deletePushRegistration (deviceId : string) (d : t) : t :=
  mk (approvals d) (sessions d) (jobs d) (filter (fun r => pr_device_id r <> deviceId) (push_registrations d)).

(** ** The writes, as a sequence *)

Inductive Op : Type :=
| OpRequested (a : PendingApproval)
| OpDecision (id : string) (v : Verdict) (reason by_ : string) (at_ : Z)
| OpSessionStarted (id cwd label : string) (startedAt : Z)
| OpSessionActivity (id : string) (claudeSessionId model : option string) (at_ : Z)
| OpSessionEnded (id : string) (finalState : SessionState) (exitCode : option Z) (at_ : Z)
| OpInsertJob (j : JobInfo)
| OpUpdateJob (id : string) (p : JobPatch)
| OpUpsertPush (deviceId token : string) (platform : PushPlatform) (at_ : Z)
| OpDeletePush (deviceId : string)
| OpReconcile (bootTime : Z).

Definition ok_or (o : outcome t) (d : t) : t := match o with Ok d' => d' | Throw _ => d end.

Definition step (d : t) (op : Op) : t :=
  match op with
  | OpRequested a => recordApprovalRequested a d
  | OpDecision id v r b at_ => recordApprovalDecision id v r b at_ d
  | OpSessionStarted id c l s => ok_or (recordSessionStarted id c l s d) d
  | OpSessionActivity id cs m at_ => updateSessionActivity id cs m at_ d
  | OpSessionEnded id f c at_ => recordSessionEnded id f c at_ d
  | OpInsertJob j => ok_or (insertJob j d) d
  | OpUpdateJob id p => updateJobState id p d
  | OpUpsertPush dv tk pl at_ => upsertPushRegistration dv tk pl at_ d
  | OpDeletePush dv => deletePushRegistration dv d
  | OpReconcile bt => snd (reconcileOrphanedJobs bt (snd (reconcileOrphanedSessions bt d)))
  end.

Definition run (d : t) (ops : list Op) : t := foldl step d ops.

(** What the first request under an identifier put on record. *)
Definition requested_content (r : ApprovalRow) : string * string * string * jsval * option string * Z * Z :=
  (ar_tool_use_id r, ar_session_id r, ar_tool_name r, ar_tool_input r, ar_description r, ar_requested_at r, ar_deadline_at r).
Definition content_of (a : PendingApproval) : string * string * string * jsval * option string * Z * Z :=
  (toolUseId a, pa_sessionId a, toolName a, toolInput a, pa_description a, requestedAt a, deadlineAt a).

(** The first request presented under [id], and the last decision recorded
    under [id] after it. *)
Fixpoint first_request (id : string) (ops : list Op) : option PendingApproval :=
  match ops with
  | [] => None
  | OpRequested a :: ops' => if decide (toolUseId a = id) then Some a else first_request id ops'
  | _ :: ops' => first_request id ops'
  end.

Fixpoint decisions_after (id : string) (seen : bool) (ops : list Op) (last : option (Verdict * string * string * Z))
    : option (Verdict * string * string * Z) :=
  match ops with
  | [] => last
  | OpRequested a :: ops' => decisions_after id (seen || bool_decide (toolUseId a = id)) ops' last
  | OpDecision id' v r b at_ :: ops' =>
      decisions_after id seen ops' (if seen && bool_decide (id' = id) then Some (v, r, b, at_) else last)
  | _ :: ops' => decisions_after id seen ops' last
  end.

Definition decision_columns (r : ApprovalRow) : option (Verdict * string * string * Z) :=
  match ar_decision r, ar_reason r, ar_decided_by r, ar_decided_at r with
  | Some v, Some reason, Some by_, Some at_ => Some (v, reason, by_, at_)
  | _, _, _, _ => None
  end.

Definition find_approval (id : string) (d : t) : option ApprovalRow :=
  List.find (is_key ar_tool_use_id id) (approvals d).

End Db.

Import Db.

(** ** Laws *)

Lemma find_update_where {A} (key : A -> string) (k k' : string) (f : A -> A) (l : list A) :
  (forall r, key (f r) = key r) ->
  List.find (is_key key k) (update_where (is_key key k') f l).1 =
    (if decide (k = k') then f <$> List.find (is_key key k) l else List.find (is_key key k) l).
Proof.
  intros Hf. unfold update_where, is_key. cbn [fst]. induction l as [|r l IH]; [by case_decide|].
  cbn [fmap list_fmap List.find]. destruct (bool_decide (key r = k')) eqn:Hk'.
  - apply bool_decide_eq_true in Hk'. rewrite Hf. case_decide as Hkk.
    + rewrite bool_decide_true by congruence. done.
    + rewrite bool_decide_false by congruence. exact IH.
  - apply bool_decide_eq_false in Hk'. case_decide as Hkk.
    + rewrite bool_decide_false by congruence. exact IH.
    + by destruct (bool_decide (key r = k)).
Qed.

Lemma find_existsb {A} (P : A -> bool) (l : list A) : existsb P l = match List.find P l with Some _ => true | None => false end.
Proof. induction l as [|x l IH]; simpl; [done|]. by destruct (P x). Qed.

Lemma find_app {A} (P : A -> bool) (l1 l2 : list A) :
  List.find P (l1 ++ l2) = match List.find P l1 with Some x => Some x | None => List.find P l2 end.
Proof. induction l1 as [|x l1 IH]; simpl; [done|]. by destruct (P x). Qed.

Definition fresh_row (a : PendingApproval) : ApprovalRow :=
  mkApprovalRow (toolUseId a) (pa_sessionId a) (toolName a) (toolInput a)
    (pa_description a) (requestedAt a) (deadlineAt a) None None None None.

(** What each write does to the row of [id]. *)
Lemma find_step id d op :
  find_approval id (step d op) =
    match op with
    | OpRequested a =>
        match find_approval id d with
        | Some r => Some r
        | None => if decide (toolUseId a = id) then Some (fresh_row a) else None
        end
    | OpDecision id' v r b at_ =>
        if decide (id = id') then set_decision v r b at_ <$> find_approval id d else find_approval id d
    | _ => find_approval id d
    end.
Proof.
  unfold find_approval. destruct op as [a|id' v r b at_|i c l s|i cs m at_|i f c at_|j|i p|dv tk pl at_|dv|bt]; cbn [step]; try done.
  - unfold recordApprovalRequested. rewrite find_existsb.
    destruct (List.find (is_key ar_tool_use_id (toolUseId a)) (approvals d)) as [r|] eqn:Hf.
    + case_decide as Hid; [subst; by rewrite Hf|].  by case_match.
    + cbn [approvals]. rewrite find_app. destruct (List.find (is_key ar_tool_use_id id) (approvals d)); [done|].
      simpl. unfold is_key. simpl. by case_decide; [rewrite bool_decide_true|rewrite bool_decide_false].
  - unfold recordApprovalDecision. cbn [approvals]. by apply find_update_where.
  - unfold recordSessionStarted. by destruct (existsb _ _).
  - unfold insertJob. by destruct (existsb _ _).
Qed.

Lemma row_after_request id ops d r :
  find_approval id d = Some r ->
  exists r', find_approval id (run d ops) = Some r' /\ requested_content r' = requested_content r /\
    decision_columns r' = decisions_after id true ops (decision_columns r).
Proof.
  revert d r. induction ops as [|op ops IH]; intros d r Hf; [by exists r|].
  assert (exists r1, find_approval id (step d op) = Some r1 /\ requested_content r1 = requested_content r /\
    forall last, decision_columns r = last -> decisions_after id true (op :: ops) last = decisions_after id true ops (decision_columns r1))
    as (r1 & Hf1 & Hc1 & Hd1).
  { rewrite find_step, Hf. destruct op as [a|id' v rs b at_|i c l s|i cs m at_|i f c at_|j|i p|dv tk pl at_|dv|bt];
      cbn [decisions_after]; try (exists r; split_and!; try done; by intros last <-).
    case_decide as Hid; cbn [fmap option_fmap option_map].
    - subst. exists (set_decision v rs b at_ r). split_and!; try done. intros last _.
      by rewrite bool_decide_true.
    - exists r. split_and!; try done. intros last <-. rewrite bool_decide_false by congruence. done. }
  destruct (IH _ _ Hf1) as (r' & Hr' & Hc' & Hd'). exists r'. split_and!; [done|congruence|].
  rewrite Hd'. symmetry. by apply Hd1.
Qed.

Lemma row_account id ops d :
  find_approval id d = None ->
  match first_request id ops with
  | None => find_approval id (run d ops) = None
  | Some a => exists r, find_approval id (run d ops) = Some r /\ requested_content r = content_of a /\
                decision_columns r = decisions_after id false ops None
  end.
Proof.
  revert d. induction ops as [|op ops IH]; intros d Hf; [done|].
  pose proof (find_step id d op) as Hstep. rewrite Hf in Hstep.
  destruct op as [a|id' v rs b at_|i c l s|i cs m at_|i f c at_|j|i p|dv tk pl at_|dv|bt];
    cbn [first_request decisions_after]; try (apply (IH _ Hstep)).
  - case_decide as Hid.
    + destruct (row_after_request id ops _ _ Hstep) as (r & Hr & Hc & Hd).
      exists r. split_and!; [done|done|]. rewrite Hd. by rewrite bool_decide_true.
    + rewrite bool_decide_false by done. apply (IH _ Hstep).
  - case_decide; apply (IH _ Hstep).
Qed.

(** The audit trail never rewrites a request: after any sequence of writes,
    the row of a tool call carries the content of the first request presented
    under its identifier, and the last decision recorded under it since.  (The
    decision's UPDATE is not guarded, so when an identifier is reused after its
    first request left the broker, the first request's row carries the second
    request's decision.) *)
Theorem audit_row_is_first_request (id : string) (ops : list Op) :
  match first_request id ops with
  | None => find_approval id (run empty ops) = None
  | Some a => exists r, find_approval id (run empty ops) = Some r /\ requested_content r = content_of a /\
                decision_columns r = decisions_after id false ops None
  end.
Proof. by apply row_account. Qed.

(** *** The read side *)

Section order.
Context {A : Type} (key : A -> Z).

Definition desc (x y : A) : Prop := key y <= key x.

Lemma insert_desc_perm x l : insert_desc key x l ≡ₚ x :: l.
Proof.
  induction l as [|y l IH]; simpl; [done|]. destruct (_ <? _); [done|]. rewrite IH. apply Permutation_swap.
Qed.

Lemma order_desc_perm l : order_desc key l ≡ₚ l.
Proof.
  unfold order_desc. enough (forall acc, foldl (fun acc x => insert_desc key x acc) acc l ≡ₚ acc ++ l) as H by apply H.
  induction l as [|x l IH]; intros acc; simpl; [by rewrite app_nil_r|].
  rewrite IH, insert_desc_perm. by rewrite <- Permutation_middle.
Qed.

Lemma insert_desc_sorted x l : StronglySorted desc l -> StronglySorted desc (insert_desc key x l).
Proof.
  induction 1 as [|y l Hs IH Hall]; simpl; [repeat constructor|].
  destruct (Z.ltb_spec (key y) (key x)).
  - constructor; [by constructor|]. constructor; [unfold desc; lia|].
    eapply Forall_impl; [exact Hall|]. unfold desc. intros; lia.
  - constructor; [done|]. rewrite insert_desc_perm. constructor; [unfold desc; lia|done].
Qed.

Lemma order_desc_sorted l : StronglySorted desc (order_desc key l).
Proof.
  unfold order_desc. enough (forall acc, StronglySorted desc acc -> StronglySorted desc (foldl (fun acc x => insert_desc key x acc) acc l)) as H
    by (apply H; constructor).
  induction l as [|x l IH]; intros acc Hs; simpl; [done|]. apply IH. by apply insert_desc_sorted.
Qed.

End order.

(** The history a client is shown holds exactly the decided requests, each
    with its decision, the most recent decisions first, cut at the limit. *)
Theorem history_is_recent_decisions (limit : nat) (d : t) :
  exists all, queryRecentApprovals limit d = take limit all /\
    all ≡ₚ omap history_entry (approvals d) /\
    StronglySorted (fun x y => h_decidedAt y <= h_decidedAt x) all.
Proof.
  exists (order_desc h_decidedAt (omap history_entry (approvals d))). split_and!; [done| |].
  - apply order_desc_perm.
  - apply order_desc_sorted.
Qed.

(** *** Boot reconciliation *)

Lemma update_where_elem {A} (P : A -> bool) (f : A -> A) l r :
  r ∈ (update_where P f l).1 <-> (r ∈ l /\ P r = false) \/ exists r0, r0 ∈ l /\ P r0 = true /\ r = f r0.
Proof.
  unfold update_where. cbn [fst]. rewrite list_elem_of_fmap. split.
  - intros (r0 & -> & Hin). destruct (P r0) eqn:HP; [right; eauto|by left].
  - intros [[Hin HP]|(r0 & Hin & HP & ->)]; [exists r; by rewrite HP|exists r0; by rewrite HP].
Qed.

(** Boot reconciliation leaves no orphan and touches nothing else: afterwards
    no job is queued or running and no session is open, the rows that were
    already finished are unchanged, and no row appears or disappears. *)
Theorem reconcile_closes_orphans (bootTime : Z) (d : t) :
  let d' := snd (reconcileOrphanedJobs bootTime (snd (reconcileOrphanedSessions bootTime d))) in
  (forall r, r ∈ jobs d' -> jr_state r = done \/ jr_state r = failed) /\
  (forall r, r ∈ sessions d' -> sr_final_state r <> None) /\
  (forall r, r ∈ jobs d -> is_unfinished r = false -> r ∈ jobs d') /\
  (forall r, r ∈ sessions d -> sr_final_state r <> None -> r ∈ sessions d') /\
  jr_id <$> jobs d' = jr_id <$> jobs d /\ sr_id <$> sessions d' = sr_id <$> sessions d /\
  approvals d' = approvals d /\ push_registrations d' = push_registrations d.
Proof.
  unfold reconcileOrphanedJobs, reconcileOrphanedSessions.
  rewrite (surjective_pairing (update_where is_open _ (sessions d))). cbn [snd jobs].
  rewrite (surjective_pairing (update_where is_unfinished _ (jobs d))).
  cbn [snd jobs sessions approvals push_registrations]. split_and!; try done.
  - intros r [[_ Hu]|(r0 & _ & _ & ->)]%update_where_elem; [|by right].
    unfold is_unfinished in Hu. destruct (jr_state r); auto; done.
  - intros r [[_ Hu]|(r0 & _ & _ & ->)]%update_where_elem; [|done].
    unfold is_open in Hu. by destruct (sr_final_state r).
  - intros r Hin Hu. apply update_where_elem. by left.
  - intros r Hin Hu. apply update_where_elem. left. split; [done|]. unfold is_open. by destruct (sr_final_state r).
  - unfold update_where. cbn [fst]. rewrite <- list_fmap_compose. apply list_fmap_ext. intros i r _. simpl. by destruct (is_unfinished r).
  - unfold update_where. cbn [fst]. rewrite <- list_fmap_compose. apply list_fmap_ext. intros i r _. simpl. by destruct (is_open r).
Qed.

Definition demo_request (id tool : string) (at_ : Z) : PendingApproval :=
  mkPendingApproval id "s" tool (JObj []) None at_ (at_ + 1000) None.

(** An identifier reused after the purge: the first request's row, the second
    request's decision. *)
Lemma reused_identifier_example :
  let d := run empty [OpRequested (demo_request "t" "Bash" 1); OpDecision "t" deny "no" "phone" 2;
                      OpRequested (demo_request "t" "Read" 100); OpDecision "t" allow "" "cli" 101] in
  (fun r => (ar_tool_name r, ar_decision r, ar_decided_by r)) <$> find_approval "t" d =
    Some ("Bash", Some allow, Some "cli").
Proof. reflexivity. Qed.
