(* ===== verification/Commands.v ===== *)
(** * Command dispatch and push registration

    [packages/daemon/src/application/commands.ts] and
    [packages/daemon/src/application/pushService.ts].  The dispatcher is written
    against what it is given ([deps]): a record of operations over a world [W],
    with [H] the session handles and [Sock] the sockets.  Every operation may
    throw. *)

From S2P Require Import Prelude JsMap Js Types HookMargin Jobs Approvals.
Import PermissionModePolicy.

Local Open Scope Z_scope.

Section commands.
Context {W H Sock : Type}.

(** [SessionHandle] *)
Record HandleOps : Type := mkHandleOps {
  hd_info : H -> eff W SessionInfo;
  hd_send : H -> string -> eff W unit;
  hd_interrupt : H -> eff W unit;
  hd_setModel : H -> string -> eff W unit;
  hd_setPermissionMode : H -> PermissionMode -> eff W unit;
}.

(** The dependencies of [createCommandHandler]. *)
Record Deps : Type := mkDeps {
  sessions : W -> jsmap string H;
  handle_ops : HandleOps;
  broker_decide : string -> Verdict -> string -> string -> eff W ApprovalBroker.DecideResult;
  broker_get : string -> W -> option PendingApproval;
  jobQueue_enqueue : SpawnRequest -> string -> eff W JobInfo;
  identity_revoke : string -> eff W bool;
  db_queryRecentApprovals : Z -> eff W (list ApprovalHistoryEntry);
  push_register : string -> string -> PushPlatform -> eff W unit;
  push_unregister : string -> eff W unit;
  disconnectDevice : string -> eff W unit;
  reply : Sock -> ServerEvent -> eff W unit;
}.

(** [[...sessions.values()].map((s) => s.info())] *)
Fixpoint infos (info : H -> eff W SessionInfo) (hs : list H) : eff W (list SessionInfo) :=
  match hs with
  | [] => mret []
  | h :: hs' => i ← info h; rest ← infos info hs'; mret (i :: rest)
  end.

(** [Number.isInteger(cmd.limit) && cmd.limit > 0 ? Math.min(cmd.limit, 500) : 50] *)
Definition is_integer (q : Q) : option Z :=
  if decide (Qnum q mod Z.pos (Qden q) = 0) then Some (Qnum q / Z.pos (Qden q)) else None.

Definition history_limit (limit : option jsnum) : Z :=
  match limit with
  | Some (NumFin q) =>
      match is_integer q with
      | Some n => if 0 <? n then Z.min n 500 else 50
      | None => 50
      end
  | _ => 50
  end.

Definition no_session (sessionId : string) : ServerEvent := error ("no session " +:+ sessionId).

(** The lookup the session commands share: [sessions.get(id)], or the error reply. *)
Definition with_session (d : Deps) (sock : Sock) (sessionId : string) (k : H -> eff W unit) : eff W unit :=
  m ← gets (sessions d);
  match mget sessionId m with
  | None => reply d sock (no_session sessionId)
  | Some h => k h
  end.

(** [`${deviceId} (${cmd.by})`] *)
Definition attribution (deviceId by_ : string) : string := deviceId +:+ " (" +:+ by_ +:+ ")".

(** [handleCommand(cmd, sock, deviceId)] *)
Definition handleCommand (d : Deps) (cmd : ClientCommand) (sock : Sock) (deviceId : string) : eff W unit :=
  let send := reply d sock in
  match cmd with
  | cmd_list =>
      m ← gets (sessions d);
      is_ ← infos (hd_info (handle_ops d)) (mvalues m);
      send (session_list is_)
  | cmd_history limit =>
      approvals ← db_queryRecentApprovals d (history_limit limit);
      send (approval_history approvals)
  | cmd_spawn cwd label disallowedTools model permissionMode effort =>
      let refused := match permissionMode with
                     | Some m => if permissionModeIsAllowed m then None else Some m
                     | None => None
                     end in
      match refused with
      | Some m => send (error (permissionModeRefusal m))
      | None =>
          job ← jobQueue_enqueue d (mkSpawnRequest cwd label disallowedTools model permissionMode effort) deviceId;
          if decide (j_state job = failed) then send (error (default "" (j_error job))) else mret tt
      end
  | cmd_send sessionId text => with_session d sock sessionId (fun h => hd_send (handle_ops d) h text)
  | cmd_interrupt sessionId => with_session d sock sessionId (hd_interrupt (handle_ops d))
  | cmd_set_model sessionId model => with_session d sock sessionId (fun h => hd_setModel (handle_ops d) h model)
  | cmd_set_permission_mode sessionId mode =>
      with_session d sock sessionId (fun h =>
        if permissionModeIsAllowed mode then hd_setPermissionMode (handle_ops d) h mode
        else send (error (permissionModeRefusal mode)))
  | cmd_decide toolUseId decision reason by_ =>
      outcome ← broker_decide d toolUseId decision (default "" reason) (attribution deviceId by_);
      match outcome with
      | ApprovalBroker.unknown => send (error ("no pending approval " +:+ toolUseId))
      | ApprovalBroker.already =>
          a ← gets (broker_get d toolUseId);
          send (error ("already decided by " +:+
            match a ≫= Types.decision with Some r => d_by r | None => "undefined" end))
      | ApprovalBroker.ok => mret tt
      end
  | cmd_revoke target =>
      ok ← identity_revoke d target;
      if ok : bool then
        push_unregister d target ;;
        send (revoked target) ;;
        disconnectDevice d target
      else send (error ("no such device " +:+ target))
  | cmd_register_push token platform => push_register d deviceId token platform
  end.

(** ** Guards, for the properties *)

(** [d] with the launch and the mode change refused ([stop]) for any mode that
    does not preserve approvals. *)
Definition guard_modes (stop : eff W unit) (d : Deps) : Deps :=
  mkDeps (sessions d)
    (mkHandleOps (hd_info (handle_ops d)) (hd_send (handle_ops d)) (hd_interrupt (handle_ops d))
       (hd_setModel (handle_ops d))
       (fun h m => if permissionModeIsAllowed m then hd_setPermissionMode (handle_ops d) h m else stop))
    (broker_decide d) (broker_get d)
    (fun req by_ =>
       if match rq_permissionMode req with Some m => permissionModeIsAllowed m | None => true end
       then jobQueue_enqueue d req by_
       else (stop ;; throw "unreachable"))
    (identity_revoke d) (db_queryRecentApprovals d) (push_register d) (push_unregister d)
    (disconnectDevice d) (reply d).

(** [d] with every operation that acts in a device's name ignoring the name it is
    given and using [who] instead. *)
Definition as_device (who : string) (d : Deps) : Deps :=
  mkDeps (sessions d) (handle_ops d)
    (fun id v reason by_ => broker_decide d id v reason (who +:+ String.substring (String.length who) (String.length by_) by_))
    (broker_get d)
    (fun req _ => jobQueue_enqueue d req who)
    (identity_revoke d) (db_queryRecentApprovals d)
    (fun _ token platform => push_register d who token platform)
    (push_unregister d) (disconnectDevice d) (reply d).

End commands.
Arguments Deps : clear implicits.
Arguments HandleOps : clear implicits.

(** ** The push service *)

Module PushService.

Section push.
Context {W : Type}.

Record PushDeps : Type := mkPushDeps {
  upsertPushRegistration : string -> string -> PushPlatform -> Z -> eff W unit;
  listPushTokens : eff W (list string);
  deletePushRegistration : string -> eff W unit;
  sender_send : list string -> eff W unit;
  now : W -> Z;
}.

Definition register (d : PushDeps) (deviceId token : string) (platform : PushPlatform) : eff W unit :=
  t ← gets (now d);
  upsertPushRegistration d deviceId token platform t.

Definition unregister (d : PushDeps) (deviceId : string) : eff W unit := deletePushRegistration d deviceId.

(** [sender.send(tokens).catch(...)]: a rejected promise is swallowed, so nothing
    the sender does is seen here. *)
Definition notifyApprovalPending (d : PushDeps) : eff W unit :=
  tokens ← listPushTokens d;
  match tokens with
  | [] => mret tt
  | _ => try_catch (sender_send d tokens) (fun _ => mret tt)
  end.

End push.
Arguments PushDeps : clear implicits.

End PushService.

(** ** Laws *)

Section laws.
Context {W H Sock : Type}.
Implicit Types (d : Deps W H Sock).

Lemma string_substring_app (s t : string) :
  String.substring (String.length s) (String.length (s +:+ t)) (s +:+ t) = t.
Proof.
  induction s as [|c s IH].
  - change ("" +:+ t) with t. cbn [String.length]. induction t as [|c t IHt]; [done|].
    cbn [String.length String.substring]. by rewrite IHt.
  - change (String c s +:+ t) with (String c (s +:+ t)). cbn [String.length String.substring].
    revert IH. generalize (s +:+ t) as x. intros x IH. rewrite <- IH. clear IH.
    assert (Hs : forall n m (y : string), (String.length y - n <= m)%nat -> String.substring n m y = String.substring n (S m) y).
    { clear. intros n m y. revert n m. induction y as [|a y IHy]; intros [|n] m Hle; simpl in *; try (by destruct m).
      - destruct m as [|m]; [lia|]. f_equal. specialize (IHy 0%nat m ltac:(lia)). simpl in IHy. rewrite IHy. by destruct y.
      - rewrite (IHy n m) by lia. by destruct m. }
    symmetry. apply Hs. lia.
Qed.

(** The approval guarantee cannot be switched off from a client: no command
    ever launches a session in, or moves one to, a permission mode that could run
    a tool without a remote decision.  Forbidding those calls altogether changes
    nothing of what any command does. *)
Theorem no_unguarded_mode (stop : eff W unit) d cmd sock deviceId :
  handleCommand d cmd sock deviceId = handleCommand (guard_modes stop d) cmd sock deviceId.
Proof.
  destruct cmd as [|l|cwd lb dt m [pm|] ef|s t|s|s m|s m|t v r b|x|tk pl]; try reflexivity.
  - cbn [handleCommand]. destruct (permissionModeIsAllowed pm) eqn:Hp; [|done].
    cbn [guard_modes jobQueue_enqueue rq_permissionMode]. by rewrite Hp.
  - cbn [handleCommand]. unfold with_session. cbn [guard_modes sessions reply handle_ops hd_setPermissionMode].
    by destruct (permissionModeIsAllowed m).
Qed.

(** What a command does in a device's name it does in the name the sealed
    connection authenticated: the requester of a job, the owner of a push token
    and the leading part of a decision's attribution are the authenticated
    device, whatever the command's own fields claim. *)
Theorem commands_act_as_authenticated d cmd sock deviceId :
  handleCommand d cmd sock deviceId = handleCommand (as_device deviceId d) cmd sock deviceId.
Proof.
  destruct cmd as [|l|cwd lb dt m pm ef|s t|s|s m|s m|t v r b|x|tk pl]; try reflexivity.
  - cbn [handleCommand as_device broker_decide]. unfold attribution.
    by rewrite string_substring_app.
Qed.

End laws.
