(* ===== verification/Hub.v ===== *)
(** * The client hub

    [packages/daemon/src/interface/clientHub.ts], class [ClientHub]: the live
    authenticated sockets and every sealed write.  Sockets are opaque handles;
    the socket operations of [node:net], the clock and the randomness of [seal]
    are the platform's.  [written] is the account of the writes handed to the
    sockets, in order. *)

From S2P Require Import Prelude JsMap Js Types Encode Frame Sync Replay DeviceSessions.

Local Open Scope Z_scope.

Module ClientHub.

(** [4 * 1024 * 1024] *)
Definition MAX_CLIENT_BACKLOG_BYTES : Z := 4194304.

(** What goes to a socket, before it is printed: a handshake message in clear or
    a sealed frame. *)
Inductive WireOut : Type :=
| Raw (m : UnauthServerMessage)
| Sealed (f : SealedFrame).

Section hub.
Context {Key Nonce Sock X Ev : Type} `{SessionCrypto Key Nonce} `{EqDecision Sock}.

(** [node:net], [Date.now] and [randomBytes]: [net_write] tells whether the write
    went through without throwing. *)
Record Net : Type := mkNet {
  net_write : Sock -> WireOut -> X -> bool * X;
  writableLength : Sock -> X -> Z;
  net_destroy : Sock -> X -> X;
  clock : X -> Z;
  fresh_nonce : X -> Nonce * X;
}.

Record ClientConn : Type := mkConn { key : Key; deviceId : string }.

Record t : Type := mk {
  clients : jsmap Sock ClientConn;
  reg : DeviceSessions.t Ev;
  net : X;
  written : list (Sock * WireOut);
}.

Definition set_clients m (h : t) : t := mk m (reg h) (net h) (written h).
Definition set_reg r (h : t) : t := mk (clients h) r (net h) (written h).
Definition set_net x (h : t) : t := mk (clients h) (reg h) x (written h).

Definition authenticate (sock : Sock) (conn : ClientConn) (h : t) : t := set_clients (mset sock conn (clients h)) h.
Definition forget (sock : Sock) (h : t) : t := set_clients (mdelete sock (clients h)) h.
Definition isAuthenticated (sock : Sock) (h : t) : bool := mhas sock (clients h).
Definition connFor (sock : Sock) (h : t) : option ClientConn := mget sock (clients h).

(** [writeFrame(sock, frame)] *)
Definition writeFrame (n : Net) (sock : Sock) (frame : WireOut) (h : t) : t :=
  let (ok, x) := net_write n sock frame (net h) in
  let h1 := mk (clients h) (reg h) x (written h ++ [(sock, frame)]) in
  if ok then
    if MAX_CLIENT_BACKLOG_BYTES <? writableLength n sock x
    then set_net (net_destroy n sock x) (set_clients (mdelete sock (clients h1)) h1)
    else h1
  else h1.

(** [writeRaw(sock, o)] *)
Definition writeRaw (n : Net) (sock : Sock) (m : UnauthServerMessage) (h : t) : t := writeFrame n sock (Raw m) h.

(** [sealAndWrite(sock, conn, seq, ev)] *)
Definition sealAndWrite (n : Net) (sock : Sock) (conn : ClientConn) (seq : Z) (ev : ServerEvent) (h : t) : t :=
  let (nonce, x) := fresh_nonce n (net h) in
  writeFrame n sock (Sealed (seal (key conn) seq (PEv ev) d2c nonce)) (set_net x h).

(** [this.deviceSessions.recordSent(deviceId, ev)] *)
Definition record (n : Net) (device : string) (ev : Ev) (h : t) : Z * t :=
  let (seq, r) := DeviceSessions.recordSent (clock n (net h)) device ev (reg h) in (seq, set_reg r h).

(** [sendSealed(sock, conn, ev)] *)
Definition sendSealed (n : Net) (content : Ev -> ServerEvent) (sock : Sock) (conn : ClientConn) (ev : Ev) (h : t) : t :=
  let (seq, h1) := record n (deviceId conn) ev h in sealAndWrite n sock conn seq (content ev) h1.

(** [sendTo(sock, ev)] *)
Definition sendTo (n : Net) (content : Ev -> ServerEvent) (sock : Sock) (ev : Ev) (h : t) : t :=
  match mget sock (clients h) with
  | Some conn => sendSealed n content sock conn ev h
  | None => h
  end.

(** [socketsByDevice], built in the iteration order of [clients]. *)
Definition group_sockets (m : jsmap Sock ClientConn) : jsmap string (list (Sock * ClientConn)) :=
  foldl (fun g e => match mget (deviceId e.2) g with
                    | Some group => mset (deviceId e.2) (group ++ [e]) g
                    | None => mset (deviceId e.2) [e] g
                    end) [] m.

(** [for (const [sock, conn] of group) this.sealAndWrite(sock, conn, seq, ev)] *)
Definition write_group (n : Net) (seq : Z) (ev : ServerEvent) (group : list (Sock * ClientConn)) (h : t) : t :=
  foldl (fun h e => sealAndWrite n e.1 e.2 seq ev h) h group.

Definition write_groups (n : Net) (content : Ev -> ServerEvent) (ev : Ev) (groups : jsmap string (list (Sock * ClientConn))) (h : t) : t :=
  foldl (fun h g => let (seq, h1) := record n g.1 ev h in write_group n seq (content ev) g.2 h1) h groups.

(** [broadcast(ev)] *)
Definition broadcast (n : Net) (content : Ev -> ServerEvent) (ev : Ev) (h : t) : t :=
  let socketsByDevice := group_sockets (clients h) in
  let h1 := write_groups n content ev socketsByDevice h in
  foldl (fun h device => if mhas device socketsByDevice then h else snd (record n device ev h))
        h1 (DeviceSessions.knownDeviceIds (reg h1)).

(** [disconnectDevice(deviceId)]: the loop deletes from the map it iterates over,
    the current entry only. *)
Definition disconnectDevice (n : Net) (device : string) (h : t) : t :=
  foldl (fun h e => if decide (deviceId e.2 = device)
                    then set_net (net_destroy n e.1 (net h)) (set_clients (mdelete e.1 (clients h)) h)
                    else h)
        (set_reg (DeviceSessions.evict device (reg h)) h) (clients h).

End hub.
Arguments Net : clear implicits.
Arguments ClientConn : clear implicits.
Arguments t : clear implicits.

End ClientHub.

Import ClientHub.

(** ** Laws *)

Section laws.
Context {Key Nonce Sock X Ev : Type} `{SessionCrypto Key Nonce} `{EqDecision Sock}.
Implicit Types (h : ClientHub.t Key Sock X Ev) (n : Net Nonce Sock X) (ev : Ev) (sv : ServerEvent) (content : Ev -> ServerEvent).

(** *** Grouping *)

Lemma group_snoc (m : jsmap Sock (ClientConn Key)) e :
  group_sockets (m ++ [e]) =
    match mget (deviceId e.2) (group_sockets m) with
    | Some group => mset (deviceId e.2) (group ++ [e]) (group_sockets m)
    | None => mset (deviceId e.2) [e] (group_sockets m)
    end.
Proof. unfold group_sockets. by rewrite foldl_app. Qed.

Lemma group_wf (m : jsmap Sock (ClientConn Key)) : mwf (group_sockets m).
Proof.
  induction m as [|e m IH] using rev_ind; [apply mwf_nil|].
  rewrite group_snoc. destruct (mget _ _); auto with jsmap.
Qed.

Lemma concat_mset_app (k : string) (v : list (Sock * ClientConn Key)) e m :
  mget k m = Some v -> concat (mvalues (mset k (v ++ [e]) m)) ≡ₚ concat (mvalues m) ++ [e].
Proof.
  unfold mvalues. induction m as [|[k' v'] m IH]; simpl; [done|]. case_decide.
  - intros [= ->]. simpl. rewrite <- !app_assoc. f_equiv. apply Permutation_app_comm.
  - intros Hk. simpl. rewrite (IH Hk). by rewrite app_assoc.
Qed.

Lemma concat_mset_new (k : string) (v : list (Sock * ClientConn Key)) m :
  mget k m = None -> concat (mvalues (mset k v m)) = concat (mvalues m) ++ v.
Proof.
  intros Hk. rewrite mset_notin by (by apply mget_None_keys). unfold mvalues.
  rewrite fmap_app, concat_app. simpl. by rewrite app_nil_r.
Qed.

(** Every socket is in exactly one group. *)
Lemma group_concat (m : jsmap Sock (ClientConn Key)) : concat (mvalues (group_sockets m)) ≡ₚ m.
Proof.
  induction m as [|e m IH] using rev_ind; [done|]. rewrite group_snoc.
  destruct (mget (deviceId e.2) (group_sockets m)) as [g|] eqn:Hg.
  - rewrite concat_mset_app by done. by rewrite IH.
  - rewrite concat_mset_new by done. by rewrite IH.
Qed.

Lemma group_device (m : jsmap Sock (ClientConn Key)) d g e :
  mget d (group_sockets m) = Some g -> e ∈ g -> deviceId e.2 = d.
Proof.
  revert g. induction m as [|e0 m IH] using rev_ind; intros g; [done|]. rewrite group_snoc.
  destruct (mget (deviceId e0.2) (group_sockets m)) as [g0|] eqn:Hg; rewrite mget_mset; case_decide; subst; try apply IH.
  - intros [= <-] [Hin|Hin]%elem_of_app; [by eapply IH|]. apply list_elem_of_singleton in Hin. by subst.
  - intros [= <-] Hin. apply list_elem_of_singleton in Hin. by subst.
Qed.

Lemma group_keys (m : jsmap Sock (ClientConn Key)) d :
  d ∈ mkeys (group_sockets m) <-> exists e, e ∈ m /\ deviceId e.2 = d.
Proof.
  induction m as [|e0 m IH] using rev_ind; [simpl; set_solver|]. rewrite group_snoc.
  assert (Hk : forall v, d ∈ mkeys (mset (deviceId e0.2) v (group_sockets m)) <->
    d = deviceId e0.2 \/ exists e, e ∈ m /\ deviceId e.2 = d) by (intros v; by rewrite elem_mkeys_mset, IH).
  destruct (mget (deviceId e0.2) (group_sockets m)); rewrite Hk; set_solver.
Qed.

(** *** Writes leave the registry alone *)

Lemma writeFrame_reg n sock w h :
  reg (writeFrame n sock w h) = reg h /\ written (writeFrame n sock w h) = written h ++ [(sock, w)].
Proof. unfold writeFrame. destruct (net_write n sock w (net h)) as [[] x]; [|done]. by destruct (_ <? _). Qed.

Lemma sealAndWrite_reg n sock conn seq sv h :
  reg (sealAndWrite n sock conn seq sv h) = reg h /\
  exists nonce, written (sealAndWrite n sock conn seq sv h) =
    written h ++ [(sock, Sealed (seal (key conn) seq (PEv sv) d2c nonce))].
Proof.
  unfold sealAndWrite. destruct (fresh_nonce n (net h)) as [nonce x].
  match goal with |- context [writeFrame n sock ?w ?h1] => destruct (writeFrame_reg n sock w h1) as [-> ->] end.
  split; [done|by exists nonce].
Qed.

(** What a device's reader makes of a write to one of its sockets. *)
Definition delivers (num : string -> Z) sv (e : Sock * ClientConn Key) (w : Sock * WireOut) : Prop :=
  w.1 = e.1 /\ exists f, w.2 = Sealed f /\ f_seq f = num (deviceId e.2) /\
    open_frame (key e.2) f d2c = Some (PEv sv).

Lemma write_group_spec `{!SessionCryptoLaws Key Nonce serializable} n seq sv group h (num : string -> Z) :
  serializable (PEv sv) -> (forall e, e ∈ group -> num (deviceId e.2) = seq) ->
  reg (write_group n seq sv group h) = reg h /\
  exists ws, written (write_group n seq sv group h) = written h ++ ws /\ Forall2 (delivers num sv) group ws.
Proof.
  intros Hser. revert h. induction group as [|e group IH]; intros h Hnum.
  - split; [done|]. exists []. by rewrite app_nil_r.
  - cbn [write_group foldl]. destruct (sealAndWrite_reg n e.1 e.2 seq sv h) as [Hr (nonce & Hw)].
    destruct (IH (sealAndWrite n e.1 e.2 seq sv h)) as [Hr' (ws & Hw' & Hall)]; [intros; apply Hnum; by right|].
    unfold write_group in *. split; [congruence|].
    exists ((e.1, Sealed (seal (key e.2) seq (PEv sv) d2c nonce)) :: ws). split.
    + rewrite Hw', Hw. by rewrite <- app_assoc.
    + constructor; [|done]. split; [done|]. eexists. split; [done|]. split.
      * rewrite seal_seq. symmetry. apply Hnum. by left.
      * by apply open_seal.
Qed.

Definition sent_device (op : DeviceSessions.Op Ev) : list string :=
  match op with DeviceSessions.OpSent _ d _ => [d] | _ => [] end.

Definition devices (ops : list (DeviceSessions.Op Ev)) : list string := mbind sent_device ops.

(** Each operation records [ev] once for one device. *)
Definition records_of ev (op : DeviceSessions.Op Ev) : Prop :=
  exists now d, op = DeviceSessions.OpSent now d ev.

(** The number drawn for a device within a sequence of operations. *)
Definition drawn ev (r : DeviceSessions.t Ev) (ops : list (DeviceSessions.Op Ev)) d (seq : Z) : Prop :=
  exists before now after, ops = before ++ DeviceSessions.OpSent now d ev :: after /\
    seq = fst (DeviceSessions.recordSent now d ev (DeviceSessions.run r before)).

Lemma record_op n d ev h :
  reg (record n d ev h).2 = DeviceSessions.run (reg h) [DeviceSessions.OpSent (clock n (net h)) d ev] /\
  (record n d ev h).1 = fst (DeviceSessions.recordSent (clock n (net h)) d ev (reg h)) /\
  written (record n d ev h).2 = written h.
Proof.
  unfold record, DeviceSessions.run. simpl.
  by destruct (DeviceSessions.recordSent (clock n (net h)) d ev (reg h)).
Qed.

Lemma run_app (r : DeviceSessions.t Ev) o1 o2 :
  DeviceSessions.run r (o1 ++ o2) = DeviceSessions.run (DeviceSessions.run r o1) o2.
Proof. unfold DeviceSessions.run. by rewrite foldl_app. Qed.

Lemma drawn_cons ev r op ops d seq : drawn ev (DeviceSessions.run r [op]) ops d seq -> drawn ev r (op :: ops) d seq.
Proof.
  intros (b & now & a & -> & ->). exists (op :: b), now, a. split; [done|].
  change (op :: b) with ([op] ++ b). by rewrite run_app.
Qed.

Lemma write_groups_spec `{!SessionCryptoLaws Key Nonce serializable} n content ev
    (groups : jsmap string (list (Sock * ClientConn Key))) h :
  serializable (PEv (content ev)) -> mwf groups -> (forall d g e, (d, g) ∈ groups -> e ∈ g -> deviceId e.2 = d) ->
  exists ops ws num,
    reg (write_groups n content ev groups h) = DeviceSessions.run (reg h) ops /\ Forall (records_of ev) ops /\
    devices ops = mkeys groups /\ (forall d, d ∈ mkeys groups -> drawn ev (reg h) ops d (num d)) /\
    written (write_groups n content ev groups h) = written h ++ ws /\ Forall2 (delivers num (content ev)) (concat (mvalues groups)) ws.
Proof.
  intros Hser. revert h. induction groups as [|[d g] groups IH]; intros h Hwf Hdev.
  - exists [], [], (fun _ => 0).
    split_and!; [done|constructor|done|intros d Hd; by apply not_elem_of_nil in Hd|by rewrite app_nil_r|constructor].
  - unfold mwf in Hwf. simpl in Hwf. apply NoDup_cons in Hwf as [Hni Hwf].
    cbn [write_groups foldl]. destruct (record_op n d ev h) as (Hr & Hs & Hw).
    cbn [fst snd]. destruct (record n d ev h) as [seq h1]. cbn [fst snd] in *.
    destruct (write_group_spec n seq (content ev) g h1 (fun _ => seq) Hser ltac:(done)) as [Hr1 (ws1 & Hw1 & Hall1)].
    destruct (IH (write_group n seq (content ev) g h1) Hwf) as (ops & ws & num & Hr2 & Hrec & Hd & Hdr & Hw2 & Hall2);
      [intros d' g' e Hin; apply (Hdev d' g' e); by right|].
    unfold write_groups in *. set (op := DeviceSessions.OpSent (clock n (net h)) d ev) in *.
    exists (op :: ops), (ws1 ++ ws), (fun d' => if decide (d' = d) then seq else num d'). split_and!.
    + rewrite Hr2, Hr1, Hr. change (op :: ops) with ([op] ++ ops). by rewrite run_app.
    + constructor; [by eexists _, _|done].
    + change (devices (op :: ops)) with (d :: devices ops). by rewrite Hd.
    + intros d' Hin. case_decide as Hdd.
      * subst d'. exists [], (clock n (net h)), ops. split; [done|]. exact Hs.
      * apply drawn_cons. rewrite <- Hr, <- Hr1. apply Hdr. simpl in Hin. set_solver.
    + rewrite Hw2, Hw1, Hw. by rewrite app_assoc.
    + unfold mvalues. simpl. apply Forall2_app.
      * eapply Forall2_impl_elem; [exact Hall1|]. intros e w Hin (H1 & f & H2 & H3 & H4).
        split; [done|]. exists f. rewrite (Hdev d g e) by (done || by left). rewrite decide_True by done. done.
      * eapply Forall2_impl_elem; [exact Hall2|]. intros e w Hin (H1 & f & H2 & H3 & H4).
        split; [done|]. exists f. rewrite decide_False; [done|]. intros Heq. apply Hni.
        apply elem_of_concat in Hin as (g' & Hg' & Hin). unfold mvalues in Hg'.
        apply list_elem_of_fmap in Hg' as ([d' g2] & -> & Hin').
        rewrite <- Heq, (Hdev d' g2 e) by (done || by right). by apply (list_elem_of_fmap_2 fst) in Hin'.
Qed.

Lemma offline_spec n ev (groups : jsmap string (list (Sock * ClientConn Key))) ds h :
  exists ops,
    let h' := foldl (fun h device => if mhas device groups then h else snd (record n device ev h)) h ds in
    reg h' = DeviceSessions.run (reg h) ops /\ written h' = written h /\ Forall (records_of ev) ops /\
    devices ops = filter (fun d => mhas d groups = false) ds.
Proof.
  revert h. induction ds as [|d ds IH]; intros h; [exists []; by split_and!|]. cbn [foldl].
  rewrite filter_cons. destruct (mhas d groups) eqn:Hm.
  - rewrite decide_False by done. apply IH.
  - rewrite decide_True by done. destruct (record_op n d ev h) as (Hr & _ & Hw).
    destruct (IH (record n d ev h).2) as (ops & Hr' & Hw' & Hrec & Hd).
    exists (DeviceSessions.OpSent (clock n (net h)) d ev :: ops). split_and!.
    + rewrite Hr', Hr. set (op := DeviceSessions.OpSent _ _ _). change (op :: ops) with ([op] ++ ops). by rewrite run_app.
    + by rewrite Hw', Hw.
    + constructor; [by eexists _, _|done].
    + change (devices (?o :: ops)) with (d :: devices ops). by rewrite Hd.
Qed.

Lemma known_run_records ev r ops d :
  Forall (records_of ev) ops ->
  d ∈ DeviceSessions.knownDeviceIds (DeviceSessions.run r ops) ->
  d ∈ DeviceSessions.knownDeviceIds r \/ d ∈ devices ops.
Proof.
  intros Hrec. revert r. induction Hrec as [|op ops (now & d' & ->) _ IH]; intros r Hd; [by left|].
  unfold DeviceSessions.run in Hd. cbn [foldl] in Hd. fold (DeviceSessions.run (DeviceSessions.step r (DeviceSessions.OpSent now d' ev)) ops) in Hd.
  change (devices (DeviceSessions.OpSent now d' ev :: ops)) with (d' :: devices ops).
  apply IH in Hd as [Hd|Hd]; [|right; by right].
  apply known_mget in Hd as [out Hout]. cbn [DeviceSessions.step] in Hout.
  destruct (recordSent_spec now d' ev r) as (_ & _ & _ & Hg). rewrite Hg in Hout.
  case_decide; [done|]. case_decide; [subst; right; by left|]. left. apply known_mget. by eexists.
Qed.

Lemma wf_run_records ev r ops :
  Forall (records_of ev) ops -> mwf (DeviceSessions.outbound r) ->
  mwf (DeviceSessions.outbound (DeviceSessions.run r ops)).
Proof.
  intros Hrec. revert r. induction Hrec as [|op ops (now & d' & ->) _ IH]; intros r Hr; [done|].
  apply IH. cbn [DeviceSessions.step]. by apply recordSent_spec.
Qed.

(** A broadcast draws one number per device and records the event once per
    device: every connected device and every device the registry knows, no device
    twice.  Each live socket is written exactly one frame, under its own key and
    its device's number, which opens to the event as it is at that moment; two sockets of a device share
    the number, and nothing is written to anyone else. *)
Theorem broadcast_one_number_per_device `{!SessionCryptoLaws Key Nonce serializable} n content ev h :
  serializable (PEv (content ev)) -> mwf (DeviceSessions.outbound (reg h)) ->
  exists ops frames num,
    reg (broadcast n content ev h) = DeviceSessions.run (reg h) ops /\ Forall (records_of ev) ops /\
    NoDup (devices ops) /\
    (forall sock conn, (sock, conn) ∈ clients h -> drawn ev (reg h) ops (deviceId conn) (num (deviceId conn))) /\
    (forall d, d ∈ devices ops ->
       (exists sock conn, (sock, conn) ∈ clients h /\ deviceId conn = d) \/ d ∈ DeviceSessions.knownDeviceIds (reg h)) /\
    (forall d, d ∈ DeviceSessions.knownDeviceIds (reg (broadcast n content ev h)) -> d ∈ devices ops) /\
    written (broadcast n content ev h) = written h ++ frames /\
    exists order, order ≡ₚ clients h /\ Forall2 (delivers num (content ev)) order frames.
Proof.
  intros Hser Hout. set (groups := group_sockets (clients h)).
  destruct (write_groups_spec n content ev groups h Hser (group_wf _)) as (ops1 & ws & num & Hr1 & Hrec1 & Hd1 & Hdr & Hw1 & Hall).
  { intros d g e Hin. apply elem_mget in Hin; [|apply group_wf]. by eapply group_device. }
  set (h1 := write_groups n content ev groups h) in *.
  destruct (offline_spec n ev groups (DeviceSessions.knownDeviceIds (reg h1)) h1) as (ops2 & Hr2 & Hw2 & Hrec2 & Hd2).
  assert (Hdev : devices (ops1 ++ ops2) = mkeys groups ++ devices ops2).
  { unfold devices. rewrite bind_app. by rewrite <- Hd1. }
  assert (Hk1 : forall d, d ∈ DeviceSessions.knownDeviceIds (reg h1) ->
    d ∈ DeviceSessions.knownDeviceIds (reg h) \/ d ∈ mkeys groups).
  { intros d. rewrite Hr1, <- Hd1. by apply (known_run_records ev). }
  exists (ops1 ++ ops2), ws, num. split_and!.
  - change (reg (broadcast n content ev h)) with (reg (foldl (fun h device => if mhas device groups then h else snd (record n device ev h))
      h1 (DeviceSessions.knownDeviceIds (reg h1)))). rewrite Hr2, Hr1. by rewrite run_app.
  - by apply Forall_app.
  - rewrite Hdev, Hd2. apply NoDup_app. split; [apply group_wf|]. split.
    + intros d Hd [Hm _]%list_elem_of_filter. apply mhas_keys in Hd. congruence.
    + apply NoDup_filter. unfold DeviceSessions.knownDeviceIds. rewrite Hr1. apply (wf_run_records ev _ _ Hrec1 Hout).
  - intros sock conn Hin. destruct (Hdr (deviceId conn)) as (b & now & a & -> & Hs).
    + apply group_keys. by exists (sock, conn).
    + exists b, now, (a ++ ops2). split; [by rewrite <- app_assoc|done].
  - intros d. rewrite Hdev, elem_of_app. intros [Hd|Hd].
    + left. apply group_keys in Hd as ([sock conn] & Hin & Hd). by exists sock, conn.
    + rewrite Hd2 in Hd. apply list_elem_of_filter in Hd as [Hm Hd].
      destruct (Hk1 d Hd) as [|Hk]; [by right|]. apply mhas_keys in Hk. congruence.
  - intros d Hd. change (reg (broadcast n content ev h)) with (reg (foldl (fun h device => if mhas device groups then h else snd (record n device ev h))
      h1 (DeviceSessions.knownDeviceIds (reg h1)))) in Hd. rewrite Hr2 in Hd.
    rewrite Hdev, elem_of_app. apply known_run_records with (ev:=ev) in Hd as [Hd|Hd]; [|by right|done].
    destruct (mhas d groups) eqn:Hm; [left; by apply mhas_keys|right].
    rewrite Hd2. apply list_elem_of_filter. done.
  - change (written (broadcast n content ev h)) with (written (foldl (fun h device => if mhas device groups then h else snd (record n device ev h))
      h1 (DeviceSessions.knownDeviceIds (reg h1)))). by rewrite Hw2, Hw1.
  - exists (concat (mvalues groups)). split; [apply group_concat|done].
Qed.

(** *** Disconnecting a device *)

Lemma disconnect_loop n d (l : jsmap Sock (ClientConn Key)) h :
  let h' := foldl (fun h e => if decide (deviceId e.2 = d)
                    then set_net (net_destroy n e.1 (net h)) (set_clients (mdelete e.1 (clients h)) h)
                    else h) h l in
  reg h' = reg h /\ written h' = written h /\
  forall sock conn, mget sock (clients h') = Some conn <->
    mget sock (clients h) = Some conn /\ forall c, (sock, c) ∈ l -> deviceId c <> d.
Proof.
  revert h. induction l as [|[s c] l IH]; intros h; cbn [foldl].
  - split_and!; try done. intros sock conn. split; [|tauto].
    intros Hg. split; [done|]. intros c Hc. by apply not_elem_of_nil in Hc.
  - cbn [fst snd]. case_decide as Hd.
    + specialize (IH (set_net (net_destroy n s (net h)) (set_clients (mdelete s (clients h)) h))).
      cbn [reg written clients set_net set_clients] in IH. destruct IH as (Hr & Hw & H1).
      split_and!; [done|done|]. intros sock conn. rewrite H1, mget_mdelete. case_decide as Hs.
      * subst. split; [by intros [? _]|]. intros [_ Hall]. by destruct (Hall c ltac:(by left)).
      * split; intros [Hg Hall]; (split; [done|]).
        -- intros c' [Heq|Hin]%elem_of_cons; [by simplify_eq|by apply Hall].
        -- intros c' Hin. apply Hall. by right.
    + destruct (IH h) as (Hr & Hw & H1). split_and!; [done|done|]. intros sock conn. rewrite H1.
      split; intros [Hg Hall]; (split; [done|]).
      * intros c' [Heq|Hin]%elem_of_cons; [by simplify_eq|by apply Hall].
      * intros c' Hin. apply Hall. by right.
Qed.

(** Disconnecting a device on revocation forgets it completely and nobody
    else: none of its sockets stays authenticated, its counters, replay log,
    duplicate filter and acknowledgement level are gone, every other device's
    socket is as before, and nothing is written. *)
Theorem disconnect_forgets_device n d h :
  mwf (clients h) ->
  let h' := disconnectDevice n d h in
  reg h' = DeviceSessions.evict d (reg h) /\
  DeviceSessions.ackLevel d (reg h') = 0 /\ DeviceSessions.inboundLastSeq d (reg h') = 0 /\
  d ∉ DeviceSessions.knownDeviceIds (reg h') /\ written h' = written h /\
  forall sock conn, connFor sock h' = Some conn <-> connFor sock h = Some conn /\ deviceId conn <> d.
Proof.
  intros Hwf. cbn zeta.
  destruct (disconnect_loop n d (clients h) (set_reg (DeviceSessions.evict d (reg h)) h)) as (Hr & Hw & Hc).
  unfold connFor, disconnectDevice. rewrite Hr, Hw. cbn [set_reg reg written clients] in *. split_and!; try done.
  - unfold DeviceSessions.ackLevel, DeviceSessions.evict. cbn. by rewrite mget_mdelete_eq.
  - unfold DeviceSessions.inboundLastSeq, DeviceSessions.evict. cbn. by rewrite mget_mdelete_eq.
  - change (d ∉ mkeys (mdelete d (DeviceSessions.outbound (reg h)))). rewrite elem_mkeys_mdelete. tauto.
  - intros sock conn. rewrite Hc. split; intros [Hg Hd]; (split; [done|]).
    + apply Hd. by apply mget_Some_elem.
    + intros c Hin. apply elem_mget in Hin; [|done]. congruence.
Qed.

End laws.

(** ** A concrete hub: two sockets of one device and an offline device *)

(** Sockets are numbers, the network state counts writes. *)
Definition demo_net : Net string nat Z := {|
  net_write _ _ x := (true, (x + 1)%Z);
  writableLength _ _ := 0%Z;
  net_destroy _ x := x;
  clock x := x;
  fresh_nonce x := ("n" +:+ pretty x, x);
|}.

Definition demo_hub : ClientHub.t string nat Z ServerEvent :=
  mk [(1%nat, mkConn "k1" "phone"); (2%nat, mkConn "k2" "phone")]
     (DeviceSessions.run (DeviceSessions.new 200 200)
        [DeviceSessions.OpHello 0 "phone" None; DeviceSessions.OpSent 1 "cli" (ack 1)]) 5 [].

Lemma broadcast_one_number_per_device_witness :
  let h := demo_hub in
  exists ops frames num,
    reg (@broadcast string string nat Z ServerEvent (@node_SessionCrypto string toy_platform) _ demo_net id (error "x") h) = DeviceSessions.run (reg h) ops /\
    NoDup (devices ops) /\
    (exists order, order ≡ₚ clients h /\
       Forall2 (@delivers string string nat (@node_SessionCrypto string toy_platform) num (error "x")) order frames).
Proof.
  intros h.
  destruct (@broadcast_one_number_per_device string string nat Z ServerEvent (@node_SessionCrypto string toy_platform) _ (fun _ => True)
    (@node_SessionCryptoLaws string toy_platform (fun _ => True) toy_platform_laws)
    demo_net id (error "x") h I) as (ops & frames & num & Hr & _ & Hnd & _ & _ & _ & _ & Hall).
  - vm_compute. repeat constructor; set_solver.
  - exists ops, frames, num. split_and!; done.
Defined.

Lemma disconnect_forgets_device_witness :
  connFor 1%nat (disconnectDevice demo_net "phone" demo_hub) = None.
Proof.
  assert (Hwf : mwf (clients demo_hub)) by (vm_compute; repeat constructor; set_solver).
  destruct (disconnect_forgets_device demo_net "phone" demo_hub Hwf) as (_ & _ & _ & _ & _ & Hc).
  destruct (connFor 1%nat _) as [conn|] eqn:Hg; [|done].
  apply Hc in Hg as [Hg Hne]. vm_compute in Hg. injection Hg as <-. by destruct Hne.
Defined.
