(* ===== verification/Pairing.v ===== *)
(** * Pairing and device trust

    [packages/daemon/src/infrastructure/pairing.ts], class [Identity], with
    [packages/protocol/src/pairing-proof.ts] and [constantTimeEqual] of
    [packages/protocol/src/crypto-node.ts].  HMAC-SHA256, randomness, the clock
    and the file the registry is written to are the platform's; a failing write
    throws. *)

From S2P Require Import Prelude JsMap Js.

Local Open Scope Z_scope.

Module Identity.

Section identity.
Context {X : Type}.

Inductive PairingFailure : Type := no_pending_pairing | expired | bad_proof.

Record PairedDevice : Type := mkDevice {
  deviceId : string;
  name : string;
  publicKey : string;
  pairedAt : Z;
}.

Inductive PairingOutcome : Type :=
| Paired (device : PairedDevice)
| Refused (reason : PairingFailure).

Record Pending : Type := mkPending { secret : string; expiresAt : Z }.

(** [3 * 60 * 1000] *)
Definition PAIRING_TTL_MS : Z := 180000.

Record Platform : Type := mkPlatform {
  hmac : string -> string -> string;
  random_secret : X -> string * X;
  random_id : X -> string * X;
  clock : X -> Z;
  write_store : list PairedDevice -> eff X unit;
  stringify_qr : string -> string -> string -> string;
}.

Record t : Type := mk {
  publicKeyB64 : string;
  devices : list PairedDevice;
  pendingPairing : option Pending;
  ext : X;
}.

Definition set_devices l (i : t) : t := mk (publicKeyB64 i) l (pendingPairing i) (ext i).
Definition set_pending p (i : t) : t := mk (publicKeyB64 i) (devices i) p (ext i).

(** A platform call. *)
Definition platform {A} (m : eff X A) : eff t A := fun i =>
  let (o, x) := m (ext i) in (o, mk (publicKeyB64 i) (devices i) (pendingPairing i) x).
Definition draw {A} (f : X -> A * X) : eff t A := platform (fun x => let (a, x') := f x in (Ok a, x')).

(** [pairingProof(secret, devicePublicKey, daemonPublicKey)] *)
Definition pairingProof (p : Platform) (secret devicePublicKey daemonPublicKey : string) : string :=
  hmac p secret (devicePublicKey +:+ daemonPublicKey).

(** [constantTimeEqual(a, b)]: lengths first, then the bytes. *)
Definition constantTimeEqual (a b : string) : bool :=
  if negb (String.length a =? String.length b)%nat then false else bool_decide (a = b).

Definition persist (p : Platform) : eff t unit :=
  ds ← gets devices;
  platform (write_store p ds).

(** [pairedCount()] *)
Definition pairedCount (i : t) : Z := Z.of_nat (length (devices i)).

(** [beginPairing(address)]: the QR payload, the secret and its expiry. *)
Definition beginPairing (p : Platform) (address : string) : eff t (string * string * Z) :=
  s ← draw (random_secret p);
  now ← gets (fun i => clock p (ext i));
  let exp := now + PAIRING_TTL_MS in
  modify (set_pending (Some (mkPending s exp))) ;;
  pk ← gets publicKeyB64;
  mret (stringify_qr p address pk s, s, exp).

(** [completePairing(devicePublicKey, deviceName, proof)] *)
Definition completePairing (p : Platform) (devicePublicKey deviceName proof : string) : eff t PairingOutcome :=
  pending ← gets pendingPairing;
  match pending with
  | None => mret (Refused no_pending_pairing)
  | Some pd =>
      now ← gets (fun i => clock p (ext i));
      if expiresAt pd <? now then mret (Refused expired)
      else
        pk ← gets publicKeyB64;
        if negb (constantTimeEqual proof (pairingProof p (secret pd) devicePublicKey pk))
        then mret (Refused bad_proof)
        else
          modify (set_pending None) ;;
          id ← draw (random_id p);
          at_ ← gets (fun i => clock p (ext i));
          let device := mkDevice id deviceName devicePublicKey at_ in
          modify (fun i => set_devices (devices i ++ [device]) i) ;;
          persist p ;;
          mret (Paired device)
  end.

(** [find(deviceId)] *)
Definition find (id : string) (i : t) : option PairedDevice :=
  List.find (fun d => bool_decide (deviceId d = id)) (devices i).

(** [list()] *)
Definition list_devices (i : t) : list PairedDevice := devices i.

(** [revoke(deviceId)] *)
Definition revoke (p : Platform) (id : string) : eff t bool :=
  before ← gets pairedCount;
  modify (fun i => set_devices (filter (fun d => deviceId d <> id) (devices i)) i) ;;
  after ← gets pairedCount;
  if after =? before then mret false else (persist p ;; mret true).

(** ** Operations as a sequence *)

Inductive Op : Type :=
| OpBegin (address : string)
| OpComplete (devicePublicKey deviceName proof : string)
| OpRevoke (id : string)
| OpOutside (f : X -> X).

Definition step (p : Platform) (i : t) (op : Op) : t :=
  match op with
  | OpBegin a => snd (beginPairing p a i)
  | OpComplete k n pr => snd (completePairing p k n pr i)
  | OpRevoke id => snd (revoke p id i)
  | OpOutside f => mk (publicKeyB64 i) (devices i) (pendingPairing i) (f (ext i))
  end.

Definition run (p : Platform) (i : t) (ops : list Op) : t := foldl (step p) i ops.

(** The devices an operation adds. *)
Definition admitted (p : Platform) (i : t) (op : Op) : list PairedDevice :=
  drop (length (devices i)) (devices (step p i op)).

(** How many devices the sequence admits, and how many secrets it issues. *)
Fixpoint admissions (p : Platform) (i : t) (ops : list Op) : nat :=
  match ops with
  | [] => 0
  | op :: ops' => length (admitted p i op) + admissions p (step p i op) ops'
  end.

Fixpoint issued (ops : list Op) : nat :=
  match ops with
  | [] => 0
  | OpBegin _ :: ops' => S (issued ops')
  | _ :: ops' => issued ops'
  end.

End identity.
Arguments Platform : clear implicits.
Arguments t : clear implicits.
Arguments Op : clear implicits.

End Identity.

Import Identity.

(** ** Laws *)

Section laws.
Context {X : Type}.
Implicit Types (p : Platform X) (i : Identity.t X).

Lemma constantTimeEqual_spec a b : constantTimeEqual a b = bool_decide (a = b).
Proof.
  unfold constantTimeEqual. destruct (Nat.eqb_spec (String.length a) (String.length b)); [done|].
  simpl. symmetry. apply bool_decide_eq_false. congruence.
Qed.

Lemma platform_state {A} (m : eff X A) i :
  publicKeyB64 (snd (platform m i)) = publicKeyB64 i /\ devices (snd (platform m i)) = devices i /\
  pendingPairing (snd (platform m i)) = pendingPairing i.
Proof. unfold platform. by destruct (m (ext i)). Qed.

(** The completion succeeds exactly on a live secret and its proof. *)
Definition admits p i (devicePublicKey proof : string) : bool :=
  match pendingPairing i with
  | None => false
  | Some pd => negb (expiresAt pd <? clock p (ext i)) &&
               bool_decide (proof = pairingProof p (secret pd) devicePublicKey (publicKeyB64 i))
  end.

Lemma completePairing_cases p i k n pr :
  (admits p i k pr = false /\ exists r, completePairing p k n pr i = (Ok (Refused r), i)) \/
  (admits p i k pr = true /\ exists id at_,
     publicKeyB64 (snd (completePairing p k n pr i)) = publicKeyB64 i /\
     devices (snd (completePairing p k n pr i)) = devices i ++ [mkDevice id n k at_] /\
     pendingPairing (snd (completePairing p k n pr i)) = None /\
     (forall o, fst (completePairing p k n pr i) = Ok o -> o = Paired (mkDevice id n k at_))).
Proof.
  unfold completePairing, admits, mbind, eff_bind, gets, modify. cbn.
  destruct (pendingPairing i) as [pd|]; [|left; eauto].
  destruct (expiresAt pd <? clock p (ext i)); [left; eauto|]. rewrite constantTimeEqual_spec.
  destruct (bool_decide _); cbn; [right|left; eauto]. split; [done|].
  unfold draw, persist, platform, mbind, eff_bind, gets. cbn.
  destruct (random_id p (ext i)) as [id x]. cbn.
  match goal with |- context [write_store p ?l ?y] => destruct (write_store p l y) as [[[]|e] x'] end;
    cbn; eexists _, _; split_and!; try done. by intros o [= <-].
Qed.

Lemma beginPairing_state p i a :
  publicKeyB64 (snd (beginPairing p a i)) = publicKeyB64 i /\ devices (snd (beginPairing p a i)) = devices i /\
  exists s e, pendingPairing (snd (beginPairing p a i)) = Some (mkPending s e).
Proof.
  unfold beginPairing, draw, platform, mbind, eff_bind, gets, modify. cbn.
  destruct (random_secret p (ext i)) as [s x]. cbn. eauto.
Qed.

Lemma revoke_state p id i :
  publicKeyB64 (snd (revoke p id i)) = publicKeyB64 i /\
  devices (snd (revoke p id i)) = filter (fun d => deviceId d <> id) (devices i) /\
  pendingPairing (snd (revoke p id i)) = pendingPairing i.
Proof.
  unfold revoke, persist, mbind, eff_bind, gets, modify. cbn. destruct (_ =? _); [done|].
  unfold platform. cbn.
  by match goal with |- context [write_store p ?l ?x] => destruct (write_store p l x) as [[]] end.
Qed.

(** C37. Trust is granted only against the one-time secret: a pairing attempt adds
    a device exactly when a secret is outstanding, unexpired, and the proof is
    the HMAC under it of the device's key followed by the daemon's; the secret is
    then spent, whether or not the registry could be written, and a refused
    attempt changes nothing. *)
Theorem pairing_needs_live_secret p i devicePublicKey deviceName proof :
  let '(o, i') := completePairing p devicePublicKey deviceName proof i in
  if admits p i devicePublicKey proof then
    pendingPairing i' = None /\
    exists device, devices i' = devices i ++ [device] /\ publicKey device = devicePublicKey /\
      name device = deviceName /\
      match o with Ok r => r = Paired device | Throw _ => True end
  else i' = i /\ exists reason, o = Ok (Refused reason).
Proof.
  destruct (completePairing_cases p i devicePublicKey deviceName proof) as
    [(-> & r & ->)|(-> & id & at_ & Hpk & Hd & Hp & Ho)]; [eauto|].
  destruct (completePairing p devicePublicKey deviceName proof i) as [o i']. cbn [fst snd] in *.
  split; [done|]. exists (mkDevice id deviceName devicePublicKey at_). split_and!; try done.
  destruct o; [by apply Ho|done].
Qed.

Definition pending_count i : nat := match pendingPairing i with Some _ => 1 | None => 0 end.

Lemma step_admissions p i op :
  (length (admitted p i op) + pending_count (step p i op) <=
   pending_count i + match op with OpBegin _ => 1 | _ => 0 end)%nat.
Proof.
  unfold admitted. destruct op as [a|k n pr|id|f]; cbn [step].
  - destruct (beginPairing_state p i a) as (_ & -> & s & e & Hp). unfold pending_count.
    rewrite Hp, length_drop, Nat.sub_diag. lia.
  - destruct (completePairing_cases p i k n pr) as [(_ & r & ->)|(Ha & id & at_ & _ & Hd & Hp & _)].
    + cbn [snd]. rewrite length_drop, Nat.sub_diag. lia.
    + rewrite Hd, drop_app_length. unfold pending_count. rewrite Hp.
      unfold admits in Ha. destruct (pendingPairing i); [simpl; lia|done].
  - destruct (revoke_state p id i) as (_ & Hd & Hp). unfold pending_count. rewrite Hd, Hp, length_drop.
    pose proof (length_filter (fun d => deviceId d <> id) (devices i)). lia.
  - cbn [devices]. rewrite length_drop, Nat.sub_diag. unfold pending_count. cbn [pendingPairing]. lia.
Qed.

(** Each secret admits at most one device: over any sequence of operations the
    number of devices admitted is at most the number of secrets issued, plus the
    one that may have been outstanding at the start. *)
Theorem one_device_per_secret p i (ops : list (Op X)) :
  (admissions p i ops <= issued ops + pending_count i)%nat.
Proof.
  revert i. induction ops as [|op ops IH]; intros i; cbn [admissions issued]; [lia|].
  specialize (IH (step p i op)). pose proof (step_admissions p i op) as Hs.
  destruct op; cbn [issued]; lia.
Qed.

(** Revocation is exact: afterwards the device is not found and every other
    device is found as before, on every outcome of writing the registry; the call
    reports [false] exactly when the device was not paired, and then it changes
    nothing. *)
Theorem revoke_is_exact p id i :
  let '(o, i') := revoke p id i in
  (forall id', find id' i' = if decide (id' = id) then None else find id' i) /\
  pendingPairing i' = pendingPairing i /\
  match o with
  | Ok ok => ok = bool_decide (find id i <> None)
  | Throw _ => find id i <> None
  end.
Proof.
  assert (Hfind : forall l id', List.find (fun d => bool_decide (deviceId d = id')) (filter (fun d => deviceId d <> id) l) =
    if decide (id' = id) then None else List.find (fun d => bool_decide (deviceId d = id')) l).
  { intros l id'. induction l as [|d l IH]; [by case_decide|]. rewrite filter_cons. cbn [List.find].
    destruct (decide (deviceId d <> id)) as [Hd|Hd].
    - cbn [List.find]. destruct (bool_decide (deviceId d = id')) eqn:Hb; [|exact IH].
      apply bool_decide_eq_true in Hb. by rewrite decide_False by congruence.
    - rewrite IH. case_decide as Hid; [done|]. rewrite bool_decide_false; [done|].
      intros Heq. apply Hd. congruence. }
  assert (Hcount : length (filter (fun d => deviceId d <> id) (devices i)) = length (devices i) <-> find id i = None).
  { unfold find. generalize (devices i) as l. induction l as [|d l IH]; [done|]. rewrite filter_cons. cbn [List.find].
    pose proof (length_filter (fun d => deviceId d <> id) l) as Hlen.
    destruct (decide (deviceId d <> id)) as [Hd|Hd].
    - rewrite bool_decide_false by done. simpl. rewrite <- IH. lia.
    - rewrite bool_decide_true by (by destruct (decide (deviceId d = id)); [|destruct Hd]). simpl. split; [lia|done]. }
  destruct (revoke_state p id i) as (_ & Hd & Hp).
  assert (Ho : match fst (revoke p id i) with Ok ok => ok = bool_decide (find id i <> None) | Throw _ => find id i <> None end).
  { unfold revoke, persist, platform, mbind, eff_bind, gets, modify, pairedCount. cbn.
    destruct (Z.eqb_spec (Z.of_nat (length (filter (fun d => deviceId d <> id) (devices i)))) (Z.of_nat (length (devices i)))) as [He|He].
    - cbn. symmetry. apply bool_decide_eq_false. intros Hne. apply Hne, Hcount. lia.
    - assert (find id i <> None) by (intros Hn; apply He; f_equal; by apply Hcount).
      match goal with |- context [write_store p ?l ?x] => destruct (write_store p l x) as [[[]|e] x'] end; cbn; [|done].
      by rewrite bool_decide_true. }
  destruct (revoke p id i) as [o i']. cbn [fst snd] in *. split_and!; [|done|done].
  intros id'. unfold find. rewrite Hd. apply Hfind.
Qed.

End laws.
