(* ===== verification/IdentityStore.v ===== *)
(** * The identity file

    [Identity.load] and [Identity.persist] of
    [packages/daemon/src/infrastructure/pairing.ts]: how the daemon's key pair and its
    paired devices are read at start and written after every change.  The file system,
    JSON and X25519 are the platform's. *)

From S2P Require Import Prelude JsMap Js Pairing.
From stdpp Require Import countable strings.

Local Open Scope Z_scope.

Module IdentityStore.
Import Identity.

Section store.
Context {Priv Pub X : Type}.

Record KeyPair : Type := mkKeyPair { pair_public : Pub; pair_private : Priv }.

(** What reading the file gives; [ENOENT] is the one error with a meaning of its own. *)
Inductive Read : Type := ENOENT | Unreadable (message : string) | Contents (text : string).

Record Env : Type := mkEnv {
  generate : X -> Priv * X;
  createPublicKey : Priv -> Pub;
  exportPublic : Pub -> string;
  exportPrivate : Priv -> string;
  importPrivate : jsval -> outcome Priv;
  stringify : jsval -> string;
  parse : string -> option jsval;
  readFile : X -> Read;
  writeFile : string -> eff X unit;
}.

Variable v : Env.

(** [generateIdentity()] *)
Definition generateIdentity : eff X KeyPair :=
  fun x => let (s, x') := generate v x in (Ok (mkKeyPair (createPublicKey v s) s), x').

Definition device_json (d : PairedDevice) : jsval :=
  JObj [("deviceId", JStr (deviceId d)); ("name", JStr (name d)); ("publicKey", JStr (publicKey d));
        ("pairedAt", JNum (NumFin (inject_Z (pairedAt d))))].

Definition devices_json (l : list PairedDevice) : jsval := JArr (device_json <$> l).

Definition store_json (k : KeyPair) (devices : jsval) : jsval :=
  JObj [("identity", JObj [("publicKey", JStr (exportPublic v (pair_public k)));
                           ("privateKey", JStr (exportPrivate v (pair_private k)))]);
        ("devices", devices)].

Definition persist (k : KeyPair) (devices : jsval) : eff X unit := writeFile v (stringify v (store_json k devices)).

Definition cannot_read (storePath message : string) : string :=
  "identity store at " +:+ storePath +:+ " exists but could not be read (" +:+ message +:+ "). " +:+
  "Refusing to generate a new identity: that would silently unpair every device. " +:+
  "Fix or explicitly delete the file.".

(** [Identity.load(storePath)]: the keys and the devices, whatever value they are. *)
Definition load (storePath : string) : eff X (KeyPair * jsval) :=
  r ← gets (readFile v);
  match r with
  | ENOENT =>
      k ← generateIdentity;
      persist k (JArr []) ;;
      mret (k, JArr [])
  | Unreadable m => throw (cannot_read storePath m)
  | Contents text =>
      match parse v text with
      | None => throw (cannot_read storePath "SyntaxError")
      | Some raw =>
          let pk := jprop "privateKey" (jprop "identity" raw) in
          if negb (jtruthy pk) then throw ("identity store at " +:+ storePath +:+ " is missing identity.privateKey")
          else
            match importPrivate v pk with
            | Throw e => throw e
            | Ok s => mret (mkKeyPair (createPublicKey v s) s, jcoalesce (jprop "devices" raw) (JArr []))
            end
      end
  end.

End store.
Arguments KeyPair : clear implicits.
Arguments Env : clear implicits.

End IdentityStore.

Import Identity IdentityStore.

Section laws.
Context {Priv Pub X : Type} (v : Env Priv Pub X).
Implicit Types (k : KeyPair Priv Pub) (x : X).

(** The platform: keys and the store survive being written and read, and a write that
    returns is what is read next. *)
Record Platform_ok : Prop := {
  p_import s : importPrivate v (JStr (exportPrivate v s)) = Ok s;
  p_export s : exportPrivate v s <> EmptyString;
  p_json k l : parse v (stringify v (store_json v k (devices_json l))) = Some (store_json v k (devices_json l));
  p_write text x : exists x', writeFile v text x = (Ok tt, x') /\ readFile v x' = Contents text;
}.

(** The registry of the running daemon writes the same file, and drawing a
    secret leaves it alone. *)
Record Same_file (p : Platform X) k : Prop := {
  f_store l : write_store p l = persist v k (devices_json l);
  f_secret x : readFile v (random_secret p x).2 = readFile v x;
}.

(** An identity in memory whose file says the same. *)
Definition on_disk k (i : Identity.t X) : Prop :=
  publicKeyB64 i = exportPublic v (pair_public k) /\
  readFile v (ext i) = Contents (stringify v (store_json v k (devices_json (devices i)))).

Definition quiet (op : Op X) : Prop := match op with OpOutside f => forall x, readFile v (f x) = readFile v x | _ => True end.

Lemma persist_writes (HP : Platform_ok) k l x :
  exists x', persist v k (devices_json l) x = (Ok tt, x') /\
    readFile v x' = Contents (stringify v (store_json v k (devices_json l))).
Proof. apply (p_write HP). Qed.

Lemma on_disk_step (HP : Platform_ok) p k i op : Same_file p k -> quiet op -> on_disk k i -> on_disk k (Identity.step p i op).
Proof.
  intros HF Hq [Hpk Hr]. destruct op as [a|dk n pr|id|f]; cbn [Identity.step].
  - unfold beginPairing, draw, platform, mbind, eff_bind, gets, modify. cbn.
    pose proof (f_secret _ _ HF (ext i)) as Hs. destruct (random_secret p (ext i)) as [s x]. cbn in *. split; [done|]. cbn. by rewrite Hs.
  - unfold completePairing, mbind, eff_bind, gets, modify. cbn. destruct (pendingPairing i) as [pd|]; [|done].
    destruct (expiresAt pd <? clock p (ext i)); [done|]. destruct (constantTimeEqual _ _); cbn; [|done].
    unfold draw, Identity.persist, platform, mbind, eff_bind, gets. cbn.
    destruct (random_id p (ext i)) as [id x]. cbn. rewrite (f_store _ _ HF).
    match goal with |- context [persist v k (devices_json ?l) ?y] => destruct (persist_writes HP k l y) as (x' & -> & Hx') end.
    by split.
  - unfold Identity.revoke, Identity.persist, platform, mbind, eff_bind, gets, modify. cbn.
    destruct (_ =? _) eqn:Hc; cbn.
    + split; [done|]. cbn. rewrite Hr. apply Z.eqb_eq in Hc. unfold pairedCount in Hc. cbn in Hc.
      apply Nat2Z.inj in Hc. by rewrite (filter_full_length _ _ Hc).
    + rewrite (f_store _ _ HF).
      match goal with |- context [persist v k (devices_json ?l) ?y] => destruct (persist_writes HP k l y) as (x' & -> & Hx') end.
      by split.
  - split; [done|]. cbn. by rewrite (Hq (ext i)).
Qed.

Lemma on_disk_run (HP : Platform_ok) p k i ops :
  Same_file p k -> Forall quiet ops -> on_disk k i -> on_disk k (Identity.run p i ops).
Proof.
  intros HF Hq. unfold Identity.run. revert i. induction Hq as [|op ops Ho _ IH]; intros i Hi; [done|].
  cbn [foldl]. by apply IH, on_disk_step.
Qed.

(** Loading what was persisted. *)
Lemma load_persisted (HP : Platform_ok) k l path x :
  pair_public k = createPublicKey v (pair_private k) ->
  readFile v x = Contents (stringify v (store_json v k (devices_json l))) ->
  load v path x = (Ok (k, devices_json l), x).
Proof.
  intros Hk Hr. unfold load, mbind, eff_bind, gets. rewrite Hr, (p_json HP).
  change (jprop "privateKey" _) with (JStr (exportPrivate v (pair_private k))).
  replace (jtruthy _) with true.
  - rewrite (p_import HP), <- Hk. by destruct k.
  - cbn [jtruthy]. pose proof (p_export HP (pair_private k)). by destruct (exportPrivate v (pair_private k)).
Qed.

(** C38. Trust survives a restart: the identity made on the first run, after any sequence
    of pairings, refused attempts and revocations, is what the next start loads, with
    exactly the devices that were registered then, and under the public key the devices
    were shown. *)
Theorem trust_survives_restart (HP : Platform_ok) path x (Hx : readFile v x = ENOENT) :
  exists k x1, load v path x = (Ok (k, devices_json []), x1) /\
    forall (p : Platform X) ops, Same_file p k -> Forall quiet ops ->
      let i := Identity.run p (Identity.mk (exportPublic v (pair_public k)) [] None x1) ops in
      load v path (ext i) = (Ok (k, devices_json (devices i)), ext i) /\
      publicKeyB64 i = exportPublic v (pair_public k).
Proof.
  unfold load at 1, generateIdentity, mbind, eff_bind, gets. rewrite Hx.
  destruct (generate v x) as [s x0]. set (k := mkKeyPair (createPublicKey v s) s).
  destruct (persist_writes HP k [] x0) as (x1 & Hw & Hr). change (JArr []) with (devices_json []). rewrite Hw.
  exists k, x1. split; [done|]. intros p ops HF Hq. cbv zeta.
  destruct (on_disk_run HP p k (Identity.mk (exportPublic v (pair_public k)) [] None x1) ops HF Hq) as [Hpk Hd]; [by split|].
  split; [by apply load_persisted|exact Hpk].
Qed.

(** C39. A daemon never changes its identity by itself: when the file exists, loading
    writes nothing and either fails or gives the keys that derive from the private key
    in the file, whatever public key is stored beside it. *)
Theorem identity_is_never_replaced path x :
  readFile v x <> ENOENT ->
  (load v path x).2 = x /\
  match (load v path x).1 with
  | Throw _ => True
  | Ok (k, _) => exists text raw, readFile v x = Contents text /\ parse v text = Some raw /\
      importPrivate v (jprop "privateKey" (jprop "identity" raw)) = Ok (pair_private k) /\
      pair_public k = createPublicKey v (pair_private k)
  end.
Proof.
  intros Hne. unfold load, mbind, eff_bind, gets. destruct (readFile v x) as [|m|text] eqn:Hr; [done|done|].
  destruct (parse v text) as [raw|] eqn:Hp; [|done]. destruct (negb _); [done|].
  destruct (importPrivate v _) as [s|e] eqn:Hi; [|done]. split; [done|]. by exists text, raw.
Qed.

End laws.

(** ** A concrete disk *)

Fixpoint bits_of (p : positive) : string :=
  match p with xH => EmptyString | xO p => String "0" (bits_of p) | xI p => String "1" (bits_of p) end.

Fixpoint of_bits (s : string) : positive :=
  match s with
  | EmptyString => 1%positive
  | String c s' => if decide (c = "0"%char) then xO (of_bits s') else xI (of_bits s')
  end.

Lemma of_bits_of p : of_bits (bits_of p) = p.
Proof. induction p as [p IH|p IH|]; cbn; rewrite ?IH; done. Qed.

#[export] Instance PairedDevice_eq_dec : EqDecision PairedDevice.
Proof. solve_decision. Defined.

#[export] Program Instance PairedDevice_countable : Countable PairedDevice :=
  inj_countable' (fun d => (deviceId d, name d, publicKey d, pairedAt d)) (fun '(a, b, c, t) => mkDevice a b c t) _.
Next Obligation. by intros []. Qed.

Definition str_of (x : jsval) : string := match x with JStr s => s | _ => EmptyString end.

Definition device_of (x : jsval) : PairedDevice :=
  mkDevice (str_of (jprop "deviceId" x)) (str_of (jprop "name" x)) (str_of (jprop "publicKey" x))
    (match jprop "pairedAt" x with JNum (NumFin q) => Qnum q | _ => 0 end).

Definition devices_of (x : jsval) : list PairedDevice := match x with JArr l => device_of <$> l | _ => [] end.

Lemma devices_of_json l : devices_of (devices_json l) = l.
Proof. unfold devices_of, devices_json. rewrite <- list_fmap_compose. rewrite <- (list_fmap_id l) at 2. apply list_fmap_ext. by intros i []. Qed.

Definition field_of (k : string) (x : jsval) : string := str_of (jprop k (jprop "identity" x)).

Definition demo_stringify (x : jsval) : string :=
  bits_of (encode (field_of "publicKey" x, field_of "privateKey" x, devices_of (jprop "devices" x))).

Definition demo_parse (t : string) : option jsval :=
  '(pub, priv, l) ← decode (A:=string * string * list PairedDevice) (of_bits t);
  Some (JObj [("identity", JObj [("publicKey", JStr pub); ("privateKey", JStr priv)]); ("devices", devices_json l)]).

(** The world is the file. *)
Definition demo_disk : Env string string (option string) := {|
  generate x := ("seed", x);
  createPublicKey s := "pub:" +:+ s;
  exportPublic p := p;
  exportPrivate s := String "S" s;
  importPrivate x := match x with JStr (String "S" s) => Ok s | _ => Throw "invalid key" end;
  stringify := demo_stringify;
  parse := demo_parse;
  readFile x := match x with Some t => Contents t | None => ENOENT end;
  writeFile t := modify (fun _ => Some t);
|}.

Lemma demo_disk_ok : Platform_ok demo_disk.
Proof.
  split; [done|done| |eauto]. intros k l. cbn [parse stringify demo_disk]. unfold demo_parse, demo_stringify.
  rewrite of_bits_of. change (jprop "devices" _) with (devices_json l). rewrite devices_of_json, decode_encode. done.
Qed.

Definition demo_registry (k : KeyPair string string) : Platform (option string) := {|
  hmac s m := s +:+ m;
  random_secret x := ("secret", x);
  random_id x := ("device-1", x);
  clock _ := 0;
  write_store l := persist demo_disk k (devices_json l);
  stringify_qr a pk s := a +:+ pk +:+ s;
|}.

Lemma trust_survives_restart_witness :
  exists k x, load demo_disk "/store" None = (Ok (k, JArr []), x) /\
    let i := Identity.run (demo_registry k) (Identity.mk (exportPublic demo_disk (pair_public k)) [] None x)
               [OpBegin "tcp://h:1"; OpComplete "phone-key" "phone" ("secretphone-keypub:seed")] in
    load demo_disk "/store" (ext i) = (Ok (k, devices_json [mkDevice "device-1" "phone" "phone-key" 0]), ext i).
Proof.
  destruct (trust_survives_restart demo_disk demo_disk_ok "/store" None eq_refl) as (k & x1 & Hl & Hrun).
  exists k, x1. split; [exact Hl|].
  assert (Hk : (load demo_disk "/store" None).1 = Ok (mkKeyPair "pub:seed" "seed", JArr [])) by (vm_compute; reflexivity).
  rewrite Hl in Hk. assert (k = mkKeyPair "pub:seed" "seed") as -> by (cbn in Hk; congruence).
  destruct (Hrun (demo_registry (mkKeyPair "pub:seed" "seed"))
    [OpBegin "tcp://h:1"; OpComplete "phone-key" "phone" ("secretphone-keypub:seed")]) as [Hload _].
  - by split.
  - by repeat constructor.
  - exact Hload.
Defined.

Lemma identity_is_never_replaced_witness :
  (load demo_disk "/store" (Some "01")).2 = Some "01".
Proof. apply (identity_is_never_replaced demo_disk "/store" (Some "01")). discriminate. Defined.
