(* ===== verification/Connection.v ===== *)
(** * The client protocol adapter

    [packages/daemon/src/interface/clientConnection.ts] with
    [packages/daemon/src/interface/messageGuard.ts]: the pairing handshake, the
    authentication of frames, duplicate suppression and acknowledgements, for one
    chunk of one socket.  The world is the hub and the [rest] of the daemon; the
    pairing service and the snapshot only see the rest, the command dispatcher
    sees all of it.  [parseJson] is [JSON.parse], [None] where it throws.  The
    numbers of sealed frames are integers, as in [Frame]: a message whose fields
    are not those of such a frame does not open.  Logging is left out. *)

From S2P Require Import Prelude JsMap Js Types Encode Frame Sync Replay DeviceSessions Framing Commands Hub Pairing.
Import Framing.

Local Open Scope Z_scope.

Module ClientConnection.

(** [64 * 1024] and [4 * 1024 * 1024] *)
Definition MAX_LINE_UNAUTHENTICATED : Z := 65536.
Definition MAX_LINE_AUTHENTICATED : Z := 4194304.

(** [v.k], which throws on [null] and [undefined]. *)
Definition jmember (k : string) (v : jsval) : outcome jsval :=
  match v with
  | JNull | JUndef => Throw "TypeError: cannot read properties"
  | _ => Ok (jprop k v)
  end.

(** [v === s] for a string literal [s] *)
Definition is_str (s : string) (v : jsval) : bool :=
  match v with JStr s' => bool_decide (s' = s) | _ => false end.

(** [Number.isInteger(v) && v >= 0 ? v : undefined] *)
Definition claimed_seq (v : jsval) : option Z :=
  match v with
  | JNum (NumFin q) =>
      match is_integer q with
      | Some n => if 0 <=? n then Some n else None
      | None => None
      end
  | _ => None
  end.

(** The sealed frame a parsed message spells out. *)
Definition frame_of (msg : jsval) : option SealedFrame :=
  match jprop "n" msg, jprop "c" msg, jprop "t" msg, jprop "seq" msg with
  | JStr n, JStr c, JStr t, JNum (NumFin q) =>
      match is_integer q with Some s => Some (mkFrame n c t s) | None => None end
  | _, _, _, _ => None
  end.

Section connection.
Context {Key Nonce Sock X Ev R : Type} `{SessionCrypto Key Nonce} `{EqDecision Sock}.
Notation Hub := (ClientHub.t Key Sock X Ev).

Record t : Type := mk { hub : Hub; rest : R }.

(** [PairingService] of ports.ts. *)
Record PairingService : Type := mkPairing {
  publicKeyB64 : R -> string;
  pairedCount : R -> Z;
  beginPairing : string -> eff R (string * Z);
  completePairing : jsval -> jsval -> jsval -> eff R Identity.PairingOutcome;
  find : string -> R -> option Identity.PairedDevice;
  deriveSessionKey : string -> string -> eff R Key;
}.

(** [ClientConnectionDeps], the platform, and [randomBytes(32)] in base64.
    Events are objects, as in [Hub]: [literal] is an object literal, [content] the
    value an event has in a state of the daemon. *)
Record Deps : Type := mkDeps {
  net : ClientHub.Net Nonce Sock X;
  identity : PairingService;
  maxPairedDevices : Z;
  allowPairingBootstrap : bool;
  snapshot : eff R (list Ev);
  literal : ServerEvent -> Ev;
  content : R -> Ev -> ServerEvent;
  advertisedAddress : R -> string;
  handleCommand : Plain -> Sock -> string -> eff t unit;
  random_salt : R -> string * R;
  parseJson : string -> option jsval;
}.

(** A call that only sees the rest of the daemon. *)
Definition on_rest {A} (m : eff R A) : eff t A := fun w =>
  let (o, r) := m (rest w) in (o, mk (hub w) r).

Definition on_hub (f : Hub -> Hub) : eff t unit := modify (fun w => mk (f (hub w)) (rest w)).

Definition writeRaw (d : Deps) (sock : Sock) (m : UnauthServerMessage) : eff t unit :=
  on_hub (ClientHub.writeRaw (net d) sock m).

Definition destroy (d : Deps) (sock : Sock) : eff t unit :=
  on_hub (fun h => ClientHub.set_net (ClientHub.net_destroy (net d) sock (ClientHub.net h)) h).

(** An operation of the registry the hub and the connections share. *)
Definition on_registry {A} (f : DeviceSessions.t Ev -> A * DeviceSessions.t Ev) : eff t A := fun w =>
  let (a, r) := f (ClientHub.reg (hub w)) in (Ok a, mk (ClientHub.set_reg r (hub w)) (rest w)).

Definition registry (w : t) : DeviceSessions.t Ev := ClientHub.reg (hub w).

(** [guardMessage(log, context, fn)] *)
Definition guardMessage (fn : eff t unit) : eff t bool :=
  try_catch (fn ;; mret true) (fun _ => mret false).

(** [hub.sendSealed(sock, conn, ev)] *)
Definition send_event (d : Deps) (sock : Sock) (conn : ClientHub.ClientConn Key) (ev : Ev) : eff t unit := fun w =>
  on_hub (ClientHub.sendSealed (net d) (content d (rest w)) sock conn ev) w.

(** [const upTo = deviceSessions.ackLevel(id); if (upTo > 0) hub.sendSealed(...)] *)
Definition send_ack (d : Deps) (sock : Sock) (conn : ClientHub.ClientConn Key) : eff t unit :=
  upTo ← gets (fun w => DeviceSessions.ackLevel (ClientHub.deviceId conn) (registry w));
  if 0 <? upTo then send_event d sock conn (literal d (ack upTo)) else mret tt.

(** The frames of a resume, at their original numbers: [hub.writeRaw(sock, seal(...))]. *)
Definition replay_one (d : Deps) (sock : Sock) (conn : ClientHub.ClientConn Key) (e : Z * Ev) : eff t unit := fun w =>
  on_hub (ClientHub.sealAndWrite (net d) sock conn e.1 (content d (rest w) e.2)) w.

(** [case 'hello'] *)
Definition handle_hello (d : Deps) (sock : Sock) (msg : jsval) : eff t unit :=
  device ← gets (fun w => match jprop "deviceId" msg with
                          | JStr id => find (identity d) id (rest w)
                          | _ => None
                          end);
  match device with
  | None => writeRaw d sock hello_failed ;; destroy d sock
  | Some device =>
      salt ← on_rest (fun r => let (s, r') := random_salt d r in (Ok s, r'));
      key ← on_rest (deriveSessionKey (identity d) (Identity.publicKey device) salt);
      now ← gets (fun w => ClientHub.clock (net d) (ClientHub.net (hub w)));
      resume ← on_registry (DeviceSessions.resumeFor now (Identity.deviceId device) (claimed_seq (jprop "lastSeq" msg)));
      let conn := ClientHub.mkConn key (Identity.deviceId device) in
      on_hub (ClientHub.authenticate sock conn) ;;
      match resume with
      | Some events =>
          writeRaw d sock (session_salt salt true (Some (Z.of_nat (length events)))) ;;
          for_each (replay_one d sock conn) events
      | None =>
          writeRaw d sock (session_salt salt false None) ;;
          evs ← on_rest (snapshot d);
          for_each (send_event d sock conn) evs
      end ;;
      send_ack d sock conn
  end.

(** [handleUnauth(sock, msg)] *)
Definition handleUnauth (d : Deps) (sock : Sock) (msg : jsval) : eff t unit :=
  let ty := jprop "type" msg in
  if is_str "begin_pair" ty then
    if negb (allowPairingBootstrap d) then writeRaw d sock pair_failed
    else
      addr ← gets (fun w => advertisedAddress d (rest w));
      p ← on_rest (beginPairing (identity d) addr);
      writeRaw d sock (pair_qr p.1 p.2)
  else if is_str "complete_pair" ty then
    n ← gets (fun w => pairedCount (identity d) (rest w));
    if maxPairedDevices d <=? n then writeRaw d sock pair_failed
    else
      result ← on_rest (completePairing (identity d) (jprop "devicePublicKey" msg)
                          (jcoalesce (jprop "deviceName" msg) (JStr "device")) (jprop "proof" msg));
      match result with
      | Identity.Refused _ => writeRaw d sock pair_failed
      | Identity.Paired device =>
          pk ← gets (fun w => publicKeyB64 (identity d) (rest w));
          writeRaw d sock (paired (Identity.deviceId device) pk)
      end
  else if is_str "hello" ty then handle_hello d sock msg
  else destroy d sock.

(** After the handler: the level advances if it succeeded, and the client is told
    if it is still there. *)
Definition finish (d : Deps) (sock : Sock) (conn : ClientHub.ClientConn Key) (seq : Z) (handled : bool) : eff t unit :=
  (if handled
   then on_registry (fun r => (tt, DeviceSessions.markProcessed (ClientHub.deviceId conn) seq r))
   else mret tt) ;;
  live ← gets (fun w => ClientHub.isAuthenticated sock (hub w));
  if live : bool then send_ack d sock conn else mret tt.

(** The authenticated part of the loop's body, once the frame is open. *)
Definition on_command (d : Deps) (sock : Sock) (conn : ClientHub.ClientConn Key) (seq : Z) (cmd : Plain) : eff t unit :=
  fresh ← on_registry (DeviceSessions.acceptInbound (ClientHub.deviceId conn) seq);
  if negb fresh then mret tt
  else
    handled ← guardMessage (handleCommand d cmd sock (ClientHub.deviceId conn));
    finish d sock conn seq handled.

(** What an authenticated message opens to: [typeof msg.seq !== 'number'] is
    malformed; [open] throws where there is no such frame. *)
Inductive Opened : Type :=
| Malformed
| Unauthentic
| Command (seq : Z) (cmd : Plain).

Definition open_msg (conn : ClientHub.ClientConn Key) (msg seq : jsval) : Opened :=
  match seq with
  | JNum _ =>
      match frame_of msg with
      | None => Unauthentic
      | Some f =>
          match open_frame (ClientHub.key conn) f c2d with
          | None => Unauthentic
          | Some cmd => Command (f_seq f) cmd
          end
      end
  | _ => Malformed
  end.

Definition drop_connection (d : Deps) (sock : Sock) : eff t unit :=
  on_hub (ClientHub.forget sock) ;; destroy d sock.

(** The body of the read loop, for one line. *)
Definition onLine (d : Deps) (sock : Sock) (line : string) : eff t unit :=
  if is_blank line then mret tt
  else
    match parseJson d line with
    | None => mret tt
    | Some msg =>
        conn ← gets (fun w => ClientHub.connFor sock (hub w));
        match conn with
        | None => guardMessage (handleUnauth d sock msg) ;; mret tt
        | Some conn =>
            match jmember "seq" msg with
            | Throw e => throw e
            | Ok seq =>
                match open_msg conn msg seq with
                | Malformed => mret tt
                | Unauthentic => drop_connection d sock
                | Command seq cmd => on_command d sock conn seq cmd
                end
            end
        end
    end.

(** [sock.on('data')]: from the buffer and a decoded chunk to the buffer left. *)
Definition onData (d : Deps) (sock : Sock) (buf chunk : string) : eff t string :=
  let buf := buf +:+ chunk in
  auth ← gets (fun w => ClientHub.isAuthenticated sock (hub w));
  let cap := if auth : bool then MAX_LINE_AUTHENTICATED else MAX_LINE_UNAUTHENTICATED in
  if cap <? Z.of_nat (String.length buf)
  then drop_connection d sock ;; mret ""
  else read_loop (onLine d sock) buf.

(** [sock.on('close')] and [sock.on('error')] *)
Definition onClose (sock : Sock) : eff t unit := on_hub (ClientHub.forget sock).

(** ** Vocabulary of the properties *)

Definition set_handleCommand (f : Plain -> Sock -> string -> eff t unit) (d : Deps) : Deps :=
  mkDeps (net d) (identity d) (maxPairedDevices d) (allowPairingBootstrap d) (snapshot d) (literal d) (content d)
    (advertisedAddress d) f (random_salt d) (parseJson d).

Definition set_identity (i : PairingService) (d : Deps) : Deps :=
  mkDeps (net d) i (maxPairedDevices d) (allowPairingBootstrap d) (snapshot d) (literal d) (content d)
    (advertisedAddress d) (handleCommand d) (random_salt d) (parseJson d).

(** [i] with its ways of creating trust replaced. *)
Definition set_begin (f : string -> eff R (string * Z)) (i : PairingService) : PairingService :=
  mkPairing (publicKeyB64 i) (pairedCount i) f (completePairing i) (find i) (deriveSessionKey i).

Definition set_complete (f : jsval -> jsval -> jsval -> eff R Identity.PairingOutcome) (i : PairingService) : PairingService :=
  mkPairing (publicKeyB64 i) (pairedCount i) (beginPairing i) f (find i) (deriveSessionKey i).

(** The authenticated command a line carries: its device, number and content. *)
Definition incoming (d : Deps) (sock : Sock) (line : string) (w : t) : option (string * Z * Plain) :=
  if is_blank line then None
  else
    match parseJson d line, ClientHub.connFor sock (hub w) with
    | Some msg, Some conn =>
        match jmember "seq" msg with
        | Throw _ => None
        | Ok seq =>
            match open_msg conn msg seq with
            | Command seq cmd => Some (ClientHub.deviceId conn, seq, cmd)
            | _ => None
            end
        end
    | _, _ => None
    end.

(** The command the line makes the daemon run. *)
Definition executes (d : Deps) (sock : Sock) (line : string) (w : t) : option (string * Z * Plain) :=
  match incoming d sock line w with
  | Some (dev, seq, cmd) =>
      if fst (DeviceSessions.acceptInbound dev seq (registry w)) then Some (dev, seq, cmd) else None
  | None => None
  end.

(** [executes] is right about the line: it runs the dispatcher once, on that
    command, or not at all. *)
Definition dispatches (d : Deps) (sock : Sock) (line : string) (w : t) : Prop :=
  match executes d sock line w with
  | None => forall f, onLine (set_handleCommand f d) sock line w = onLine d sock line w
  | Some (dev, seq, cmd) =>
      let w1 := mk (ClientHub.set_reg (snd (DeviceSessions.acceptInbound dev seq (registry w))) (hub w)) (rest w) in
      exists k : bool -> eff t unit, forall f,
        onLine (set_handleCommand f d) sock line w = (guardMessage (f cmd sock dev) ≫= k) w1
  end.

Notation Op := (DeviceSessions.Op Ev).

(** The number a line offers to the duplicate filter. *)
Definition offer (d : Deps) (sock : Sock) (line : string) (w : t) : list Op :=
  match incoming d sock line w with
  | Some (dev, seq, _) => [DeviceSessions.OpAccept dev seq]
  | None => []
  end.

Definition executed (d : Deps) (sock : Sock) (line : string) (w : t) : list (string * Z) :=
  match executes d sock line w with
  | Some (dev, seq, _) => [(dev, seq)]
  | None => []
  end.

(** Everything but an offer to the filter. *)
Definition not_offer (op : Op) : Prop :=
  match op with DeviceSessions.OpAccept _ _ => False | _ => True end.

(** [w'] differs from [w] by registry operations that offer nothing. *)
Definition quiet (w w' : t) : Prop :=
  exists ops, Forall not_offer ops /\ registry w' = DeviceSessions.run (registry w) ops.

(** A run of the daemon, from an empty registry: lines of any sockets in any
    order, and anything else that offers nothing (broadcasts, revocations, hellos
    of other listeners).  [ex] are the commands executed, [ops] the history of
    the registry. *)
Inductive reach (d : Deps) (a b : Z) : list (string * Z) -> list Op -> t -> Prop :=
| reach_new w : registry w = DeviceSessions.new a b -> reach d a b [] [] w
| reach_line ex ops w sock line ops' :
    reach d a b ex ops w -> Forall not_offer ops' ->
    registry (snd (onLine d sock line w)) = DeviceSessions.run (registry w) (offer d sock line w ++ ops') ->
    reach d a b (ex ++ executed d sock line w) (ops ++ offer d sock line w ++ ops') (snd (onLine d sock line w))
| reach_other ex ops w ops' w' :
    reach d a b ex ops w -> Forall not_offer ops' -> registry w' = DeviceSessions.run (registry w) ops' ->
    reach d a b ex (ops ++ ops') w'.

(** Every number of the device was offered at most 2000 below its highest. *)
Definition windowed (dev : string) (ops : list Op) : Prop :=
  forall pre seq post, ops = pre ++ DeviceSessions.OpAccept dev seq :: post ->
    foldr Z.max 0 (offered dev pre) - 2000 <= seq.

Definition numbers_of (dev : string) (ex : list (string * Z)) : list Z :=
  (filter (fun e : string * Z => e.1 = dev) ex).*2.

End connection.
Arguments t : clear implicits.
Arguments Deps : clear implicits.
Arguments PairingService : clear implicits.

End ClientConnection.

Import ClientConnection.

(** ** Laws *)

Section laws.
Context {Key Nonce Sock X Ev R : Type} `{SessionCrypto Key Nonce} `{EqDecision Sock}.
Notation World := (ClientConnection.t Key Sock X Ev R).
Notation Dependencies := (ClientConnection.Deps Key Nonce Sock X Ev R).
Implicit Types (d : Dependencies) (w : World) (conn : ClientHub.ClientConn Key).

(** *** What each call does to the registry *)

Lemma quiet_refl w : quiet w w.
Proof. by exists []. Qed.

Lemma quiet_trans w1 w2 w3 : quiet w1 w2 -> quiet w2 w3 -> quiet w1 w3.
Proof.
  intros (o1 & H1 & E1) (o2 & H2 & E2). exists (o1 ++ o2). split; [by apply Forall_app|].
  by rewrite E2, E1, Hub.run_app.
Qed.

Lemma quiet_one (op : DeviceSessions.Op Ev) w w' : not_offer op -> registry w' = DeviceSessions.step (registry w) op -> quiet w w'.
Proof. intros Hop Hr. exists [op]. split; [by constructor|done]. Qed.

Lemma quiet_same w w' : registry w' = registry w -> quiet w w'.
Proof. intros Hr. by exists []. Qed.

(** [m] offers nothing, on return and on a throw. *)
Definition quietly {A} (m : eff World A) : Prop := forall w, quiet w (snd (m w)).

Lemma quietly_ret {A} (a : A) : quietly (mret a).
Proof. intros w. apply quiet_refl. Qed.

Lemma quietly_throw {A} e : quietly (throw (A:=A) e).
Proof. intros w. apply quiet_refl. Qed.

Lemma quietly_gets {A} (f : World -> A) : quietly (gets f).
Proof. intros w. apply quiet_refl. Qed.

Lemma quietly_bind {A B} (m : eff World A) (k : A -> eff World B) :
  quietly m -> (forall a, quietly (k a)) -> quietly (m ≫= k).
Proof.
  intros Hm Hk w. specialize (Hm w). unfold mbind, eff_bind.
  destruct (m w) as [[a|e] w']; [|done]. exact (quiet_trans _ _ _ Hm (Hk a w')).
Qed.

Lemma quietly_guard (m : eff World unit) : quietly m -> quietly (guardMessage m).
Proof.
  intros Hm w. specialize (Hm w). unfold guardMessage, try_catch, mbind, eff_bind.
  by destruct (m w) as [[[]|e] w'].
Qed.

Lemma quietly_on_rest {A} (m : eff R A) : quietly (on_rest (Key:=Key) (Sock:=Sock) (X:=X) m).
Proof. intros w. unfold on_rest. destruct (m (rest w)). by apply quiet_same. Qed.

Lemma quietly_on_hub f : (forall h, ClientHub.reg (f h) = ClientHub.reg h) -> quietly (on_hub (R:=R) f).
Proof. intros Hf w. apply quiet_same, Hf. Qed.

Lemma quietly_for_each {Y} (f : Y -> eff World unit) l : (forall y, quietly (f y)) -> quietly (for_each f l).
Proof. intros Hf. induction l as [|y l IH]; simpl; [apply quietly_ret|]. by apply quietly_bind. Qed.

Lemma quietly_writeRaw d sock m : quietly (writeRaw d sock m).
Proof. apply quietly_on_hub. intros h. apply Hub.writeFrame_reg. Qed.

Lemma quietly_destroy d sock : quietly (destroy d sock).
Proof. by apply quietly_on_hub. Qed.

Lemma quietly_send_event d sock conn ev : quietly (send_event d sock conn ev).
Proof.
  intros w. unfold send_event, on_hub, modify, ClientHub.sendSealed. cbn [snd].
  destruct (Hub.record_op (net d) (ClientHub.deviceId conn) ev (hub w)) as (Hr & _ & _).
  destruct (ClientHub.record _ _ _ _) as [seq h1]. cbn [fst snd] in Hr.
  eapply quiet_one; [|unfold registry; cbn [hub]; rewrite (proj1 (Hub.sealAndWrite_reg _ _ _ _ _ _)), Hr; reflexivity].
  done.
Qed.

Lemma quietly_send_ack d sock conn : quietly (send_ack d sock conn).
Proof. apply quietly_bind; [apply quietly_gets|]. intros n. destruct (0 <? n); [apply quietly_send_event|apply quietly_ret]. Qed.

Lemma quietly_resume now dev last : quietly (on_registry (X:=X) (R:=R) (Key:=Key) (Sock:=Sock) (DeviceSessions.resumeFor now dev last)).
Proof.
  intros w. unfold on_registry. destruct (DeviceSessions.resumeFor _ _ _ _) as [a r] eqn:Hr.
  apply quiet_one with (DeviceSessions.OpHello now dev last); [done|]. unfold registry. cbn. by rewrite Hr.
Qed.

Create HintDb quietly.
Hint Resolve quietly_ret quietly_throw quietly_gets quietly_bind quietly_guard quietly_on_rest
  quietly_for_each quietly_writeRaw quietly_destroy quietly_send_event quietly_send_ack quietly_resume : quietly.

Lemma quietly_hello d sock msg : quietly (handle_hello d sock msg).
Proof.
  unfold handle_hello. apply quietly_bind; [auto with quietly|]. intros [dv|]; [|auto with quietly].
  do 3 (apply quietly_bind; [auto with quietly|]; intros ?). apply quietly_bind; [auto with quietly|]. intros resume.
  apply quietly_bind; [by apply quietly_on_hub|]. intros _.
  apply quietly_bind; [|auto with quietly]. destruct resume as [evs|]; (apply quietly_bind; [apply quietly_writeRaw|intros _]).
  - apply quietly_for_each. intros e w. apply quietly_on_hub. intros h. apply Hub.sealAndWrite_reg.
  - apply quietly_bind; [apply quietly_on_rest|]. intros evs. apply quietly_for_each. intros ev. apply quietly_send_event.
Qed.

Lemma quietly_unauth d sock msg : quietly (handleUnauth d sock msg).
Proof.
  unfold handleUnauth. destruct (is_str "begin_pair" _); [|destruct (is_str "complete_pair" _);
    [|destruct (is_str "hello" _); [apply quietly_hello|auto with quietly]]].
  - destruct (negb _); auto with quietly.
  - apply quietly_bind; [auto with quietly|]. intros n. destruct (_ <=? n); [auto with quietly|].
    apply quietly_bind; [auto with quietly|]. intros [dv|r]; auto with quietly.
Qed.


(** *** A line of an authenticated socket *)

(** The line, by what it carries. *)
Lemma onLine_incoming d sock line w conn :
  ClientHub.connFor sock (hub w) = Some conn ->
  match incoming d sock line w with
  | Some (dev, seq, cmd) =>
      dev = ClientHub.deviceId conn /\ onLine d sock line w = on_command d sock conn seq cmd w
  | None =>
      registry (snd (onLine d sock line w)) = registry w /\
      forall f, onLine (set_handleCommand f d) sock line w = onLine d sock line w
  end.
Proof.
  intros Hc. unfold incoming, onLine. destruct (is_blank line); [done|].
  cbn [parseJson set_handleCommand]. destruct (parseJson d line) as [msg|]; [|done].
  unfold mbind, eff_bind, gets. rewrite Hc. destruct (jmember "seq" msg) as [seq|e]; [|done].
  by destruct (open_msg conn msg seq) as [| |s c].
Qed.

Lemma incoming_unauth d sock line w : ClientHub.connFor sock (hub w) = None -> incoming d sock line w = None.
Proof. intros Hc. unfold incoming. destruct (is_blank line); [done|]. rewrite Hc. by destruct (parseJson d line). Qed.

Lemma onLine_unauth_registry d sock line w :
  ClientHub.connFor sock (hub w) = None -> quiet w (snd (onLine d sock line w)).
Proof.
  intros Hc. unfold onLine. destruct (is_blank line); [apply quiet_refl|].
  destruct (parseJson d line) as [msg|]; [|apply quiet_refl].
  unfold mbind at 1, eff_bind at 1, gets at 1. rewrite Hc.
  apply (quietly_bind (guardMessage (handleUnauth d sock msg))); [|intros; apply quietly_ret].
  apply quietly_guard, quietly_unauth.
Qed.

Lemma quietly_finish d sock conn seq (handled : bool) : quietly (finish d sock conn seq handled).
Proof.
  apply quietly_bind.
  - destruct handled; [|apply quietly_ret]. intros w.
    by apply quiet_one with (DeviceSessions.OpProcessed (ClientHub.deviceId conn) seq).
  - intros _. apply quietly_bind; [apply quietly_gets|]. intros []; [apply quietly_send_ack|apply quietly_ret].
Qed.

(** The dispatcher offers nothing to the duplicate filter: only the read loop does. *)
Definition quiet_commands d : Prop := forall cmd sock dev, quietly (handleCommand d cmd sock dev).

Lemma on_command_registry d sock conn seq cmd w :
  quiet_commands d -> exists ops, Forall not_offer ops /\
    registry (snd (on_command d sock conn seq cmd w)) =
      DeviceSessions.run (registry w) (DeviceSessions.OpAccept (ClientHub.deviceId conn) seq :: ops).
Proof.
  intros Hq. unfold on_command, mbind at 1, eff_bind at 1, on_registry at 1.
  fold (registry w). destruct (DeviceSessions.acceptInbound (ClientHub.deviceId conn) seq (registry w)) as [ok r] eqn:Ha.
  set (w1 := mk (ClientHub.set_reg r (hub w)) (rest w)).
  assert (Hw1 : registry w1 = DeviceSessions.step (registry w) (DeviceSessions.OpAccept (ClientHub.deviceId conn) seq))
    by (cbn [DeviceSessions.step]; by rewrite Ha).
  destruct ok; cbn [negb]; [|by exists []].
  assert (Hall : quiet w1 (snd ((guardMessage (handleCommand d cmd sock (ClientHub.deviceId conn)) ≫=
    finish d sock conn seq) w1))).
  { apply quietly_bind; [apply quietly_guard, Hq|]. intros handled. apply quietly_finish. }
  destruct Hall as (ops & Hops & Hr). exists ops. split; [done|].
  change (DeviceSessions.run (registry w) (?o :: ops)) with (DeviceSessions.run (DeviceSessions.step (registry w) o) ops).
  rewrite <- Hw1. exact Hr.
Qed.

(** What any line does to the registry: its offer, then operations that offer nothing. *)
Lemma onLine_registry d sock line w :
  quiet_commands d -> exists ops, Forall not_offer ops /\
    registry (snd (onLine d sock line w)) = DeviceSessions.run (registry w) (offer d sock line w ++ ops).
Proof.
  intros Hq. unfold offer. destruct (ClientHub.connFor sock (hub w)) as [conn|] eqn:Hc.
  - pose proof (onLine_incoming d sock line w conn Hc) as Hi.
    destruct (incoming d sock line w) as [[[dev seq] cmd]|].
    + destruct Hi as [-> ->]. by apply on_command_registry.
    + destruct Hi as [Hr _]. by exists [].
  - rewrite incoming_unauth by done. apply (onLine_unauth_registry d sock line w Hc).
Qed.

(** [executes] says when the dispatcher runs, and that it runs once: without it,
    no dispatcher makes a difference; with it, whatever the dispatcher [f], the
    line calls it on that command, in that device's name, in the world in which
    the number has been recorded, and what follows does not depend on [f]. *)
Lemma onLine_executes d sock line w : dispatches d sock line w.
Proof.
  unfold dispatches, executes. destruct (ClientHub.connFor sock (hub w)) as [conn|] eqn:Hc.
  - pose proof (onLine_incoming d sock line w conn Hc) as Hi.
    destruct (incoming d sock line w) as [[[dev seq] cmd]|] eqn:Hin; [|by apply Hi].
    assert (Hf : forall f, onLine (set_handleCommand f d) sock line w = on_command (set_handleCommand f d) sock conn seq cmd w).
    { intros f. pose proof (onLine_incoming (set_handleCommand f d) sock line w conn Hc) as Hg.
      change (incoming (set_handleCommand f d) sock line w) with (incoming d sock line w) in Hg.
      rewrite Hin in Hg. apply Hg. }
    destruct Hi as [-> Hl].
    destruct (DeviceSessions.acceptInbound (ClientHub.deviceId conn) seq (registry w)) as [[] r] eqn:Ha; cbn [fst snd].
    + rewrite Ha. exists (finish d sock conn seq). intros f. rewrite Hf. unfold on_command, mbind at 1, eff_bind at 1, on_registry at 1.
      fold (registry w). rewrite Ha. cbn [negb]. reflexivity.
    + intros f. rewrite Hf, Hl. unfold on_command, mbind at 1 3, eff_bind at 1 3, on_registry at 1 2.
      fold (registry w). by rewrite Ha.
  - rewrite incoming_unauth by done. intros f. unfold onLine. destruct (is_blank line); [done|].
    cbn [parseJson set_handleCommand]. destruct (parseJson d line); [|done].
    unfold mbind at 1 3, eff_bind at 1 3, gets at 1 2. by rewrite Hc.
Qed.

(** *** Runs *)

Lemma offered_app (dev : string) (o1 o2 : list (DeviceSessions.Op Ev)) :
  offered dev (o1 ++ o2) = foldl (offered_op dev) (offered dev o1) o2.
Proof. unfold offered. by rewrite foldl_app. Qed.

Lemma offered_quiet dev (ops : list (DeviceSessions.Op Ev)) l :
  Forall not_offer ops -> DeviceSessions.OpEvict dev ∉ ops -> foldl (offered_op dev) l ops = l.
Proof.
  intros Hq. revert l. induction Hq as [|op ops Hop _ IH]; intros l Hne; [done|]. cbn [foldl].
  rewrite not_elem_of_cons in Hne. destruct Hne as [Hne1 Hne2].
  destruct op as [now d' ls|now d' ev|d' s|d' s|d']; try done; cbn [offered_op]; try by apply IH.
  rewrite decide_False by congruence. by apply IH.
Qed.

Lemma windowed_app dev (o1 o2 : list (DeviceSessions.Op Ev)) : windowed dev (o1 ++ o2) -> windowed dev o1.
Proof. intros Hw pre seq post ->. apply (Hw pre seq (post ++ o2)). by rewrite <- app_assoc. Qed.

Lemma numbers_of_app dev ex1 ex2 : numbers_of dev (ex1 ++ ex2) = numbers_of dev ex1 ++ numbers_of dev ex2.
Proof. unfold numbers_of. by rewrite filter_app, fmap_app. Qed.

Lemma reach_registry d a b ex ops w : reach d a b ex ops w -> registry w = DeviceSessions.run (DeviceSessions.new a b) ops.
Proof.
  induction 1 as [|ex ops w sock line ops' _ IH _ Hr|ex ops w ops' w' _ IH _ Hr]; [done| |].
  - by rewrite Hr, IH, <- Hub.run_app.
  - by rewrite Hr, IH, <- Hub.run_app.
Qed.

(** The account the runs keep: what was executed for a device is what it offered,
    once each. *)
Definition once (dev : string) (ex : list (string * Z)) (ops : list (DeviceSessions.Op Ev)) : Prop :=
  NoDup (numbers_of dev ex) /\ forall seq, seq ∈ numbers_of dev ex <-> seq ∈ offered dev ops.

(** One offer, in a registry with history [ops]. *)
Lemma once_offer dev ex ops d a b sock line w :
  registry w = DeviceSessions.run (DeviceSessions.new a b) ops ->
  windowed dev (ops ++ offer d sock line w) -> once dev ex ops ->
  once dev (ex ++ executed d sock line w) (ops ++ offer d sock line w).
Proof.
  intros Hr Hwin [Hnd Hin]. unfold once, executed, executes, offer in *.
  rewrite numbers_of_app, offered_app.
  destruct (incoming d sock line w) as [[[dev' seq] cmd]|]; [|by rewrite !app_nil_r].
  cbn [foldl offered_op]. destruct (decide (dev' = dev)) as [->|Hne].
  - assert (Hacc : fst (DeviceSessions.acceptInbound dev seq (registry w)) = negb (bool_decide (seq ∈ offered dev ops))).
    { unfold DeviceSessions.acceptInbound. rewrite Hr, inbound_stream.
      rewrite <- (accept_exact _ _ (Hwin ops seq [] eq_refl)). by destruct (InboundStream.accept _ _). }
    rewrite Hacc. case_bool_decide as Hold; cbn [negb].
    + change (numbers_of dev []) with (@nil Z). rewrite app_nil_r. split; [done|]. intros s. rewrite Hin. set_solver.
    + assert (Hone : numbers_of dev [(dev, seq)] = [seq]) by (unfold numbers_of; by rewrite filter_cons_True).
      rewrite Hone. split; [|intros s; rewrite !elem_of_app, Hin; done].
      apply NoDup_app. split_and!; [done| |apply NoDup_singleton].
      intros s Hs ->%list_elem_of_singleton. apply Hold. by apply Hin.
  - assert (Hnone : numbers_of dev (match (if fst (DeviceSessions.acceptInbound dev' seq (registry w))
        then Some (dev', seq, cmd) else None) with Some (dev0, seq0, _) => [(dev0, seq0)] | None => [] end) = []).
    { destruct (fst _); [|done]. unfold numbers_of. by rewrite filter_cons_False. }
    rewrite Hnone, app_nil_r. done.
Qed.

Lemma once_quiet dev ex ops ops' :
  Forall not_offer ops' -> DeviceSessions.OpEvict dev ∉ ops' -> once dev ex ops -> once dev ex (ops ++ ops').
Proof. intros Hq Hne. unfold once. by rewrite offered_app, offered_quiet. Qed.

Lemma once_reach d a b ex ops w dev :
  reach d a b ex ops w -> DeviceSessions.OpEvict dev ∉ ops -> windowed dev ops -> once dev ex ops.
Proof.
  induction 1 as [w Hr|ex ops w sock line ops' Hreach IH Hq Hr|ex ops w ops' w' Hreach IH Hq Hr]; intros Hne Hwin.
  - split; [constructor|]. intros s. set_solver.
  - rewrite !not_elem_of_app in Hne. destruct Hne as (Hne1 & Hne2 & Hne3). rewrite app_assoc in Hwin |- *.
    apply once_quiet; [done|done|]. apply windowed_app in Hwin.
    apply (once_offer dev ex ops d a b); [by eapply reach_registry|done|].
    apply IH; [done|by apply windowed_app in Hwin].
  - rewrite not_elem_of_app in Hne. destruct Hne as (Hne1 & Hne2).
    apply once_quiet; [done|done|]. apply IH; [done|by apply windowed_app in Hwin].
Qed.


(** *** Who is connected *)

(** The other sockets are as in [w0], and this one satisfies [Q]. *)
Definition only (sock : Sock) (w0 : World) (Q : option (ClientHub.ClientConn Key) -> Prop) w : Prop :=
  (forall s, s <> sock -> ClientHub.connFor s (hub w) = ClientHub.connFor s (hub w0)) /\
  Q (ClientHub.connFor sock (hub w)).

Lemma writeFrame_clients (n : ClientHub.Net Nonce Sock X) sock m (h : ClientHub.t Key Sock X Ev) :
  ClientHub.clients (ClientHub.writeFrame n sock m h) = ClientHub.clients h \/
  ClientHub.clients (ClientHub.writeFrame n sock m h) = mdelete sock (ClientHub.clients h).
Proof.
  unfold ClientHub.writeFrame. destruct (ClientHub.net_write n sock m (ClientHub.net h)) as [[] x]; [|by left].
  destruct (_ <? _); [by right|by left].
Qed.

(** [f] touches no connection, except that it may drop this socket's. *)
Definition may_drop (sock : Sock) (f : ClientHub.t Key Sock X Ev -> ClientHub.t Key Sock X Ev) : Prop :=
  forall h, ClientHub.clients (f h) = ClientHub.clients h \/
            ClientHub.clients (f h) = mdelete sock (ClientHub.clients h).

Lemma may_drop_sealAndWrite (n : ClientHub.Net Nonce Sock X) sock conn seq ev :
  may_drop sock (ClientHub.sealAndWrite n sock conn seq ev).
Proof.
  intros h. unfold ClientHub.sealAndWrite. destruct (ClientHub.fresh_nonce n (ClientHub.net h)) as [nonce x].
  exact (writeFrame_clients n sock _ (ClientHub.set_net x h)).
Qed.

Lemma may_drop_sendSealed (n : ClientHub.Net Nonce Sock X) content sock conn ev :
  may_drop sock (ClientHub.sendSealed n content sock conn ev).
Proof.
  intros h. unfold ClientHub.sendSealed, ClientHub.record.
  destruct (DeviceSessions.recordSent _ _ _ _) as [seq r].
  exact (may_drop_sealAndWrite n sock conn seq (content ev) (ClientHub.set_reg r h)).
Qed.

Section only.
Context (sock : Sock) (w0 : World) (Q : option (ClientHub.ClientConn Key) -> Prop) (HQ : Q None).

Lemma only_on_hub f : may_drop sock f -> preserves (only sock w0 Q) (on_hub (R:=R) f).
Proof.
  intros Hf w [Hs Hc]. unfold only, ClientHub.connFor, on_hub, modify in *. cbn [snd hub].
  destruct (Hf (hub w)) as [Hd|Hd]; rewrite Hd; [done|]. split.
  - intros s Hne. rewrite mget_mdelete_ne by done. by apply Hs.
  - by rewrite mget_mdelete_eq.
Qed.

Lemma only_on_rest {A} (m : eff R A) : preserves (only sock w0 Q) (on_rest m).
Proof. intros w Hw. unfold on_rest. by destruct (m (rest w)). Qed.

Lemma only_on_registry {A} (f : DeviceSessions.t Ev -> A * DeviceSessions.t Ev) :
  preserves (only sock w0 Q) (on_registry f).
Proof. intros w Hw. unfold on_registry. by destruct (f _). Qed.

Lemma only_writeRaw d m : preserves (only sock w0 Q) (writeRaw d sock m).
Proof. apply only_on_hub. intros h. apply writeFrame_clients. Qed.

Lemma only_destroy d : preserves (only sock w0 Q) (destroy d sock).
Proof. apply only_on_hub. intros h. by left. Qed.

Lemma only_send_event d conn ev : preserves (only sock w0 Q) (send_event d sock conn ev).
Proof. intros w. apply only_on_hub, may_drop_sendSealed. Qed.

Lemma only_send_ack d conn : preserves (only sock w0 Q) (send_ack d sock conn).
Proof.
  apply preserves_bind; [apply preserves_gets|]. intros n. destruct (0 <? n); [|apply preserves_ret].
  apply only_send_event.
Qed.

Lemma only_guard (m : eff World unit) : preserves (only sock w0 Q) m -> preserves (only sock w0 Q) (guardMessage m).
Proof.
  intros Hm. apply preserves_try; [|intros; apply preserves_ret].
  apply preserves_bind; [done|]. intros _. apply preserves_ret.
Qed.

End only.

Hint Resolve only_on_rest only_on_registry only_writeRaw only_destroy only_send_ack : preserves.

(** The device a hello names, as the pairing service knows it. *)
Definition hello_device d (msg : jsval) (r : R) : option Identity.PairedDevice :=
  match jprop "deviceId" msg with JStr id => find (identity d) id r | _ => None end.

(** What this socket may become on a message, in [r]: unknown, or the device a
    hello names. *)
Definition greeted d (msg : jsval) (r : R) (c : option (ClientHub.ClientConn Key)) : Prop :=
  forall conn, c = Some conn -> is_str "hello" (jprop "type" msg) = true /\
    exists device, hello_device d msg r = Some device /\ ClientHub.deviceId conn = Identity.deviceId device.

Lemma greeted_None d msg r : greeted d msg r None.
Proof. by intros conn. Qed.
Hint Resolve greeted_None : preserves.

Lemma hello_only d sock msg w0 w :
  is_str "hello" (jprop "type" msg) = true -> 
  only sock w0 (greeted d msg (rest w)) w -> only sock w0 (greeted d msg (rest w)) (snd (handle_hello d sock msg w)).
Proof.
  intros Hty Hw. set (Q := greeted d msg (rest w)) in *. assert (HQ : Q None) by apply greeted_None.
  unfold handle_hello, mbind at 1, eff_bind at 1, gets at 1. fold (hello_device d msg (rest w)).
  destruct (hello_device d msg (rest w)) as [dv|] eqn:Hdv.
  2:{ revert Hw. apply (preserves_bind (only sock w0 Q)); auto with preserves. }
  match goal with |- only sock w0 Q (snd (?m w)) => cut (preserves (only sock w0 Q) m); [by intros Hm; apply Hm|] end.
  do 2 (apply preserves_bind; [auto with preserves|]; intros ?).
  apply preserves_bind; [auto with preserves|]; intros now.
  apply preserves_bind; [auto with preserves|]; intros resume.
  apply preserves_bind.
  - intros w' [Hs _]. split.
    + intros s Hne. rewrite <- (Hs s Hne). unfold ClientHub.connFor. cbn. by rewrite mget_mset_ne.
    + intros conn. unfold ClientHub.connFor. cbn. rewrite mget_mset_eq. intros [= <-]. split; [done|]. by exists dv.
  - intros _. apply preserves_bind; [|auto with preserves].
    destruct resume as [evs|]; (apply preserves_bind; [auto with preserves|]; intros _).
    + apply preserves_for_each. intros e w'. apply only_on_hub; [done|]. apply may_drop_sealAndWrite.
    + apply preserves_bind; [auto with preserves|]. intros evs. apply preserves_for_each. intros ev.
      by apply only_send_event.
Qed.

Lemma unauth_only d sock msg w0 w :
  only sock w0 (greeted d msg (rest w)) w -> only sock w0 (greeted d msg (rest w)) (snd (handleUnauth d sock msg w)).
Proof.
  intros Hw. unfold handleUnauth. destruct (is_str "begin_pair" _); [|destruct (is_str "complete_pair" _);
    [|destruct (is_str "hello" (jprop "type" msg)) eqn:Hty; [by apply hello_only|]]].
  all: match goal with |- only ?s ?v ?Q (snd (?m ?u)) =>
    cut (preserves (only s v Q) m); [by intros Hm; apply Hm|] end.
  - destruct (negb _); [auto with preserves|].
    do 2 (apply preserves_bind; [auto with preserves|]; intros ?). auto with preserves.
  - apply preserves_bind; [auto with preserves|]. intros n. destruct (_ <=? n); [auto with preserves|].
    apply preserves_bind; [auto with preserves|]. intros [dv|r]; [|auto with preserves].
    apply preserves_bind; auto with preserves.
  - auto with preserves.
Qed.

(** *** What can throw *)

Lemma guard_ok (m : eff World unit) w : exists b, fst (guardMessage m w) = Ok b.
Proof.
  unfold guardMessage, try_catch, mbind, eff_bind. destruct (m w) as [[[]|e] w']; [by exists true|by exists false].
Qed.

Lemma send_ack_ok d sock conn w : fst (send_ack d sock conn w) = Ok tt.
Proof. unfold send_ack, mbind, eff_bind, gets. by destruct (0 <? _). Qed.

Lemma finish_ok d sock conn seq handled w : fst (finish d sock conn seq handled w) = Ok tt.
Proof.
  unfold finish, mbind, eff_bind, gets.
  destruct handled; cbn; (match goal with |- context [ClientHub.isAuthenticated ?s ?h] => destruct (ClientHub.isAuthenticated s h) end; [apply send_ack_ok|done]).
Qed.

Lemma on_command_ok d sock conn seq cmd w : fst (on_command d sock conn seq cmd w) = Ok tt.
Proof.
  unfold on_command, mbind at 1, eff_bind at 1, on_registry at 1.
  destruct (DeviceSessions.acceptInbound _ _ _) as [[] r]; [|done]. cbn [negb].
  match goal with |- context [guardMessage ?m] => set (body := m) end.
  unfold mbind at 1, eff_bind at 1. set (w1 := mk _ _). destruct (guard_ok body w1) as [b Hb].
  destruct (guardMessage body w1) as [o w2]. cbn [fst] in Hb. subst o.
  apply finish_ok.
Qed.

Lemma onLine_unauth_ok d sock line w :
  ClientHub.connFor sock (hub w) = None -> fst (onLine d sock line w) = Ok tt.
Proof.
  intros Hc. unfold onLine. destruct (is_blank line); [done|]. destruct (parseJson d line) as [msg|]; [|done].
  unfold mbind at 1, eff_bind at 1, gets at 1. rewrite Hc. unfold mbind, eff_bind.
  destruct (guard_ok (handleUnauth d sock msg) w) as [b Hb].
  destruct (guardMessage _ w) as [o w2]. cbn [fst] in Hb. by subst o.
Qed.

Lemma jmember_throws k v : is_ok (jmember k v) = false <-> v = JNull \/ v = JUndef.
Proof. destruct v; naive_solver. Qed.

(** *** Where an unauthenticated line can lead *)

(** Two adapters that treat every message alike treat the line alike. *)
Lemma onLine_unauth_ext d d' sock line w :
  ClientHub.connFor sock (hub w) = None -> parseJson d' = parseJson d ->
  (forall msg, handleUnauth d' sock msg w = handleUnauth d sock msg w) ->
  onLine d' sock line w = onLine d sock line w.
Proof.
  intros Hc Hp He. unfold onLine. rewrite Hp. destruct (is_blank line); [done|].
  destruct (parseJson d line) as [msg|]; [|done].
  unfold mbind at 1 3, eff_bind at 1 3, gets at 1 2. rewrite Hc.
  unfold guardMessage, try_catch, mbind, eff_bind. by rewrite He.
Qed.

Lemma onLine_unauth_only d sock line w :
  ClientHub.connFor sock (hub w) = None ->
  (exists msg, parseJson d line = Some msg /\
     only sock w (greeted d msg (rest w)) (snd (onLine d sock line w))) \/
  hub (snd (onLine d sock line w)) = hub w.
Proof.
  intros Hc. unfold onLine. destruct (is_blank line); [by right|].
  destruct (parseJson d line) as [msg|]; [left|by right]. exists msg. split; [done|].
  unfold mbind at 1, eff_bind at 1, gets at 1. rewrite Hc.
  assert (Hw : only sock w (greeted d msg (rest w)) w) by (split; [done|rewrite Hc; apply greeted_None]).
  pose proof (unauth_only d sock msg w w Hw) as Hu.
  unfold guardMessage, try_catch, mbind, eff_bind. by destruct (handleUnauth d sock msg w) as [[[]|e] w'].
Qed.

(** *** What a resuming hello writes *)

(** A write that reaches the socket's reader, holding [key], as the event [e.2]
    numbered [e.1]. *)
Definition carries (sock : Sock) (key : Key) (e : Z * ServerEvent) (w : Sock * ClientHub.WireOut) : Prop :=
  w.1 = sock /\ exists f, w.2 = ClientHub.Sealed f /\ f_seq f = e.1 /\ open_frame key f d2c = Some (PEv e.2).

(** The values of numbered events in the state [r]. *)
Definition contents d (r : R) (evs : list (Z * Ev)) : list (Z * ServerEvent) := prod_map id (content d r) <$> evs.

Lemma replay_all `{!SessionCryptoLaws Key Nonce serializable} d sock conn evs w :
  Forall (fun e => serializable (PEv e.2)) (contents d (rest w) evs) ->
  exists w', for_each (replay_one d sock conn) evs w = (Ok tt, w') /\ registry w' = registry w /\
    rest w' = rest w /\
    exists ws, ClientHub.written (hub w') = ClientHub.written (hub w) ++ ws /\
      Forall2 (carries sock (ClientHub.key conn)) (contents d (rest w) evs) ws.
Proof.
  revert w. induction evs as [|e evs IH]; intros w Hser.
  - exists w. split_and!; [done|done|done|]. exists []. by rewrite app_nil_r.
  - unfold contents in Hser. cbn [fmap list_fmap] in Hser. apply Forall_cons in Hser as [He Hser].
    cbn [for_each]. unfold mbind, eff_bind at 1, replay_one at 1, on_hub, modify.
    set (sv := content d (rest w) e.2) in *.
    destruct (Hub.sealAndWrite_reg (net d) sock conn e.1 sv (hub w)) as [Hr (nonce & Hw)].
    destruct (IH (mk (ClientHub.sealAndWrite (net d) sock conn e.1 sv (hub w)) (rest w)) Hser) as (w' & Hf & Hr' & Hrest & ws & Hw' & Hall).
    exists w'. split_and!; [exact Hf|rewrite Hr'; exact Hr|exact Hrest|].
    exists ((sock, ClientHub.Sealed (seal (ClientHub.key conn) e.1 (PEv sv) d2c nonce)) :: ws). split.
    + rewrite Hw'. cbn [hub]. rewrite Hw. by rewrite <- app_assoc.
    + unfold contents. cbn [fmap list_fmap]. constructor; [|exact Hall]. split; [done|]. eexists. split; [done|]. split; [apply seal_seq|by apply open_seal].
Qed.

Lemma send_ack_spec `{!SessionCryptoLaws Key Nonce serializable} d sock conn w out :
  let n := DeviceSessions.ackLevel (ClientHub.deviceId conn) (registry w) in
  mget (ClientHub.deviceId conn) (DeviceSessions.outbound (registry w)) = Some out ->
  content d (rest w) (literal d (ack n)) = ack n -> serializable (PEv (ack n)) ->
  exists ws, ClientHub.written (hub (snd (send_ack d sock conn w))) = ClientHub.written (hub w) ++ ws /\
    if 0 <? n then exists fr, ws = [fr] /\ carries sock (ClientHub.key conn) (OutboundStream.current out + 1, ack n) fr
    else ws = [].
Proof.
  intros n Hout Hlit Hser. unfold send_ack, mbind, eff_bind, gets. fold n.
  destruct (0 <? n); [|exists []; by rewrite app_nil_r].
  unfold send_event, on_hub, modify, ClientHub.sendSealed. cbn [snd hub]. rewrite Hlit.
  set (ev := literal d (ack n)).
  destruct (Hub.record_op (net d) (ClientHub.deviceId conn) ev (hub w)) as (_ & Hs & Hw).
  destruct (ClientHub.record _ _ _ _) as [seq h1]. cbn [fst snd] in *.
  destruct (Hub.sealAndWrite_reg (net d) sock conn seq (ack n) h1) as [_ (nonce & Hw')].
  eexists. split; [by rewrite Hw', Hw|]. eexists. split; [done|]. split; [done|]. eexists. split; [done|].
  split; [|by apply open_seal]. rewrite seal_seq. subst seq. cbn [fst].
  destruct (recordSent_spec (ClientHub.clock (net d) (ClientHub.net (hub w))) (ClientHub.deviceId conn) ev (registry w)) as (Hseq & _).
  unfold registry, next_seq in *. rewrite Hseq, Hout. done.
Qed.

(** A hello that can be resumed: up to the salt. *)
Lemma handle_hello_resumed d sock msg w device salt r1 key r2 evs r3 :
  let now := ClientHub.clock (net d) (ClientHub.net (hub w)) in
  let conn := ClientHub.mkConn key (Identity.deviceId device) in
  hello_device d msg (rest w) = Some device -> random_salt d (rest w) = (salt, r1) ->
  deriveSessionKey (identity d) (Identity.publicKey device) salt r1 = (Ok key, r2) ->
  DeviceSessions.resumeFor now (Identity.deviceId device) (claimed_seq (jprop "lastSeq" msg)) (registry w) = (Some evs, r3) ->
  exists w4, handle_hello d sock msg w = (for_each (replay_one d sock conn) evs ;; send_ack d sock conn) w4 /\
    registry w4 = r3 /\ rest w4 = r2 /\
    ClientHub.written (hub w4) = ClientHub.written (hub w) ++
      [(sock, ClientHub.Raw (session_salt salt true (Some (Z.of_nat (length evs)))))].
Proof.
  intros now conn Hdv Hsalt Hkey Hres.
  set (h4 := ClientHub.writeRaw (net d) sock (session_salt salt true (Some (Z.of_nat (length evs))))
               (ClientHub.authenticate sock conn (ClientHub.set_reg r3 (hub w)))).
  exists (mk h4 r2). split; [|unfold h4, registry, ClientHub.writeRaw; cbn [hub];
    by rewrite (proj1 (Hub.writeFrame_reg _ _ _ _)), (proj2 (Hub.writeFrame_reg _ _ _ _)); split_and!].
  unfold handle_hello, mbind at 1, eff_bind at 1, gets at 1. fold (hello_device d msg (rest w)). rewrite Hdv.
  unfold mbind at 1, eff_bind at 1, on_rest at 1. rewrite Hsalt.
  unfold mbind at 1, eff_bind at 1, on_rest at 1. cbn [rest hub]. rewrite Hkey.
  unfold mbind at 1, eff_bind at 1, gets at 1. cbn [rest hub]. fold now.
  unfold mbind at 1, eff_bind at 1, on_registry at 1. cbn [rest hub]. fold (registry w). by rewrite Hres.
Qed.

(** A hello of a paired device that the registry can resume: [msg] names
    [device], the connection's [salt] gives [key] and leaves the rest of the
    daemon in [r2], the device claims [n], has been sent [h] and is owed [evs];
    what is to be sent is [serializable]. *)
Record resumes (serializable : Plain -> Prop) d (msg : jsval) w (device : Identity.PairedDevice) (salt : string)
    (key : Key) (r2 : R) (n : Z) (h : list Ev) (evs : list (Z * Ev)) : Prop := {
  rs_type : is_str "hello" (jprop "type" msg) = true;
  rs_device : hello_device d msg (rest w) = Some device;
  rs_key : exists r1, random_salt d (rest w) = (salt, r1) /\
    deriveSessionKey (identity d) (Identity.publicKey device) salt r1 = (Ok key, r2);
  rs_claim : claimed_seq (jprop "lastSeq" msg) = Some n;
  rs_sent : exists j, DeviceSessions.represents (registry w) j /\ j (Identity.deviceId device) = Some h;
  rs_owed : DeviceSessions.owed (DeviceReplayLog.maxEventsPerDevice (DeviceSessions.log (registry w))) h n = Some evs;
  rs_serializable : Forall (fun e => serializable (PEv e.2)) (contents d r2 evs);
  rs_literal m : content d r2 (literal d (ack m)) = ack m /\ serializable (PEv (ack m));
}.

Lemma claimed_nonneg v n : claimed_seq v = Some n -> 0 <= n.
Proof.
  unfold claimed_seq. destruct v as [| | |[| |q]| | |]; try done.
  destruct (is_integer q) as [z|]; [|done]. destruct (Z.leb_spec 0 z); naive_solver.
Qed.

Lemma handleUnauth_hello d sock msg :
  is_str "hello" (jprop "type" msg) = true -> handleUnauth d sock msg = handle_hello d sock msg.
Proof.
  intros Hty. unfold handleUnauth. rewrite Hty. destruct (jprop "type" msg) as [| | | |s| |]; try done. cbn in *.
  apply bool_decide_eq_true in Hty. by subst s.
Qed.

Lemma hello_writes `{!SessionCryptoLaws Key Nonce serializable} d sock msg w device salt key r2 n h evs :
  resumes serializable d msg w device salt key r2 n h evs ->
  let level := DeviceSessions.ackLevel (Identity.deviceId device) (registry w) in
  exists frames acks,
    ClientHub.written (hub (snd (handleUnauth d sock msg w))) =
      ClientHub.written (hub w) ++
      (sock, ClientHub.Raw (session_salt salt true (Some (Z.of_nat (length evs))))) :: frames ++ acks /\
    Forall2 (carries sock key) (contents d r2 evs) frames /\
    if 0 <? level then exists fr, acks = [fr] /\ carries sock key (Z.of_nat (length h) + 1, ack level) fr
    else acks = [].
Proof.
  set (dev := Identity.deviceId device).
  intros [Hty Hdv (r1 & Hsalt & Hkey) Hn (j & Hrep & Hj) Howed Hser Hlit] level. fold dev in Hj.
  rewrite handleUnauth_hello by done. pose proof (claimed_nonneg _ _ Hn) as H0n.
  set (now := ClientHub.clock (net d) (ClientHub.net (hub w))).
  pose proof (resumeFor_owed (registry w) j now dev n Hrep H0n) as Hres. rewrite Hj, Howed in Hres.
  pose proof (resumeFor_state now dev (Some n) (registry w)) as [Hout _].
  pose proof (step_processed_other (registry w) (DeviceSessions.OpHello now dev (Some n)) I) as Hproc. cbn [DeviceSessions.step] in Hproc.
  destruct (DeviceSessions.resumeFor now dev (Some n) (registry w)) as [resume r3] eqn:Hrf. cbn [fst snd] in *. subst resume.
  rewrite <- Hn in Hrf.
  destruct (handle_hello_resumed d sock msg w device salt r1 key r2 evs r3 Hdv Hsalt Hkey Hrf) as (w4 & -> & Hr4 & <- & Hwr4).
  set (conn := ClientHub.mkConn key (Identity.deviceId device)) in *.
  destruct (replay_all d sock conn evs w4 Hser) as (w5 & Hf & Hr5 & Hrest5 & frames & Hwr5 & Hall).
  unfold mbind, eff_bind. rewrite Hf.
  assert (Hlev : DeviceSessions.ackLevel dev (registry w5) = level)
    by (rewrite Hr5, Hr4; unfold level, DeviceSessions.ackLevel; by rewrite Hproc).
  destruct (DeviceSessions.rep_known _ _ Hrep dev) as [_ Hknown].
  destruct (mget dev (DeviceSessions.outbound (registry w))) as [out|] eqn:Hmo; [|specialize (Hknown eq_refl); congruence].
  assert (Hmo5 : mget dev (DeviceSessions.outbound (registry w5)) = Some out).
  { rewrite Hr5, Hr4, Hout, outboundFor_get. case_decide; [by rewrite Hmo|done]. }
  destruct (send_ack_spec (serializable:=serializable) d sock conn w5 out Hmo5) as (acks & Hwr6 & Hacks);
    change (ClientHub.deviceId conn) with dev in *; rewrite ?Hlev, ?Hrest5; [apply Hlit|apply Hlit|].
  rewrite Hlev, (DeviceSessions.rep_seq _ _ Hrep dev out h Hmo Hj) in Hacks.
  exists frames, acks. split_and!; [|done|done]. rewrite Hwr6, Hwr5, Hwr4. by rewrite <- !app_assoc.
Qed.

End laws.

Section properties.
Context {Key Nonce Sock X Ev R : Type} `{SessionCrypto Key Nonce} `{EqDecision Sock}.
Implicit Types (d : ClientConnection.Deps Key Nonce Sock X Ev R) (w : ClientConnection.t Key Sock X Ev R).

(** C12. Exactly-once execution of commands.  A line runs the dispatcher once or
    not at all, as [executed] records, whatever the dispatcher is.  Over any
    interleaving of lines of any sockets, reconnects included, with anything else
    the daemon does, as long as a device is not revoked and stays inside the
    duplicate filter's window, the numbers whose commands the daemon ran for it
    are exactly the authentic numbers the device presented, each of them run once,
    however often the frame was resent or replayed and whether or not the handler
    threw. *)
Theorem commands_run_exactly_once d a b :
  (forall sock line w, dispatches d sock line w) /\
  forall ex ops w dev, reach d a b ex ops w -> DeviceSessions.OpEvict dev ∉ ops -> windowed dev ops ->
    NoDup (numbers_of dev ex) /\ forall seq, seq ∈ numbers_of dev ex <-> seq ∈ offered dev ops.
Proof. split; [apply onLine_executes|]. intros ex ops w dev. apply once_reach. Qed.

(** C19. The trust boundary.  A line on a socket that has not authenticated never
    throws and never reaches the command dispatcher; on a listener that does not
    bootstrap trust it never issues a pairing secret, and at the device cap it
    never touches the outstanding one.  No other socket's authentication changes,
    and this socket comes out authenticated only by a hello that names a paired
    device, as that device. *)
Theorem preauth_line_is_confined d sock line w :
  ClientHub.connFor sock (hub w) = None ->
  let w' := snd (onLine d sock line w) in
  fst (onLine d sock line w) = Ok tt /\
  (forall f, onLine (set_handleCommand f d) sock line w = onLine d sock line w) /\
  (allowPairingBootstrap d = false -> forall f,
     onLine (set_identity (set_begin f (identity d)) d) sock line w = onLine d sock line w) /\
  (maxPairedDevices d <= pairedCount (identity d) (rest w) -> forall f,
     onLine (set_identity (set_complete f (identity d)) d) sock line w = onLine d sock line w) /\
  (forall s, s <> sock -> ClientHub.connFor s (hub w') = ClientHub.connFor s (hub w)) /\
  (forall conn, ClientHub.connFor sock (hub w') = Some conn ->
     exists msg device, parseJson d line = Some msg /\ is_str "hello" (jprop "type" msg) = true /\
       hello_device d msg (rest w) = Some device /\ ClientHub.deviceId conn = Identity.deviceId device).
Proof.
  intros Hc w'. split_and!.
  - by apply onLine_unauth_ok.
  - intros f. by apply onLine_unauth_ext.
  - intros Hb f. apply onLine_unauth_ext; [done|done|]. intros msg. unfold handleUnauth.
    cbn [allowPairingBootstrap set_identity]. by rewrite Hb.
  - intros Hcap f. apply onLine_unauth_ext; [done|done|]. intros msg. unfold handleUnauth.
    destruct (is_str "begin_pair" _); [done|]. destruct (is_str "complete_pair" _); [|done].
    unfold mbind, eff_bind, gets. cbn [maxPairedDevices set_identity identity set_complete pairedCount].
    by rewrite (proj2 (Z.leb_le _ _) Hcap).
  - intros s Hne. destruct (onLine_unauth_only d sock line w Hc) as [(msg & _ & Hs & _)|Hh]; [by apply Hs|].
    unfold w'. by rewrite Hh.
  - intros conn Hg. destruct (onLine_unauth_only d sock line w Hc) as [(msg & Hp & _ & Hg')|Hh].
    + destruct (Hg' conn Hg) as (Hty & dv & Hd & Hid). by exists msg, dv.
    + unfold w' in Hg. rewrite Hh in Hg. congruence.
Qed.

(** What a line can throw out of the socket callback, and so kill the daemon
    with: nothing, whatever the handlers do, except the JSON text [null] on an
    authenticated socket. *)
Theorem only_null_escapes_the_guard d sock line w :
  is_ok (fst (onLine d sock line w)) = false <->
  is_blank line = false /\ ClientHub.isAuthenticated sock (hub w) = true /\
  exists v, parseJson d line = Some v /\ (v = JNull \/ v = JUndef).
Proof.
  assert (Hm : ClientHub.isAuthenticated sock (hub w) = true <-> exists c, ClientHub.connFor sock (hub w) = Some c).
  { unfold ClientHub.isAuthenticated, ClientHub.connFor, mhas. destruct (mget sock _); naive_solver. }
  rewrite Hm. clear Hm. destruct (ClientHub.connFor sock (hub w)) as [conn|] eqn:Hc.
  2:{ rewrite onLine_unauth_ok by done. split; [done|]. by intros (_ & [c Hc'] & _). }
  unfold onLine. destruct (is_blank line); [split; [done|by intros []]|].
  destruct (parseJson d line) as [msg|]; [|split; [done|by intros (_ & _ & v & ? & _)]].
  unfold mbind at 1, eff_bind at 1, gets at 1. rewrite Hc.
  pose proof (jmember_throws "seq" msg) as Hj. destruct (jmember "seq" msg) as [seq|e]; cbn [is_ok] in Hj.
  - assert (Hn : ~ (msg = JNull \/ msg = JUndef)) by (intros Hv; by apply Hj in Hv).
    split; [|intros (_ & _ & v & [= <-] & Hv); by destruct Hn].
    destruct (open_msg conn msg seq); [done|done|]. by rewrite on_command_ok.
  - split; [|done]. intros _. split_and!; [done|by eexists|]. exists msg. split; [done|]. by apply Hj.
Qed.


(** What a resuming hello delivers.  When a paired device says hello claiming
    a number [n] it can be resumed from, its socket is written the salt, then
    exactly the events it is owed after [n], as they are at that moment, each
    sealed under the session key at its original number, in order and without a
    hole; then, last and only if some command of the device has been processed,
    the acknowledgement level, numbered after every event ever sent to the device. *)
Theorem hello_replays_then_acks `{!SessionCryptoLaws Key Nonce serializable} d sock msg w device salt key r2 n h evs :
  resumes serializable d msg w device salt key r2 n h evs ->
  let level := DeviceSessions.ackLevel (Identity.deviceId device) (registry w) in
  exists frames acks,
    ClientHub.written (hub (snd (handleUnauth d sock msg w))) =
      ClientHub.written (hub w) ++
      (sock, ClientHub.Raw (session_salt salt true (Some (Z.of_nat (length evs))))) :: frames ++ acks /\
    Forall2 (carries sock key) (contents d r2 evs) frames /\
    if 0 <? level then exists fr, acks = [fr] /\ carries sock key (Z.of_nat (length h) + 1, ack level) fr
    else acks = [].
Proof. apply hello_writes. Qed.

End properties.

(** ** A concrete adapter: a paired phone, two sockets, a handful of JSON texts *)

Section demo.
#[local] Existing Instance node_SessionCrypto.
#[local] Existing Instance toy_platform.

Definition demo_phone : Identity.PairedDevice := Identity.mkDevice "phone" "my phone" "pk-phone" 7.

Definition demo_pairing : PairingService string unit :=
  mkPairing (fun _ => "pk-daemon") (fun _ => 1) (fun addr => mret ("qr", 1000)) (fun _ _ _ => throw "bad")
    (fun id _ => if decide (id = "phone") then Some demo_phone else None)
    (fun pk salt => mret ("key-" +:+ salt)).

Definition demo_frame (seq : Z) : jsval :=
  let f := node_seal "k1" seq (PCmd cmd_list) c2d "n" in
  JObj [("n", JStr (f_n f)); ("c", JStr (f_c f)); ("t", JStr (f_t f)); ("seq", JNum (NumFin (inject_Z seq)))].

Definition demo_hello : jsval :=
  JObj [("type", JStr "hello"); ("deviceId", JStr "phone"); ("lastSeq", JNum (NumFin (inject_Z 1)))].

Definition demo_parse (line : string) : option jsval :=
  if decide (line = "frame 1") then Some (demo_frame 1)
  else if decide (line = "hello") then Some demo_hello
  else if decide (line = "null") then Some JNull
  else None.

Definition demo_deps : ClientConnection.Deps string string nat Z ServerEvent unit :=
  ClientConnection.mkDeps demo_net demo_pairing 50 false (mret []) id (fun _ => id) (fun _ => "tcp://host:1")
    (fun _ _ _ => mret tt) (fun r => ("salt", r)) demo_parse.

(** The phone is authenticated on socket 1. *)
Definition demo_world : ClientConnection.t string nat Z ServerEvent unit :=
  mk (ClientHub.mk [(1%nat, ClientHub.mkConn "k1" "phone")] (DeviceSessions.new 200 200) 0 []) tt.

(** Nobody is authenticated; the phone was sent two events and ran one command. *)
Definition demo_resumable : ClientConnection.t string nat Z ServerEvent unit :=
  mk (ClientHub.mk [] (DeviceSessions.run (DeviceSessions.new 200 200)
        [DeviceSessions.OpHello 0 "phone" None; DeviceSessions.OpSent 1 "phone" (error "a");
         DeviceSessions.OpSent 2 "phone" (error "b"); DeviceSessions.OpAccept "phone" 1;
         DeviceSessions.OpProcessed "phone" 1]) 0 []) tt.

Lemma commands_run_exactly_once_witness :
  exists ex ops w, reach demo_deps 200 200 ex ops w /\ NoDup (numbers_of "phone" ex) /\ ex = [("phone", 1)].
Proof.
  set (w1 := snd (onLine demo_deps 1%nat "frame 1" demo_world)).
  assert (H1 : reach demo_deps 200 200 ([] ++ executed demo_deps 1%nat "frame 1" demo_world)
    ([] ++ offer demo_deps 1%nat "frame 1" demo_world ++
     [DeviceSessions.OpProcessed "phone" 1; DeviceSessions.OpSent 0 "phone" (ack 1)]) w1).
  { apply reach_line; [by apply reach_new|by repeat constructor|vm_compute; reflexivity]. }
  pose proof (reach_line demo_deps 200 200 _ _ w1 1%nat "frame 1" [] H1 ltac:(constructor) ltac:(vm_compute; reflexivity)) as H2.
  match type of H2 with reach _ _ _ ?ex ?ops ?w => exists ex, ops, w end.
  split; [exact H2|]. split; [|vm_compute; reflexivity].
  refine (proj1 (proj2 (commands_run_exactly_once demo_deps 200 200) _ _ _ "phone" H2 _ _)).
  - vm_compute. intros Hin. repeat (apply elem_of_cons in Hin as [Hin|Hin]; [discriminate Hin|]).
    by apply not_elem_of_nil in Hin.
  - intros pre seq post Heq. vm_compute in Heq. clear H1 H2. clear w1.
    destruct pre as [|o1 [|o2 [|o3 [|o4 pre]]]]; simplify_eq/=; try lia. by destruct pre.
Defined.

Lemma preauth_line_is_confined_witness :
  fst (onLine demo_deps 1%nat "hello" demo_resumable) = Ok tt.
Proof. exact (proj1 (preauth_line_is_confined demo_deps 1%nat "hello" demo_resumable eq_refl)). Defined.

Lemma demo_resumes :
  resumes (fun _ => True) demo_deps demo_hello demo_resumable demo_phone "salt" "key-salt" tt 1
    [error "a"; error "b"] [(2, error "b")].
Proof.
  split; try (vm_compute; reflexivity).
  - by exists tt.
  - eexists. split; [exact (represents_run [DeviceSessions.OpHello 0 "phone" None; DeviceSessions.OpSent 1 "phone" (error "a");
         DeviceSessions.OpSent 2 "phone" (error "b"); DeviceSessions.OpAccept "phone" 1;
         DeviceSessions.OpProcessed "phone" 1] _ _ (represents_new (E:=ServerEvent) 200 200))|vm_compute; reflexivity].
  - by repeat constructor.
  - done.
Qed.

Lemma hello_replays_then_acks_witness :
  exists frames acks,
    ClientHub.written (hub (snd (handleUnauth demo_deps 1%nat demo_hello demo_resumable))) =
      (1%nat, ClientHub.Raw (session_salt "salt" true (Some 1))) :: frames ++ acks /\
    Forall2 (carries 1%nat "key-salt") [(2, error "b")] frames /\
    exists fr, acks = [fr] /\ carries 1%nat "key-salt" (3, ack 1) fr.
Proof.
  exact (hello_replays_then_acks (serializable:=fun _ => True)
    (SessionCryptoLaws0:=@node_SessionCryptoLaws string toy_platform (fun _ => True) toy_platform_laws)
    demo_deps 1%nat demo_hello demo_resumable demo_phone "salt" "key-salt" tt 1 _ _ demo_resumes).
Defined.

End demo.
