(* ===== verification/HookProcess.v ===== *)
(** * The approval bridge

    [hook/approve-bridge.mjs], the process Claude Code runs before each tool call: it
    reads the hook payload, asks the daemon over a socket, and prints one decision.
    Its runtime executes the tool whenever the process prints none, so the file is a
    state machine that must print a decision whatever happens.  The state is what is
    printed, sent and still open; an event is whatever the event loop delivers.
    [parse] is [JSON.parse], [None] where it throws; a chunk is the text it decodes to. *)

From S2P Require Import Prelude JsMap Js Types Framing HookMargin Session Connection.
Import Framing.

Local Open Scope Z_scope.

Module ApproveBridge.

(** ** The environment *)

(** [process.env.CC_DAEMON_SOCK || '/tmp/cc-daemon.sock'] *)
Definition SOCKET (env : option string) : string := default "/tmp/cc-daemon.sock" (truthy_str env).

(** [Number(process.env.CC_HOOK_SELF_DENY_MS || 20 * 60 * 1000)] *)
Definition SELF_DENY_MS (Number : string -> jsnum) (env : option string) : jsnum :=
  match truthy_str env with
  | Some s => Number s
  | None => NumFin (inject_Z (20 * 60 * 1000))
  end.

(** The delay [setTimeout] makes of a number: 1 unless it lies in [1, 2^31 - 1]. *)
Definition TIMEOUT_MAX : Z := 2147483647.

Definition timer_delay (after : jsnum) : Z :=
  match after with
  | NumFin q => if Qle_bool 1 q && Qle_bool q (inject_Z TIMEOUT_MAX) then Qnum q / Z.pos (Qden q) else 1
  | _ => 1
  end.

(** ** The process *)

(** [{ hookSpecificOutput: { permissionDecision, permissionDecisionReason } }] *)
Record Decision : Type := mkDecision { permissionDecision : Verdict; permissionDecisionReason : jsval }.

(** The socket, as far as the process has seen it. *)
Inductive SockState : Type := NoSocket | Connecting | Connected | Closed.

#[export] Instance SockState_eq_dec : EqDecision SockState.
Proof. solve_decision. Defined.

Record t : Type := mk {
  settled : bool;
  stdout : list Decision;
  exited : bool;
  stdin_open : bool;
  event : jsval;
  sock : SockState;
  buf : string;
  requests : list jsval;
}.

Definition start : t := mk false [] false true JUndef NoSocket "" [].

Definition set_settled (w : t) : t := mk true (stdout w) (exited w) (stdin_open w) (event w) (sock w) (buf w) (requests w).
Definition print (d : Decision) (w : t) : t :=
  mk (settled w) (stdout w ++ [d]) (exited w) (stdin_open w) (event w) (sock w) (buf w) (requests w).
Definition set_exited (w : t) : t := mk (settled w) (stdout w) true (stdin_open w) (event w) (sock w) (buf w) (requests w).
Definition end_stdin (w : t) : t := mk (settled w) (stdout w) (exited w) false (event w) (sock w) (buf w) (requests w).
Definition set_event (e : jsval) (w : t) : t := mk (settled w) (stdout w) (exited w) (stdin_open w) e (sock w) (buf w) (requests w).
Definition set_sock (s : SockState) (w : t) : t := mk (settled w) (stdout w) (exited w) (stdin_open w) (event w) s (buf w) (requests w).
Definition set_buf (b : string) (w : t) : t := mk (settled w) (stdout w) (exited w) (stdin_open w) (event w) (sock w) b (requests w).
Definition request (e : jsval) (w : t) : t :=
  mk (settled w) (stdout w) (exited w) (stdin_open w) (event w) (sock w) (buf w) (requests w ++ [e]).

(** [decide(decision, reason)]; [process.exit] does not return. *)
Definition decide_ (decision : Verdict) (reason : jsval) : eff t unit :=
  s ← gets settled;
  if s : bool then mret tt
  else modify set_settled ;; modify (print (mkDecision decision reason)) ;; modify set_exited ;; throw "exit".

Definition deny_ (why : string) : eff t unit := decide_ deny (JStr why).

Section process.

(** [JSON.parse], and the error [net.createConnection(SOCKET)] throws, if it does. *)
Variables (parse : string -> option jsval) (createConnection : option string).

(** [v || s] *)
Definition jor (v : jsval) (s : string) : jsval := if jtruthy v then v else JStr s.

(** [main()], once [readStdin()] has resolved with [text], or rejected. *)
Definition main_ (text : option string) : eff t unit :=
  match text ≫= parse with
  | None => deny_ "unparseable hook payload"
  | Some ev =>
      match createConnection with
      | Some e => throw e
      | None => modify (set_event ev) ;; modify (set_sock Connecting)
      end
  end.

(** The body of the read loop, for one line: [true] when the handler returns. *)
Definition on_line (line : string) : eff t bool :=
  if is_blank line then mret false
  else
    match parse line with
    | None => deny_ "malformed daemon response" ;; mret true
    | Some msg =>
        match ClientConnection.jmember "kind" msg with
        | Throw e => throw e
        | Ok kind =>
            if negb (ClientConnection.is_str "approval_decision" kind) then mret false
            else if ClientConnection.is_str "allow" (jprop "decision" msg)
            then decide_ allow (jor (jprop "reason" msg) "approved remotely") ;; mret true
            else decide_ deny (jor (jprop "reason" msg) "rejected remotely") ;; mret true
        end
    end.

(** [while ((i = buf.indexOf('\n')) >= 0)] over the buffer it assigns. *)
Fixpoint data_loop (fuel : nat) : eff t unit :=
  match fuel with
  | O => mret tt
  | S fuel' =>
      b ← gets buf;
      match take_line b with
      | None => mret tt
      | Some (line, rest) =>
          modify (set_buf rest) ;;
          returned ← on_line line;
          if returned : bool then mret tt else data_loop fuel'
      end
  end.

(** [sock.on('data')] *)
Definition on_data (chunk : string) : eff t unit :=
  modify (fun w => set_buf (buf w +:+ chunk) w) ;;
  b ← gets buf;
  data_loop (String.length b).

(** What the event loop delivers; the errors come as the strings interpolated. *)
Inductive Event : Type :=
| StdinEnd (text : option string)
| SockConnect
| SockData (chunk : string)
| SockError (e : string)
| SockClose
| Deadline
| UncaughtException (e : string)
| UnhandledRejection (e : string).

(** The listeners: the socket has some once it exists. *)
Definition on_event (e : Event) : eff t unit :=
  w ← gets id;
  let has_socket := negb (bool_decide (sock w = NoSocket)) in
  match e with
  | StdinEnd text =>
      if stdin_open w then
        modify end_stdin ;;
        (** [main().catch(...)]; an exit passes through *)
        try_catch (main_ text) (fun e => deny_ ("bridge fatal: " +:+ e))
      else mret tt
  | SockConnect => if has_socket then modify (set_sock Connected) ;; modify (request (event w)) else mret tt
  | SockData chunk => if has_socket then on_data chunk else mret tt
  | SockError e => if has_socket then deny_ ("daemon unreachable: " +:+ e) else mret tt
  | SockClose => if has_socket then modify (set_sock Closed) ;; deny_ "daemon closed connection before deciding" else mret tt
  | Deadline => deny_ "no decision before bridge deadline"
  | UncaughtException e => deny_ ("bridge error: " +:+ e)
  | UnhandledRejection e => deny_ ("bridge rejection: " +:+ e)
  end.

(** One turn: an exception that leaves a listener goes to [uncaughtException]. *)
Definition step (w : t) (e : Event) : t :=
  if exited w then w
  else
    match on_event e w with
    | (Ok _, w') => w'
    | (Throw err, w') => if exited w' then w' else snd (deny_ ("bridge error: " +:+ err) w')
    end.

Definition run (es : list Event) : t := foldl step start es.

(** ** Vocabulary *)

(** What keeps the event loop alive: the timer is unreferenced, so only an open
    standard input or an open socket does. *)
Definition waiting (w : t) : Prop := stdin_open w = true \/ sock w = Connecting \/ sock w = Connected.

(** The text the socket delivered to the listener. *)
Fixpoint heard_from (w : t) (es : list Event) : string :=
  match es with
  | [] => ""
  | e :: es' =>
      match e with
      | SockData chunk => if exited w || bool_decide (sock w = NoSocket) then "" else chunk
      | _ => ""
      end +:+ heard_from (step w e) es'
  end.

Definition heard (es : list Event) : string := heard_from start es.

(** The verdict of a list of lines: the first that is a decision decides, and a line
    that cannot be read as a message denies. *)
Fixpoint verdict (lines : list string) : option Decision :=
  match lines with
  | [] => None
  | line :: lines' =>
      if is_blank line then verdict lines'
      else
        match parse line with
        | None => Some (mkDecision deny (JStr "malformed daemon response"))
        | Some msg =>
            match ClientConnection.jmember "kind" msg with
            | Throw e => Some (mkDecision deny (JStr ("bridge error: " +:+ e)))
            | Ok kind =>
                if negb (ClientConnection.is_str "approval_decision" kind) then verdict lines'
                else if ClientConnection.is_str "allow" (jprop "decision" msg)
                then Some (mkDecision allow (jor (jprop "reason" msg) "approved remotely"))
                else Some (mkDecision deny (jor (jprop "reason" msg) "rejected remotely"))
            end
        end
  end.

(** A run with the time of each event, as the event loop delivers them: whatever is
    observed up to [T] includes the firing of the timer set at time 0, if it is due. *)
Definition observed (delay T : Z) (es : list (Z * Event)) : Prop :=
  Forall (fun e => fst e <= T) es /\ (delay <= T -> exists l1 l2, es = l1 ++ (delay, Deadline) :: l2).

End process.

End ApproveBridge.

Import ApproveBridge.

(** ** Laws *)

Section laws.
Variables (parse : string -> option jsval) (createConnection : option string).
Notation step := (step parse createConnection).
Notation run := (run parse createConnection).
Notation heard_from := (heard_from parse createConnection).
Notation verdict := (verdict parse).

(** Nothing printed yet, or exactly [d] and the process is gone. *)
Definition fresh (w : t) : Prop := settled w = false /\ exited w = false /\ stdout w = [].
Definition done_with (d : Decision) (w : t) : Prop := settled w = true /\ exited w = true /\ stdout w = [d].

Lemma decide_fresh v r w : fresh w ->
  exists w', decide_ v r w = (Throw "exit", w') /\ done_with (mkDecision v r) w'.
Proof.
  intros (Hs & He & Ho). unfold decide_, mbind, eff_bind, gets, modify, throw. rewrite Hs.
  eexists. split; [done|]. split_and!; [done|done|]. cbn. by rewrite Ho.
Qed.

Lemma decide_done v r d w : done_with d w -> decide_ v r w = (Ok tt, w).
Proof. intros (Hs & _). unfold decide_, mbind, eff_bind, gets. by rewrite Hs. Qed.

(** What a listener left of the state, once a throw has been handled by [step]. *)
Definition handled (r : outcome unit * t) : t :=
  match r with
  | (Ok _, w') => w'
  | (Throw err, w') => if exited w' then w' else snd (deny_ ("bridge error: " +:+ err) w')
  end.

Lemma step_handled w e : exited w = false ->
  step w e = handled (on_event parse createConnection e w).
Proof. intros He. unfold ApproveBridge.step, handled. by rewrite He. Qed.

Lemma handled_deny why w : fresh w ->
  done_with (mkDecision deny (JStr why)) (handled (deny_ why w)).
Proof.
  intros Hw. unfold deny_. destruct (decide_fresh deny (JStr why) w Hw) as (w' & -> & Hd).
  cbn [handled]. by rewrite (proj1 (proj2 Hd)).
Qed.

Lemma fresh_set_buf b w : fresh w -> fresh (set_buf b w).
Proof. done. Qed.

(** A decision prints and leaves; a message that throws is denied by the turn. *)
Lemma handled_decide {A} v r (k : unit -> eff t A) w : fresh w ->
  exists w', (decide_ v r ≫= k) w = (Throw "exit", w') /\ done_with (mkDecision v r) w'.
Proof.
  intros Hw. destruct (decide_fresh v r w Hw) as (w' & Hd & Hdone). exists w'. split; [|done].
  unfold mbind, eff_bind. by rewrite Hd.
Qed.

Lemma on_line_spec line w : fresh w ->
  match verdict [line] with
  | None => on_line parse line w = (Ok false, w)
  | Some d => exists e w', on_line parse line w = (Throw e, w') /\ done_with d (handled (Throw e, w'))
  end.
Proof.
  intros Hw. unfold on_line. cbn [ApproveBridge.verdict]. destruct (is_blank line); [done|].
  assert (Hpass : forall v r, exists e w', (decide_ v r ;; mret true) w = (Throw e, w') /\ done_with (mkDecision v r) (handled (Throw e, w'))).
  { intros v r. destruct (handled_decide v r (fun _ => mret true) w Hw) as (w' & Hd & Hdone). exists "exit", w'.
    split; [exact Hd|]. unfold handled. by rewrite (proj1 (proj2 Hdone)). }
  destruct (parse line) as [msg|]; [|apply Hpass]. destruct (ClientConnection.jmember "kind" msg) as [kind|err].
  - destruct (negb _); [done|]. destruct (ClientConnection.is_str "allow" _); apply Hpass.
  - exists err, w. split; [done|]. unfold handled. rewrite (proj1 (proj2 Hw)).
    unfold deny_. destruct (decide_fresh deny (JStr ("bridge error: " +:+ err)) w Hw) as (w' & -> & Hd). exact Hd.
Qed.

Lemma verdict_cons line lines :
  verdict (line :: lines) = match verdict [line] with Some d => Some d | None => verdict lines end.
Proof.
  cbn [ApproveBridge.verdict]. destruct (is_blank line); [done|]. destruct (parse line) as [msg|]; [|done].
  destruct (ClientConnection.jmember "kind" msg); [|done]. destruct (negb _); [done|]. by destruct (ClientConnection.is_str "allow" _).
Qed.

Lemma verdict_app l1 l2 : verdict (l1 ++ l2) = match verdict l1 with Some d => Some d | None => verdict l2 end.
Proof.
  induction l1 as [|line l1 IH]; [done|]. cbn [app]. rewrite (verdict_cons line (l1 ++ l2)), (verdict_cons line l1), IH.
  by destruct (verdict [line]).
Qed.

(** The read loop comes to the verdict of the lines it drains. *)
Lemma data_loop_spec fuel w : fresh w -> (String.length (buf w) <= fuel)%nat ->
  match verdict (drain (buf w)).1 with
  | None => data_loop parse fuel w = (Ok tt, set_buf (drain (buf w)).2 w)
  | Some d => exists e w', data_loop parse fuel w = (Throw e, w') /\ done_with d (handled (Throw e, w'))
  end.
Proof.
  revert w. induction fuel as [|fuel IH]; intros w Hw Hl.
  - destruct w as [s o x i ev sk b rq]. cbn [buf] in *. destruct b; [done|cbn in Hl; lia].
  - rewrite drain_unfold. cbn [data_loop]. unfold mbind, eff_bind, gets, modify.
    destruct (take_line (buf w)) as [[line rest]|] eqn:Ht; [|by destruct w].
    apply take_line_Some in Ht as [Hb _]. rewrite Hb, string_length_app in Hl. cbn [String.length] in Hl. pose proof (on_line_spec line (set_buf rest w) (fresh_set_buf rest w Hw)) as Hline.
    specialize (IH (set_buf rest w) (fresh_set_buf rest w Hw) ltac:(cbn; lia)). cbn [buf set_buf] in IH.
    destruct (drain rest) as [lines left]. cbn [fst snd] in *. rewrite verdict_cons.
    destruct (verdict [line]) as [d|].
    + destruct Hline as (e & w' & He & Hd). exists e, w'. split; [|done]. by rewrite He.
    + rewrite Hline. exact IH.
Qed.

(** ** The invariant *)

(** Before the exit the buffer and the socket text agree and nothing in it decides;
    after it, the one decision printed is the verdict of that text, or a denial. *)
Definition bridge_inv (h : string) (w : t) : Prop :=
  (fresh w /\ waiting w /\ verdict (drain h).1 = None /\ buf w = (drain h).2) \/
  (exists d, done_with d w /\ (verdict (drain h).1 = Some d \/ verdict (drain h).1 = None /\ permissionDecision d = deny)).

Lemma drain_chunk h c :
  (drain (h +:+ c)).1 = (drain h).1 ++ (drain ((drain h).2 +:+ c)).1 /\ (drain (h +:+ c)).2 = (drain ((drain h).2 +:+ c)).2.
Proof. rewrite drain_app. destruct (drain h) as [l1 r1]. cbn. by destruct (drain (r1 +:+ c)). Qed.

Lemma inv_denied h why w w0 : verdict (drain h).1 = None -> fresh w0 ->
  w = handled (deny_ why w0) -> bridge_inv h w.
Proof. intros Hn Hf ->. right. eexists. split; [by apply handled_deny|]. by right. Qed.

Lemma inv_stdin h text w : fresh w -> sock w = NoSocket -> verdict (drain h).1 = None -> buf w = (drain h).2 ->
  bridge_inv h (handled (try_catch (main_ parse createConnection text) (fun e => deny_ ("bridge fatal: " +:+ e)) (end_stdin w))).
Proof.
  intros Hf Hs Hn Hb. assert (Hf' : fresh (end_stdin w)) by exact Hf. unfold try_catch, main_.
  destruct (text ≫= parse) as [ev|]; [destruct createConnection as [err|]|].
  - cbn [throw fst snd]. by apply (inv_denied _ ("bridge fatal: " +:+ err) _ (end_stdin w)).
  - left. split_and!; [exact Hf|right; by left|done|exact Hb].
  - destruct (decide_fresh deny (JStr "unparseable hook payload") _ Hf') as (w' & Hw' & Hd).
    assert (Hw'' : deny_ "unparseable hook payload" (end_stdin w) = (Throw "exit", w')) by exact Hw'. rewrite Hw''.
    right. exists (mkDecision deny (JStr "unparseable hook payload")). split; [|by right].
    unfold deny_. by rewrite (decide_done _ _ _ _ Hd).
Qed.

(** The socket exists only once standard input has ended. *)
Definition ordered (w : t) : Prop := stdin_open w = true -> sock w = NoSocket.

Lemma inv_event h w e : exited w = false -> ordered w -> bridge_inv h w ->
  bridge_inv (h +:+ heard_from w [e]) (step w e).
Proof.
  intros He Hor [(Hf & Hwt & Hn & Hb)|(d & (_ & He' & _) & _)]; [|congruence].
  assert (Hkeep : bridge_inv h w) by (left; split_and!; done). rewrite step_handled by done.
  cbn [ApproveBridge.heard_from]. rewrite He, string_app_empty_r. cbn [orb].
  unfold on_event, mbind at 1, eff_bind at 1, gets. cbn [Datatypes.id].
  destruct e as [text| |chunk|err| | |err|err]; rewrite ?string_app_empty_r.
  - destruct (stdin_open w) eqn:Hi; [|exact Hkeep]. by apply inv_stdin; auto.
  - destruct (bool_decide (sock w = NoSocket)); [exact Hkeep|]. left. split_and!; [exact Hf|by right; right|exact Hn|exact Hb].
  - destruct (bool_decide (sock w = NoSocket)) eqn:Hs; cbn [negb]; [rewrite string_app_empty_r; exact Hkeep|].
    unfold on_data, mbind, eff_bind, modify, gets. destruct (drain_chunk h chunk) as [H1 H2]. unfold bridge_inv. rewrite H1, H2.
    rewrite verdict_app, Hn. pose proof (data_loop_spec (String.length (buf w +:+ chunk)) (set_buf (buf w +:+ chunk) w) Hf (le_n _)) as Hd.
    cbn [buf set_buf] in *. rewrite Hb in Hd |- *. destruct (verdict (drain ((drain h).2 +:+ chunk)).1) as [d|].
    + destruct Hd as (err & w' & -> & Hd). right. exists d. split; [exact Hd|by left].
    + rewrite Hd. left. split_and!; [exact Hf|exact Hwt|done|done].
  - destruct (bool_decide (sock w = NoSocket)); [exact Hkeep|by apply (inv_denied _ ("daemon unreachable: " +:+ err) _ w)].
  - destruct (bool_decide (sock w = NoSocket)); [exact Hkeep|].
    by apply (inv_denied _ "daemon closed connection before deciding" _ (set_sock Closed w)).
  - by apply (inv_denied _ "no decision before bridge deadline" _ w).
  - by apply (inv_denied _ ("bridge error: " +:+ err) _ w).
  - by apply (inv_denied _ ("bridge rejection: " +:+ err) _ w).
Qed.

(** A field of the state that deciding and reading lines leave alone. *)
Record kept {B} (f : t -> B) : Prop := {
  kept_settled w : f (set_settled w) = f w;
  kept_print d w : f (print d w) = f w;
  kept_exited w : f (set_exited w) = f w;
  kept_buf b w : f (set_buf b w) = f w;
}.

Lemma decide_keeps {B} (f : t -> B) v r w : kept f -> f (snd (decide_ v r w)) = f w.
Proof.
  intros Hf. unfold decide_, mbind, eff_bind, gets, modify, throw. destruct (settled w); [done|]. cbn [snd].
  by rewrite (kept_exited f Hf), (kept_print f Hf), (kept_settled f Hf).
Qed.

Lemma deny_keeps {B} (f : t -> B) why w : kept f -> f (snd (deny_ why w)) = f w.
Proof. apply decide_keeps. Qed.

Lemma on_line_keeps {B} (f : t -> B) line w : kept f -> f (snd (on_line parse line w)) = f w.
Proof.
  intros Hf. unfold on_line. destruct (is_blank line); [done|].
  assert (Hd : forall v r, f (snd ((decide_ v r ;; mret true) w)) = f w).
  { intros v r. rewrite <- (decide_keeps f v r w Hf). unfold mbind, eff_bind. by destruct (decide_ v r w) as [[[]|e] w']. }
  destruct (parse line); [|apply Hd]. destruct (ClientConnection.jmember "kind" _); [|done].
  destruct (negb _); [done|]. destruct (ClientConnection.is_str "allow" _); apply Hd.
Qed.

Lemma data_loop_keeps {B} (f : t -> B) fuel w : kept f -> f (snd (data_loop parse fuel w)) = f w.
Proof.
  intros Hf. revert w. induction fuel as [|fuel IH]; intros w; [done|]. cbn [data_loop]. unfold mbind, eff_bind, gets, modify.
  destruct (take_line (buf w)) as [[line rest]|]; [|done].
  pose proof (on_line_keeps f line (set_buf rest w) Hf) as Hl. rewrite (kept_buf f Hf) in Hl.
  destruct (on_line parse line (set_buf rest w)) as [[[]|e] w1]; [done| |done]. cbn [snd] in *. by rewrite IH.
Qed.

Lemma kept_frame : kept (fun w => (stdin_open w, sock w)).
Proof. done. Qed.

Lemma kept_sends : kept (fun w => (event w, requests w, sock w)).
Proof. done. Qed.

Lemma deny_frame why w : stdin_open (snd (deny_ why w)) = stdin_open w /\ sock (snd (deny_ why w)) = sock w.
Proof. apply pair_equal_spec. apply (deny_keeps _ why w kept_frame). Qed.

Lemma data_loop_frame fuel w :
  stdin_open (snd (data_loop parse fuel w)) = stdin_open w /\ sock (snd (data_loop parse fuel w)) = sock w.
Proof. apply pair_equal_spec. apply (data_loop_keeps _ fuel w kept_frame). Qed.

Lemma ordered_step w e : ordered w -> ordered (step w e).
Proof.
  intros Hor. destruct (exited w) eqn:He; [by unfold ApproveBridge.step; rewrite He|]. rewrite step_handled by done.
  assert (Hh : forall r : outcome unit * t, ordered (snd r) -> ordered (handled r)).
  { intros [[[]|err] w'] Hw'; [done|]. unfold handled. cbn [snd] in Hw'. destruct (exited w'); [done|].
    unfold ordered. by destruct (deny_frame ("bridge error: " +:+ err) w') as [-> ->]. }
  apply Hh. clear Hh. unfold on_event, mbind at 1, eff_bind at 1, gets. cbn [Datatypes.id].
  assert (Hd : forall why w0, ordered w0 -> ordered (snd (deny_ why w0))).
  { intros why w0. unfold ordered. by destruct (deny_frame why w0) as [-> ->]. }
  assert (Hs : forall f, (forall w0, stdin_open (f w0) = stdin_open w0) -> bool_decide (sock w = NoSocket) = false -> ordered (f w)).
  { intros f Hf Hb%bool_decide_eq_false Hi. rewrite Hf in Hi. by destruct (Hb (Hor Hi)). }
  destruct e as [text| |chunk|err| | |err|err]; auto.
  - destruct (stdin_open w); [|exact Hor]. unfold mbind at 1, eff_bind at 1, modify, try_catch.
    assert (Hm : forall w0, stdin_open w0 = false -> stdin_open (snd (main_ parse createConnection text w0)) = false).
    { intros w0 H0. unfold main_. destruct (text ≫= parse); [destruct createConnection; exact H0|].
      by destruct (deny_frame "unparseable hook payload" w0) as [-> _]. }
    specialize (Hm (end_stdin w) eq_refl). destruct (main_ _ _ text (end_stdin w)) as [[[]|err] w']; cbn [snd] in *.
    + intros Hi. congruence.
    + intros Hi. destruct (deny_frame ("bridge fatal: " +:+ err) w') as [H1 _]. congruence.
  - destruct (bool_decide _) eqn:Hb; [exact Hor|]. intros Hi. by destruct (proj1 (bool_decide_eq_false _) Hb (Hor Hi)).
  - destruct (bool_decide _) eqn:Hb; [exact Hor|]. 
    set (w1 := set_buf (buf w +:+ chunk) w).
    change (ordered (snd (data_loop parse (String.length (buf w1)) w1))). intros Hi.
    destruct (data_loop_frame (String.length (buf w1)) w1) as [H1 H2]. rewrite H1 in Hi. rewrite H2. exact (Hor Hi).
  - destruct (bool_decide _); [exact Hor|]. by apply Hd.
  - destruct (bool_decide _) eqn:Hb; [exact Hor|]. unfold mbind, eff_bind, modify. apply Hd. intros Hi.
    by destruct (proj1 (bool_decide_eq_false _) Hb (Hor Hi)).
Qed.

Lemma heard_from_app w es1 es2 : heard_from w (es1 ++ es2) = heard_from w es1 +:+ heard_from (foldl step w es1) es2.
Proof.
  revert w. induction es1 as [|e es1 IH]; intros w; [done|]. cbn [app ApproveBridge.heard_from foldl].
  rewrite IH. by rewrite string_app_assoc.
Qed.

Lemma bridge_inv_run es : bridge_inv (heard parse createConnection es) (run es).
Proof.
  assert (H : ordered (run es) /\ bridge_inv (heard parse createConnection es) (run es)); [|apply H].
  induction es as [|e es [Ho Hi]] using rev_ind.
  - split; [done|]. left. split_and!; [done|by left|done|done].
  - unfold ApproveBridge.run. rewrite foldl_app. cbn [foldl]. fold (run es). split; [by apply ordered_step|].
    unfold heard. rewrite heard_from_app. fold (heard parse createConnection es). fold (run es).
    destruct (exited (run es)) eqn:He; [|by apply inv_event].
    unfold ApproveBridge.step. rewrite He. cbn [ApproveBridge.heard_from]. rewrite He.
    assert (Hz : match e with SockData _ => "" | _ => "" end +:+ "" = "") by (by destruct e).
    destruct e; cbn [orb]; by rewrite ?string_nil_app, ?string_app_empty_r.
Qed.

Lemma stdout_run es : match stdout (run es) with
  | [] => exited (run es) = false /\ waiting (run es)
  | [d] => exited (run es) = true
  | _ => False
  end.
Proof.
  destruct (bridge_inv_run es) as [((_ & He & Ho) & Hw & _)|(d & (_ & He & Ho) & _)]; by rewrite Ho.
Qed.

(** A run goes on printing what it has printed. *)
Lemma run_app_exited es1 es2 : exited (run es1) = true -> run (es1 ++ es2) = run es1.
Proof.
  intros He. unfold ApproveBridge.run. rewrite foldl_app. fold (run es1). induction es2 as [|e es2 IH]; [done|].
  cbn [foldl]. unfold ApproveBridge.step at 2. by rewrite He.
Qed.

Lemma deadline_exits es : exited (run (es ++ [Deadline])) = true.
Proof.
  destruct (exited (run es)) eqn:He; [by rewrite run_app_exited|].
  unfold ApproveBridge.run. rewrite foldl_app. cbn [foldl]. fold (run es). rewrite step_handled by done.
  destruct (bridge_inv_run es) as [(Hf & _)|(d & (_ & He' & _) & _)]; [|congruence].
  apply (handled_deny "no decision before bridge deadline" _ Hf).
Qed.

(** What the process sends is the payload it read. *)
Definition payloads (es : list Event) (e : jsval) : Prop := exists text, StdinEnd (Some text) ∈ es /\ parse text = Some e.

(** The socket exists once the payload is there, and only it is ever sent. *)
Definition sends (es : list Event) (w : t) : Prop :=
  (sock w <> NoSocket -> payloads es (event w)) /\ (forall e, e ∈ requests w -> payloads es e).

Lemma sends_kept es w w' :
  (event w', requests w', sock w') = (event w, requests w, sock w) -> sends es w -> sends es w'.
Proof. intros [[He Hr]%pair_equal_spec Hs]%pair_equal_spec. unfold sends. by rewrite He, Hr, Hs. Qed.

Lemma sends_step es w e : ordered w -> sends es w -> sends (es ++ [e]) (step w e).
Proof.
  intros Hor Hs.
  assert (Hmon : forall x, payloads es x -> payloads (es ++ [e]) x).
  { intros x (text & Hin & Hp). exists text. split; [apply elem_of_app; by left|done]. }
  assert (Hw : sends (es ++ [e]) w) by (destruct Hs as [H1 H2]; split; auto). clear Hs.
  destruct (exited w) eqn:He; [by unfold ApproveBridge.step; rewrite He|]. rewrite step_handled by done.
  set (E := es ++ [e]) in *.
  assert (Hd : forall why w0, sends E w0 -> sends E (snd (deny_ why w0))).
  { intros why w0. apply sends_kept, (deny_keeps _ why w0 kept_sends). }
  assert (Hh : forall r : outcome unit * t, sends E (snd r) -> sends E (handled r)).
  { intros [[[]|err] w'] Hw'; [done|]. unfold handled. cbn [snd] in Hw'. destruct (exited w'); [done|]. by apply Hd. }
  apply Hh. clear Hh. unfold on_event, mbind at 1, eff_bind at 1, gets. cbn [Datatypes.id].
  destruct e as [text| |chunk|err| | |err|err]; try (by apply Hd).
  - destruct (stdin_open w) eqn:Hi; [|exact Hw]. unfold mbind at 1, eff_bind at 1, modify, try_catch, main_.
    destruct text as [text|]; cbn [mbind option_bind]; [destruct (parse text) as [ev|] eqn:Hp; [destruct createConnection|]|].
    + by apply (Hd ("bridge fatal: " +:+ s) (end_stdin w)).
    + split; [intros _|exact (proj2 Hw)]. exists text. split; [unfold E; apply elem_of_app; right; by left|exact Hp].
    + specialize (Hd "unparseable hook payload" (end_stdin w) Hw). destruct (deny_ "unparseable hook payload" (end_stdin w)) as [[[]|er] w'] eqn:Hr; [exact Hd|].
      revert Hd. apply sends_kept, (deny_keeps _ _ w' kept_sends).
    + specialize (Hd "unparseable hook payload" (end_stdin w) Hw). destruct (deny_ "unparseable hook payload" (end_stdin w)) as [[[]|er] w'] eqn:Hr; [exact Hd|].
      revert Hd. apply sends_kept, (deny_keeps _ _ w' kept_sends).
  - destruct (bool_decide _) eqn:Hb; [exact Hw|]. apply bool_decide_eq_false in Hb. destruct Hw as [H1 H2].
    split; [intros _; exact (H1 Hb)|]. intros x [Hx|Hx%list_elem_of_singleton]%elem_of_app; [by apply H2|]. subst x. exact (H1 Hb).
  - destruct (bool_decide _); [exact Hw|]. set (w1 := set_buf (buf w +:+ chunk) w).
    change (sends E (snd (data_loop parse (String.length (buf w1)) w1))).
    revert Hw. apply sends_kept, (data_loop_keeps _ (String.length (buf w1)) w1 kept_sends).
  - destruct (bool_decide _); [exact Hw|]. by apply Hd.
  - destruct (bool_decide _) eqn:Hb; [exact Hw|]. apply bool_decide_eq_false in Hb. unfold mbind, eff_bind, modify. apply Hd.
    destruct Hw as [H1 H2]. split; [intros _; exact (H1 Hb)|exact H2].
Qed.

Lemma sends_run es : sends es (run es).
Proof.
  assert (H : ordered (run es) /\ sends es (run es)); [|apply H]. induction es as [|e es [Ho Hs]] using rev_ind.
  - split; [done|]. split; [done|]. intros e He. by apply not_elem_of_nil in He.
  - unfold ApproveBridge.run. rewrite foldl_app. cbn [foldl]. fold (run es). split; [by apply ordered_step|by apply sends_step].
Qed.

(** The gate opens only on an explicit allow.  Whatever the event loop delivers and
    in whatever order, at most one decision is printed and printing it is the exit; while
    none is printed something still keeps the process alive; and a printed [allow] is
    exactly the first decision among the lines the daemon's socket delivered, under any
    cut into chunks: a line before it that cannot be read as a message would have
    denied. *)
Theorem gate_opens_only_on_allow es :
  match stdout (run es) with
  | [] => exited (run es) = false /\ waiting (run es)
  | [d] => exited (run es) = true /\
      (permissionDecision d = allow -> verdict (drain (heard parse createConnection es)).1 = Some d)
  | _ => False
  end.
Proof.
  destruct (bridge_inv_run es) as [((_ & He & Ho) & Hw & _)|(d & (_ & He & Ho) & Hv)]; rewrite Ho; split; auto.
  intros Ha. destruct Hv as [?|[_ Hd]]; [done|congruence].
Qed.

End laws.

(** ** The timer and the runtime's own timeout *)

Section timing.
Variables (parse : string -> option jsval) (createConnection : option string).
Variables (Number : string -> jsnum).

(** What every evaluation that permits a spawn has found of every bridge installed. *)
Lemma permitted_margin settings selfDenyMs label t :
  HookMargin.evaluateHookMargin settings selfDenyMs label = Ok HookMargin.MarginOk ->
  HookMargin.installs settings t -> HookMargin.leaves_margin selfDenyMs t.
Proof.
  pose proof (collected_installed settings) as Hc. unfold HookMargin.evaluateHookMargin.
  destruct (jiter _) as [entries|]; [|done]. destruct (HookMargin.scan_entries entries []) as [ts|] eqn:Hs; [|done].
  intros [= Hj] Ht. apply judge_ok in Hj as [_ Hall]. apply Hall. by apply (Hc ts).
Qed.

Lemma pretty_N_go_pos n s : (0 < n)%N -> pretty_N_go n s <> "".
Proof.
  assert (Hg : forall n s, s <> "" -> pretty_N_go n s <> "").
  { intros m. induction (N.lt_wf_0 m) as [m _ IH]. intros s' Hs'. destruct (decide (0 < m)%N) as [Hm|Hm].
    - rewrite pretty_N_go_step by done. apply IH; [apply N.div_lt; lia|done].
    - replace m with 0%N by lia. by rewrite pretty_N_go_0. }
  intros Hn. rewrite pretty_N_go_step by done. by apply Hg.
Qed.

Lemma pretty_pos (n : Z) : 1 <= n -> pretty n <> "".
Proof.
  intros Hn. destruct n as [|p|p]; [lia| |lia]. unfold pretty, pretty_Z, pretty, pretty_positive, pretty, pretty_N.
  case_decide; [done|]. apply pretty_N_go_pos. lia.
Qed.

Lemma timer_delay_whole (n : Z) : 1 <= n -> timer_delay (NumFin (inject_Z n)) <= n /\ 1 <= timer_delay (NumFin (inject_Z n)).
Proof.
  intros Hn. unfold timer_delay. destruct (_ && _); [|lia]. cbn. rewrite Z.div_1_r. lia.
Qed.

(** C8. No tool runs for want of an answer.  When the daemon permits a session to be
    spawned with a project's settings, the bridge of that session, run with the
    environment the session gives it, has printed exactly one decision by the time its
    timer is due, whatever else it has been delivered, and the timer is due at least 30 s
    before any of the timeouts at which the runtime of the installed bridges gives up on
    it and runs the tool. *)
Theorem decision_precedes_timeout (o : Session.SpawnOptions) readFile parseJson raw settings t :
  Number (pretty (Session.so_selfDenyMs o)) = NumFin (inject_Z (Session.so_selfDenyMs o)) ->
  1 <= Session.so_selfDenyMs o ->
  readFile (Session.so_cwd o +:+ "/.claude/settings.json") = Some raw -> parseJson raw = Some settings ->
  HookMargin.check readFile parseJson (Session.so_cwd o) (Session.so_selfDenyMs o) = Ok HookMargin.MarginOk ->
  HookMargin.installs settings t ->
  let delay := timer_delay (SELF_DENY_MS Number (mget "CC_HOOK_SELF_DENY_MS" (Session.environment o))) in
  (inject_Z delay + inject_Z HookMargin.MIN_MARGIN_MS <= t * inject_Z 1000)%Q /\
  forall T es, delay <= T -> observed delay T es -> exists d, stdout (run parse createConnection (snd <$> es)) = [d].
Proof.
  intros Hnum Hpos Hread Hparse Hok Ht delay.
  assert (Hd : delay = timer_delay (NumFin (inject_Z (Session.so_selfDenyMs o)))).
  { unfold delay, SELF_DENY_MS. change (mget "CC_HOOK_SELF_DENY_MS" (Session.environment o)) with (Some (pretty (Session.so_selfDenyMs o))).
    assert (Hne := pretty_pos _ Hpos). unfold truthy_str, truthy. destruct (pretty (Session.so_selfDenyMs o)) eqn:Hp; [done|].
    by rewrite Hnum. }
  split.
  - unfold HookMargin.check in Hok. rewrite Hread, Hparse in Hok. pose proof (permitted_margin _ _ _ _ Hok Ht) as Hm.
    unfold HookMargin.leaves_margin in Hm. eapply Qle_trans; [|exact Hm].
    apply Qplus_le_compat; [|apply Qle_refl]. rewrite <- Zle_Qle, Hd. apply timer_delay_whole, Hpos.
  - intros T es HT [_ Hdue]. destruct (Hdue HT) as (l1 & l2 & ->). rewrite fmap_app, fmap_cons. cbn [snd].
    assert (Hex : exited (run parse createConnection ((snd <$> l1) ++ Deadline :: (snd <$> l2))) = true).
    { replace ((snd <$> l1) ++ Deadline :: (snd <$> l2)) with (((snd <$> l1) ++ [Deadline]) ++ (snd <$> l2)) by (by rewrite <- app_assoc).
      rewrite run_app_exited; apply deadline_exits. }
    pose proof (stdout_run parse createConnection ((snd <$> l1) ++ Deadline :: (snd <$> l2))) as Hs.
    destruct (stdout _) as [|d [|]]; [destruct Hs; congruence|by exists d|done].
Qed.

End timing.

(** ** Concrete runs *)

Definition demo_parse (s : string) : option jsval :=
  if bool_decide (s = "payload") then Some (JObj [("tool_use_id", JStr "t1")])
  else if bool_decide (s = "allow") then Some (JObj [("kind", JStr "approval_decision"); ("decision", JStr "allow"); ("reason", JStr "")])
  else if bool_decide (s = "null") then Some JNull
  else if bool_decide (s = "settings") then
    Some (JObj [("hooks", JObj [("PreToolUse", JArr [JObj [("hooks", JArr [JObj
      [("command", JStr "node hook/approve-bridge.mjs"); ("timeout", JNum (NumFin 1500))]])]])])])
  else None.

(** An allow in two chunks; a message without fields; a daemon that goes away. *)
Example allow_in_two_chunks :
  stdout (run demo_parse None [StdinEnd (Some "payload"); SockConnect; SockData "al"; SockData ("low" +:+ String newline ""); SockClose]) =
    [mkDecision allow (JStr "approved remotely")].
Proof. vm_compute. reflexivity. Qed.

Example null_message_denies :
  stdout (run demo_parse None [StdinEnd (Some "payload"); SockConnect; SockData ("null" +:+ String newline ("allow" +:+ String newline ""))]) =
    [mkDecision deny (JStr "bridge error: TypeError: cannot read properties")].
Proof. vm_compute. reflexivity. Qed.

Example early_deadline_denies :
  stdout (run demo_parse None [Deadline; StdinEnd (Some "payload")]) = [mkDecision deny (JStr "no decision before bridge deadline")].
Proof. vm_compute. reflexivity. Qed.

Definition demo_options : Session.SpawnOptions := Session.mkSpawnOptions "/p" None None None None None "/tmp/s" 1200000.

(** [Number] on the decimal numerals. *)
Fixpoint digits (acc : Z) (s : string) : option Z :=
  match s with
  | EmptyString => Some acc
  | String c s' =>
      let d := Z.of_nat (nat_of_ascii c) - 48 in
      if (0 <=? d) && (d <=? 9) then digits (10 * acc + d) s' else None
  end.
Definition demo_Number (s : string) : jsnum := match digits 0 s with Some n => NumFin (inject_Z n) | None => NumNaN end.

Lemma decision_precedes_timeout_witness :
  let delay := timer_delay (SELF_DENY_MS demo_Number (mget "CC_HOOK_SELF_DENY_MS" (Session.environment demo_options))) in
  delay = 1200000 /\
  exists d, stdout (run demo_parse None (snd <$> [(5, StdinEnd (Some "payload")); (9, SockConnect); (1200000, Deadline)])) = [d].
Proof.
  intros delay. assert (Hd : delay = 1200000) by (vm_compute; reflexivity). split; [exact Hd|].
  assert (Hraw : exists settings, demo_parse "settings" = Some settings /\ HookMargin.installs settings 1500).
  { eexists. split; [reflexivity|]. do 4 eexists. exists "node hook/approve-bridge.mjs".
    split_and!; [reflexivity|apply list_elem_of_singleton; reflexivity|reflexivity|apply list_elem_of_singleton; reflexivity|reflexivity..]. }
  destruct Hraw as (settings & Hparse & Hin).
  refine (proj2 (decision_precedes_timeout demo_parse None demo_Number demo_options (fun _ => Some "settings") demo_parse "settings" settings 1500
    _ _ eq_refl Hparse _ Hin) 1200000 [(5, StdinEnd (Some "payload")); (9, SockConnect); (1200000, Deadline)] _ _).
  - vm_compute. reflexivity.
  - discriminate.
  - unfold HookMargin.check. rewrite Hparse. injection Hparse as <-. vm_compute. reflexivity.
  - fold delay. rewrite Hd. done.
  - fold delay. rewrite Hd. split; [repeat constructor; discriminate|]. intros _. by exists [(5, StdinEnd (Some "payload")); (9, SockConnect)], [].
Defined.
