(* ===== verification/HookBridge.v ===== *)
(** * The hook bridge

    [packages/daemon/src/interface/hookBridge.ts]: one socket per blocked tool
    call, held open until it is decided.  A line is turned into a pending approval
    of the broker, whose waiter writes the decision back to the socket it came
    from; the identifiers a socket claimed are abandoned when it closes.  The
    world is the broker, over an external state, and the claims of each socket.
    [parseJson] is [JSON.parse] at the types the source gives the message's
    fields, [None] where it throws.  Logging is left out. *)

From S2P Require Import Prelude JsMap Js Types Framing Approvals.
Import Framing.

Local Open Scope Z_scope.

Module HookBridge.

(** The event of an [approval_request], as the hook sends it. *)
Record HookEvent : Type := mkHookEvent {
  ev_tool_use_id : option string;
  ev_session_id : option string;
  ev_tool_name : option string;
  ev_tool_input : option jsval;
  ev_description : option string;
}.

(** A parsed line: [null], a message that is no [approval_request], or one. *)
Inductive HookMessage : Type :=
| HookNull
| HookOther
| HookRequest (event : HookEvent).

(** The line written back: [{ kind: 'approval_decision', decision, reason }]. *)
Record HookDecision : Type := mkHookDecision { hk_decision : Verdict; hk_reason : string }.

(** [8 * 1024 * 1024] *)
Definition MAX_HOOK_LINE : Z := 8388608.

Definition duplicate_reason : string := "duplicate tool_use_id already pending".

Section bridge.
Context {Sock O X : Type} `{EqDecision Sock}.

(** The [respond] closure of one request: its socket, its session, its identifier. *)
Record Handle : Type := mkHandle { h_sock : Sock; h_owner : option O; h_id : string }.

(** [HookBridgeDeps] with [ApprovalOwner], the broker's listeners and the platform. *)
Record Deps : Type := mkDeps {
  sessionByClaudeId : option string -> X -> option O;
  owner_id : O -> string;
  trackPendingApproval : O -> string -> X -> X;
  untrackPendingApproval : O -> string -> X -> X;
  owner_info : O -> X -> SessionInfo;
  selfDenyMs : Z;
  broadcast : ServerEvent -> eff X unit;
  listen_pending : PendingApproval -> eff X unit;
  listen_resolved : PendingApproval -> eff X unit;
  sock_write : Sock -> HookDecision -> X -> X;
  sock_destroy : Sock -> X -> X;
  clock : X -> Z;
  parseJson : string -> option HookMessage;
}.

Record t : Type := mk {
  broker : ApprovalBroker.t Handle X;
  claimed : jsmap Sock (jsset string);
}.

Definition on_broker {A} (m : eff (ApprovalBroker.t Handle X) A) : eff t A := fun w =>
  let (o, b) := m (broker w) in (o, mk b (claimed w)).

(** A call outside the bridge and the broker. *)
Definition outside {A} (m : eff X A) : eff t A := fun w =>
  let (o, x) := m (ApprovalBroker.ext (broker w)) in
  (o, mk (ApprovalBroker.mk (ApprovalBroker.pending (broker w)) (ApprovalBroker.waiters (broker w))
            (ApprovalBroker.timers (broker w)) x (ApprovalBroker.answered (broker w))) (claimed w)).

(** [broadcast({ type: 'session_update', session: owner.info() })] *)
Definition announce (d : Deps) (owner : option O) : eff X unit :=
  match owner with
  | None => mret tt
  | Some o => info ← gets (owner_info d o); broadcast d (session_update info)
  end.

(** [respond(decision, reason)]; a failing write is swallowed. *)
Definition respond (d : Deps) (h : Handle) (v : Verdict) (reason : string) : eff X unit :=
  modify (sock_write d (h_sock h) (mkHookDecision v reason)) ;;
  modify (fun x => match h_owner h with Some o => untrackPendingApproval d o (h_id h) x | None => x end) ;;
  announce d (h_owner h).

Definition ports (d : Deps) : ApprovalBroker.Ports Handle X :=
  ApprovalBroker.mkPorts (respond d) (listen_pending d) (listen_resolved d).

Definition claims (sock : Sock) (w : t) : jsset string := default [] (mget sock (claimed w)).

Definition claim (sock : Sock) (id : string) : eff t unit :=
  modify (fun w => mk (broker w) (mset sock (sadd id (claims sock w)) (claimed w))).

(** The request a hook event makes, at time [now]. *)
Definition approval_of (d : Deps) (event : HookEvent) (owner : option O) (now : Z) : PendingApproval :=
  mkPendingApproval
    (default (default "undefined" (ev_session_id event) +:+ "-" +:+ pretty now) (ev_tool_use_id event))
    (match owner with Some o => owner_id d o | None => default "unknown" (ev_session_id event) end)
    (default "unknown" (ev_tool_name event)) (default (JObj []) (ev_tool_input event))
    (ev_description event) now (now + selfDenyMs d) None.

(** The guarded body: opening an approval request. *)
Definition openRequest (d : Deps) (sock : Sock) (event : HookEvent) : eff t unit :=
  x ← gets (fun w => ApprovalBroker.ext (broker w));
  let owner := sessionByClaudeId d (ev_session_id event) x in
  let approval := approval_of d event owner (clock d x) in
  won ← on_broker (ApprovalBroker.open (ports d) approval (mkHandle sock owner (toolUseId approval)));
  if negb won then
    outside (modify (sock_write d sock (mkHookDecision deny duplicate_reason))) ;;
    outside (modify (sock_destroy d sock))
  else
    claim sock (toolUseId approval) ;;
    outside (modify (fun x => match owner with Some o => trackPendingApproval d o (toolUseId approval) x | None => x end)) ;;
    outside (broadcast d (approval_pending approval)) ;;
    outside (announce d owner).

(** The body of the read loop, for one line. *)
Definition onLine (d : Deps) (sock : Sock) (line : string) : eff t unit :=
  if is_blank line then mret tt
  else
    match parseJson d line with
    | None | Some HookOther => mret tt
    | Some HookNull => throw "TypeError: cannot read properties"
    | Some (HookRequest event) => try_catch (openRequest d sock event) (fun _ => mret tt)
    end.

(** [sock.on('data')]: from the buffer and a decoded chunk to the buffer left. *)
Definition onData (d : Deps) (sock : Sock) (buf chunk : string) : eff t string :=
  let buf := buf +:+ chunk in
  if MAX_HOOK_LINE <? Z.of_nat (String.length buf)
  then outside (modify (sock_destroy d sock)) ;; mret ""
  else read_loop (onLine d sock) buf.

(** [broker.abandon(id)] *)
Definition abandon (d : Deps) (id : string) : eff t unit :=
  on_broker (fun b => ApprovalBroker.abandon (ports d) (clock d (ApprovalBroker.ext b)) id b).

(** [sock.on('close')]: [for (const id of claimed) broker.abandon(id)], unguarded. *)
Definition onClose (d : Deps) (sock : Sock) : eff t unit := fun w =>
  for_each (abandon d) (claims sock w) w.

(** ** Steps: a line or the close of a hook socket, a decision of a client, a
    purge timer, and anything that leaves broker and claims alone. *)
Inductive step (d : Deps) : t -> t -> Prop :=
| step_line w sock line : step d w (snd (onLine d sock line w))
| step_close w sock : step d w (snd (onClose d sock w))
| step_decide w now id v reason by_ :
    step d w (snd (on_broker (ApprovalBroker.decide (ports d) now id v reason by_) w))
| step_purge w id : id ∈ ApprovalBroker.timers (broker w) ->
    step d w (mk (ApprovalBroker.purge id (broker w)) (claimed w))
| step_outside w (f : X -> X) : step d w (snd (outside (modify f) w)).

Inductive reach (d : Deps) (x : X) : t -> Prop :=
| reach_new : reach d x (mk (ApprovalBroker.new x) [])
| reach_step w w' : reach d x w -> step d w w' -> reach d x w'.

(** ** Vocabulary *)

Definition never_throws {W A} (m : eff W A) : Prop := forall w, is_ok (fst (m w)) = true.

(** Listeners and broadcasts that do not fail. *)
Record reliable (d : Deps) : Prop := {
  rel_broadcast ev : never_throws (broadcast d ev);
  rel_pending a : never_throws (listen_pending d a);
  rel_resolved a : decision a <> None -> never_throws (listen_resolved d a);
}.

(** The undecided request [id] waits on [sock]. *)
Definition waits (sock : Sock) (id : string) (w : t) : Prop :=
  exists h, mget id (ApprovalBroker.waiters (broker w)) = Some h /\ h_sock h = sock.

End bridge.
Arguments Deps : clear implicits.
Arguments Handle : clear implicits.
Arguments t : clear implicits.

End HookBridge.

Import HookBridge.

(** ** Laws *)

Section laws.
Context {Sock O X : Type} `{EqDecision Sock}.
Notation World := (HookBridge.t Sock O X).
Implicit Types (d : HookBridge.Deps Sock O X) (w : World) (h : Handle Sock O) (b : ApprovalBroker.t (Handle Sock O) X).

Lemma respond_ok d h v reason : reliable d -> never_throws (respond d h v reason).
Proof.
  intros Hr x. unfold respond, announce, mbind, eff_bind, modify, gets.
  destruct (h_owner h); [apply (rel_broadcast d Hr)|done].
Qed.

Lemma outside_ok (m : eff X unit) b :
  never_throws m -> is_ok (fst (ApprovalBroker.outside (W:=Handle Sock O) m b)) = true.
Proof. intros Hm. specialize (Hm (ApprovalBroker.ext b)). unfold ApprovalBroker.outside. by destruct (m _). Qed.

(** With reliable ports an abandon completes. *)
Lemma abandon_ok d now id b : reliable d -> fst (ApprovalBroker.abandon (ports d) now id b) = Ok tt.
Proof.
  intros Hr. unfold ApprovalBroker.abandon, mbind, eff_bind, gets, modify. cbn.
  destruct (mget id (ApprovalBroker.pending b)) as [a|]; [|done]. destruct (decision a); [done|].
  assert (Hc : forall o v reason b0, is_ok (fst (ApprovalBroker.call_waiter (ports d) o v reason b0)) = true).
  { intros [h|] v reason b0; [|done]. unfold ApprovalBroker.call_waiter, mbind, eff_bind, modify.
    by apply outside_ok, respond_ok. }
  match goal with |- context [ApprovalBroker.call_waiter ?p ?o ?v ?r ?b0] =>
    specialize (Hc o v r b0); destruct (ApprovalBroker.call_waiter p o v r b0) as [[u|e] b1]; [|done] end.
  match goal with |- context [ApprovalBroker.outside ?m b1] =>
    pose proof (outside_ok m b1 (rel_resolved d Hr (ApprovalBroker.with_decision a (mkDecision deny ApprovalBroker.abandoned "daemon" now)) ltac:(done))) as Ho; by destruct (ApprovalBroker.outside m b1) as [[u'|e] b2] end.
Qed.

(** The effect of one abandon on a well-formed broker. *)
Lemma abandon_spec d now id b :
  ApprovalBroker.wf b ->
  let b' := snd (ApprovalBroker.abandon (ports d) now id b) in
  ApprovalBroker.wf b' /\ ApprovalBroker.waiters b' = mdelete id (ApprovalBroker.waiters b) /\
  (forall id', id' <> id -> mget id' (ApprovalBroker.pending b') = mget id' (ApprovalBroker.pending b)) /\
  ApprovalBroker.answered b' = ApprovalBroker.answered b ++
    match mget id (ApprovalBroker.waiters b) with Some h => [(h, deny, ApprovalBroker.abandoned)] | None => [] end.
Proof.
  intros Hwf b'.
  assert (Hwf' : ApprovalBroker.wf b')
    by (eapply broker_wf_effect; [exact Hwf|]; eapply (step_effect (ports d)), ApprovalBroker.step_abandon).
  assert (Hidle : (forall a, mget id (ApprovalBroker.pending b) = Some a -> decision a <> None) ->
    b' = b /\ mget id (ApprovalBroker.waiters b) = None).
  { intros Hd. split; [by apply abandon_idle|]. destruct (mget id (ApprovalBroker.waiters b)) eqn:Hw; [|done].
    destruct (proj1 (ApprovalBroker.wf_waiting _ Hwf id)) as (a & Ha & Hn); [unfold mhas; by rewrite Hw|]. by destruct (Hd a Ha). }
  destruct (mget id (ApprovalBroker.pending b)) as [a|] eqn:Ha; [destruct (decision a) eqn:Hd|].
  2:{ pose proof (abandon_settles (ports d) now id b a Ha Hd) as [Hp Hw Ht Han]. split_and!; [done|exact Hw| |exact Han].
      intros id' Hne. unfold b'. rewrite Hp. by rewrite mget_mset_ne. }
  all: destruct Hidle as [-> Hnone]; [intros a' Ha'; congruence|].
  all: rewrite Hnone, app_nil_r; split_and!; [done| |done|done].
  all: symmetry; apply mdelete_notin; by apply mget_None_keys.
Qed.

(** *** What holds even when listeners throw: the broker stays well formed *)

Definition broker_wf w : Prop := ApprovalBroker.wf (broker w).

Lemma broker_wf_outside {A} (m : eff X A) : preserves broker_wf (outside m).
Proof. intros w Hw. unfold outside. destruct (m _) as [o x]. by destruct Hw. Qed.

Lemma broker_wf_step {A} d op (m : eff (ApprovalBroker.t (Handle Sock O) X) A) :
  (forall b, ApprovalBroker.step (ports d) b op (snd (m b))) -> preserves broker_wf (on_broker m).
Proof.
  intros Hm w Hw. specialize (Hm (broker w)). unfold on_broker. destruct (m _) as [o b]. cbn [snd] in *.
  eapply broker_wf_effect; [exact Hw|]. by eapply (step_effect (ports d)).
Qed.

Lemma broker_wf_openRequest d sock ev : preserves broker_wf (openRequest d sock ev).
Proof.
  unfold openRequest. apply preserves_bind; [apply preserves_gets|]. intros x.
  apply preserves_bind.
  - eapply broker_wf_step. intros b. by apply ApprovalBroker.step_open.
  - intros [].
    + apply preserves_bind; [by intros w|]. intros _. apply preserves_bind; [apply broker_wf_outside|]. intros _.
      apply preserves_bind; [apply broker_wf_outside|]. intros _. apply broker_wf_outside.
    + apply preserves_bind; [apply broker_wf_outside|]. intros _. apply broker_wf_outside.
Qed.

(** The loop of [close], wherever it ends: whoever still waits waited before, for the same
    request. *)
Lemma close_keeps d ids w : broker_wf w ->
  let w' := snd (for_each (abandon d) ids w) in
  broker_wf w' /\
  forall i h, mget i (ApprovalBroker.waiters (broker w')) = Some h ->
    mget i (ApprovalBroker.waiters (broker w)) = Some h /\
    mget i (ApprovalBroker.pending (broker w')) = mget i (ApprovalBroker.pending (broker w)).
Proof.
  revert w. induction ids as [|id ids IH]; intros w Hw; cbn [for_each]; [by split|].
  unfold mbind, eff_bind, abandon at 1 3 5, on_broker.
  destruct (abandon_spec d (clock d (ApprovalBroker.ext (broker w))) id (broker w) Hw) as (Hwf & Hwt & Hp & _).
  destruct (ApprovalBroker.abandon _ _ _ _) as [o b1]. cbn [snd] in *.
  assert (H1 : forall i h, mget i (ApprovalBroker.waiters b1) = Some h ->
    mget i (ApprovalBroker.waiters (broker w)) = Some h /\
    mget i (ApprovalBroker.pending b1) = mget i (ApprovalBroker.pending (broker w))).
  { intros i h. rewrite Hwt, mget_mdelete. case_decide; [done|]. intros Hg. split; [done|by apply Hp]. }
  destruct o as [u|e]; [|done]. destruct (IH (mk b1 (claimed w)) Hwf) as [IH1 IH2]. split; [exact IH1|].
  intros i h [Hg Hq]%IH2. cbn [broker] in Hg, Hq. destruct (H1 i h Hg) as [? ?]. split; congruence.
Qed.

Lemma wf_reach d x w : reach d x w -> broker_wf w.
Proof.
  induction 1 as [|w w' _ IH Hst]; [apply broker_wf_new|].
  destruct Hst as [w sock line|w sock|w now id v reason by_|w id Hin|w f].
  - revert w IH. unfold onLine. intros w. destruct (is_blank line); [done|].
    destruct (parseJson d line) as [[]|]; try done.
    apply (preserves_try broker_wf); [apply broker_wf_openRequest|intros; apply preserves_ret].
  - by apply close_keeps.
  - revert w IH. apply (broker_wf_step d (ApprovalBroker.OpDecide now id v reason by_)). intros b. constructor.
  - eapply broker_wf_effect; [exact IH|]. by eapply (step_effect (ports d)), ApprovalBroker.step_purge.
  - revert IH. apply broker_wf_outside.
Qed.

(** *** The invariant: who waits, and who claimed it *)

Record inv w : Prop := {
  inv_broker : ApprovalBroker.wf (broker w);
  inv_claimed id h : mget id (ApprovalBroker.waiters (broker w)) = Some h -> id ∈ claims (h_sock h) w;
}.

Lemma claims_claim sock id s w :
  claims s (snd (claim sock id w)) = if decide (s = sock) then sadd id (claims sock w) else claims s w.
Proof. unfold claims at 1, claim, modify. cbn. rewrite mget_mset. by case_decide. Qed.

(** [m] leaves broker maps and claims alone. *)
Definition aside {A} (m : eff World A) : Prop := forall w,
  ApprovalBroker.pending (broker (snd (m w))) = ApprovalBroker.pending (broker w) /\
  ApprovalBroker.waiters (broker (snd (m w))) = ApprovalBroker.waiters (broker w) /\
  ApprovalBroker.timers (broker (snd (m w))) = ApprovalBroker.timers (broker w) /\
  ApprovalBroker.answered (broker (snd (m w))) = ApprovalBroker.answered (broker w) /\
  claimed (snd (m w)) = claimed w.

Lemma aside_ret {A} (a : A) : aside (mret a).
Proof. done. Qed.

Lemma aside_outside {A} (m : eff X A) : aside (outside m).
Proof. intros w. unfold outside. by destruct (m _). Qed.

Lemma aside_bind {A B} (m : eff World A) (k : A -> eff World B) :
  aside m -> (forall a, aside (k a)) -> aside (m ≫= k).
Proof.
  intros Hm Hk w. specialize (Hm w). unfold mbind, eff_bind. destruct (m w) as [[a|e] w1]; [|done].
  destruct Hm as (H1 & H2 & H3 & H4 & H5), (Hk a w1) as (G1 & G2 & G3 & G4 & G5). cbn [snd] in *.
  split_and!; congruence.
Qed.

Lemma wf_same_maps b b' :
  ApprovalBroker.pending b' = ApprovalBroker.pending b -> ApprovalBroker.waiters b' = ApprovalBroker.waiters b ->
  ApprovalBroker.timers b' = ApprovalBroker.timers b -> ApprovalBroker.wf b -> ApprovalBroker.wf b'.
Proof. intros H1 H2 H3 [Hp Hw Hid Hwait Ht Hnd]. split; rewrite ?H1, ?H2, ?H3; done. Qed.

Lemma inv_aside {A} (m : eff World A) : aside m -> preserves inv m.
Proof.
  intros Hm w [Hwf Hc]. destruct (Hm w) as (H1 & H2 & H3 & _ & H5). split.
  - by eapply wf_same_maps.
  - intros id h. rewrite H2. unfold claims. rewrite H5. apply Hc.
Qed.


(** *** Every step keeps the invariant *)

Lemma open_reliable d a h b :
  reliable d -> mhas (toolUseId a) (ApprovalBroker.pending b) = false ->
  fst (ApprovalBroker.open (ports d) a h b) = Ok true.
Proof.
  intros Hr Hh. unfold ApprovalBroker.open, mbind, eff_bind, gets, modify. cbn. rewrite Hh.
  match goal with |- context [ApprovalBroker.outside ?m ?b1] =>
    pose proof (outside_ok m b1 (rel_pending d Hr a)) as Ho; by destruct (ApprovalBroker.outside m b1) as [[u'|e] b2] end.
Qed.

(** A winning open, with the claim that follows it. *)
Lemma inv_open_claim d sock owner a w :
  decision a = None -> mhas (toolUseId a) (ApprovalBroker.pending (broker w)) = false -> inv w ->
  inv (snd (claim sock (toolUseId a)
    (mk (snd (ApprovalBroker.open (ports d) a (mkHandle sock owner (toolUseId a)) (broker w))) (claimed w)))).
Proof.
  intros Hd Hh [Hwf Hc]. set (hd := mkHandle sock owner (toolUseId a)).
  pose proof (open_won (ports d) a hd (broker w) Hh) as (_ & Hw & _ & _). split.
  - cbn [claim modify snd broker]. eapply broker_wf_effect; [exact Hwf|].
    by eapply (step_effect (ports d)), ApprovalBroker.step_open.
  - intros id h'. rewrite claims_claim. cbn [claim modify snd broker]. rewrite Hw, mget_mset. case_decide as Hid.
    + intros [= <-]. cbn [h_sock hd]. rewrite decide_True by done. apply elem_sadd. by left.
    + intros Hg. specialize (Hc id h' Hg). case_decide as Hs; [|done]. apply elem_sadd. right. by rewrite <- Hs.
Qed.

Lemma inv_openRequest d sock ev : reliable d -> preserves inv (openRequest d sock ev).
Proof.
  intros Hr w Hw. unfold openRequest, mbind at 1, eff_bind at 1, gets at 1.
  set (x := ApprovalBroker.ext (broker w)). set (owner := sessionByClaudeId d (ev_session_id ev) x).
  set (a := approval_of d ev owner (clock d x)). unfold mbind at 1, eff_bind at 1, on_broker at 1.
  destruct (mhas (toolUseId a) (ApprovalBroker.pending (broker w))) eqn:Hh.
  - rewrite open_lost by done. cbn [negb].
    match goal with |- inv (snd (?m ?w1)) => assert (Ha : aside m); [|apply (inv_aside m Ha); by destruct w] end.
    apply aside_bind; [|intros _]; apply aside_outside.
  - pose proof (open_reliable d a (mkHandle sock owner (toolUseId a)) (broker w) Hr Hh) as Hok.
    pose proof (inv_open_claim d sock owner a w eq_refl Hh Hw) as Hinv.
    destruct (ApprovalBroker.open _ _ _ _) as [o b1]. cbn [fst snd] in *. subst o. cbn [negb].
    unfold mbind at 1, eff_bind at 1. destruct (claim sock (toolUseId a) (mk b1 (claimed w))) as [[u|e] w1] eqn:Hcl; [|done].
    match goal with |- inv (snd (?m w1)) => assert (Ha : aside m); [|by apply (inv_aside m Ha)] end.
    repeat (apply aside_bind; [apply aside_outside|intros _]). apply aside_outside.
Qed.

Lemma inv_onLine d sock line : reliable d -> preserves inv (onLine d sock line).
Proof.
  intros Hr. unfold onLine. destruct (is_blank line); [apply preserves_ret|].
  destruct (parseJson d line) as [[]|]; try apply preserves_ret; [apply preserves_throw|].
  apply preserves_try; [by apply inv_openRequest|intros; apply preserves_ret].
Qed.

(** The loop of [close]. *)
Lemma close_loop d ids w :
  reliable d -> inv w ->
  let (o, w') := for_each (abandon d) ids w in
  o = Ok tt /\ inv w' /\ claimed w' = claimed w /\
  (forall id, mget id (ApprovalBroker.waiters (broker w')) =
     if decide (id ∈ ids) then None else mget id (ApprovalBroker.waiters (broker w))) /\
  (forall id, id ∉ ids -> mget id (ApprovalBroker.pending (broker w')) = mget id (ApprovalBroker.pending (broker w))) /\
  (forall y, y ∈ ApprovalBroker.answered (broker w') <->
     y ∈ ApprovalBroker.answered (broker w) \/
     exists id h, id ∈ ids /\ mget id (ApprovalBroker.waiters (broker w)) = Some h /\ y = (h, deny, ApprovalBroker.abandoned)).
Proof.
  intros Hr. revert w. induction ids as [|id ids IH]; intros w Hw; cbn [for_each].
  - split_and!; [done|done|done| |done|].
    + intros id. rewrite decide_False; [done|]. apply not_elem_of_nil.
    + intros y. split; [by left|]. intros [?|(i & h & Hin & _)]; [done|]. by apply not_elem_of_nil in Hin.
  - unfold mbind, eff_bind, abandon at 1, on_broker at 1.
    pose proof (abandon_spec d (clock d (ApprovalBroker.ext (broker w))) id (broker w) (inv_broker w Hw)) as (Hwf & Hwt & Hp & Han).
    pose proof (abandon_ok d (clock d (ApprovalBroker.ext (broker w))) id (broker w) Hr) as Hok.
    destruct (ApprovalBroker.abandon _ _ _ _) as [o b1]. cbn [fst snd] in *. subst o.
    assert (Hw1 : inv (mk b1 (claimed w))).
    { split; [done|]. intros i h. cbn [broker]. rewrite Hwt, mget_mdelete. case_decide; [done|]. apply (inv_claimed w Hw). }
    specialize (IH _ Hw1). destruct (for_each _ ids (mk b1 (claimed w))) as [o w'].
    destruct IH as (-> & Hw' & Hcl & Hwt' & Hp' & Han'). cbn [broker claimed] in *. split_and!; [done|done|done| | |].
    + intros i. rewrite Hwt', Hwt, mget_mdelete. repeat case_decide; set_solver.
    + intros i Hni. rewrite not_elem_of_cons in Hni. destruct Hni as [Hne Hni]. rewrite Hp' by done. by apply Hp.
    + intros y. rewrite Han', Han, elem_of_app. setoid_rewrite Hwt. setoid_rewrite mget_mdelete.
      setoid_rewrite elem_of_cons. split.
      * intros [[Hy|Hy]|(i & h & Hin & Hg & ->)]; [by left| |].
        -- destruct (mget id (ApprovalBroker.waiters (broker w))) as [h|] eqn:Hg; [|by apply not_elem_of_nil in Hy].
           apply list_elem_of_singleton in Hy. right. exists id, h. eauto.
        -- case_decide; [done|]. right. exists i, h. eauto.
      * intros [Hy|(i & h & Hin & Hg & ->)]; [by left; left|]. destruct (decide (i = id)) as [->|Hne].
        -- left. right. rewrite Hg. by apply list_elem_of_singleton.
        -- right. exists i, h. rewrite decide_False by done. destruct Hin as [?|Hin]; [done|eauto].
Qed.

Lemma inv_step d w w' : reliable d -> step d w w' -> inv w -> inv w'.
Proof.
  intros Hr Hst Hw. destruct Hst as [w sock line|w sock|w now id v reason by_|w id Hin|w f].
  - by apply inv_onLine.
  - pose proof (close_loop d (claims sock w) w Hr Hw) as Hl. unfold onClose.
    destruct (for_each _ _ _) as [o w']. tauto.
  - assert (Hst : ApprovalBroker.step (ports d) (broker w) (ApprovalBroker.OpDecide now id v reason by_)
      (snd (ApprovalBroker.decide (ports d) now id v reason by_ (broker w)))) by constructor.
    unfold on_broker. destruct (ApprovalBroker.decide _ _ _ _ _ _ _) as [o b']. cbn [snd] in *.
    apply step_effect in Hst. split; cbn [broker]; [eapply broker_wf_effect; [apply Hw|exact Hst]|].
    intros i h Hg. apply (inv_claimed w Hw).
    destruct Hst as [->| | |? [=]]; [done|done|]. destruct H2 as [_ Hwt _ _]. rewrite Hwt, mget_mdelete in Hg. by case_decide.
  - split; cbn [broker]; [|apply (inv_claimed w Hw)]. eapply broker_wf_effect; [apply Hw|].
    by eapply (step_effect (ports d)), ApprovalBroker.step_purge.
  - by apply inv_aside; [apply aside_outside|].
Qed.

Lemma inv_reach d x w : reliable d -> reach d x w -> inv w.
Proof.
  intros Hr. induction 1 as [|w w' _ IH Hst]; [|by eapply inv_step].
  split; [apply broker_wf_new|]. intros id h Hg. done.
Qed.


(** *** A failing listener *)

Lemma open_failing d a h b e :
  mhas (toolUseId a) (ApprovalBroker.pending b) = false ->
  (forall x, fst (listen_pending d a x) = Throw e) ->
  fst (ApprovalBroker.open (ports d) a h b) = Throw e.
Proof.
  intros Hh Hl. unfold ApprovalBroker.open, mbind, eff_bind, gets, modify. cbn. rewrite Hh.
  unfold ApprovalBroker.outside. cbn.
  match goal with |- context [listen_pending d a ?x] => specialize (Hl x); destruct (listen_pending d a x) as [[u|e'] x'] end;
    cbn in *; congruence.
Qed.

Lemma openRequest_failing d sock ev w e :
  let x := ApprovalBroker.ext (broker w) in
  let a := approval_of d ev (sessionByClaudeId d (ev_session_id ev) x) (clock d x) in
  mhas (toolUseId a) (ApprovalBroker.pending (broker w)) = false ->
  (forall x', fst (listen_pending d a x') = Throw e) ->
  exists b', openRequest d sock ev w = (Throw e, mk b' (claimed w)) /\
    mget (toolUseId a) (ApprovalBroker.pending b') = Some a /\
    (exists h, mget (toolUseId a) (ApprovalBroker.waiters b') = Some h /\ h_sock h = sock).
Proof.
  intros x a Hh Hl. unfold openRequest, mbind at 1, eff_bind at 1, gets at 1. fold x.
  set (owner := sessionByClaudeId d (ev_session_id ev) x) in *. fold a.
  set (hd := mkHandle sock owner (toolUseId a)).
  unfold mbind at 1, eff_bind at 1, on_broker at 1.
  pose proof (open_failing d a hd (broker w) e Hh Hl) as Ho.
  pose proof (open_won (ports d) a hd (broker w) Hh) as (Hp & Hw & _ & _).
  destruct (ApprovalBroker.open _ _ _ _) as [o b']. cbn [fst snd] in *. subst o. exists b'. split_and!; [done| |].
  - rewrite Hp. apply mget_mset_eq.
  - exists hd. rewrite Hw. split; [apply mget_mset_eq|done].
Qed.

(** Closing leaves alone what the socket never claimed, whatever throws. *)
Lemma close_spares d ids w id :
  id ∉ ids -> let w' := snd (for_each (abandon d) ids w) in
  mget id (ApprovalBroker.pending (broker w')) = mget id (ApprovalBroker.pending (broker w)) /\
  mget id (ApprovalBroker.waiters (broker w')) = mget id (ApprovalBroker.waiters (broker w)).
Proof.
  revert w. induction ids as [|i ids IH]; intros w Hni; [done|]. cbn [for_each].
  rewrite not_elem_of_cons in Hni. destruct Hni as [Hne Hni].
  unfold mbind, eff_bind, abandon at 1 3, on_broker at 1 2. set (b := broker w) at 1 3.
  assert (Hone : mget id (ApprovalBroker.pending (snd (ApprovalBroker.abandon (ports d) (clock d (ApprovalBroker.ext b)) i b))) =
      mget id (ApprovalBroker.pending b) /\
    mget id (ApprovalBroker.waiters (snd (ApprovalBroker.abandon (ports d) (clock d (ApprovalBroker.ext b)) i b))) =
      mget id (ApprovalBroker.waiters b)).
  { set (now := clock d (ApprovalBroker.ext b)).
    destruct (mget i (ApprovalBroker.pending b)) as [a|] eqn:Ha; [destruct (decision a) eqn:Hd|].
    - rewrite abandon_idle; [done|]. intros a' Ha'. congruence.
    - pose proof (abandon_settles (ports d) now i b a Ha Hd) as [Hp Hw _ _].
      rewrite Hp, Hw, mget_mset_ne, mget_mdelete_ne by done. done.
    - rewrite abandon_idle; [done|]. intros a' Ha'. congruence. }
  destruct (ApprovalBroker.abandon _ _ _ _) as [[u|e] b1]; cbn [snd broker] in *; [|exact Hone].
  specialize (IH (mk b1 (claimed w)) Hni). cbn [broker] in IH. destruct IH as [IH1 IH2], Hone as [H1 H2].
  rewrite IH1, IH2. done.
Qed.

End laws.

Section properties.
Context {Sock O X : Type} `{EqDecision Sock}.
Implicit Types (d : HookBridge.Deps Sock O X) (w : HookBridge.t Sock O X).

(** C33. A hook that goes away takes its requests with it.  While the broker's listeners
    and the broadcasts do not throw ([failed_listener_strands_request] is what happens when
    one does): in every reachable state, when a hook socket closes, no request is left
    waiting on that socket, each request that was waiting on it is answered with
    a denial, and a request whose identifier the socket never claimed is exactly
    as before. *)
Theorem close_settles_own_requests d x w sock :
  reliable d -> reach d x w ->
  let (o, w') := onClose d sock w in
  o = Ok tt /\ (forall id, ~ waits sock id w') /\
  (forall id h, mget id (ApprovalBroker.waiters (broker w)) = Some h -> h_sock h = sock ->
     (h, deny, ApprovalBroker.abandoned) ∈ ApprovalBroker.answered (broker w')) /\
  (forall id, id ∉ claims sock w ->
     mget id (ApprovalBroker.waiters (broker w')) = mget id (ApprovalBroker.waiters (broker w)) /\
     mget id (ApprovalBroker.pending (broker w')) = mget id (ApprovalBroker.pending (broker w))).
Proof.
  intros Hr Hre. pose proof (inv_reach d x w Hr Hre) as Hw. unfold onClose.
  pose proof (close_loop d (claims sock w) w Hr Hw) as Hl. destruct (for_each _ _ _) as [o w'].
  destruct Hl as (Ho & _ & _ & Hwt & Hp & Han). split_and!; [done| | |].
  - intros id (h & Hg & Hs). rewrite Hwt in Hg. case_decide as Hin; [done|].
    pose proof (inv_claimed w Hw id h Hg) as Hc. by rewrite Hs in Hc.
  - intros id h Hg Hs. apply Han. right. exists id, h. split_and!; [|done|done].
    rewrite <- Hs. by apply (inv_claimed w Hw).
  - intros id Hni. split; [|by apply Hp]. rewrite Hwt. by rewrite decide_False.
Qed.

(** A claim outlives the request it was made for: when an identifier that a
    socket once claimed has been decided, purged and claimed again by another
    socket, closing the first socket denies the second one's request. *)
Theorem stale_claim_denies_reused_request d x w sock id h :
  reliable d -> reach d x w -> id ∈ claims sock w ->
  mget id (ApprovalBroker.waiters (broker w)) = Some h -> h_sock h <> sock ->
  let w' := snd (onClose d sock w) in
  (h, deny, ApprovalBroker.abandoned) ∈ ApprovalBroker.answered (broker w') /\
  mget id (ApprovalBroker.waiters (broker w')) = None.
Proof.
  intros Hr Hre Hin Hg _ w'. pose proof (inv_reach d x w Hr Hre) as Hw. unfold w', onClose.
  pose proof (close_loop d (claims sock w) w Hr Hw) as Hl. destruct (for_each _ _ _) as [o w1].
  destruct Hl as (_ & _ & _ & Hwt & _ & Han). cbn [snd]. split.
  - apply Han. right. by exists id, h.
  - rewrite Hwt. by rewrite decide_True.
Qed.

(** When the listener that records a new request fails, the guarded handler
    returns normally but the request is stranded: it is pending, undecided and
    waiting on its socket, the socket has no claim on it, and it is still waiting
    after the socket closes. *)
Theorem failed_listener_strands_request d sock line ev w e :
  let x := ApprovalBroker.ext (broker w) in
  let a := approval_of d ev (sessionByClaudeId d (ev_session_id ev) x) (clock d x) in
  is_blank line = false -> parseJson d line = Some (HookRequest ev) ->
  mhas (toolUseId a) (ApprovalBroker.pending (broker w)) = false -> toolUseId a ∉ claims sock w ->
  (forall x', fst (listen_pending d a x') = Throw e) ->
  let w1 := snd (onLine d sock line w) in
  let w2 := snd (onClose d sock w1) in
  fst (onLine d sock line w) = Ok tt /\
  mget (toolUseId a) (ApprovalBroker.pending (broker w2)) = Some a /\ decision a = None /\ waits sock (toolUseId a) w2.
Proof.
  intros x a Hb Hp Hh Hc Hl w1 w2.
  destruct (openRequest_failing d sock ev w e Hh Hl) as (b' & Ho & Hpd & h & Hwt & Hs).
  assert (Hline : onLine d sock line w = (Ok tt, mk b' (claimed w)))
    by (unfold onLine; rewrite Hb, Hp; unfold try_catch; by rewrite Ho).
  assert (Hw1 : w1 = mk b' (claimed w)) by (unfold w1; by rewrite Hline).
  destruct (close_spares d (claims sock w1) w1 (toolUseId a)) as [H1 H2]; [by rewrite Hw1|].
  rewrite Hline. split_and!; [done| |done|].
  - unfold w2, onClose. rewrite H1, Hw1. exact Hpd.
  - exists h. unfold w2, onClose. rewrite H2, Hw1. done.
Qed.

End properties.

(** ** A concrete bridge: two hook sockets, no session, one identifier *)

Definition demo_parse (line : string) : option HookMessage :=
  if decide (line = "req") then Some (HookRequest (mkHookEvent (Some "t1") None (Some "Bash") None None)) else None.

Definition demo_bridge (listener : PendingApproval -> eff unit unit) : HookBridge.Deps nat unit unit :=
  mkDeps (fun _ _ => None) (fun _ => "") (fun _ _ x => x) (fun _ _ x => x)
    (fun _ _ => mkSessionInfo "" None "" "" idle None 0 0 0) 1000 (fun _ => mret tt) listener (fun _ => mret tt)
    (fun _ _ x => x) (fun _ x => x) (fun _ => 5) demo_parse.

Definition quiet_bridge : HookBridge.Deps nat unit unit := demo_bridge (fun _ => mret tt).

Lemma quiet_reliable : reliable quiet_bridge.
Proof. by split. Qed.

(** Socket 1 opens [t1]; a client allows it; the timer purges it; socket 2 opens [t1]. *)
Definition demo_first : HookBridge.t nat unit unit :=
  snd (onLine quiet_bridge 1%nat "req" (mk (ApprovalBroker.new tt) [])).
Definition demo_decided : HookBridge.t nat unit unit :=
  snd (on_broker (ApprovalBroker.decide (ports quiet_bridge) 6 "t1" allow "" "phone") demo_first).
Definition demo_reused : HookBridge.t nat unit unit :=
  snd (onLine quiet_bridge 2%nat "req" (mk (ApprovalBroker.purge "t1" (broker demo_decided)) (claimed demo_decided))).

Lemma demo_reused_reach : reach quiet_bridge tt demo_reused.
Proof.
  eapply reach_step; [|apply step_line]. eapply reach_step; [|apply step_purge; vm_compute; constructor].
  eapply reach_step; [|apply step_decide]. eapply reach_step; [|apply step_line]. apply reach_new.
Qed.

Lemma close_settles_own_requests_witness :
  (mkHandle 2%nat None "t1", deny, ApprovalBroker.abandoned) ∈
    ApprovalBroker.answered (broker (snd (onClose quiet_bridge 2%nat demo_reused))).
Proof.
  assert (Hg : mget "t1" (ApprovalBroker.waiters (broker demo_reused)) = Some (mkHandle 2%nat None "t1"))
    by (vm_compute; reflexivity).
  pose proof (close_settles_own_requests quiet_bridge tt demo_reused 2%nat quiet_reliable demo_reused_reach) as H.
  destruct (onClose quiet_bridge 2%nat demo_reused) as [o w'].
  destruct H as (_ & _ & H & _). exact (H "t1" _ Hg eq_refl).
Defined.

Lemma stale_claim_denies_reused_request_witness :
  (mkHandle 2%nat None "t1", deny, ApprovalBroker.abandoned) ∈
    ApprovalBroker.answered (broker (snd (onClose quiet_bridge 1%nat demo_reused))).
Proof.
  refine (proj1 (stale_claim_denies_reused_request quiet_bridge tt demo_reused 1%nat "t1" (mkHandle 2%nat None "t1")
    quiet_reliable demo_reused_reach _ eq_refl _)); [vm_compute; constructor|discriminate].
Defined.

Lemma failed_listener_strands_request_witness :
  let d := demo_bridge (fun _ => throw "SQLITE_BUSY") in
  waits 1%nat "t1" (snd (onClose d 1%nat (snd (onLine d 1%nat "req" (mk (ApprovalBroker.new tt) []))))).
Proof.
  intros d.
  refine (proj2 (proj2 (proj2 (failed_listener_strands_request d 1%nat "req"
    (mkHookEvent (Some "t1") None (Some "Bash") None None) (mk (ApprovalBroker.new tt) []) "SQLITE_BUSY"
    eq_refl eq_refl eq_refl _ (fun _ => eq_refl))))).
  apply not_elem_of_nil.
Defined.
