(* ===== verification/Delivery.v ===== *)
(** * Delivery from the daemon to a client, end to end

    The client engine of [Client] fed with what the handler of [Connection] writes
    to its socket: [packages/protocol/src/client.ts] against
    [packages/daemon/src/interface/clientConnection.ts] and the registry behind
    it.  A connection delivers what was written to it, in order, up to the point
    where it is cut. *)

From S2P Require Import Prelude JsMap Js Types Encode Frame Sync Resend Replay DeviceSessions Client Commands Hub Pairing Connection.
Import ClientConnection.

Local Open Scope Z_scope.

Module Delivery.

Section delivery.
Context {Key Nonce : Type} `{SessionCrypto Key Nonce}.

(** A handshake message as the client reads it: its type, and the fields of a salt. *)
Definition wire_of_raw (m : UnauthServerMessage) : WireMsg :=
  match m with
  | session_salt salt resumed count => msg_of_salt salt resumed count
  | pair_qr _ _ => mkWireMsg (Some "pair_qr") None "" false None "" "" ""
  | paired _ _ => mkWireMsg (Some "paired") None "" false None "" "" ""
  | pair_failed => mkWireMsg (Some "pair_failed") None "" false None "" "" ""
  | hello_failed => mkWireMsg (Some "hello_failed") None "" false None "" "" ""
  end.

Definition wire_of (o : ClientHub.WireOut) : WireMsg :=
  match o with
  | ClientHub.Raw m => wire_of_raw m
  | ClientHub.Sealed f => msg_of_frame f
  end.

(** The hello the engine queues, as the daemon parses it. *)
Definition hello_json (o : ReliableClient.Outbound) : jsval :=
  match o with
  | ReliableClient.OHello deviceId lastSeq =>
      JObj ([("type", JStr "hello"); ("deviceId", JStr deviceId)] ++
            match lastSeq with Some n => [("lastSeq", JNum (NumFin (inject_Z n)))] | None => [] end)
  | ReliableClient.OFrame f =>
      JObj [("n", JStr (f_n f)); ("c", JStr (f_c f)); ("t", JStr (f_t f)); ("seq", JNum (NumFin (inject_Z (f_seq f))))]
  end.

(** What [onOpen] queues. *)
Definition hello_of (deviceId : string) (c : ReliableClient.t Key) : option ReliableClient.Outbound :=
  last (ReliableClient.outbox (ReliableClient.onOpen deviceId c)).

(** The engine on a sequence of messages: the state after, and its callbacks in
    order.  [rnd] supplies the nonces of the commands it resends. *)
Fixpoint feed (deriveKey : string -> Key) (rnd : nat -> Nonce) (c : ReliableClient.t Key) (ms : list WireMsg)
    : ReliableClient.t Key * list ReliableClient.Callback :=
  match ms with
  | [] => (c, [])
  | m :: ms' =>
      let (c1, cbs1) := ReliableClient.onMessage deriveKey rnd c m in
      let (c2, cbs2) := feed deriveKey rnd c1 ms' in
      (c2, cbs1 ++ cbs2)
  end.

(** The callback a numbered event amounts to. *)
Definition callback_of (e : Z * ServerEvent) : ReliableClient.Callback :=
  match e.2 with
  | ack n => ReliableClient.onAck n
  | ev => ReliableClient.onEvent (PEv ev) e.1
  end.

(** The numbers of [es] ascend from above [n]. *)
Fixpoint ascending (n : Z) (es : list (Z * ServerEvent)) : Prop :=
  match es with
  | [] => True
  | e :: es' => n < e.1 /\ ascending e.1 es'
  end.

Definition last_number (n : Z) (es : list (Z * ServerEvent)) : Z := default n (fst <$> last es).

End delivery.

End Delivery.

Import Delivery.

Section laws.
Context {Key Nonce : Type} `{SessionCrypto Key Nonce} {Sock : Type}.
Implicit Types (c : ReliableClient.t Key) (es : list (Z * ServerEvent)) (k : Key).

Lemma feed_app deriveKey rnd c ms1 ms2 :
  feed deriveKey rnd c (ms1 ++ ms2) =
    let (c1, cbs1) := feed deriveKey rnd c ms1 in
    let (c2, cbs2) := feed deriveKey rnd c1 ms2 in (c2, cbs1 ++ cbs2).
Proof.
  revert c. induction ms1 as [|m ms1 IH]; intros c; simpl.
  - by destruct (feed _ _ c ms2).
  - destruct (ReliableClient.onMessage _ _ _ _) as [c1 cbs1]. rewrite IH.
    destruct (feed _ _ c1 ms1) as [c2 cbs2]. destruct (feed _ _ c2 ms2) as [c3 cbs3]. by rewrite app_assoc.
Qed.

(** One authentic frame with a number above everything accepted. *)
Lemma onMessage_fresh deriveKey rnd c k (f : SealedFrame) (ev : ServerEvent) :
  ReliableClient.key c = Some k -> open_frame k f d2c = Some (PEv ev) ->
  ReliableClient.resumeSeq c < f_seq f ->
  let (c', cbs) := ReliableClient.onMessage deriveKey rnd c (msg_of_frame f) in
  cbs = [callback_of (f_seq f, ev)] /\ ReliableClient.key c' = Some k /\ ReliableClient.resumeSeq c' = f_seq f.
Proof.
  intros Hk Ho Hlt. unfold ReliableClient.onMessage. rewrite Hk. cbn [w_seq msg_of_frame].
  replace (wire_frame (msg_of_frame f) (f_seq f)) with f by (by destruct f). rewrite Ho.
  pose proof (accept_fresh (ReliableClient.inb c) (f_seq f) Hlt) as Hf.
  pose proof (accept_highest_max (ReliableClient.inb c) (f_seq f)) as Hh.
  destruct (InboundStream.accept (ReliableClient.inb c) (f_seq f)) as [ok inb']. cbn [fst snd] in *. subst ok.
  unfold ReliableClient.resumeSeq, InboundStream.lastSeq in *.
  destruct ev; (split; [done|]; split; [done|]; cbn; lia).
Qed.

(** A run of them. *)
Lemma feed_frames deriveKey rnd (sock : Sock) k es ws c :
  ReliableClient.key c = Some k -> Forall2 (carries sock k) es ws ->
  ascending (ReliableClient.resumeSeq c) es ->
  let (c', cbs) := feed deriveKey rnd c (wire_of <$> ws.*2) in
  cbs = callback_of <$> es /\ ReliableClient.key c' = Some k /\
  ReliableClient.resumeSeq c' = last_number (ReliableClient.resumeSeq c) es.
Proof.
  intros Hk Hall. revert c Hk. induction Hall as [|e w es ws (Hs & f & Hw & Hseq & Ho) _ IH]; intros c Hk Hasc; [done|].
  destruct Hasc as [Hlt Hasc]. destruct w as [s o]. cbn [fst snd] in *. subst s o.
  cbn [fmap list_fmap snd wire_of feed].
  pose proof (onMessage_fresh deriveKey rnd c k f e.2 Hk Ho) as Hone. rewrite Hseq in Hone. specialize (Hone Hlt).
  destruct (ReliableClient.onMessage _ _ _ _) as [c1 cbs1]. destruct Hone as (-> & Hk1 & Hr1).
  rewrite <- Hr1 in Hasc. specialize (IH c1 Hk1 Hasc).
  destruct (feed _ _ c1 _) as [c2 cbs2]. destruct IH as (-> & Hk2 & Hr2). split_and!; [|done|].
  - by destruct e.
  - rewrite Hr2, Hr1. unfold last_number. rewrite last_cons. by destruct (last es).
Qed.


(** *** The numbers of what is owed *)

Lemma drop_imap {A B} (f : nat -> A -> B) (m : nat) (l : list A) :
  drop m (imap f l) = imap (fun i => f (m + i)%nat) (drop m l).
Proof.
  revert f l. induction m as [|m IH]; intros f [|x l]; try done.
  rewrite imap_cons. simpl. rewrite IH. done.
Qed.

Lemma consecutive_ascends {A} (g : A -> ServerEvent) (n : Z) (l : list A) :
  let es := imap (fun i a => (n + Z.of_nat (S i), g a)) l in
  ascending n es /\ last_number n es = n + Z.of_nat (length l).
Proof.
  revert n. induction l as [|a l IH]; intros n; [split; [done|unfold last_number; simpl; lia]|].
  cbn zeta. rewrite imap_cons. change (Z.of_nat 1) with 1.
  assert (Hs : imap ((fun i a => (n + Z.of_nat (S i), g a)) ∘ S) l = imap (fun i a => (n + 1 + Z.of_nat (S i), g a)) l)
    by (apply imap_ext; intros i x _; simpl; f_equal; lia).
  rewrite Hs. destruct (IH (n + 1)) as [Ha Hl]. cbn [ascending fst]. split; [split; [lia|done]|].
  unfold last_number in *. rewrite last_cons. cbn [length]. rewrite Nat2Z.inj_succ.
  destruct (last _) as [e|]; cbn in *; lia.
Qed.

Lemma owed_ascends {X Ev R} (d : ClientConnection.Deps Key Nonce Sock X Ev R) r cap (h : list Ev) n evs :
  0 <= n -> DeviceSessions.owed cap h n = Some evs ->
  ascending n (contents d r evs) /\ last_number n (contents d r evs) = Z.of_nat (length h).
Proof.
  intros Hn. unfold DeviceSessions.owed. destruct (Z.leb_spec n (Z.of_nat (length h))) as [Hle|]; [|done].
  destruct (_ <=? n); [|done]. intros [= <-].
  assert (Hc : contents d r (drop (Z.to_nat n) (DeviceSessions.numbered h)) =
    imap (fun i a => (n + Z.of_nat (S i), content d r a)) (drop (Z.to_nat n) h)).
  { unfold contents, DeviceSessions.numbered. rewrite drop_imap, fmap_imap. apply imap_ext.
    intros i x _. unfold compose, prod_map. cbn. f_equal. lia. }
  rewrite Hc. destruct (consecutive_ascends (content d r) n (drop (Z.to_nat n) h)) as [Ha Hl].
  split; [done|]. rewrite Hl, length_drop. lia.
Qed.

Lemma ascending_snoc n es e : ascending n es -> last_number n es < e.1 -> ascending n (es ++ [e]).
Proof.
  revert n. induction es as [|e' es IH]; intros n Ha Hl; [by split|]. destruct Ha as [Hlt Ha]. split; [done|].
  apply IH; [done|]. unfold last_number in *. rewrite last_cons in Hl. by destruct (last es).
Qed.

(** The hello of a client that has seen something. *)
Lemma hello_of_seen deviceId c :
  0 < ReliableClient.resumeSeq c ->
  hello_of deviceId c = Some (ReliableClient.OHello deviceId (Some (ReliableClient.resumeSeq c))).
Proof.
  intros Hn. unfold hello_of, ReliableClient.onOpen. cbn [ReliableClient.outbox]. rewrite last_snoc.
  unfold ReliableClient.resumeSeq in *. by rewrite (proj2 (Z.ltb_lt _ _) Hn).
Qed.

Lemma claimed_seq_int n : 0 <= n -> claimed_seq (JNum (NumFin (inject_Z n))) = Some n.
Proof.
  intros Hn. unfold claimed_seq, is_integer, inject_Z. cbn [Qnum Qden]. rewrite Z.mod_1_r, Z.div_1_r.
  rewrite decide_True by done. by rewrite (proj2 (Z.leb_le _ _) Hn).
Qed.

(** The engine on a salt it can resume with. *)
Lemma feed_salt deriveKey rnd c salt (count : Z) ms :
  ReliableClient.key c = None ->
  exists c1, ReliableClient.key c1 = Some (deriveKey salt) /\
    ReliableClient.resumeSeq c1 = ReliableClient.resumeSeq c /\
    feed deriveKey rnd c (wire_of (ClientHub.Raw (session_salt salt true (Some count))) :: ms) =
      let (c2, cbs) := feed deriveKey rnd c1 ms in (c2, ReliableClient.onReady true count :: cbs).
Proof.
  intros Hk. cbn [feed wire_of wire_of_raw]. unfold ReliableClient.onMessage. rewrite Hk.
  exists (fst (ReliableClient.onSessionSalt deriveKey rnd c (msg_of_salt salt true (Some count)))).
  split_and!; [done|done|]. cbn [w_type msg_of_salt]. unfold ReliableClient.onSessionSalt. cbn [fst w_replayedCount msg_of_salt w_resumed].
  rewrite decide_False by discriminate. rewrite decide_True by done. by destruct (feed _ _ _ ms).
Qed.

End laws.

(** C9. Reconnecting loses nothing and repeats nothing, end to end.  A client that
    was cut off after event [resumeSeq] reconnects while the daemon's replay log can still
    honour that number: the daemon has not restarted, nor evicted the device, nor dropped an
    event after the number (otherwise the answer is a full resync, [Daemon.snapshot]).  The
    daemon, which has sent its device the events [h], answers; and the client, fed with
    exactly what the daemon wrote to its socket, announces the resume, delivers
    each event after its own number once and in order, then learns the
    acknowledgement level, and ends with the registry's own count as its number,
    ready for the next event. *)
Theorem reconnect_delivers_exactly {Key Nonce Sock X Ev R} `{SessionCryptoLaws Key Nonce serializable} `{EqDecision Sock}
    (d : ClientConnection.Deps Key Nonce Sock X Ev R) (w : ClientConnection.t Key Sock X Ev R) sock
    (c : ReliableClient.t Key) deriveKey rnd o device salt r2 n h evs :
  ReliableClient.key c = None -> 0 < ReliableClient.resumeSeq c ->
  hello_of (Identity.deviceId device) c = Some o ->
  resumes serializable d (hello_json o) w device salt (deriveKey salt) r2 n h evs ->
  let level := DeviceSessions.ackLevel (Identity.deviceId device) (registry w) in
  exists ws,
    ClientHub.written (hub (snd (handleUnauth d sock (hello_json o) w))) = ClientHub.written (hub w) ++ ws /\
    Forall (fun e => e.1 = sock) ws /\
    let (c', cbs) := feed deriveKey rnd c (wire_of <$> ws.*2) in
    cbs = ReliableClient.onReady true (Z.of_nat (length evs)) :: (callback_of <$> contents d r2 evs) ++
          (if 0 <? level then [ReliableClient.onAck level] else []) /\
    evs = drop (Z.to_nat (ReliableClient.resumeSeq c)) (DeviceSessions.numbered h) /\
    ReliableClient.resumeSeq c' = Z.of_nat (length h) + (if 0 <? level then 1 else 0).
Proof.
  intros Hk Hpos Ho Hres level. rewrite hello_of_seen in Ho by done. injection Ho as <-.
  assert (Hn : n = ReliableClient.resumeSeq c).
  { pose proof (rs_claim _ _ _ _ _ _ _ _ _ _ _ Hres) as Hc.
    change (claimed_seq (JNum (NumFin (inject_Z (ReliableClient.resumeSeq c)))) = Some n) in Hc.
    rewrite claimed_seq_int in Hc by lia. congruence. }
  destruct (hello_writes d sock _ w device salt _ r2 n h evs Hres) as (frames & acks & Hw & Hfr & Hack).
  fold level in Hack. pose proof (rs_owed _ _ _ _ _ _ _ _ _ _ _ Hres) as Howed. rewrite Hn in Howed.
  destruct (owed_ascends d r2 _ h _ evs (Z.lt_le_incl _ _ Hpos) Howed) as [Hasc Hlast].
  eexists. split; [exact Hw|].
  assert (Hackl : Forall2 (carries sock (deriveKey salt))
    (if 0 <? level then [(Z.of_nat (length h) + 1, ack level)] else []) acks).
  { destruct (0 <? level); [|by rewrite Hack]. destruct Hack as (fr & -> & Hc). by constructor. }
  pose proof (Forall2_app Hfr Hackl) as Hall.
  split.
  { constructor; [done|]. clear -Hall. induction Hall as [|e x es xs [Hs _] _ IH]; by constructor. }
  cbn [fmap list_fmap snd].
  destruct (feed_salt deriveKey rnd c salt (Z.of_nat (length evs)) (wire_of <$> (frames ++ acks).*2) Hk) as (c1 & Hk1 & Hr1 & Hf).
  rewrite Hf. rewrite <- Hr1 in Hasc, Hlast.
  assert (Hall_asc : ascending (ReliableClient.resumeSeq c1)
    (contents d r2 evs ++ if 0 <? level then [(Z.of_nat (length h) + 1, ack level)] else [])).
  { destruct (0 <? level); [|by rewrite app_nil_r]. apply ascending_snoc; [done|]. rewrite Hlast. cbn. lia. }
  pose proof (feed_frames deriveKey rnd sock (deriveKey salt) _ _ c1 Hk1 Hall Hall_asc) as Hfeed.
  destruct (feed deriveKey rnd c1 _) as [c' cbs]. destruct Hfeed as (-> & _ & Hr'). split_and!.
  - f_equal. rewrite fmap_app. f_equal. by destruct (0 <? level).
  - unfold DeviceSessions.owed in Howed. destruct (_ && _); congruence.
  - rewrite Hr'. destruct (0 <? level); [|by rewrite app_nil_r, Hlast, Z.add_0_r].
    unfold last_number. by rewrite last_snoc.
Qed.

(** ** The phone of [Connection], cut off after its first event *)

Section demo.
#[local] Existing Instance node_SessionCrypto.
#[local] Existing Instance toy_platform.

Definition demo_client : ReliableClient.t string :=
  ReliableClient.onClose (ReliableClient.mk (InboundStream.run [1])
    (ResendBuffer.new ResendBuffer.default_capacity) 0 (Some "old key") []).

Definition demo_outbound : ReliableClient.Outbound := ReliableClient.OHello "phone" (Some 1).

Lemma reconnect_delivers_exactly_witness :
  exists ws,
    ClientHub.written (hub (snd (handleUnauth demo_deps 1%nat (hello_json demo_outbound) demo_resumable))) = [] ++ ws /\
    let (c', cbs) := feed (fun salt => "key-" +:+ salt) (fun _ => "n") demo_client (wire_of <$> ws.*2) in
    cbs = [ReliableClient.onReady true 1; ReliableClient.onEvent (PEv (error "b")) 2; ReliableClient.onAck 1] /\
    ReliableClient.resumeSeq c' = 3.
Proof.
  destruct (reconnect_delivers_exactly (serializable:=fun _ => True)
    (H0:=@node_SessionCryptoLaws string toy_platform (fun _ => True) toy_platform_laws)
    demo_deps demo_resumable 1%nat demo_client (fun salt => "key-" +:+ salt) (fun _ => "n") demo_outbound demo_phone
    "salt" tt 1 _ _ eq_refl eq_refl eq_refl demo_resumes) as (ws & Hw & _ & Hf).
  exists ws. split; [exact Hw|].
  destruct (feed _ _ _ _) as [c' cbs]. destruct Hf as (Hc & _ & Hr). split; [exact Hc|exact Hr].
Defined.

End demo.
