(* ===== verification/Bytes.v ===== *)
(** * Bytes

    [Buffer] and [Uint8Array] as lists of integers, and what the sources call on them.
    A text is the byte string of its UTF-8 encoding, so
    [Buffer.from(s, 'utf8')] reads off its bytes. *)

From S2P Require Import Prelude JsMap.
From Stdlib Require Export Ascii.
From Stdlib Require String.

Local Open Scope Z_scope.

Notation bytes := (list Z).

Definition is_byte (b : Z) : Prop := 0 <= b < 256.

(** [buf.length] *)
Definition blen (b : bytes) : Z := Z.of_nat (length b).

(** [buf[i]], for an index the source has checked. *)
Definition byte_at (b : bytes) (i : nat) : Z := default 0 (b !! i).

(** [buf.subarray(i, j)] *)
Definition subarray (b : bytes) (i j : nat) : bytes := take (j - i) (drop i b).

(** [Buffer.from(s, 'utf8')] and [buf.toString('utf8')]. *)
Definition utf8_bytes (s : string) : bytes :=
  (fun c => Z.of_N (N_of_ascii c)) <$> String.list_ascii_of_string s.

Definition utf8_text (b : bytes) : string :=
  String.string_of_list_ascii ((fun z => ascii_of_N (Z.to_N z)) <$> b).

(** Big-endian integers: [readUInt16BE], [readBigUInt64BE], [writeBigUInt64BE]. *)
Definition be_value (b : bytes) : Z := foldl (fun acc x => acc * 256 + x) 0 b.

Fixpoint be_bytes (n : nat) (v : Z) : bytes :=
  match n with
  | O => []
  | S n' => be_bytes n' (v / 256) ++ [v mod 256]
  end.

(** ** Laws *)

Lemma is_byte_0 : is_byte 0.
Proof. unfold is_byte. lia. Qed.

Lemma blen_nonneg b : 0 <= blen b.
Proof. unfold blen. lia. Qed.

Lemma blen_app a b : blen (a ++ b) = blen a + blen b.
Proof. unfold blen. rewrite length_app. lia. Qed.

Lemma byte_at_app_l a b i : (i < length a)%nat -> byte_at (a ++ b) i = byte_at a i.
Proof. intros Hi. unfold byte_at. by rewrite lookup_app_l. Qed.

Lemma subarray_app_l a b i j : (j <= length a)%nat -> subarray (a ++ b) i j = subarray a i j.
Proof.
  intros Hj. unfold subarray. destruct (decide (i <= length a)%nat) as [Hi|Hi].
  - rewrite drop_app_le by lia. rewrite take_app_le; [done|]. rewrite length_drop. lia.
  - replace (j - i)%nat with 0%nat by lia. done.
Qed.

Lemma subarray_middle a b c : subarray (a ++ b ++ c) (length a) (length a + length b) = b.
Proof.
  unfold subarray. rewrite drop_app_length, Nat.add_comm, Nat.add_sub. by rewrite take_app_length.
Qed.

Lemma length_subarray b i j : (j <= length b)%nat -> length (subarray b i j) = (j - i)%nat.
Proof. intros Hj. unfold subarray. rewrite length_take, length_drop. lia. Qed.

Lemma utf8_text_bytes s : utf8_text (utf8_bytes s) = s.
Proof.
  unfold utf8_text, utf8_bytes. rewrite <- list_fmap_compose.
  rewrite <- (String.string_of_list_ascii_of_string s) at 2. f_equal.
  etrans; [|apply list_fmap_id]. apply list_fmap_ext. intros i c _. simpl.
  by rewrite N2Z.id, ascii_N_embedding.
Qed.

Lemma utf8_bytes_range s : Forall is_byte (utf8_bytes s).
Proof.
  unfold utf8_bytes. apply Forall_fmap, Forall_true. intros c. unfold is_byte; simpl.
  pose proof (N_ascii_bounded c). lia.
Qed.

Lemma utf8_bytes_app a b : utf8_bytes (a +:+ b) = utf8_bytes a ++ utf8_bytes b.
Proof. 
  unfold utf8_bytes. induction a as [|c a IH]; [done|].
  change (String c a +:+ b) with (String c (a +:+ b)). cbn [String.list_ascii_of_string].
  rewrite !fmap_cons. simpl. by rewrite IH.
Qed.

Lemma utf8_bytes_text b : Forall is_byte b -> utf8_bytes (utf8_text b) = b.
Proof.
  intros Hb. unfold utf8_text, utf8_bytes.
  rewrite String.list_ascii_of_string_of_list_ascii, <- list_fmap_compose.
  induction Hb as [|x b Hx _ IH]; [done|]. rewrite fmap_cons, IH. f_equal. simpl.
  unfold is_byte in Hx. rewrite N_ascii_embedding; lia.
Qed.

Lemma length_be_bytes n v : length (be_bytes n v) = n.
Proof. revert v. induction n as [|n IH]; intros v; [done|]. simpl. rewrite length_app, IH. simpl. lia. Qed.

Lemma be_value_app a b : be_value (a ++ [b]) = be_value a * 256 + b.
Proof. unfold be_value. by rewrite foldl_app. Qed.

(** [read(write(v)) = v] for a value of the width. *)
Lemma be_value_bytes n v : 0 <= v < 256 ^ Z.of_nat n -> be_value (be_bytes n v) = v.
Proof.
  revert v. induction n as [|n IH]; intros v Hv.
  - simpl in *. unfold be_value. simpl. lia.
  - simpl. rewrite be_value_app, IH.
    + pose proof (Z.div_mod v 256 ltac:(lia)). lia.
    + rewrite Nat2Z.inj_succ, Z.pow_succ_r in Hv by lia. split.
      * apply Z.div_pos; lia.
      * apply Z.div_lt_upper_bound; lia.
Qed.

Lemma be_bytes_range n v : Forall is_byte (be_bytes n v).
Proof.
  revert v. induction n as [|n IH]; intros v; simpl; [done|].
  apply Forall_app. split; [done|]. constructor; [|done].
  unfold is_byte. pose proof (Z.mod_pos_bound v 256). lia.
Qed.

(** A fact about every byte, settled by evaluation. *)
Lemma byte_forall (f : Z -> bool) :
  forallb f (seqZ 0 256) = true -> forall b, is_byte b -> f b = true.
Proof.
  intros Hf b Hb. rewrite forallb_forall in Hf. apply Hf.
  apply list_elem_of_In, elem_of_seqZ. unfold is_byte in Hb. lia.
Qed.

Lemma lxor_involutive a m : Z.lxor (Z.lxor a m) m = a.
Proof. by rewrite Z.lxor_assoc, Z.lxor_nilpotent, Z.lxor_0_r. Qed.
