(* ===== verification/Utf8.v ===== *)
(** * Decoding the chunks of a stream

    [chunk.toString('utf8')], which [packages/daemon/src/interface/clientConnection.ts],
    [hookBridge.ts] and [infrastructure/session.ts] call on every chunk of a socket or a
    pipe by itself: the decoder of the WHATWG encoding standard, as Node implements it, and
    what becomes of a character that two chunks share. *)

From S2P Require Import Prelude JsMap Bytes Framing.

Local Open Scope Z_scope.

Module Utf8.

(** U+FFFD *)
Definition replacement : Z := 65533.

(** The decoder between two bytes: the continuation bytes it [need]s, the range of the
    next one, and the bits so far. *)
Record state : Type := mk { need : nat; low : Z; high : Z; bits : Z }.

Definition start : state := mk 0 128 191 0.

(** A byte where a character may begin. *)
Definition lead (b : Z) : list Z * state :=
  if b <? 128 then ([b], start)
  else if b <? 194 then ([replacement], start)
  else if b <? 224 then ([], mk 1 128 191 (b - 192))
  else if b <? 240 then ([], mk 2 (if b =? 224 then 160 else 128) (if b =? 237 then 159 else 191) (b - 224))
  else if b <? 245 then ([], mk 3 (if b =? 240 then 144 else 128) (if b =? 244 then 143 else 191) (b - 240))
  else ([replacement], start).

Definition continues (s : state) (b : Z) : bool := (low s <=? b) && (b <=? high s).

(** One byte: a byte that does not continue the character begins the next one. *)
Definition step (s : state) (b : Z) : list Z * state :=
  match need s with
  | O => lead b
  | S n =>
      if continues s b then
        let v := bits s * 64 + (b - 128) in
        match n with O => ([v], start) | _ => ([], mk n 128 191 v) end
      else let (out, s') := lead b in (replacement :: out, s')
  end.

Fixpoint feed (s : state) (bs : bytes) : list Z * state :=
  match bs with
  | [] => ([], s)
  | b :: bs' =>
      let (out, s1) := step s b in
      let (out', s2) := feed s1 bs' in
      (out ++ out', s2)
  end.

(** What the decoder says at the end of its input. *)
Definition finish (s : state) : list Z := match need s with O => [] | _ => [replacement] end.

Definition decode (s : state) (bs : bytes) : list Z := let (out, s') := feed s bs in out ++ finish s'.

(** [chunk.toString('utf8')]: the code points. *)
Definition toString (bs : bytes) : list Z := decode start bs.

(** [buf += chunk.toString('utf8')] over the chunks of a stream. *)
Definition read (chunks : list bytes) : list Z := concat (toString <$> chunks).

(** [Buffer.from(text, 'utf8')] *)
Definition encode (c : Z) : bytes :=
  if c <? 128 then [c]
  else if c <? 2048 then [192 + c / 64; 128 + c mod 64]
  else if c <? 65536 then [224 + c / 4096; 128 + c / 64 mod 64; 128 + c mod 64]
  else [240 + c / 262144; 128 + c / 4096 mod 64; 128 + c / 64 mod 64; 128 + c mod 64].

Definition encode_text (cs : list Z) : bytes := concat (encode <$> cs).

(** The text of a chunk, as the strings of the development. *)
Definition chunk_text (bs : bytes) : string := utf8_text (encode_text (toString bs)).

(** ** Vocabulary *)

(** A Unicode scalar value. *)
Definition scalar (c : Z) : Prop := 0 <= c < 1114112 /\ ~ (55296 <= c < 57344).

(** The cut between [a] and [b] goes through a character. *)
Definition splits (a b : bytes) : Prop :=
  match b with
  | [] => False
  | x :: _ => let s := snd (feed start a) in need s <> 0%nat /\ continues s x = true
  end.

End Utf8.

Import Utf8.

(** ** Laws *)

Lemma decoder_feed_app s a b : feed s (a ++ b) = let (o1, s1) := feed s a in let (o2, s2) := feed s1 b in (o1 ++ o2, s2).
Proof.
  revert s. induction a as [|x a IH]; intros s; cbn [app feed]; [by destruct (feed s b)|].
  destruct (step s x) as [o s1]. rewrite IH. destruct (feed s1 a) as [o1 s2]. destruct (feed s2 b) as [o2 s3].
  by rewrite app_assoc.
Qed.

Lemma decode_cons s x bs : decode s (x :: bs) = fst (step s x) ++ decode (snd (step s x)) bs.
Proof.
  unfold decode. cbn [feed]. destruct (step s x) as [o s1]. cbn [fst snd]. destruct (feed s1 bs) as [o' s2]. by rewrite app_assoc.
Qed.

Lemma decode_app s a b : decode s (a ++ b) = fst (feed s a) ++ decode (snd (feed s a)) b.
Proof.
  unfold decode. rewrite decoder_feed_app. destruct (feed s a) as [o s1]. cbn [fst snd]. destruct (feed s1 b) as [o' s2]. by rewrite app_assoc.
Qed.

Lemma decode_split s a : decode s a = fst (feed s a) ++ finish (snd (feed s a)).
Proof. unfold decode. by destruct (feed s a). Qed.

(** The ranges of a decoder that waits hold continuation bytes only. *)
Definition sane (s : state) : Prop := need s <> 0%nat -> 128 <= low s /\ high s <= 191.

Lemma sane_start : sane start.
Proof. by intros []. Qed.

Lemma sane_lead b : sane (snd (lead b)).
Proof.
  unfold lead, sane. repeat match goal with |- context [if ?c then _ else _] => destruct c end; cbn; lia.
Qed.

Lemma sane_step s b : sane s -> sane (snd (step s b)).
Proof.
  intros Hs. unfold step. destruct (need s) as [|n]; [apply sane_lead|]. destruct (continues s b).
  - destruct n; [apply sane_start|]. unfold sane. cbn. lia.
  - pose proof (sane_lead b) as Hl. by destruct (lead b).
Qed.

Lemma sane_feed s bs : sane s -> sane (snd (feed s bs)).
Proof.
  revert s. induction bs as [|b bs IH]; intros s Hs; cbn [feed]; [done|]. pose proof (sane_step s b Hs) as H1.
  destruct (step s b) as [o s1]. cbn [snd] in H1. specialize (IH s1 H1). by destruct (feed s1 bs).
Qed.

(** A continuation byte at the start of a chunk is one replacement character. *)
Lemma lead_continuation b : 128 <= b <= 191 -> lead b = ([replacement], start).
Proof. intros Hb. unfold lead. destruct (Z.ltb_spec b 128); [lia|]. destruct (Z.ltb_spec b 194); [done|lia]. Qed.

Lemma decode_start_continuation b bs : 128 <= b <= 191 -> decode start (b :: bs) = replacement :: decode start bs.
Proof. intros Hb. rewrite decode_cons. change (step start b) with (lead b). by rewrite lead_continuation. Qed.

(** Begun afresh, the rest of a stream reads no shorter, but for the replacement that the
    character given up leaves. *)
Lemma resume_length s bs : sane s -> need s <> 0%nat ->
  (length (decode s bs) <= length (decode start bs) + 1)%nat /\
  match bs with
  | x :: _ => continues s x = true -> (length (decode s bs) <= length (decode start bs))%nat
  | [] => True
  end.
Proof.
  revert s. induction bs as [|x bs IH]; intros s Hs Hn.
  { unfold decode, finish. cbn. by destruct (need s). }
  destruct (continues s x) eqn:Hc.
  - enough (Hle : (length (decode s (x :: bs)) <= length (decode start (x :: bs)))%nat) by (split; [lia|done]).
    assert (Hx : 128 <= x <= 191).
    { destruct (Hs Hn). unfold continues in Hc. apply andb_prop in Hc as [?%Z.leb_le ?%Z.leb_le]. lia. }
    rewrite (decode_start_continuation x bs Hx), decode_cons. pose proof (sane_step s x Hs) as Hs1. revert Hs1.
    unfold step. destruct (need s) as [|n]; [done|]. rewrite Hc. destruct n as [|n]; cbn [fst snd length]; intros Hs1.
    + rewrite length_app. cbn [length]. lia.
    + destruct (IH _ Hs1 ltac:(done)) as [Hle _]. cbn [app length]. lia.
  - split; [|done]. rewrite !decode_cons. change (step start x) with (lead x). unfold step.
    destruct (need s) as [|n]; [done|]. rewrite Hc. destruct (lead x) as [o s']. cbn [fst snd]. rewrite !length_app. cbn [length]. lia.
Qed.

(** *** One cut *)

Lemma cut_length a b :
  (length (toString (a ++ b)) <= length (toString a) + length (toString b))%nat /\
  (splits a b -> (length (toString (a ++ b)) < length (toString a) + length (toString b))%nat).
Proof.
  unfold toString. rewrite decode_app, (decode_split start a). pose proof (sane_feed start a sane_start) as Hs. unfold splits.
  destruct (feed start a) as [o s]. cbn [fst snd] in *. rewrite !length_app.
  destruct (decide (need s = 0%nat)) as [Hn|Hn].
  - assert (Hd : decode s b = decode start b).
    { destruct b as [|x b]; [unfold decode, finish; cbn; by rewrite Hn|]. rewrite !decode_cons. unfold step at 1 2. by rewrite Hn. }
    rewrite Hd. split; [lia|]. destruct b; [done|]. tauto.
  - unfold finish. destruct (need s) as [|n] eqn:Hns; [done|]. rewrite <- Hns in Hn. cbn [length].
    destruct (resume_length s b Hs Hn) as [Hle Hlt]. split; [lia|]. destruct b as [|x b]; [done|]. intros [_ Hc]. specialize (Hlt Hc). lia.
Qed.

Lemma cut_equal a b : ~ splits a b -> toString (a ++ b) = toString a ++ toString b.
Proof.
  unfold toString. rewrite decode_app, (decode_split start a). unfold splits. destruct (feed start a) as [o s]. cbn [fst snd].
  intros Hc. rewrite <- app_assoc. f_equal. unfold finish. destruct b as [|x b]; [unfold decode, finish; cbn; by rewrite app_nil_r|].
  rewrite !decode_cons. change (step start x) with (lead x). unfold step. destruct (need s) as [|n]; [done|].
  destruct (continues s x); [naive_solver|]. by destruct (lead x).
Qed.

(** *** Any number of chunks *)

Lemma read_snoc chunks c : read (chunks ++ [c]) = read chunks ++ toString c.
Proof. unfold read. rewrite fmap_app, concat_app. cbn. by rewrite app_nil_r. Qed.

Lemma concat_snoc (chunks : list bytes) c : concat (chunks ++ [c]) = concat chunks ++ c.
Proof. rewrite concat_app. cbn. by rewrite app_nil_r. Qed.

Lemma read_length chunks : (length (toString (concat chunks)) <= length (read chunks))%nat.
Proof.
  induction chunks as [|c chunks IH] using rev_ind; [done|]. rewrite read_snoc, concat_snoc, length_app.
  pose proof (proj1 (cut_length (concat chunks) c)). lia.
Qed.

Lemma splits_app a b c : b <> [] -> splits a (b ++ c) <-> splits a b.
Proof. by destruct b. Qed.

(** No cut between two of the chunks goes through a character. *)
Definition whole (chunks : list bytes) : Prop := forall pre post, chunks = pre ++ post -> ~ splits (concat pre) (concat post).

Lemma whole_snoc chunks c : whole (chunks ++ [c]) <-> whole chunks /\ ~ splits (concat chunks) c.
Proof.
  split.
  - intros Hw. split; [|specialize (Hw chunks [c] eq_refl); cbn in Hw; by rewrite app_nil_r in Hw].
    intros pre post -> Hs. apply (Hw pre (post ++ [c])); [by rewrite app_assoc|]. rewrite concat_snoc, splits_app; [done|].
    intros Hp. by rewrite Hp in Hs.
  - intros [Hw Hc] pre post. destruct post as [|d post _] using rev_ind; [by intros _ []|].
    rewrite app_assoc. intros [-> ->]%app_inj_tail. rewrite concat_snoc. destruct (decide (concat post = [])) as [Hp|Hp].
    + rewrite Hp. rewrite concat_app, Hp, app_nil_r in Hc. exact Hc.
    + rewrite splits_app by done. by apply Hw.
Qed.

Lemma read_whole chunks : read chunks = toString (concat chunks) <-> whole chunks.
Proof.
  induction chunks as [|c chunks IH] using rev_ind.
  { split; [|done]. intros _ pre post Hnil. symmetry in Hnil. apply app_nil in Hnil as [-> ->]. by intros []. }
  rewrite read_snoc, concat_snoc, whole_snoc. split.
  - intros Heq. destruct (cut_length (concat chunks) c) as [_ Hlt]. pose proof (read_length chunks) as Hle.
    assert (Hc : ~ splits (concat chunks) c).
    { intros Hs. specialize (Hlt Hs). apply (f_equal length) in Heq. rewrite length_app in Heq. lia. }
    split; [|done]. apply IH. rewrite (cut_equal _ _ Hc) in Heq. by apply app_inv_tail in Heq.
  - intros [Hw Hc]. rewrite (cut_equal _ _ Hc). by apply IH in Hw as ->.
Qed.

Lemma read_torn chunks : (exists pre post, chunks = pre ++ post /\ splits (concat pre) (concat post)) ->
  (length (toString (concat chunks)) < length (read chunks))%nat.
Proof.
  intros (pre & post & -> & Hs). rewrite concat_app. pose proof (proj2 (cut_length _ _) Hs) as Hlt.
  pose proof (read_length pre) as H1. pose proof (read_length post) as H2. unfold read in *. rewrite fmap_app, concat_app, length_app. lia.
Qed.

(** ** Well-formed text *)

Lemma step_continues s n b : need s = S n -> continues s b = true ->
  step s b = match n with O => ([bits s * 64 + (b - 128)], start) | _ => ([], mk n 128 191 (bits s * 64 + (b - 128))) end.
Proof. intros Hn Hc. unfold step. by rewrite Hn, Hc. Qed.

Lemma continues_in s b : low s <= b <= high s -> continues s b = true.
Proof. intros Hb. unfold continues. apply andb_true_intro. by rewrite !Z.leb_le. Qed.

Ltac utf8_arith := repeat match goal with |- context [?a <? ?b] => destruct (Z.ltb_spec a b); try (exfalso; Z.to_euclidean_division_equations; lia) end.

Lemma lead_2 b : 194 <= b < 224 -> lead b = ([], mk 1 128 191 (b - 192)).
Proof. intros Hb. unfold lead. by utf8_arith. Qed.

Lemma lead_3 b : 224 <= b < 240 -> lead b = ([], mk 2 (if b =? 224 then 160 else 128) (if b =? 237 then 159 else 191) (b - 224)).
Proof. intros Hb. unfold lead. by utf8_arith. Qed.

Lemma lead_4 b : 240 <= b < 245 -> lead b = ([], mk 3 (if b =? 240 then 144 else 128) (if b =? 244 then 143 else 191) (b - 240)).
Proof. intros Hb. unfold lead. by utf8_arith. Qed.

Lemma feed_encode c : scalar c -> feed start (encode c) = ([c], start).
Proof.
  intros [Hc Hs]. unfold encode. destruct (Z.ltb_spec c 128) as [H1|H1]; [|destruct (Z.ltb_spec c 2048) as [H2|H2]; [|destruct (Z.ltb_spec c 65536) as [H3|H3]]];
    cbn [feed]; change (step start ?b) with (lead b).
  - unfold lead. by utf8_arith.
  - rewrite lead_2 by (Z.to_euclidean_division_equations; lia).
    rewrite (step_continues _ 0) by (try apply continues_in; cbn; Z.to_euclidean_division_equations; lia).
    cbn. do 2 f_equal. Z.to_euclidean_division_equations; lia.
  - rewrite lead_3 by (Z.to_euclidean_division_equations; lia).
    rewrite (step_continues _ 1); [|done|apply continues_in; cbn; destruct (Z.eqb_spec (224 + c / 4096) 224), (Z.eqb_spec (224 + c / 4096) 237);
      Z.to_euclidean_division_equations; lia].
    rewrite (step_continues _ 0) by (try apply continues_in; cbn; Z.to_euclidean_division_equations; lia).
    cbn. do 2 f_equal. Z.to_euclidean_division_equations; lia.
  - rewrite lead_4 by (Z.to_euclidean_division_equations; lia).
    rewrite (step_continues _ 2); [|done|apply continues_in; cbn; destruct (Z.eqb_spec (240 + c / 262144) 240), (Z.eqb_spec (240 + c / 262144) 244);
      Z.to_euclidean_division_equations; lia].
    rewrite (step_continues _ 1) by (try apply continues_in; cbn; Z.to_euclidean_division_equations; lia).
    rewrite (step_continues _ 0) by (try apply continues_in; cbn; Z.to_euclidean_division_equations; lia).
    cbn. do 2 f_equal. Z.to_euclidean_division_equations; lia.
Qed.

Lemma feed_encode_text cs : Forall scalar cs -> feed start (encode_text cs) = (cs, start).
Proof.
  induction 1 as [|c cs Hc _ IH]; [done|]. unfold encode_text in *. cbn [fmap list_fmap concat].
  by rewrite decoder_feed_app, feed_encode, IH.
Qed.

Lemma decode_encode cs : Forall scalar cs -> toString (encode_text cs) = cs.
Proof. intros Hcs. unfold toString, decode. rewrite feed_encode_text by done. cbn. apply app_nil_r. Qed.

(** A decoder that is given a byte, or waits for one, says something in the end. *)
Lemma decode_says s bs : (bs <> [] \/ need s <> 0%nat) -> decode s bs <> [].
Proof.
  revert s. induction bs as [|b bs IH]; intros s Hs.
  - unfold decode, finish. cbn. destruct (need s); naive_solver.
  - rewrite decode_cons. assert (Hstep : fst (step s b) <> [] \/ need (snd (step s b)) <> 0%nat).
    { assert (Hl : fst (lead b) <> [] \/ need (snd (lead b)) <> 0%nat)
        by (unfold lead; repeat match goal with |- context [if ?c then _ else _] => destruct c end; cbn; auto).
      unfold step. destruct (need s) as [|n]; [exact Hl|]. destruct (continues s b); [destruct n; cbn; auto|]. destruct (lead b); cbn; auto. }
    destruct Hstep as [Hf|Hn]; [intros [He _]%app_nil; done|]. intros [_ Hd]%app_nil. by apply (IH (snd (step s b))); [right|].
Qed.

(** A cut inside the bytes of one character goes through it. *)
Lemma splits_encode c a b : scalar c -> a ++ b = encode c -> a <> [] -> b <> [] -> splits a b.
Proof.
  intros Hc Hab Ha Hb.
  assert (Hd : Decision (splits a b)) by (unfold splits; destruct b; apply _). destruct (decide (splits a b)) as [Hs|Hs]; [done|exfalso].
  apply cut_equal in Hs. rewrite Hab in Hs. unfold toString in Hs. rewrite (decode_split start (encode c)), feed_encode in Hs by done.
  cbn [fst snd finish need start] in Hs. apply (f_equal length) in Hs. rewrite !length_app in Hs.
  pose proof (decode_says start a (or_introl Ha)) as H1. pose proof (decode_says start b (or_introl Hb)) as H2.
  destruct (decode start a), (decode start b); cbn in Hs; try done. lia.
Qed.

(** A prefix of a text's bytes ends between two characters, or a character is cut. *)
Lemma prefix_encode cs a b : Forall scalar cs -> a ++ b = encode_text cs ->
  (exists cs1, cs1 `prefix_of` cs /\ a = encode_text cs1) \/ splits a b.
Proof.
  intros Hcs. revert a. induction Hcs as [|c cs Hc _ IH]; intros a Hab.
  { left. exists []. apply app_nil in Hab as [-> _]. by split. }
  unfold encode_text in Hab. cbn [fmap list_fmap concat] in Hab. fold (encode_text cs) in Hab.
  destruct (decide (a = [])) as [->|Ha]; [left; exists []; split; [apply prefix_nil|done]|].
  apply app_eq_inv in Hab as [(k & -> & Hk)|(k & Hk & ->)].
  - destruct (IH k (eq_sym Hk)) as [(cs1 & Hp & ->)|Hs].
    + left. exists (c :: cs1). split; [by apply prefix_cons|done].
    + right. unfold splits in *. destruct b; [done|]. rewrite decoder_feed_app, feed_encode by done. by destruct (feed start k).
  - destruct (decide (k = [])) as [->|Hne].
    + left. exists [c]. split; [apply prefix_cons, prefix_nil|]. rewrite app_nil_r in Hk. unfold encode_text. cbn. by rewrite app_nil_r.
    + right. rewrite splits_app by done. by apply (splits_encode c).
Qed.

Lemma between_whole cs1 b : Forall scalar cs1 -> ~ splits (encode_text cs1) b.
Proof. intros Hcs. unfold splits. destruct b; [by intros []|]. rewrite feed_encode_text by done. by intros [[] _]. Qed.

(** C29. A stream decoded chunk by chunk.  Whatever bytes arrive and however they are cut, the
    texts of the chunks join to the text of the whole exactly when no cut goes through a
    character, and are longer by replacement characters otherwise; so a well-formed text
    arrives exactly when every chunk ends between two of its characters. *)
Theorem chunks_read_as_one (chunks : list bytes) :
  (read chunks = toString (concat chunks) <-> whole chunks) /\
  (~ whole chunks -> (length (toString (concat chunks)) < length (read chunks))%nat) /\
  (forall cs, Forall scalar cs -> concat chunks = encode_text cs ->
     (read chunks = cs <-> forall pre post, chunks = pre ++ post -> exists cs1, cs1 `prefix_of` cs /\ concat pre = encode_text cs1)).
Proof.
  split; [apply read_whole|]. split.
  - intros Hn. pose proof (read_length chunks) as Hle. destruct (decide (read chunks = toString (concat chunks))) as [He|Hne];
      [by apply read_whole in He|]. destruct (decide (length (toString (concat chunks)) < length (read chunks))%nat) as [|Hge]; [done|].
    exfalso. apply Hn. intros pre post Hc Hs. apply Hge, read_torn. by exists pre, post.
  - intros cs Hcs Hc. rewrite <- (decode_encode cs Hcs) at 1. rewrite <- Hc, read_whole. split.
    + intros Hw pre post Heq. destruct (prefix_encode cs (concat pre) (concat post) Hcs) as [Hp|Hs]; [by rewrite <- concat_app, <- Heq|done|].
      by destruct (Hw pre post Heq).
    + intros Hb pre post Heq. destruct (Hb pre post Heq) as (cs1 & [k ->] & ->). apply between_whole. by apply Forall_app in Hcs as [Hcs _].
Qed.

(** *** Into the strings of the development *)

Lemma utf8_text_app a b : utf8_text (a ++ b) = utf8_text a +:+ utf8_text b.
Proof. unfold utf8_text. rewrite fmap_app. induction (_ <$> a) as [|c l IH]; [by rewrite string_nil_app|]. cbn. by rewrite IH, string_cons_app. Qed.

Lemma chunk_texts chunks : foldr String.append "" (chunk_text <$> chunks) = utf8_text (encode_text (read chunks)).
Proof.
  induction chunks as [|c chunks IH]; [done|]. cbn [fmap list_fmap foldr]. rewrite IH. unfold read. cbn [fmap list_fmap concat].
  unfold chunk_text, encode_text. by rewrite fmap_app, concat_app, utf8_text_app.
Qed.

(** What the buffers of the sockets receive of a well-formed stream that no cut tears. *)
Lemma text_arrives chunks cs : Forall scalar cs -> concat chunks = encode_text cs -> whole chunks ->
  foldr String.append "" (chunk_text <$> chunks) = utf8_text (concat chunks).
Proof. intros Hcs Hc Hw. apply read_whole in Hw. by rewrite chunk_texts, Hw, Hc, decode_encode. Qed.

(** A stream of ASCII, as sealed frames are, may be cut anywhere. *)
Lemma encode_ascii bs : Forall (fun b => 0 <= b < 128) bs -> encode_text bs = bs.
Proof.
  induction 1 as [|b bs Hb _ IH]; [done|]. unfold encode_text in *. cbn. rewrite IH. unfold encode. by destruct (Z.ltb_spec b 128); [|lia].
Qed.

Lemma ascii_scalar bs : Forall (fun b => 0 <= b < 128) bs -> Forall scalar bs.
Proof. intros Hb. eapply Forall_impl; [exact Hb|]. intros b Hb'. cbn in Hb'. split; lia. Qed.

Lemma ascii_whole chunks : Forall (fun b => 0 <= b < 128) (concat chunks) -> whole chunks.
Proof.
  intros Hb pre post ->. rewrite concat_app in Hb. apply Forall_app in Hb as [Hb _]. rewrite <- (encode_ascii _ Hb).
  by apply between_whole, ascii_scalar.
Qed.

Lemma ascii_arrives chunks : Forall (fun b => 0 <= b < 128) (concat chunks) ->
  foldr String.append "" (chunk_text <$> chunks) = utf8_text (concat chunks).
Proof. intros Hb. apply (text_arrives chunks (concat chunks)); [by apply ascii_scalar|by rewrite encode_ascii|by apply ascii_whole]. Qed.

(** *** The two bytes of U+00E9 *)

Example torn_character : read [[104; 195]; [169; 33]] = [104; replacement; replacement; 33].
Proof. reflexivity. Qed.

Lemma chunks_read_as_one_witness :
  concat [[104; 195]; [169; 33]] = encode_text [104; 233; 33] /\ read [[104; 195]; [169; 33]] <> [104; 233; 33] /\
  read [[104; 195; 169]; [33]] = [104; 233; 33].
Proof.
  assert (Hcs : Forall scalar [104; 233; 33]) by (repeat constructor; unfold scalar; lia).
  split; [reflexivity|]. split.
  - intros Hr. destruct (proj2 (proj2 (chunks_read_as_one [[104; 195]; [169; 33]])) [104; 233; 33] Hcs eq_refl) as [Hb _].
    destruct (Hb Hr [[104; 195]] [[169; 33]] eq_refl) as (cs1 & [k Hk] & Hc).
    destruct cs1 as [|a [|b [|c [|e cs1]]]]; cbn in Hk; simplify_eq; discriminate Hc.
  - apply (proj1 (chunks_read_as_one [[104; 195; 169]; [33]])). intros pre post Hc. destruct pre as [|p1 [|p2 [|p3 pre]]]; cbn in Hc; simplify_eq.
    + by intros [].
    + by intros [].
    + by intros [].
Defined.
