(* ===== verification/WebSocket.v ===== *)
(** * The WebSocket bridge

    [packages/daemon/src/interface/wsServer.ts]: the frames of RFC 6455 by hand, and
    the shim that presents a WebSocket as the socket the connection handler reads. *)

From S2P Require Import Prelude JsMap Js Bytes.

Local Open Scope Z_scope.

Module WebSocket.

Definition WS_GUID : string := "258EAFA5-E914-47DA-95CA-C5AB0DC85B11".
Definition MAX_MESSAGE_BYTES : Z := 8 * 1024 * 1024.

Definition encodeTextFrame (text : string) : bytes :=
  let payload := utf8_bytes text in
  let len := blen payload in
  let header :=
    if len <? 126 then [129; len]
    else if len <? 65536 then [129; 126; Z.land (Z.shiftr len 8) 255; Z.land len 255]
    else [129; 127] ++ be_bytes 8 len in
  header ++ payload.

Definition CLOSE_FRAME : bytes := [136; 0].

(** [Buffer.from([0x8a, n])] keeps the low eight bits of [n]. *)
Definition pongFrame (payload : bytes) : bytes :=
  [138; Z.land (blen payload) 255] ++ payload.

(** ** One frame off the buffer (the head of the loop of [onBytes]) *)

Record frame : Type := mkFrame { fin : bool; opcode : Z; payload : bytes }.

(** [payload[i] ^ mask[i & 3]] *)
Definition unmask (mask data : bytes) : bytes :=
  imap (fun i x => Z.lxor x (byte_at mask (Nat.land i 3))) data.

(** The length and the offset of what follows it; [None] when the bytes are not here yet. *)
Definition read_length (buf : bytes) : option (Z * nat) :=
  let len := Z.land (byte_at buf 1) 127 in
  if len =? 126 then
    if blen buf <? 4 then None else Some (be_value (subarray buf 2 4), 4%nat)
  else if len =? 127 then
    if blen buf <? 10 then None else Some (be_value (subarray buf 2 10), 10%nat)
  else Some (len, 2%nat).

Definition read_mask (buf : bytes) (offset : nat) : option (option bytes * nat) :=
  if negb (Z.land (byte_at buf 1) 128 =? 0) then
    if blen buf <? Z.of_nat offset + 4 then None
    else Some (Some (subarray buf offset (offset + 4)), (offset + 4)%nat)
  else Some (None, offset).

(** The next frame and the buffer after it, or [None]: wait for more bytes. *)
Definition parse_frame (buf : bytes) : option (frame * bytes) :=
  if blen buf <? 2 then None else
  let b0 := byte_at buf 0 in
  '(len, offset) ← read_length buf;
  '(mask, offset) ← read_mask buf offset;
  if blen buf <? Z.of_nat offset + len then None else
  let stop := (offset + Z.to_nat len)%nat in
  let data := subarray buf offset stop in
  let data := match mask with Some m => unmask m data | None => data end in
  Some (mkFrame (negb (Z.land b0 128 =? 0)) (Z.land b0 15) data, drop stop buf).

(** ** The shim *)

Section shim.
Context {R : Type}.

(** What the connection handler can reach of the shim: the raw socket and the flag. *)
Record sock : Type := mkSock { destroyed : bool; raw : R }.

(** The whole shim. *)
Record shim : Type := mkShim {
  buf : bytes;
  frags : list bytes;
  fragBytes : Z;
  sk : sock;
}.

(** The platform socket, which may throw, and the listener of the 'data' event: the
    connection handler, which may write to and destroy the shim. *)
Variable raw_write : bytes -> eff R bool.
Variable raw_destroy : eff R unit.
Variable on_data : bytes -> eff sock unit.

Definition on_raw {A} (m : eff R A) : eff sock A :=
  fun s => let '(r, x) := m (raw s) in (r, mkSock (destroyed s) x).

Definition on_sock {A} (m : eff sock A) : eff shim A :=
  fun w => let '(r, s) := m (sk w) in (r, mkShim (buf w) (frags w) (fragBytes w) s).

Definition write (data : string) : eff sock bool :=
  d ← gets destroyed;
  if d : bool then mret false else on_raw (raw_write (encodeTextFrame data)).

Definition destroy : eff sock unit :=
  d ← gets destroyed;
  if d : bool then mret tt else
  modify (fun s => mkSock true (raw s)) ;;
  try_catch (on_raw (raw_write CLOSE_FRAME) ;; mret tt) (fun _ => mret tt) ;;
  on_raw raw_destroy.

(** [Buffer.concat(this.frags)] *)
Definition message_of (l : list bytes) : bytes := concat l.

(** The [switch] on the opcode: whether the loop goes on. *)
Definition handle_frame (f : frame) : eff shim bool :=
  if opcode f =? 8 then on_sock destroy ;; mret false
  else if opcode f =? 9 then
    on_sock (try_catch (on_raw (raw_write (pongFrame (payload f))) ;; mret tt) (fun _ => mret tt)) ;;
    mret true
  else if opcode f =? 10 then mret true
  else if (opcode f =? 0) || (opcode f =? 1) || (opcode f =? 2) then
    modify (fun w => mkShim (buf w) (frags w ++ [payload f]) (fragBytes w + blen (payload f)) (sk w)) ;;
    n ← gets fragBytes;
    if MAX_MESSAGE_BYTES <? n then on_sock destroy ;; mret false
    else if fin f then
      message ← gets (fun w => message_of (frags w));
      modify (fun w => mkShim (buf w) [] 0 (sk w)) ;;
      on_sock (on_data message) ;;
      mret true
    else mret true
  else on_sock destroy ;; mret false.

(** The loop.  Each turn takes at least two bytes, so the length of the buffer
    bounds the turns. [true]: waiting for bytes; [false]: the peer was dropped. *)
Fixpoint parse_loop (fuel : nat) : eff shim bool :=
  match fuel with
  | O => mret true
  | S fuel' =>
      b ← gets buf;
      match parse_frame b with
      | None => mret true
      | Some (f, rest) =>
          modify (fun w => mkShim rest (frags w) (fragBytes w) (sk w)) ;;
          go ← handle_frame f;
          if go : bool then parse_loop fuel' else mret false
      end
  end.

Definition onBytes (chunk : bytes) : eff shim unit :=
  modify (fun w => mkShim (buf w ++ chunk) (frags w) (fragBytes w) (sk w)) ;;
  b ← gets buf;
  parse_loop (length b) ;;
  mret tt.

(** [new WsSocketShim(socket)] *)
Definition new_shim (x : R) : shim := mkShim [] [] 0 (mkSock false x).

End shim.
Arguments sock : clear implicits.
Arguments shim : clear implicits.

(** ** The upgrade *)

Section upgrade.
Context {R : Type}.
Variable sha1_base64 : string -> string.
Variable raw_write : bytes -> eff R bool.
Variable raw_destroy : eff R unit.
(** [deps.onConnection(shim)], on the shim just made. *)
Variable onConnection : eff (shim R) unit.

Definition crlf : string := String "013" (String "010" "").

Definition upgrade_response (accept : string) : string :=
  "HTTP/1.1 101 Switching Protocols" +:+ crlf +:+
  "Upgrade: websocket" +:+ crlf +:+
  "Connection: Upgrade" +:+ crlf +:+
  "Sec-WebSocket-Accept: " +:+ accept +:+ crlf +:+ crlf.

(** The 'upgrade' listener: the shim it hands over, if the request has a key. *)
Definition on_upgrade (key : jsval) (x : R) : outcome (option (shim R)) * R :=
  match key with
  | JStr k =>
      match raw_write (utf8_bytes (upgrade_response (sha1_base64 (k +:+ WS_GUID)))) x with
      | (Ok _, x') =>
          match onConnection (new_shim x') with
          | (Ok _, w) => (Ok (Some w), raw (sk w))
          | (Throw e, w) => (Throw e, raw (sk w))
          end
      | (Throw e, x') => (Throw e, x')
      end
  | _ => match raw_destroy x with (Ok _, x') => (Ok None, x') | (Throw e, x') => (Throw e, x') end
  end.

End upgrade.

End WebSocket.

Import WebSocket.

(** ** The parser *)

Lemma byte_at_app b x i : (i < length b)%nat -> byte_at (b ++ x) i = byte_at b i.
Proof. apply byte_at_app_l. Qed.

(** What a read of the length guarantees, and that more bytes do not change it. *)
Lemma read_length_app b x len o :
  2 <= blen b -> read_length b = Some (len, o) ->
  read_length (b ++ x) = Some (len, o) /\ (2 <= o <= length b)%nat.
Proof.
  unfold read_length, blen. intros Hb.
  rewrite byte_at_app by lia. rewrite length_app.
  destruct (Z.eqb_spec (Z.land (byte_at b 1) 127) 126); [|destruct (Z.eqb_spec (Z.land (byte_at b 1) 127) 127)].
  - destruct (Z.ltb_spec (Z.of_nat (length b)) 4); [done|]. intros [= <- <-].
    destruct (Z.ltb_spec (Z.of_nat (length b + length x)) 4); [lia|].
    rewrite subarray_app_l by lia. split; [done|lia].
  - destruct (Z.ltb_spec (Z.of_nat (length b)) 10); [done|]. intros [= <- <-].
    destruct (Z.ltb_spec (Z.of_nat (length b + length x)) 10); [lia|].
    rewrite subarray_app_l by lia. split; [done|lia].
  - intros [= <- <-]. split; [done|lia].
Qed.

Lemma read_mask_app b x o m o' :
  (2 <= o <= length b)%nat -> read_mask b o = Some (m, o') ->
  read_mask (b ++ x) o = Some (m, o') /\ (o <= o' <= length b)%nat.
Proof.
  unfold read_mask, blen. intros Hb. rewrite byte_at_app by lia. rewrite length_app.
  destruct (negb _).
  - destruct (Z.ltb_spec (Z.of_nat (length b)) (Z.of_nat o + 4)); [done|]. intros [= <- <-].
    destruct (Z.ltb_spec (Z.of_nat (length b + length x)) (Z.of_nat o + 4)); [lia|].
    rewrite subarray_app_l by lia. split; [done|lia].
  - intros [= <- <-]. split; [done|lia].
Qed.

(** A complete frame is parsed the same whatever follows it. *)
Lemma parse_frame_app b x f r :
  parse_frame b = Some (f, r) -> parse_frame (b ++ x) = Some (f, r ++ x).
Proof.
  unfold parse_frame. intros H. rewrite blen_app.
  destruct (Z.ltb_spec (blen b) 2) as [|Hb]; [done|]. pose proof (blen_nonneg x).
  destruct (Z.ltb_spec (blen b + blen x) 2); [lia|].
  destruct (read_length b) as [[len o]|] eqn:Hl; [|done]. simpl in H.
  destruct (read_length_app b x len o Hb Hl) as [-> Ho]. simpl.
  destruct (read_mask b o) as [[m o']|] eqn:Hm; [|done]. simpl in H.
  destruct (read_mask_app b x o m o' Ho Hm) as [-> Ho']. simpl.
  destruct (Z.ltb_spec (blen b) (Z.of_nat o' + len)); [done|].
  destruct (Z.ltb_spec (blen b + blen x) (Z.of_nat o' + len)); [lia|].
  unfold blen in *. rewrite subarray_app_l by lia. rewrite byte_at_app by lia.
  rewrite drop_app_le by lia. by injection H as <- <-.
Qed.

(** Every frame takes at least two bytes off the buffer. *)
Lemma parse_frame_shorter b f r : parse_frame b = Some (f, r) -> (length r + 2 <= length b)%nat.
Proof.
  unfold parse_frame. intros H. destruct (Z.ltb_spec (blen b) 2) as [|Hb]; [done|].
  destruct (read_length b) as [[len o]|] eqn:Hl; [|done]. simpl in H.
  destruct (read_length_app b [] len o Hb Hl) as [_ Ho].
  destruct (read_mask b o) as [[m o']|] eqn:Hm; [|done]. simpl in H.
  destruct (read_mask_app b [] o m o' Ho Hm) as [_ Ho'].
  destruct (Z.ltb_spec (blen b) (Z.of_nat o' + len)); [done|].
  injection H as <- <-. unfold blen in *. rewrite length_drop. lia.
Qed.

(** ** What a client sends *)

(** A frame as RFC 6455 has a client write it, with the shortest form of its length. *)
Record client_frame : Type := mkClient { c_frame : frame; c_key : option bytes }.

Definition length_field (n : Z) : Z := if n <? 126 then n else if n <? 65536 then 126 else 127.

Definition length_ext (n : Z) : bytes :=
  if n <? 126 then [] else if n <? 65536 then be_bytes 2 n else be_bytes 8 n.

Definition client_bytes (c : client_frame) : bytes :=
  let f := c_frame c in
  let n := blen (payload f) in
  [(if fin f then 128 else 0) + opcode f; (if c_key c then 128 else 0) + length_field n] ++
  length_ext n ++
  match c_key c with Some m => m ++ unmask m (payload f) | None => payload f end.

Definition client_ok (c : client_frame) : Prop :=
  0 <= opcode (c_frame c) < 16 /\ blen (payload (c_frame c)) < 2 ^ 64 /\
  match c_key c with Some m => length m = 4%nat | None => True end.

Lemma unmask_unmask m d : unmask m (unmask m d) = d.
Proof.
  unfold unmask. apply list_eq. intros i. rewrite !list_lookup_imap.
  destruct (d !! i); [|done]. simpl. by rewrite lxor_involutive.
Qed.

Lemma length_unmask m d : length (unmask m d) = length d.
Proof. apply length_imap. Qed.

Lemma land_flag_low h v k : (k = 16 \/ k = 128) -> h = 0 \/ h = 128 -> 0 <= v < k ->
  Z.land (h + v) (k - 1) = v.
Proof.
  intros Hk Hh Hv. assert (Hk2 : exists n, 0 <= n /\ k = 2 ^ n) by (destruct Hk; [exists 4|exists 7]; lia).
  destruct Hk2 as (n & Hn & ->). replace (2 ^ n - 1) with (Z.ones n) by (rewrite Z.ones_equiv; lia).
  rewrite Z.land_ones by done. destruct Hh as [->| ->]; [by apply Z.mod_small|].
  rewrite <- Zplus_mod_idemp_l. replace (128 mod 2 ^ n) with 0; [by apply Z.mod_small|].
  destruct Hk as [->| ->]; done.
Qed.

(** The top bit of a byte that carries it as a flag over a 7-bit value. *)
Lemma land_flag_high (g : bool) v : 0 <= v < 128 ->
  negb (Z.land ((if g then 128 else 0) + v) 128 =? 0) = g.
Proof.
  intros Hv.
  pose (f := fun v => Bool.eqb (negb (Z.land (128 + v) 128 =? 0)) true && Bool.eqb (negb (Z.land v 128 =? 0)) false
              || negb (v <? 128)).
  assert (Hf : f v = true) by (apply (byte_forall f); [by vm_compute|unfold is_byte; lia]).
  unfold f in Hf. destruct (Z.ltb_spec v 128); [|lia]. rewrite orb_false_r in Hf.
  apply andb_true_iff in Hf as [H1 H2]. apply Bool.eqb_prop in H1, H2. destruct g; [exact H1|].
  by rewrite Z.add_0_l.
Qed.

Lemma length_field_range n : 0 <= n -> 0 <= length_field n < 128.
Proof. unfold length_field. intros. repeat case_match; lia. Qed.

Lemma read_length_client b0 (k : bool) n tail :
  0 <= n < 2 ^ 64 -> (n <= blen tail) ->
  read_length (b0 :: (if k then 128 else 0) + length_field n :: length_ext n ++ tail)
    = Some (n, (2 + length (length_ext n))%nat).
Proof.
  intros Hn Ht. unfold read_length.
  replace (byte_at _ 1) with ((if k then 128 else 0) + length_field n) by done.
  rewrite (land_flag_low _ _ 128) by (destruct k; auto using length_field_range; apply length_field_range; lia).
  unfold blen. simpl length. rewrite length_app.
  unfold length_field, length_ext in *.
  destruct (Z.ltb_spec n 126); [|destruct (Z.ltb_spec n 65536)]; simpl Z.eqb; cbv iota.
  - destruct (Z.eqb_spec n 126); [lia|]. destruct (Z.eqb_spec n 127); [lia|]. done.
  - rewrite length_be_bytes. destruct (Z.ltb_spec (Z.of_nat (S (S (2 + length tail)))) 4); [lia|].
    change (subarray (b0 :: ?y :: be_bytes 2 n ++ tail) 2 4) with (take 2 (be_bytes 2 n ++ tail)).
    rewrite take_app_length' by (by rewrite length_be_bytes). rewrite be_value_bytes by (simpl; lia). done.
  - rewrite length_be_bytes. destruct (Z.ltb_spec (Z.of_nat (S (S (8 + length tail)))) 10); [lia|].
    change (subarray (b0 :: ?y :: be_bytes 8 n ++ tail) 2 10) with (take 8 (be_bytes 8 n ++ tail)).
    rewrite take_app_length' by (by rewrite length_be_bytes). rewrite be_value_bytes by (simpl; lia). done.
Qed.

(** The parser on a buffer given by its parts. *)
Lemma parse_frame_parts hdr keyp data rest m :
  (2 <= length hdr)%nat ->
  read_length (hdr ++ keyp ++ data ++ rest) = Some (blen data, length hdr) ->
  read_mask (hdr ++ keyp ++ data ++ rest) (length hdr) = Some (m, (length hdr + length keyp)%nat) ->
  parse_frame (hdr ++ keyp ++ data ++ rest) =
    Some (mkFrame (negb (Z.land (byte_at hdr 0) 128 =? 0)) (Z.land (byte_at hdr 0) 15)
            (match m with Some k => unmask k data | None => data end), rest).
Proof.
  intros Hh Hl Hm. unfold parse_frame. rewrite Hl. simpl. rewrite Hm. simpl.
  rewrite byte_at_app by lia. unfold blen. rewrite !length_app.
  rewrite !(proj2 (Z.ltb_ge _ _)) by lia. rewrite Nat2Z.id.
  rewrite (app_assoc hdr keyp). rewrite <- (length_app hdr keyp).
  rewrite subarray_middle, (app_assoc (hdr ++ keyp)), drop_app_length' by (by rewrite (length_app (hdr ++ keyp))).
  done.
Qed.

Lemma read_mask_client b0 (key : option bytes) v ext data hdr :
  hdr = b0 :: (if key then 128 else 0) + v :: ext ->
  0 <= v < 128 -> match key with Some m => length m = 4%nat | None => True end ->
  read_mask (hdr ++ default [] key ++ data) (length hdr)
  = Some (key, (length hdr + length (default [] key))%nat).
Proof.
  intros Hh Hv Hk. unfold read_mask.
  rewrite byte_at_app by (subst hdr; simpl; lia).
  replace (byte_at hdr 1) with ((if bool_decide (is_Some key) then 128 else 0) + v) by (subst hdr; by destruct key).
  rewrite land_flag_high by done. clear Hh. destruct key as [m|]; simpl.
  - unfold blen. rewrite !length_app, Hk, (proj2 (Z.ltb_ge _ _)) by lia.
    rewrite <- Hk, subarray_middle. done.
  - by rewrite Nat.add_0_r.
Qed.

(** The header, mask and data of a client frame are read back as they were written. *)
Lemma parse_client_frame c rest :
  client_ok c -> parse_frame (client_bytes c ++ rest) = Some (c_frame c, rest).
Proof.
  destruct c as [[fi op pl] key]. intros (Hop & Hlen & Hkey). simpl in Hop, Hlen, Hkey.
  set (n := blen pl) in *. assert (Hn : 0 <= n) by apply blen_nonneg.
  set (data := match key with Some m => unmask m pl | None => pl end).
  assert (Hd : blen data = n).
  { unfold data. destruct key; [|done]. unfold blen. by rewrite length_unmask. }
  pose proof (length_field_range n Hn) as Hf.
  set (hdr := (if fi then 128 else 0) + op :: (if key then 128 else 0) + length_field n :: length_ext n).
  replace (client_bytes _ ++ rest) with (hdr ++ default [] key ++ data ++ rest).
  2:{ unfold client_bytes, hdr, data. simpl. destruct key; by rewrite <- ?app_assoc. }
  rewrite (parse_frame_parts hdr (default [] key) data rest key).
  - simpl. f_equal. f_equal. f_equal.
    + unfold byte_at, hdr. simpl. apply land_flag_high. lia.
    + unfold byte_at, hdr. simpl. apply (land_flag_low _ _ 16); [by left|destruct fi; auto|lia].
    + unfold data. destruct key; [apply unmask_unmask|done].
  - unfold hdr. simpl. lia.
  - rewrite Hd. unfold hdr. replace (if key then 128 else 0) with (if bool_decide (is_Some key) then 128 else 0)
      by (by destruct key).
    rewrite <- app_comm_cons, <- app_comm_cons, read_length_client; [done|lia|].
    rewrite !blen_app. pose proof (blen_nonneg (default [] key)). pose proof (blen_nonneg rest). lia.
  - eapply read_mask_client; done.
Qed.

(** ** The loop *)

Section loop.
Context {R : Type} (raw_write : bytes -> eff R bool) (raw_destroy : eff R unit)
  (on_data : bytes -> eff (sock R) unit).
Implicit Types w : shim R.

Notation handle := (handle_frame raw_write raw_destroy on_data).
Notation loop := (parse_loop raw_write raw_destroy on_data).
Notation feed := (onBytes raw_write raw_destroy on_data).

Definition set_buf (b : bytes) w : shim R := mkShim b (frags w) (fragBytes w) (sk w).

(** A computation that neither reads nor writes the buffer. *)
Definition buf_free {A} (m : eff (shim R) A) : Prop :=
  forall b w, m (set_buf b w) = (let '(r, w') := m w in (r, set_buf b w')) /\ buf (m w).2 = buf w.

Lemma buf_free_ret {A} (a : A) : buf_free (mret a).
Proof. done. Qed.

Lemma buf_free_on_sock {A} (m : eff (sock R) A) : buf_free (on_sock m).
Proof. intros b w. unfold on_sock. simpl. by destruct (m (sk w)). Qed.

Lemma buf_free_gets {A} (g : shim R -> A) : (forall b w, g (set_buf b w) = g w) -> buf_free (gets g).
Proof. intros Hg b w. unfold gets. by rewrite Hg. Qed.

Lemma buf_free_modify g :
  (forall b w, g (set_buf b w) = set_buf b (g w) /\ buf (g w) = buf w) -> buf_free (modify g).
Proof. intros Hg b w. unfold modify. destruct (Hg b w) as [-> H]. done. Qed.

Lemma buf_free_bind {A B} (m : eff (shim R) A) (k : A -> eff (shim R) B) :
  buf_free m -> (forall a, buf_free (k a)) -> buf_free (m ≫= k).
Proof.
  intros Hm Hk b w. unfold mbind, eff_bind. destruct (Hm b w) as [-> H].
  destruct (m w) as [[a|e] w']; simpl in *; [|done]. destruct (Hk a b w') as [-> H']. split; [done|congruence].
Qed.

Hint Resolve buf_free_ret buf_free_on_sock buf_free_gets buf_free_modify buf_free_bind : buf_free.

(** No handler of a frame looks at the buffer. *)
Lemma handle_buf_free f : buf_free (handle f).
Proof.
  unfold handle_frame. repeat (intros; first [case_match | apply buf_free_bind]); auto with buf_free.
Qed.

Lemma handle_set_buf f b w :
  handle f (set_buf b w) = (let '(r, w') := handle f w in (r, set_buf b w')) /\
  buf (handle f w).2 = buf w.
Proof. apply handle_buf_free. Qed.

Lemma loop_S n w :
  loop (S n) w =
    match parse_frame (buf w) with
    | None => (Ok true, w)
    | Some (f, rest) =>
        match handle f (set_buf rest w) with
        | (Ok true, w') => loop n w'
        | (r, w') => (r, w')
        end
    end.
Proof.
  simpl. unfold mbind, eff_bind, gets, modify, mret, eff_ret. simpl.
  destruct (parse_frame (buf w)) as [[f rest]|]; [|done]. fold (set_buf rest w).
  destruct (handle f (set_buf rest w)) as [[[]|] w']; done.
Qed.

(** The loop run until it waits for bytes or has dropped the peer. *)
Definition settle w : outcome bool * shim R := loop (length (buf w)) w.

Lemma handle_shorter f rest w :
  parse_frame (buf w) = Some (f, rest) ->
  (length (buf (handle f (set_buf rest w)).2) + 2 <= length (buf w))%nat.
Proof.
  intros Hp. rewrite (proj2 (handle_set_buf f rest (set_buf rest w))).
  by apply parse_frame_shorter in Hp.
Qed.

Lemma loop_enough n w : (length (buf w) <= n)%nat -> loop n w = settle w.
Proof.
  intros Hn. enough (H : forall k m w, (length (buf w) <= k)%nat -> (length (buf w) <= m)%nat -> loop k w = loop m w).
  { unfold settle. apply H; lia. }
  clear. induction k as [|k IH]; intros m w Hk Hm.
  - destruct m; [done|]. rewrite loop_S.
    destruct (parse_frame (buf w)) as [[f rest]|] eqn:Hp; [|done].
    apply parse_frame_shorter in Hp. lia.
  - destruct m as [|m].
    { rewrite loop_S. destruct (parse_frame (buf w)) as [[f rest]|] eqn:Hp; [|done].
      apply parse_frame_shorter in Hp. lia. }
    rewrite !loop_S. destruct (parse_frame (buf w)) as [[f rest]|] eqn:Hp; [|done].
    pose proof (handle_shorter f rest w Hp).
    destruct (handle f (set_buf rest w)) as [[[]|] w'] eqn:Hh; try done.
    simpl in *. apply IH; lia.
Qed.

Lemma settle_unfold w :
  settle w =
    match parse_frame (buf w) with
    | None => (Ok true, w)
    | Some (f, rest) =>
        match handle f (set_buf rest w) with
        | (Ok true, w') => settle w'
        | (r, w') => (r, w')
        end
    end.
Proof.
  rewrite <- (loop_enough (S (length (buf w))) w) by lia. rewrite loop_S.
  destruct (parse_frame (buf w)) as [[f rest]|] eqn:Hp; [|done].
  pose proof (handle_shorter f rest w Hp).
  destruct (handle f (set_buf rest w)) as [[[]|] w'] eqn:Hh; try done. simpl in *.
  apply loop_enough. lia.
Qed.

Lemma feed_settle chunk w :
  feed chunk w = match settle (set_buf (buf w ++ chunk) w) with
                 | (Ok _, w') => (Ok tt, w')
                 | (Throw e, w') => (Throw e, w')
                 end.
Proof. done. Qed.

(** Bytes that arrive later change nothing of what is done with those here. *)
Lemma settle_app w x :
  settle (set_buf (buf w ++ x) w) =
    match settle w with
    | (Ok true, w') => settle (set_buf (buf w' ++ x) w')
    | (r, w') => (r, set_buf (buf w' ++ x) w')
    end.
Proof.
  remember (length (buf w)) as n eqn:Hn. revert w Hn.
  induction n as [n IH] using lt_wf_ind. intros w ->.
  rewrite (settle_unfold w). destruct (parse_frame (buf w)) as [[f rest]|] eqn:Hp; [|done].
  rewrite settle_unfold. simpl buf. rewrite (parse_frame_app _ x f rest Hp).
  pose proof (handle_shorter f rest w Hp) as Hs.
  change (set_buf (rest ++ x) (set_buf (buf w ++ x) w)) with (set_buf (rest ++ x) (set_buf rest w)).
  destruct (handle_set_buf f (rest ++ x) (set_buf rest w)) as [-> Hb].
  destruct (handle f (set_buf rest w)) as [r w'] eqn:Hh. simpl in Hb, Hs. rewrite <- Hb.
  destruct r as [[]|e]; [|done..]. rewrite (IH (length (buf w'))) by (done || lia). done.
Qed.

(** A stream that keeps the peer is handled the same however it is cut. *)
Lemma feed_chunks chunks w w' :
  settle (set_buf (buf w ++ concat chunks) w) = (Ok true, w') ->
  settle w = (Ok true, w) ->
  for_each feed chunks w = (Ok tt, w') /\ settle w' = (Ok true, w').
Proof.
  revert w. induction chunks as [|c chunks IH]; intros w; simpl.
  - rewrite app_nil_r. intros H1 H2. replace (set_buf (buf w) w) with w in H1 by (by destruct w).
    rewrite H2 in H1. injection H1 as <-. done.
  - intros H1 H2. rewrite app_assoc in H1.
    pose proof (settle_app (set_buf (buf w ++ c) w) (concat chunks)) as Ha.
    simpl buf in Ha. change (set_buf ?a (set_buf _ w)) with (set_buf a w) in Ha.
    rewrite H1 in Ha. unfold mbind, eff_bind. rewrite feed_settle.
    destruct (settle (set_buf (buf w ++ c) w)) as [[[]|] w1] eqn:Hs; try done.
    apply IH; [by rewrite <- Ha|].
    pose proof (settle_app (set_buf (buf w ++ c) w) []) as Hb. simpl buf in Hb.
    rewrite !app_nil_r in Hb. change (set_buf ?a (set_buf _ w)) with (set_buf a w) in Hb.
    rewrite Hs in Hb. rewrite app_nil_r in Hb. by destruct w1.
Qed.

(** The loop on encoded frames is their handlers, one after the other. *)
Fixpoint handle_all (fs : list frame) : eff (shim R) bool :=
  match fs with
  | [] => mret true
  | f :: fs' => go ← handle f; if go : bool then handle_all fs' else mret false
  end.

Lemma settle_frames cs w :
  Forall client_ok cs -> buf w = [] ->
  handle_all (c_frame <$> cs) w = (Ok true, (handle_all (c_frame <$> cs) w).2) ->
  settle (set_buf (concat (client_bytes <$> cs)) w) = handle_all (c_frame <$> cs) w.
Proof.
  intros Hok. revert w. induction Hok as [|c cs Hc _ IH]; intros w Hb Hh.
  - simpl. replace (set_buf [] w) with w by (destruct w; simpl in *; by subst). 
    rewrite settle_unfold, Hb. done.
  - rewrite !fmap_cons in *. cbn [concat]. rewrite settle_unfold. cbn [buf set_buf].
    rewrite parse_client_frame by done.
    change (set_buf ?a (set_buf _ w)) with (set_buf a w).
    destruct (handle_set_buf (c_frame c) (concat (client_bytes <$> cs)) w) as [-> Hb'].
    cbn [handle_all] in Hh |- *. unfold mbind, eff_bind in Hh |- *.
    destruct (handle (c_frame c) w) as [[[]|] w'] eqn:Hc'; simpl in Hh, Hb'; try done.
    rewrite IH; [done|congruence|done].
Qed.

End loop.

(** ** What a WebSocket receiver promises *)

Inductive action : Type :=
| Deliver (message : bytes)
| Pong (data : bytes).

(** The messages of a stream of frames and the pongs it is owed, in order, with the
    fragments of an unfinished message; [None] when the peer is to be dropped. *)
Fixpoint actions (parts : list bytes) (fs : list frame) : option (list action * list bytes) :=
  match fs with
  | [] => Some ([], parts)
  | f :: fs' =>
      if opcode f =? 9 then
        '(acts, rem) ← actions parts fs'; Some (Pong (payload f) :: acts, rem)
      else if opcode f =? 10 then actions parts fs'
      else if (opcode f =? 0) || (opcode f =? 1) || (opcode f =? 2) then
        let parts := parts ++ [payload f] in
        if MAX_MESSAGE_BYTES <? blen (concat parts) then None
        else if fin f then
          '(acts, rem) ← actions [] fs'; Some (Deliver (concat parts) :: acts, rem)
        else actions parts fs'
      else None
  end.

Section receiver.
Context {R : Type} (raw_write : bytes -> eff R bool) (raw_destroy : eff R unit)
  (on_data : bytes -> eff (sock R) unit).

Notation handle := (handle_frame raw_write raw_destroy on_data).
Notation feed := (onBytes raw_write raw_destroy on_data).
Notation all := (handle_all raw_write raw_destroy on_data).

Definition act (a : action) : eff (sock R) unit :=
  match a with
  | Deliver m => on_data m
  | Pong p => try_catch (on_raw (raw_write (pongFrame p)) ;; mret tt) (fun _ => mret tt)
  end.

Lemma pong_ok p s : exists s', act (Pong p) s = (Ok tt, s').
Proof.
  simpl. unfold try_catch, mbind, eff_bind, mret, eff_ret.
  destruct (on_raw _ s) as [[?|?] s']; eauto.
Qed.

Lemma handle_ping f parts n s s' :
  opcode f = 9 -> act (Pong (payload f)) s = (Ok tt, s') ->
  handle f (mkShim [] parts n s) = (Ok true, mkShim [] parts n s').
Proof.
  intros H9 Hs. unfold handle_frame. rewrite H9. change (9 =? 8) with false. change (9 =? 9) with true.
  cbv iota. fold (act (Pong (payload f))).
  unfold on_sock, mbind, eff_bind. cbn [sk]. rewrite Hs. done.
Qed.

Lemma handle_data f parts s :
  (opcode f =? 0) || (opcode f =? 1) || (opcode f =? 2) = true ->
  blen (concat (parts ++ [payload f])) <= MAX_MESSAGE_BYTES ->
  handle f (mkShim [] parts (blen (concat parts)) s) =
    if fin f then
      match on_data (concat (parts ++ [payload f])) s with
      | (Ok _, s') => (Ok true, mkShim [] [] 0 s')
      | (Throw e, s') => (Throw e, mkShim [] [] 0 s')
      end
    else (Ok true, mkShim [] (parts ++ [payload f]) (blen (concat (parts ++ [payload f]))) s).
Proof.
  intros Hop Hmax. unfold handle_frame. rewrite Hop.
  rewrite !(proj2 (Z.eqb_neq (opcode f) _)) by (intros ?; rewrite H in Hop; done).
  assert (Hb : blen (concat parts) + blen (payload f) = blen (concat (parts ++ [payload f]))).
  { rewrite concat_app, blen_app. simpl. by rewrite app_nil_r. }
  unfold mbind, eff_bind, modify, gets, mret, eff_ret, on_sock, message_of. simpl. rewrite Hb.
  rewrite (proj2 (Z.ltb_ge _ _)) by done.
  destruct (fin f); [|done]. simpl. by destruct (on_data _ s) as [[?|?] ?].
Qed.

Lemma handle_all_actions fs parts acts rem s s' :
  actions parts fs = Some (acts, rem) ->
  for_each act acts s = (Ok tt, s') ->
  all fs (mkShim [] parts (blen (concat parts)) s) = (Ok true, mkShim [] rem (blen (concat rem)) s').
Proof.
  revert parts acts s. induction fs as [|f fs IH]; intros parts acts s; cbn [actions].
  { intros [= <- <-] [= <-]. done. }
  destruct (Z.eqb_spec (opcode f) 9) as [H9|H9].
  { destruct (actions parts fs) as [[acts' rem']|] eqn:Ha; [|done]. intros [= <- <-].
    cbn [for_each handle_all]. unfold mbind, eff_bind. destruct (pong_ok (payload f) s) as [s1 Hs1].
    rewrite (handle_ping f _ _ _ _ H9 Hs1), Hs1. intros Hrest. by eapply IH. }
  destruct (Z.eqb_spec (opcode f) 10) as [H10|H10].
  { intros Ha Hr. cbn [handle_all]. unfold mbind, eff_bind, handle_frame. rewrite H10. by eapply IH. }
  destruct (_ || _) eqn:Hop; [|done].
  destruct (Z.ltb_spec MAX_MESSAGE_BYTES (blen (concat (parts ++ [payload f])))) as [|Hmax]; [done|].
  cbn [handle_all]. unfold mbind, eff_bind. rewrite handle_data by done.
  destruct (fin f).
  - destruct (actions [] fs) as [[acts' rem']|] eqn:Ha; [|done]. intros [= <- <-].
    cbn [for_each act]. unfold mbind, eff_bind.
    destruct (on_data _ s) as [[[]|?] s1]; [|done]. intros Hr.
    exact (IH [] acts' s1 Ha Hr).
  - intros Ha Hr. by eapply IH.
Qed.

(** C30. A client's stream of well-formed frames, cut into chunks in any way: the
    connection handler is given exactly the messages the frames carry, reassembled
    from their fragments and in order, and every ping is answered with its own
    data; nothing is left in the buffer, and the fragments of an unfinished message
    wait for the rest. *)
Theorem stream_delivers_messages cs chunks acts rem s s' :
  Forall client_ok cs ->
  actions [] (c_frame <$> cs) = Some (acts, rem) ->
  concat chunks = concat (client_bytes <$> cs) ->
  for_each act acts s = (Ok tt, s') ->
  for_each feed chunks (mkShim [] [] 0 s) = (Ok tt, mkShim [] rem (blen (concat rem)) s').
Proof.
  intros Hok Ha Hcat Hr. pose proof (handle_all_actions _ _ _ _ s s' Ha Hr) as Hall.
  change (blen (concat [])) with 0 in Hall.
  apply feed_chunks; [|by rewrite settle_unfold].
  cbn [buf]. rewrite Hcat. simpl app. rewrite settle_frames; [done..|by rewrite Hall].
Qed.

End receiver.

(** ** What the daemon writes *)

Lemma text_frame_is_client_frame text :
  blen (utf8_bytes text) < 2 ^ 64 ->
  encodeTextFrame text = client_bytes (mkClient (mkFrame true 1 (utf8_bytes text)) None).
Proof.
  intros Hlen. unfold encodeTextFrame, client_bytes, length_field, length_ext. simpl c_frame. simpl c_key.
  cbn [payload fin opcode]. pose proof (blen_nonneg (utf8_bytes text)). set (n := blen (utf8_bytes text)) in *.
  destruct (Z.ltb_spec n 126); [done|]. destruct (Z.ltb_spec n 65536); [|done].
  simpl be_bytes. change 255 with (Z.ones 8). rewrite !Z.land_ones, Z.shiftr_div_pow2 by lia.
  done.
Qed.

(** The text frame the daemon writes is read back, by a reader of RFC 6455
    frames, as one final unmasked text frame that carries exactly the text, in each
    of the three length forms and whatever bytes follow. *)
Theorem text_frame_roundtrip text rest :
  blen (utf8_bytes text) < 2 ^ 64 ->
  parse_frame (encodeTextFrame text ++ rest) = Some (mkFrame true 1 (utf8_bytes text), rest) /\
  utf8_text (utf8_bytes text) = text.
Proof.
  intros Hlen. rewrite text_frame_is_client_frame by done. split; [|apply utf8_text_bytes].
  rewrite parse_client_frame; [done|]. split; [cbn; lia|split; [exact Hlen|exact I]].
Qed.

Lemma text_frame_roundtrip_witness :
  blen (utf8_bytes "ready") < 2 ^ 64 /\
  parse_frame (encodeTextFrame "ready" ++ [1; 2]) = Some (mkFrame true 1 (utf8_bytes "ready"), [1; 2]).
Proof.
  assert (H : blen (utf8_bytes "ready") < 2 ^ 64) by (vm_compute; reflexivity).
  split; [exact H|]. exact (proj1 (text_frame_roundtrip "ready" [1; 2] H)).
Defined.

(** A frame that carries everything after two bytes has a short length field. *)
Lemma parse_whole_payload b0 b1 p g o :
  parse_frame (b0 :: b1 :: p) = Some (mkFrame g o p, []) -> blen p < 126.
Proof.
  unfold parse_frame. intros H. set (b := b0 :: b1 :: p) in *.
  destruct (Z.ltb_spec (blen b) 2) as [|Hb]; [done|].
  destruct (read_length b) as [[len k]|] eqn:Hl; [|done]. simpl in H.
  destruct (read_length_app b [] len k Hb Hl) as [_ Hk].
  destruct (read_mask b k) as [[m k']|] eqn:Hm; [|done]. simpl in H.
  destruct (read_mask_app b [] k m k' Hk Hm) as [_ Hk'].
  destruct (Z.ltb_spec (blen b) (Z.of_nat k' + len)) as [|Hlen]; [done|].
  injection H as _ _ Hp _.
  assert (Hn : length p = length (subarray b k' (k' + Z.to_nat len))).
  { rewrite <- Hp at 1. destruct m; [apply length_unmask|done]. }
  assert (Hbl : length b = S (S (length p))) by done. unfold blen in *.
  destruct (decide (k' + Z.to_nat len <= length b)%nat) as [Hs|Hs].
  - rewrite length_subarray in Hn by done. clear Hp Hm.
    unfold read_length in Hl.
    destruct (Z.eqb_spec (Z.land (byte_at b 1) 127) 126); [destruct (blen b <? 4); simplify_eq; lia|].
    destruct (Z.eqb_spec (Z.land (byte_at b 1) 127) 127); [destruct (blen b <? 10); simplify_eq; lia|].
    simplify_eq. assert (0 <= Z.land (byte_at b 1) 127 < 2 ^ 7); [|lia].
    change 127 with (Z.ones 7). rewrite Z.land_ones by lia. apply Z.mod_pos_bound. lia.
  - exfalso. assert (0 <= len \/ len < 0) as [|] by lia; lia.
Qed.

(** The pong answering a ping is a well-formed frame carrying the ping's data
    exactly when that data has at most 125 bytes: the length byte keeps eight bits of
    the length and has no extended form, so the answer to a longer ping desynchronises
    the peer's reader. *)
Theorem pong_well_formed_iff p :
  parse_frame (pongFrame p) = Some (mkFrame true 10 p, []) <-> blen p <= 125.
Proof.
  split.
  - intros H. apply parse_whole_payload in H. lia.
  - intros Hp. pose proof (blen_nonneg p) as H0.
    replace (pongFrame p) with (client_bytes (mkClient (mkFrame true 10 p) None) ++ []).
    + rewrite parse_client_frame; [done|]. split; [cbn; lia|split; [|exact I]].
      cbn [c_frame payload]. lia.
    + rewrite app_nil_r. unfold pongFrame, client_bytes, length_field, length_ext. cbn [c_frame c_key payload].
      rewrite (proj2 (Z.ltb_lt _ _)) by lia. change 255 with (Z.ones 8).
      rewrite Z.land_ones by lia. rewrite Z.mod_small by lia. done.
Qed.

(** ** Bounds *)

Section bounds.
Context {R : Type} (raw_write : bytes -> eff R bool) (raw_destroy : eff R unit)
  (on_data : bytes -> eff (sock R) unit).

Notation handle := (handle_frame raw_write raw_destroy on_data).
Notation feed := (onBytes raw_write raw_destroy on_data).

Variable P : sock R -> Prop.
Hypothesis write_P : forall b, preserves P (on_raw (raw_write b)).
Hypothesis destroy_P : preserves P (destroy raw_write raw_destroy).
Hypothesis on_data_P : forall m, blen m <= MAX_MESSAGE_BYTES -> preserves P (on_data m).

(** The count is the size of the fragments kept. *)
Definition frag_count (w : shim R) : Prop := fragBytes w = blen (concat (frags w)) /\ P (sk w).

Lemma preserves_on_sock {A} (m : eff (sock R) A) : preserves P m -> preserves frag_count (on_sock m).
Proof.
  intros Hm w [Hc Hp]. unfold on_sock. pose proof (Hm (sk w) Hp) as H. destruct (m (sk w)) as [r s']. done.
Qed.

Lemma handle_preserves f : preserves frag_count (handle f).
Proof.
  unfold handle_frame.
  destruct (opcode f =? 8); [|destruct (opcode f =? 9); [|destruct (opcode f =? 10); [|destruct (_ || _)]]].
  - apply preserves_bind; [by apply preserves_on_sock|]. auto with preserves.
  - apply preserves_bind; [apply preserves_on_sock|auto with preserves].
    apply preserves_try; auto with preserves.
  - auto with preserves.
  - intros w [Hc Hp]. unfold mbind, eff_bind, modify, gets, mret, eff_ret. simpl.
    assert (Hb : fragBytes w + blen (payload f) = blen (concat (frags w ++ [payload f]))).
    { rewrite Hc, concat_app, blen_app. simpl. by rewrite app_nil_r. }
    rewrite Hb. destruct (Z.ltb_spec MAX_MESSAGE_BYTES (blen (concat (frags w ++ [payload f])))).
    + unfold on_sock. simpl. pose proof (destroy_P _ Hp). by destruct (destroy _ _ (sk w)) as [[]].
    + destruct (fin f); simpl; [|by split].
      unfold on_sock. simpl.
      pose proof (on_data_P (message_of (frags w ++ [payload f])) ltac:(done) _ Hp) as H'.
      by destruct (on_data _ (sk w)) as [[]].
  - apply preserves_bind; [by apply preserves_on_sock|]. auto with preserves.
Qed.

Lemma loop_preserves n : preserves frag_count (parse_loop raw_write raw_destroy on_data n).
Proof.
  induction n as [|n IH]; intros w Hw; [done|]. rewrite loop_S.
  destruct (parse_frame (buf w)) as [[f rest]|]; [|done].
  pose proof (handle_preserves f (set_buf rest w) Hw) as Hf.
  destruct (handle f (set_buf rest w)) as [[[]|] w']; try done. by apply IH.
Qed.

(** Whatever bytes arrive, the connection handler is never given a message of
    more than 8 MiB, and the byte count tested against that cap is the size of the
    fragments held. *)
Theorem messages_within_cap chunk : preserves frag_count (feed chunk).
Proof.
  intros w Hw. rewrite feed_settle. unfold settle.
  pose proof (loop_preserves (length (buf (set_buf (buf w ++ chunk) w))) (set_buf (buf w ++ chunk) w) Hw) as Hl.
  by destruct (parse_loop _ _ _ _ _) as [[?|?] w'].
Qed.

End bounds.

Section unbounded.
Context {R : Type} (raw_write : bytes -> eff R bool) (raw_destroy : eff R unit)
  (on_data : bytes -> eff (sock R) unit).

Lemma parse_incomplete b0 n data :
  0 <= n < 2 ^ 64 -> blen data < n -> parse_frame (b0 :: 127 :: be_bytes 8 n ++ data) = None.
Proof.
  intros Hn Hd. unfold parse_frame. set (b := b0 :: 127 :: be_bytes 8 n ++ data).
  assert (Hlen : blen b = 10 + blen data).
  { unfold b, blen. rewrite !length_cons, length_app, length_be_bytes. lia. }
  pose proof (blen_nonneg data). rewrite (proj2 (Z.ltb_ge (blen b) 2)) by lia.
  assert (Hl : read_length b = Some (n, 10%nat)).
  { unfold read_length. change (byte_at b 1) with 127. change (Z.land 127 127) with 127. simpl Z.eqb. cbv iota.
    rewrite (proj2 (Z.ltb_ge (blen b) 10)) by lia.
    change (subarray b 2 10) with (take 8 (be_bytes 8 n ++ data)).
    rewrite take_app_length' by (by rewrite length_be_bytes). by rewrite be_value_bytes. }
  rewrite Hl. simpl. unfold read_mask. change (byte_at b 1) with 127. simpl.
  rewrite (proj2 (Z.ltb_lt (blen b) _)) by lia. done.
Qed.

(** A frame header that declares a huge payload is believed: every byte that
    follows is kept in the buffer, however many they are and however they arrive,
    until the declared length is reached; the 8 MiB cap drops nobody before that. *)
Theorem declared_length_is_buffered b0 n data chunks s :
  0 <= n < 2 ^ 64 -> blen data < n ->
  concat chunks = b0 :: 127 :: be_bytes 8 n ++ data ->
  for_each (onBytes raw_write raw_destroy on_data) chunks (mkShim [] [] 0 s)
    = (Ok tt, mkShim (b0 :: 127 :: be_bytes 8 n ++ data) [] 0 s).
Proof.
  intros Hn Hd Hcat. apply feed_chunks; [|by rewrite settle_unfold].
  cbn [buf]. rewrite Hcat, settle_unfold.
  change (buf _) with (b0 :: 127 :: be_bytes 8 n ++ data). by rewrite parse_incomplete.
Qed.

End unbounded.

(** ** Witnesses *)

(** A socket that records what is written and delivered. *)
Definition log_write (b : bytes) : eff (list bytes) bool := fun l => (Ok true, l ++ [b]).
Definition log_destroy : eff (list bytes) unit := mret tt.
Definition log_data (m : bytes) : eff (sock (list bytes)) unit :=
  modify (fun s => mkSock (destroyed s) (raw s ++ [m])).

(** A message in two fragments, under two masks, with a ping in between, cut inside
    a header. *)
Definition demo_frames : list client_frame :=
  [mkClient (mkFrame false 1 [104; 101]) (Some [1; 2; 3; 4]);
   mkClient (mkFrame true 9 [7]) None;
   mkClient (mkFrame true 0 [121; 10]) (Some [9; 9; 9; 9])].

Definition demo_chunks : list bytes :=
  let b := concat (client_bytes <$> demo_frames) in [take 1 b; take 8 (drop 1 b); drop 9 b].

Lemma stream_delivers_messages_witness :
  Forall client_ok demo_frames /\
  for_each (onBytes log_write log_destroy log_data) demo_chunks (mkShim [] [] 0 (mkSock false []))
    = (Ok tt, mkShim [] [] 0 (mkSock false [[138; 1; 7]; [104; 101; 121; 10]])).
Proof.
  assert (Hok : Forall client_ok demo_frames) by (repeat constructor; simpl; lia).
  split; [exact Hok|].
  assert (Ha : actions [] (c_frame <$> demo_frames)
               = Some ([Pong [7]; Deliver [104; 101; 121; 10]], [])) by (vm_compute; reflexivity).
  assert (Hc : concat demo_chunks = concat (client_bytes <$> demo_frames)) by (vm_compute; reflexivity).
  assert (Hr : for_each (act log_write log_data) [Pong [7]; Deliver [104; 101; 121; 10]] (mkSock false [])
               = (Ok tt, mkSock false [[138; 1; 7]; [104; 101; 121; 10]])) by (vm_compute; reflexivity).
  exact (stream_delivers_messages log_write log_destroy log_data demo_frames demo_chunks _ _ _ _ Hok Ha Hc Hr).
Defined.

Lemma messages_within_cap_witness :
  preserves (frag_count (fun s : sock (list bytes) => True))
    (onBytes log_write log_destroy log_data [129; 1; 65]).
Proof.
  apply (messages_within_cap log_write log_destroy log_data (fun _ => True)); repeat intro; exact I.
Defined.

Lemma declared_length_is_buffered_witness :
  for_each (onBytes log_write log_destroy log_data) [[130; 127]; be_bytes 8 (2 ^ 40); [1; 2; 3]]
      (mkShim [] [] 0 (mkSock false []))
    = (Ok tt, mkShim (130 :: 127 :: be_bytes 8 (2 ^ 40) ++ [1; 2; 3]) [] 0 (mkSock false [])).
Proof.
  assert (H1 : 0 <= 2 ^ 40 < 2 ^ 64) by lia.
  assert (H2 : blen [1; 2; 3] < 2 ^ 40) by (vm_compute; reflexivity).
  exact (declared_length_is_buffered log_write log_destroy log_data 130 (2 ^ 40) [1; 2; 3]
           [[130; 127]; be_bytes 8 (2 ^ 40); [1; 2; 3]] (mkSock false []) H1 H2 eq_refl).
Defined.
