(* ===== verification/Text.v ===== *)
(** * Text

    What the sources call on strings, on ASCII: trimming, lower case, the replacement
    of characters; and the neutraliser of control characters of
    [packages/protocol/src/sanitize.ts] with the logger of
    [packages/daemon/src/infrastructure/logger.ts] that applies it. *)

From S2P Require Import Prelude JsMap Js Framing.

Local Open Scope Z_scope.

Module Text.

(** [s.trim()] *)
Fixpoint trim_start (s : string) : string :=
  match s with
  | String c s' => if Framing.is_space c then trim_start s' else s
  | EmptyString => EmptyString
  end.

Fixpoint trim_end (s : string) : string :=
  match s with
  | String c s' =>
      match trim_end s' with
      | EmptyString => if Framing.is_space c then EmptyString else String c EmptyString
      | s'' => String c s''
      end
  | EmptyString => EmptyString
  end.

Definition trim (s : string) : string := trim_end (trim_start s).

(** [s.toLowerCase()] *)
Definition lower_char (c : ascii) : ascii :=
  let n := nat_of_ascii c in
  if decide (65 <= n <= 90)%nat then ascii_of_nat (n + 32) else c.

Fixpoint map_chars (f : ascii -> ascii) (s : string) : string :=
  match s with
  | String c s' => String (f c) (map_chars f s')
  | EmptyString => EmptyString
  end.

Definition toLowerCase (s : string) : string := map_chars lower_char s.

(** Every character of a string satisfies [P]. *)
Fixpoint all_chars (P : ascii -> bool) (s : string) : bool :=
  match s with
  | String c s' => P c && all_chars P s'
  | EmptyString => true
  end.

(** [s.split('\n')[0]] *)
Definition first_line (s : string) : string :=
  match Framing.take_line s with Some (line, _) => line | None => s end.

(** [s.startsWith(p)], with what follows. *)
Fixpoint strip_prefix (p s : string) : option string :=
  match p, s with
  | EmptyString, _ => Some s
  | String a p', String b s' => if decide (a = b) then strip_prefix p' s' else None
  | _, _ => None
  end.

End Text.

Module Sanitize.

Definition backslash : ascii := "092"%char.
Definition tab : ascii := "009"%char.
Definition newline : ascii := "010"%char.
Definition return_ : ascii := "013"%char.

Definition hex_digit (n : nat) : ascii :=
  ascii_of_nat (if decide (n < 10)%nat then 48 + n else 87 + n).

(** [code.toString(16).padStart(2, '0')] *)
Definition hex2 (code : nat) : string :=
  String (hex_digit (code / 16)) (String (hex_digit (code mod 16)) EmptyString).

(** One turn of the loop of [neutralizeControlChars]. *)
Definition neutralize_char (ch : ascii) : string :=
  if decide (ch = newline) then String backslash "n"
  else if decide (ch = return_) then String backslash "r"
  else if decide (ch = tab) then String ch EmptyString
  else
    let code := nat_of_ascii ch in
    if decide (code < 32 \/ code = 127)%nat then String backslash (String "x" (hex2 code))
    else String ch EmptyString.

Fixpoint neutralizeControlChars (s : string) : string :=
  match s with
  | EmptyString => EmptyString
  | String ch s' => neutralize_char ch +:+ neutralizeControlChars s'
  end.

(** *** The logger *)

Definition sanitizeLogArg (a : jsval) : jsval :=
  match a with
  | JStr s => JStr (neutralizeControlChars s)
  | _ => a
  end.

(** [createLogger(sink)], given the time of the call. *)
Definition createLogger {X} (sink : list jsval -> eff X unit) (now : string) (a : list jsval) : eff X unit :=
  sink (JStr now :: (sanitizeLogArg <$> a)).

End Sanitize.

Import Text Sanitize.

(** ** Trimming *)

Lemma trim_start_spaces ws s : all_chars Framing.is_space ws = true -> trim_start (ws +:+ s) = trim_start s.
Proof.
  induction ws as [|c ws IH]; intros Hw; [done|]. rewrite string_cons_app. simpl in Hw |- *.
  apply andb_true_iff in Hw as [-> Hw]. by apply IH.
Qed.

Lemma trim_end_spaces ws : all_chars Framing.is_space ws = true -> trim_end ws = "".
Proof.
  induction ws as [|c ws IH]; intros Hw; [done|]. simpl in Hw |- *.
  apply andb_true_iff in Hw as [Hc Hw]. by rewrite IH, Hc.
Qed.

Lemma trim_end_word s ws :
  all_chars (fun c => negb (Framing.is_space c)) s = true -> all_chars Framing.is_space ws = true ->
  trim_end (s +:+ ws) = s.
Proof.
  intros Hs Hw. induction s as [|c s IH]; [rewrite string_nil_app; by apply trim_end_spaces|].
  rewrite string_cons_app. simpl in Hs |- *. apply andb_true_iff in Hs as [Hc Hs].
  rewrite (IH Hs). destruct s; [|done]. by destruct (Framing.is_space c).
Qed.

(** Surrounding white space is taken off a word. *)
Lemma trim_word ws1 s ws2 :
  all_chars Framing.is_space ws1 = true -> all_chars Framing.is_space ws2 = true ->
  all_chars (fun c => negb (Framing.is_space c)) s = true ->
  trim (ws1 +:+ s +:+ ws2) = s.
Proof.
  intros H1 H2 Hs. unfold trim. rewrite trim_start_spaces by done.
  destruct s as [|c s].
  - rewrite string_nil_app. rewrite <- (string_app_empty_r ws2), trim_start_spaces by done. done.
  - rewrite string_cons_app. simpl trim_start. simpl in Hs. apply andb_true_iff in Hs as [Hc Hs].
    destruct (Framing.is_space c) eqn:Hsp; [done|].
    rewrite <- (string_cons_app c s ws2). apply trim_end_word; [|done]. simpl. by rewrite Hsp, Hs.
Qed.

Lemma all_chars_app P a b : all_chars P (a +:+ b) = all_chars P a && all_chars P b.
Proof. induction a as [|c a IH]; [done|]. rewrite string_cons_app. simpl. by rewrite IH, andb_assoc. Qed.

Lemma all_chars_impl (P Q : ascii -> bool) s :
  (forall c, P c = true -> Q c = true) -> all_chars P s = true -> all_chars Q s = true.
Proof.
  intros Hpq. induction s as [|c s IH]; simpl; [done|].
  intros [Hc Hs]%andb_true_iff. by rewrite (Hpq c Hc), IH.
Qed.

(** ** The neutraliser *)

(** The tab, and every character but the C0 controls and DEL: the bytes of the C1 controls
    are among these. *)
Definition harmless (c : ascii) : bool :=
  bool_decide (c = tab) || (bool_decide (32 <= nat_of_ascii c)%nat && bool_decide (nat_of_ascii c <> 127%nat)).

Lemma neutralize_char_harmless c : all_chars harmless (neutralize_char c) = true.
Proof. destruct c as [[] [] [] [] [] [] [] []]; vm_compute; reflexivity. Qed.

Lemma neutralize_char_id c : harmless c = true -> neutralize_char c = String c "".
Proof. destruct c as [[] [] [] [] [] [] [] []]; vm_compute; first [reflexivity|discriminate]. Qed.

Lemma neutralize_harmless s : all_chars harmless (neutralizeControlChars s) = true.
Proof.
  induction s as [|c s IH]; [done|]. simpl. by rewrite all_chars_app, neutralize_char_harmless, IH.
Qed.

Lemma neutralize_id s : all_chars harmless s = true -> neutralizeControlChars s = s.
Proof.
  induction s as [|c s IH]; [done|]. simpl. intros [Hc Hs]%andb_true_iff.
  rewrite neutralize_char_id, IH by done. done.
Qed.

(** What reaches the operator's log or a rendered audit line from outside cannot
    forge a line or drive the terminal with a C0 control: the neutralised text holds none
    but the tab, nor DEL, text that holds none is left as it was, so neutralising
    twice changes nothing; and the logger gives its sink nothing else, whatever
    strings it is called with. *)
Theorem logged_text_is_harmless s :
  all_chars harmless (neutralizeControlChars s) = true /\
  (all_chars harmless s = true <-> neutralizeControlChars s = s) /\
  neutralizeControlChars (neutralizeControlChars s) = neutralizeControlChars s /\
  (forall (a : list jsval) t, JStr t ∈ (sanitizeLogArg <$> a) -> all_chars harmless t = true).
Proof.
  split_and!.
  - apply neutralize_harmless.
  - split; [apply neutralize_id|]. intros <-. apply neutralize_harmless.
  - apply neutralize_id, neutralize_harmless.
  - intros a t Ht. apply list_elem_of_fmap in Ht as (v & Hv & _). destruct v; simplify_eq/=.
    apply neutralize_harmless.
Qed.

(** The neutraliser is not injective: an escape sequence typed out and the character
    it stands for read the same. *)
Lemma neutralize_ambiguous :
  neutralizeControlChars (String newline "") = neutralizeControlChars (String backslash "n").
Proof. reflexivity. Qed.

(** The C1 controls pass: U+009B, which starts an escape sequence on a terminal that
    takes them, is left as it is. *)
Lemma neutralize_passes_C1 :
  let csi := String "194"%char (String "155"%char "[2J") in neutralizeControlChars csi = csi.
Proof. reflexivity. Qed.
