(* ===== verification/Transport.v ===== *)
(** * The daemon's adapters to the outside

    [packages/daemon/src/infrastructure/tailscale.ts], which decides where the network
    listeners bind, and [packages/daemon/src/infrastructure/expoPush.ts], which posts the
    wake-up of a pending approval.  Running a program, parsing a URL and the HTTP request
    itself are the platform's; a request is the events it delivers. *)

From S2P Require Import Prelude JsMap Js Framing Text.

Local Open Scope Z_scope.

Module Tailscale.
Import Text.

Definition failure_text (unixSocketPath message : string) : string :=
  "CC_CLIENT_TCP_PORT set but could not resolve a Tailscale IP via 'tailscale ip -4' (" +:+ message +:+
  "). Set CC_CLIENT_TCP_HOST explicitly to override. TCP listener not started; " +:+ unixSocketPath +:+ " is unaffected.".

(** [resolveTcpHost(configuredHost, unixSocketPath, log)]: what is logged and the host;
    [exec] is what the program printed, or why it failed. *)
Definition resolveTcpHost (configuredHost unixSocketPath : string) (exec : outcome string) : list string * option string :=
  if decide (configuredHost = "0.0.0.0") then
    (["WARNING: CC_CLIENT_TCP_HOST=0.0.0.0 binds beyond your tailnet, not just to it."], Some "0.0.0.0")
  else if negb (bool_decide (configuredHost = "auto")) then ([], Some configuredHost)
  else
    match (match exec with
           | Throw e => Throw e
           | Ok out => let ip := first_line (trim out) in if truthy (Some ip) then Ok ip else Throw "empty output"
           end) with
    | Ok ip => ([], Some ip)
    | Throw e => ([failure_text unixSocketPath e], None)
    end.

End Tailscale.

Module ExpoPush.

Definition EXPO_MAX_BATCH : nat := 100.

(** One message; nothing in it names a session, a tool or an approval. *)
Definition message (to : string) : jsval :=
  JObj [("to", JStr to); ("title", JStr "Approval needed"); ("body", JStr "A tool call is waiting for your decision.");
        ("priority", JStr "high"); ("data", JObj [("kind", JStr "approval")])].

Record Url : Type := mkUrl { protocol : string; host : string }.

Inductive Transport : Type := Http | Https.

Record Request : Type := mkRequest { url : Url; mod_ : Transport; body : jsval }.

Record t : Type := mk {
  log : list string;
  request : option Request;
  data : string;
  resolved : bool;
}.

(** [tokens.slice(0, EXPO_MAX_BATCH)] and the line that says what was dropped. *)
Definition batch_of (tokens : list string) : list string * list string :=
  if (EXPO_MAX_BATCH <? length tokens)%nat then
    (["push: " +:+ pretty (length tokens) +:+ " tokens exceeds Expo's " +:+ pretty EXPO_MAX_BATCH +:+
      "-per-request cap, sending the first " +:+ pretty EXPO_MAX_BATCH +:+ ", dropping " +:+
      pretty (length tokens - EXPO_MAX_BATCH)%nat],
     take EXPO_MAX_BATCH tokens)
  else ([], tokens).

(** [send(tokens)], up to the request that is written; [new_URL] fails on a bad endpoint. *)
Definition send (new_URL : string -> option Url) (quoted : string -> string) (endpoint : string) (tokens : list string) : t :=
  match tokens with
  | [] => mk [] None EmptyString true
  | _ =>
      let '(said, batch) := batch_of tokens in
      match new_URL endpoint with
      | None => mk (said ++ ["push: invalid endpoint " +:+ quoted endpoint +:+ ", not sending"]) None EmptyString true
      | Some u =>
          mk said (Some (mkRequest u (if decide (protocol u = "http:") then Http else Https) (JArr (message <$> batch))))
            EmptyString false
      end
  end.

(** What the request and its response deliver. *)
Inductive Event : Type := ResData (chunk : string) | ResEnd (statusCode : option Z) | ReqError (message : string).

Definition slice0 (n : nat) (s : string) : string := String.substring 0 n s.

Definition on_event (s : t) (e : Event) : t :=
  let url_host := match request s with Some r => host (url r) | None => EmptyString end in
  match e with
  | ResData c => if (String.length (data s) <? 2000)%nat then mk (log s) (request s) (data s +:+ c) (resolved s) else s
  | ResEnd code =>
      let said := if 300 <=? default 0 code
                  then ["push: " +:+ url_host +:+ " returned " +:+ pretty (default 0 code) +:+ ": " +:+ slice0 200 (data s)]
                  else [] in
      mk (log s ++ said) (request s) (data s) true
  | ReqError m => mk (log s ++ ["push: send to " +:+ url_host +:+ " failed: " +:+ m]) (request s) (data s) true
  end.

Definition run (s : t) (es : list Event) : t := foldl on_event s es.

(** [noopPushSender] *)
Definition noopPushSender (tokens : list string) : t := mk [] None EmptyString true.

End ExpoPush.

Import Tailscale.

(** ** Where the listeners bind *)

(** The network listeners fail closed: with an address of its own the daemon binds that
    one and nothing else; otherwise it binds what [tailscale] printed, and when that
    failed or printed nothing there is no host at all and the log says why.  Every
    interface is bound only when it was asked for, or printed. *)
Lemma listener_fails_closed configuredHost path exec :
  (forall h, (resolveTcpHost configuredHost path exec).2 = Some h ->
     h = configuredHost /\ h <> "auto" \/
     configuredHost = "auto" /\ exists out, exec = Ok out /\ h = Text.first_line (Text.trim out) /\ h <> EmptyString) /\
  ((resolveTcpHost configuredHost path exec).2 = None -> (resolveTcpHost configuredHost path exec).1 <> []) /\
  ((resolveTcpHost configuredHost path exec).2 = None <->
     configuredHost = "auto" /\ forall out, exec = Ok out -> Text.first_line (Text.trim out) = EmptyString).
Proof.
  unfold resolveTcpHost. destruct (decide (configuredHost = "0.0.0.0")) as [->|H0].
  { split_and!; [intros h [= <-]; by left|done|split; [done|intros [? _]; done]]. }
  destruct (decide (configuredHost = "auto")) as [->|Ha].
  2: { rewrite bool_decide_false by done. split_and!; [intros h [= <-]; by left|done|split; [done|intros [? _]; done]]. }
  rewrite bool_decide_true by done. cbn [negb]. destruct exec as [out|e].
  - cbv zeta. destruct (Text.first_line (Text.trim out)) as [|c s] eqn:Hl; cbn.
    + split_and!; [done|done|]. split; [|done]. intros _. split; [done|]. by intros out' [= <-].
    + split_and!; [|done|].
      * intros h [= <-]. right. split; [done|]. exists out. by rewrite Hl.
      * split; [done|]. intros [_ Ho]. specialize (Ho out eq_refl). congruence.
  - cbn. split_and!; [done|done|]. split; [|done]. intros _. split; [done|]. by intros out'.
Qed.

Import ExpoPush.

(** ** What a push discloses *)

Lemma substring0_length n s : (String.length (ExpoPush.slice0 n s) <= n)%nat.
Proof. unfold slice0. revert n. induction s as [|c s IH]; intros [|n]; cbn; [lia..|]. specialize (IH n). lia. Qed.

Lemma batch_spec tokens :
  (batch_of tokens).2 = take EXPO_MAX_BATCH tokens /\
  ((batch_of tokens).1 = [] <-> (length tokens <= EXPO_MAX_BATCH)%nat).
Proof.
  unfold batch_of. destruct (Nat.ltb_spec EXPO_MAX_BATCH (length tokens)) as [Hl|Hl]; cbn [fst snd].
  - split; [done|]. split; [done|lia].
  - split; [by rewrite take_ge|]. split; [done|]. done.
Qed.

Lemma run_request s es : request (ExpoPush.run s es) = request s.
Proof.
  unfold ExpoPush.run. revert s. induction es as [|e es IH]; intros s; [done|]. cbn [foldl]. rewrite IH.
  destruct e; cbn; [by case_match|done..].
Qed.

(** Once resolved, the promise stays so; an end or an error resolves it. *)
Lemma run_resolved s es :
  resolved (ExpoPush.run s es) = resolved s || existsb (fun e => match e with ResData _ => false | _ => true end) es.
Proof.
  unfold ExpoPush.run. revert s. induction es as [|e es IH]; intros s; cbn [foldl existsb]; [by rewrite orb_false_r|].
  rewrite IH. destruct e; cbn; [by case_match|by rewrite orb_true_r..].
Qed.

(** A push discloses that some device has an approval and nothing else, and never more
    than one request's worth: whatever the response does, the request that is made goes
    to the configured endpoint with the fixed text for the first hundred tokens in
    order; a longer list is cut with a line that says so; and without tokens or with an
    endpoint that is no URL there is no request and nothing to wait for. *)
Lemma push_discloses_only_tokens new_URL quoted endpoint tokens es :
  let s := ExpoPush.run (send new_URL quoted endpoint tokens) es in
  (forall r, request s = Some r ->
     new_URL endpoint = Some (url r) /\ body r = JArr (message <$> take EXPO_MAX_BATCH tokens) /\ tokens <> []) /\
  (request s = None <-> tokens = [] \/ new_URL endpoint = None) /\
  (request s = None -> resolved s = true) /\
  ((EXPO_MAX_BATCH < length tokens)%nat -> log (send new_URL quoted endpoint tokens) <> []).
Proof.
  cbv zeta. rewrite run_request, run_resolved. unfold send.
  destruct tokens as [|tok tokens]; [split_and!; [done|split; [by left|done]|done|unfold EXPO_MAX_BATCH; cbn; lia]|].
  set (l := tok :: tokens). destruct (batch_spec l) as [Hb Hs]. destruct (batch_of l) as [said batch]. cbn [fst snd] in *. subst batch.
  assert (Hsaid : (EXPO_MAX_BATCH < length l)%nat -> said <> []) by (intros Hl Hn; apply Hs in Hn; lia).
  destruct (new_URL endpoint) as [u|]; cbn [request resolved log].
  - split_and!; [intros r [= <-]; done|split; [done|intros [?|?]; done]|done|exact Hsaid].
  - split_and!; [done|split; [by right|done]|done|]. intros _. by destruct said.
Qed.

(** The response kept in memory is bounded: the chunks stop being appended at two
    thousand characters, and a log line quotes at most two hundred of them. *)
Lemma response_is_bounded s es (n : nat) :
  (forall c, ResData c ∈ es -> (String.length c <= n)%nat) -> (String.length (data s) <= 1999 + n)%nat ->
  (String.length (data (ExpoPush.run s es)) <= 1999 + n)%nat.
Proof.
  unfold ExpoPush.run. revert s. induction es as [|e es IH]; intros s Hc Hs; [done|]. cbn [foldl].
  apply IH; [intros c Hin; apply Hc; by right|]. destruct e as [c| |]; cbn [on_event]; [|done..].
  destruct (Nat.ltb_spec (String.length (data s)) 2000) as [Hl|Hl]; cbn [data]; [|done].
  rewrite string_length_app. specialize (Hc c ltac:(by left)). lia.
Qed.
