(* ===== verification/Config.v ===== *)
(** * The daemon's configuration

    [packages/daemon/src/infrastructure/config.ts]: the environment parsed into the
    caps and addresses the daemon starts with, or refused. *)

From S2P Require Import Prelude JsMap Js Text.
From stdpp Require Import gmap.

Local Open Scope Z_scope.

Module Config.

(** [process.env]: an absent name is [undefined]. *)
Notation env_map := (gmap string string).

(** A count, or [Infinity]. *)
Inductive count : Type :=
| Finite (n : Z)
| Infinity.

Record DaemonConfig : Type := mkDaemonConfig {
  hookSock : string;
  clientSock : string;
  storePath : string;
  dbPath : string;
  clientTcpPort : option Z;
  clientWsPort : option Z;
  clientTcpHost : string;
  selfDenyMs : count;
  maxConcurrentSessions : count;
  replayMaxDevices : option Z;
  replayMaxEventsPerDevice : option Z;
  maxPairedDevices : count;
  pushEnabled : bool;
  pushEndpoint : string;
}.

(** [Number.isInteger(n)], with the integer it is; [NaN] and the infinities are none. *)
Definition number_isInteger (n : jsnum) : option Z :=
  match n with
  | NumFin q => if decide (Qden (Qred q) = 1%positive) then Some (Qnum (Qred q)) else None
  | _ => None
  end.

Section config.
(** The conversion [Number(raw)], [JSON.stringify] and [String] of a number, and the
    paths of the platform. *)
Variable Number : string -> jsnum.
Variable stringify : string -> string.
Variable show : count -> string.
Variable homedir : string.
Variable path_join : list string -> string.

(** The value of a variable that is present and not empty. *)
Definition present (env : env_map) (name : string) : option string :=
  match env !! name with
  | Some "" | None => None
  | Some raw => Some raw
  end.

Definition positiveInt (env : env_map) (name : string) (fallback : count) : outcome count :=
  match present env name with
  | None => Ok fallback
  | Some raw =>
      match number_isInteger (Number raw) with
      | Some n => if n <? 1 then Throw (name +:+ "=" +:+ stringify raw +:+ " is not a positive integer. " +:+
                                        "Refusing to start: this value is used as a cap, and an unparseable one would silently " +:+
                                        "disable it rather than fall back to " +:+ show fallback +:+ ".")
                  else Ok (Finite n)
      | None => Throw (name +:+ "=" +:+ stringify raw +:+ " is not a positive integer. " +:+
                       "Refusing to start: this value is used as a cap, and an unparseable one would silently " +:+
                       "disable it rather than fall back to " +:+ show fallback +:+ ".")
      end
  end.

Definition boolFlag (env : env_map) (name : string) (fallback : bool) : outcome bool :=
  match present env name with
  | None => Ok fallback
  | Some raw =>
      let v := Text.toLowerCase (Text.trim raw) in
      if decide (v ∈ ["1"; "true"; "yes"; "on"]) then Ok true
      else if decide (v ∈ ["0"; "false"; "no"; "off"]) then Ok false
      else Throw (name +:+ "=" +:+ stringify raw +:+ " is not a boolean (use 1/0, true/false, yes/no, on/off).")
  end.

Definition optionalPositiveInt (env : env_map) (name : string) : outcome (option Z) :=
  match present env name with
  | None => Ok None
  | Some raw =>
      match number_isInteger (Number raw) with
      | Some n => if n <? 1 then Throw (name +:+ "=" +:+ stringify raw +:+ " is not a positive integer.")
                  else Ok (Some n)
      | None => Throw (name +:+ "=" +:+ stringify raw +:+ " is not a positive integer.")
      end
  end.

Definition optionalPort (env : env_map) (name : string) : outcome (option Z) :=
  match present env name with
  | None => Ok None
  | Some raw =>
      match number_isInteger (Number raw) with
      | Some n => if (n <? 1) || (65535 <? n)
                  then Throw (name +:+ "=" +:+ stringify raw +:+ " is not a valid TCP port (1-65535).")
                  else Ok (Some n)
      | None => Throw (name +:+ "=" +:+ stringify raw +:+ " is not a valid TCP port (1-65535).")
      end
  end.

(** [env.X || d] *)
Definition env_or (env : env_map) (name d : string) : string := default d (present env name).

(** Sequencing of the fields of the literal: the first refusal is thrown. *)
Definition and_then {A B} (m : outcome A) (k : A -> outcome B) : outcome B :=
  match m with Ok a => k a | Throw e => Throw e end.

Definition loadConfig (env : env_map) : outcome DaemonConfig :=
  let hook := env_or env "CC_DAEMON_SOCK" "/tmp/cc-daemon.sock" in
  let client := env_or env "CC_CLIENT_SOCK" "/tmp/cc-client.sock" in
  let store := env_or env "CC_STORE" (path_join [homedir; ".config"; "claude-code-remote"; "daemon.json"]) in
  let db := env_or env "CC_DB_PATH" (path_join [homedir; ".config"; "claude-code-remote"; "daemon.db"]) in
  and_then (optionalPort env "CC_CLIENT_TCP_PORT") (fun tcp =>
  and_then (optionalPort env "CC_CLIENT_WS_PORT") (fun ws =>
  let host := env_or env "CC_CLIENT_TCP_HOST" "auto" in
  and_then (positiveInt env "CC_HOOK_SELF_DENY_MS" (Finite (20 * 60 * 1000))) (fun deny =>
  and_then (match present env "CC_MAX_CONCURRENT_SESSIONS" with
            | Some _ => positiveInt env "CC_MAX_CONCURRENT_SESSIONS" Infinity
            | None => Ok Infinity
            end) (fun sessions =>
  and_then (optionalPositiveInt env "CC_REPLAY_MAX_DEVICES") (fun devices =>
  and_then (optionalPositiveInt env "CC_REPLAY_MAX_EVENTS_PER_DEVICE") (fun events =>
  and_then (positiveInt env "CC_MAX_PAIRED_DEVICES" (Finite 50)) (fun paired =>
  and_then (boolFlag env "CC_PUSH_ENABLED" false) (fun push =>
  Ok (mkDaemonConfig hook client store db tcp ws host deny sessions devices events paired push
        (env_or env "CC_PUSH_ENDPOINT" "https://exp.host/--/api/v2/push/send")))))))))).

End config.

End Config.

Import Config.

(** ** What a configuration is *)

Section laws.
Context (Number : string -> jsnum) (stringify : string -> string) (show : count -> string)
  (homedir : string) (path_join : list string -> string).

Notation load := (loadConfig Number stringify show homedir path_join).

Definition positive_count (c : count) : Prop :=
  match c with Finite n => 1 <= n | Infinity => False end.

Definition a_port (p : option Z) : Prop := match p with Some n => 1 <= n <= 65535 | None => True end.
Definition a_cap (c : option Z) : Prop := match c with Some n => 1 <= n | None => True end.

(** The types the comments of the interface give the fields. *)
Definition config_ok (c : DaemonConfig) : Prop :=
  a_port (clientTcpPort c) /\ a_port (clientWsPort c) /\
  positive_count (selfDenyMs c) /\ positive_count (maxPairedDevices c) /\
  (maxConcurrentSessions c = Infinity \/ positive_count (maxConcurrentSessions c)) /\
  a_cap (replayMaxDevices c) /\ a_cap (replayMaxEventsPerDevice c).

(** What a present value must be, per variable. *)
Definition whole_at_least_one (raw : string) : Prop :=
  exists n, number_isInteger (Number raw) = Some n /\ 1 <= n.

Definition port_value (raw : string) : Prop :=
  exists n, number_isInteger (Number raw) = Some n /\ 1 <= n <= 65535.

Definition flag_value (raw : string) : Prop :=
  Text.toLowerCase (Text.trim raw) ∈ ["1"; "true"; "yes"; "on"; "0"; "false"; "no"; "off"].

Definition requirements : list (string * (string -> Prop)) :=
  [("CC_CLIENT_TCP_PORT", port_value); ("CC_CLIENT_WS_PORT", port_value);
   ("CC_HOOK_SELF_DENY_MS", whole_at_least_one);
   ("CC_MAX_CONCURRENT_SESSIONS", whole_at_least_one);
   ("CC_REPLAY_MAX_DEVICES", whole_at_least_one);
   ("CC_REPLAY_MAX_EVENTS_PER_DEVICE", whole_at_least_one);
   ("CC_MAX_PAIRED_DEVICES", whole_at_least_one);
   ("CC_PUSH_ENABLED", flag_value)].

(** Every variable of the list that is set to something is set to a valid value. *)
Definition acceptable (env : env_map) : Prop :=
  Forall (fun '(name, ok) => forall raw, present env name = Some raw -> ok raw) requirements.

(** Each reader returns exactly on the values it accepts. *)
Definition accepts {A} (m : outcome A) (P : Prop) (Q : A -> Prop) : Prop :=
  match m with Ok a => P /\ Q a | Throw _ => ~ P end.

Lemma positiveInt_accepts env name d (Q : count -> Prop) :
  Q d -> (forall n, 1 <= n -> Q (Finite n)) ->
  accepts (positiveInt Number stringify show env name d)
    (forall raw, present env name = Some raw -> whole_at_least_one raw) Q.
Proof.
  intros Hd Hn. unfold positiveInt, accepts, whole_at_least_one.
  destruct (present env name) as [raw|]; [|naive_solver].
  destruct (number_isInteger (Number raw)) as [n|] eqn:E; [destruct (Z.ltb_spec n 1)|].
  - intros Hall. destruct (Hall raw eq_refl) as (n' & Hn' & ?). simplify_eq. lia.
  - split; [|by apply Hn]. intros r [= <-]. eauto with lia.
  - intros Hall. destruct (Hall raw eq_refl) as (n' & Hn' & ?). congruence.
Qed.

Lemma optionalPositiveInt_accepts env name :
  accepts (optionalPositiveInt Number stringify env name)
    (forall raw, present env name = Some raw -> whole_at_least_one raw) a_cap.
Proof.
  unfold optionalPositiveInt, accepts, whole_at_least_one.
  destruct (present env name) as [raw|]; [|naive_solver].
  destruct (number_isInteger (Number raw)) as [n|] eqn:E; [destruct (Z.ltb_spec n 1)|].
  - intros Hall. destruct (Hall raw eq_refl) as (n' & Hn' & ?). simplify_eq. lia.
  - split; [|done]. intros r [= <-]. eauto with lia.
  - intros Hall. destruct (Hall raw eq_refl) as (n' & Hn' & ?). congruence.
Qed.

Lemma optionalPort_accepts env name :
  accepts (optionalPort Number stringify env name)
    (forall raw, present env name = Some raw -> port_value raw) a_port.
Proof.
  unfold optionalPort, accepts, port_value.
  destruct (present env name) as [raw|]; [|naive_solver].
  destruct (number_isInteger (Number raw)) as [n|] eqn:E;
    [destruct (Z.ltb_spec n 1); [|destruct (Z.ltb_spec 65535 n)]|]; simpl.
  - intros Hall. destruct (Hall raw eq_refl) as (n' & Hn' & ?). simplify_eq. lia.
  - intros Hall. destruct (Hall raw eq_refl) as (n' & Hn' & ?). simplify_eq. lia.
  - split; [|by simpl]. intros r [= <-]. eauto with lia.
  - intros Hall. destruct (Hall raw eq_refl) as (n' & Hn' & ?). congruence.
Qed.

Lemma boolFlag_accepts env name d :
  accepts (boolFlag stringify env name d)
    (forall raw, present env name = Some raw -> flag_value raw) (fun _ => True).
Proof.
  unfold boolFlag, accepts, flag_value.
  destruct (present env name) as [raw|]; [|naive_solver].
  repeat case_decide; [set_solver..|].
  intros Hall. specialize (Hall raw eq_refl). set_solver.
Qed.

Lemma accepts_and_then {A B} (m : outcome A) (k : A -> outcome B) P Q P' Q' :
  accepts m P Q -> (forall a, Q a -> accepts (k a) P' Q') -> accepts (and_then m k) (P /\ P') Q'.
Proof.
  unfold accepts, and_then. intros Hm Hk. destruct m as [a|e]; [|naive_solver].
  destruct Hm as [HP HQ]. specialize (Hk a HQ). destruct (k a); naive_solver.
Qed.

Lemma sessions_accepts env :
  accepts (match present env "CC_MAX_CONCURRENT_SESSIONS" with
           | Some _ => positiveInt Number stringify show env "CC_MAX_CONCURRENT_SESSIONS" Infinity
           | None => Ok Infinity
           end)
    (forall raw, present env "CC_MAX_CONCURRENT_SESSIONS" = Some raw -> whole_at_least_one raw)
    (fun c => c = Infinity \/ positive_count c).
Proof.
  pose proof (positiveInt_accepts env "CC_MAX_CONCURRENT_SESSIONS" Infinity
                (fun c => c = Infinity \/ positive_count c)) as H.
  destruct (present env "CC_MAX_CONCURRENT_SESSIONS"); [|simpl; naive_solver].
  apply H; [by left|by right].
Qed.

Lemma acceptable_unfold env :
  acceptable env <->
  (forall raw, present env "CC_CLIENT_TCP_PORT" = Some raw -> port_value raw) /\
  (forall raw, present env "CC_CLIENT_WS_PORT" = Some raw -> port_value raw) /\
  (forall raw, present env "CC_HOOK_SELF_DENY_MS" = Some raw -> whole_at_least_one raw) /\
  (forall raw, present env "CC_MAX_CONCURRENT_SESSIONS" = Some raw -> whole_at_least_one raw) /\
  (forall raw, present env "CC_REPLAY_MAX_DEVICES" = Some raw -> whole_at_least_one raw) /\
  (forall raw, present env "CC_REPLAY_MAX_EVENTS_PER_DEVICE" = Some raw -> whole_at_least_one raw) /\
  (forall raw, present env "CC_MAX_PAIRED_DEVICES" = Some raw -> whole_at_least_one raw) /\
  (forall raw, present env "CC_PUSH_ENABLED" = Some raw -> flag_value raw).
Proof. unfold acceptable, requirements. rewrite !Forall_cons, Forall_nil. tauto. Qed.

Lemma accepts_iff {A} (m : outcome A) P P' Q : (P <-> P') -> accepts m P Q -> accepts m P' Q.
Proof. unfold accepts. destruct m; tauto. Qed.

Lemma accepts_last {A B} (m : outcome A) (k : A -> outcome B) P Q Q' :
  accepts m P Q -> (forall a, Q a -> exists b, k a = Ok b /\ Q' b) -> accepts (and_then m k) P Q'.
Proof.
  unfold accepts, and_then. intros Hm Hk. destruct m as [a|e]; [|done].
  destruct Hm as [HP HQ]. destruct (Hk a HQ) as (b & -> & ?). done.
Qed.

Lemma load_accepts env : accepts (load env) (acceptable env) config_ok.
Proof.
  eapply accepts_iff; [symmetry; apply acceptable_unfold|]. unfold loadConfig. cbv zeta.
  eapply accepts_and_then; [apply optionalPort_accepts|intros tcp Htcp].
  eapply accepts_and_then; [apply optionalPort_accepts|intros ws Hws].
  eapply accepts_and_then; [apply (positiveInt_accepts _ _ _ positive_count); simpl; lia|intros deny Hdeny].
  eapply accepts_and_then; [apply sessions_accepts|intros sessions Hs].
  eapply accepts_and_then; [apply optionalPositiveInt_accepts|intros devices Hdev].
  eapply accepts_and_then; [apply optionalPositiveInt_accepts|intros events Hev].
  eapply accepts_and_then; [apply (positiveInt_accepts _ _ _ positive_count); simpl; lia|intros paired Hp].
  eapply accepts_last; [apply boolFlag_accepts|]. intros push _. eexists. split; [done|].
  unfold config_ok. simpl. naive_solver.
Qed.

(** C40. A configuration that loads is well typed: both ports are in 1..65535 or
    absent, the self-deny time and the device cap are positive integers, the session
    cap is a positive integer or none, and the replay caps are positive integers or
    absent.  No cap is ever a number that every comparison is false of. *)
Theorem loaded_config_is_well_typed env c : load env = Ok c -> config_ok c.
Proof. intros H. pose proof (load_accepts env) as Ha. unfold accepts in Ha. rewrite H in Ha. tauto. Qed.

(** The daemon refuses to start exactly on an environment that sets one of the
    eight checked variables to a value it does not accept: a port out of range, a
    cap that is not a whole number of at least one, a flag that is no spelling of a
    boolean.  An absent or empty variable is never a reason to refuse. *)
Theorem refuses_iff_unacceptable env : (exists e, load env = Throw e) <-> ~ acceptable env.
Proof.
  pose proof (load_accepts env) as Ha. unfold accepts in Ha.
  destruct (load env) as [c|e]; split; try naive_solver.
Qed.

(** An empty environment gives the documented defaults. *)
Lemma load_empty :
  load ∅ = Ok (mkDaemonConfig "/tmp/cc-daemon.sock" "/tmp/cc-client.sock"
    (path_join [homedir; ".config"; "claude-code-remote"; "daemon.json"])
    (path_join [homedir; ".config"; "claude-code-remote"; "daemon.db"])
    None None "auto" (Finite 1200000) Infinity None None (Finite 50) false
    "https://exp.host/--/api/v2/push/send").
Proof. reflexivity. Qed.

End laws.

(** Decimal digits, as an instance of the conversion for the examples. *)
Fixpoint digits (acc : Z) (s : string) : jsnum :=
  match s with
  | EmptyString => NumFin (inject_Z acc)
  | String c s' =>
      let d := Z.of_nat (nat_of_ascii c) - 48 in
      if (0 <=? d) && (d <=? 9) then digits (acc * 10 + d) s' else NumNaN
  end.

Notation demo_load := (loadConfig (digits 0) (fun s => s) (fun _ => "") "/home/u" (String.concat "/")).

Lemma loaded_config_is_well_typed_witness :
  exists c, demo_load {[ "CC_CLIENT_WS_PORT" := "8787"; "CC_MAX_PAIRED_DEVICES" := "3" ]} = Ok c /\ config_ok c.
Proof.
  destruct (demo_load {[ "CC_CLIENT_WS_PORT" := "8787"; "CC_MAX_PAIRED_DEVICES" := "3" ]}) as [c|e] eqn:H.
  - exists c. split; [done|]. exact (loaded_config_is_well_typed _ _ _ _ _ _ c H).
  - exfalso. vm_compute in H. discriminate H.
Defined.
