(* ===== verification/MobileCrypto.v ===== *)
(** * The phone's crypto

    [apps/mobile/src/core/crypto/frameCrypto.ts]: base64 by hand, the DER wrapping of
    public keys, and the sealing of frames over another AES-GCM library; and
    [apps/mobile/src/core/protocol/sessionCrypto.ts], which presents it to the client
    engine.  X25519, HKDF, HMAC and AES-GCM are the library's ([@noble]). *)

From S2P Require Import Prelude JsMap Js Types Frame Bytes.
From S2P Require Encode.

Local Open Scope Z_scope.

Module FrameCrypto.

Definition INFO : bytes := utf8_bytes "app.claudecode/v1".

Definition SPKI_PREFIX : bytes := [48; 42; 48; 5; 6; 3; 43; 101; 110; 3; 33; 0].

(** ** base64 *)

Definition B64 : string := "ABCDEFGHIJKLMNOPQRSTUVWXYZabcdefghijklmnopqrstuvwxyz0123456789+/".

(** [B64[k]] *)
Definition b64_char (k : Z) : ascii := default " "%char (String.get (Z.to_nat k) B64).

(** [B64_LOOKUP[c]]: the index of the character, or -1. *)
Fixpoint index_from (i : Z) (c : ascii) (s : string) : Z :=
  match s with
  | EmptyString => -1
  | String d s' => if decide (c = d) then i else index_from (i + 1) c s'
  end.

Definition B64_LOOKUP (c : ascii) : Z := index_from 0 c B64.

(** One group of up to three bytes; [b] and [c] are [None] past the end. *)
Definition group (a : Z) (b c : option Z) : string :=
  let bv := default 0 b in let cv := default 0 c in
  String (b64_char (Z.shiftr a 2))
    (String (b64_char (Z.lor (Z.shiftl (Z.land a 3) 4) (Z.shiftr bv 4)))
      (String (if b then b64_char (Z.lor (Z.shiftl (Z.land bv 15) 2) (Z.shiftr cv 6)) else "="%char)
        (String (if c then b64_char (Z.land cv 63) else "="%char) EmptyString))).

Fixpoint toBase64 (b : bytes) : string :=
  match b with
  | [] => EmptyString
  | [x] => group x None None
  | [x; y] => group x (Some y) None
  | x :: y :: z :: b' => group x (Some y) (Some z) +:+ toBase64 b'
  end.

(** [/[A-Za-z0-9+/]/] *)
Definition is_b64 (c : ascii) : bool :=
  let n := nat_of_ascii c in
  bool_decide (65 <= n <= 90)%nat || bool_decide (97 <= n <= 122)%nat ||
  bool_decide (48 <= n <= 57)%nat || bool_decide (n = 43)%nat || bool_decide (n = 47)%nat.

Fixpoint clean (s : string) : list ascii :=
  match s with
  | EmptyString => []
  | String c s' => if is_b64 c then c :: clean s' else clean s'
  end.

(** A 32-bit result of a JavaScript bit operation. *)
Definition toInt32 (z : Z) : Z := (z + 2 ^ 31) mod 2 ^ 32 - 2 ^ 31.

(** The loop of [fromBase64]: what it writes to [out], in order. *)
Fixpoint decode_loop (bits nbits : Z) (cs : list ascii) : bytes :=
  match cs with
  | [] => []
  | c :: cs' =>
      let v := B64_LOOKUP c in
      if v <? 0 then decode_loop bits nbits cs'
      else
        let bits := Z.lor (toInt32 (Z.shiftl bits 6)) v in
        let nbits := nbits + 6 in
        if 8 <=? nbits then
          Z.land (Z.shiftr bits (nbits - 8)) 255 :: decode_loop bits (nbits - 8) cs'
        else decode_loop bits nbits cs'
  end.

(** [new Uint8Array(n)] filled from the left; a write past the end is dropped. *)
Definition fill (n : nat) (b : bytes) : bytes := take n b ++ replicate (n - length b) 0.

Definition fromBase64 (s : string) : bytes :=
  let cs := clean s in
  fill (Z.to_nat (Z.shiftr (Z.of_nat (length cs) * 3) 2)) (decode_loop 0 0 cs).

(** [b.slice(-32)] and [b.subarray(n)] *)
Definition slice_last (n : nat) (b : bytes) : bytes := drop (length b - n) b.

(** ** Keys and frames *)

(** What the code takes from @noble: AES-256-GCM on bytes (the result of [encrypt] is
    the ciphertext followed by the tag; [decrypt] throws when it does not verify),
    X25519, HKDF-SHA256 and HMAC-SHA256; and JSON. *)
Record Noble (Key : Type) : Type := mkNoble {
  encrypt : Key -> bytes -> bytes -> bytes -> bytes;
  decrypt : Key -> bytes -> bytes -> bytes -> option bytes;
  getPublicKey : bytes -> bytes;
  getSharedSecret : bytes -> bytes -> bytes;
  hkdf : bytes -> bytes -> bytes -> Z -> Key;
  hmac : bytes -> bytes -> bytes;
  stringify : Plain -> string;
  parse : string -> option Plain;
}.
Arguments encrypt {Key}.
Arguments decrypt {Key}.
Arguments getPublicKey {Key}.
Arguments getSharedSecret {Key}.
Arguments hkdf {Key}.
Arguments hmac {Key}.
Arguments stringify {Key}.
Arguments parse {Key}.

Section noble.
Context {Key : Type} (N : Noble Key).

Definition aadBytes (direction : Direction) (seq : Z) : bytes := utf8_bytes (frameAADString direction seq).

(** [generateKeyPair()] on 32 random bytes: the private and the public key. *)
Definition generateKeyPair (random : bytes) : bytes * bytes := (random, getPublicKey N random).

Definition spkiPublicKeyB64 (rawPublicKey : bytes) : string := toBase64 (SPKI_PREFIX ++ rawPublicKey).

Definition rawPublicKeyFromB64 (spkiB64 : string) : bytes := slice_last 32 (fromBase64 spkiB64).

Definition deriveSessionKey (rawPrivateKey rawPeerPublicKey salt : bytes) : Key :=
  hkdf N (getSharedSecret N rawPrivateKey rawPeerPublicKey) salt INFO 32.

Definition seal (key : Key) (seq : Z) (plaintext : Plain) (direction : Direction) (nonce : bytes) : SealedFrame :=
  let ctAndTag := encrypt N key nonce (aadBytes direction seq) (utf8_bytes (stringify N plaintext)) in
  let n := (length ctAndTag - 16)%nat in
  mkFrame (toBase64 nonce) (toBase64 (subarray ctAndTag 0 n)) (toBase64 (drop n ctAndTag)) seq.

Definition open (key : Key) (frame : SealedFrame) (direction : Direction) : option Plain :=
  let c := fromBase64 (f_c frame) in
  let t := fromBase64 (f_t frame) in
  match decrypt N key (fromBase64 (f_n frame)) (aadBytes direction (f_seq frame)) (c ++ t) with
  | Some plain => parse N (utf8_text plain)
  | None => None
  end.

Definition pairingProof (secret devicePublicKeyB64 daemonPublicKeyB64 : string) : string :=
  toBase64 (hmac N (utf8_bytes secret) (utf8_bytes (devicePublicKeyB64 +:+ daemonPublicKeyB64))).

(** ** The seam to the client engine (sessionCrypto.ts) *)

(** [createSessionCrypto(devicePrivateKeyRaw, daemonPublicKeyRaw)]: its [deriveKey],
    and its [seal] and [open] as the engine's interface; the twelve random bytes of a
    nonce are a byte string. *)
Definition session_deriveKey (devicePrivateKeyRaw daemonPublicKeyRaw : bytes) (saltB64 : string) : Key :=
  deriveSessionKey devicePrivateKeyRaw daemonPublicKeyRaw (fromBase64 saltB64).

Definition createSessionCrypto : SessionCrypto Key string := {|
  Frame.seal k s p d nonce := seal k s p d (utf8_bytes nonce);
  Frame.open_frame := open;
|}.

End noble.

End FrameCrypto.

Import FrameCrypto.

(** ** base64 round trip *)

Lemma b64_lookup_char k : 0 <= k < 64 -> B64_LOOKUP (b64_char k) = k /\ is_b64 (b64_char k) = true.
Proof.
  intros Hk.
  pose (f := fun k => ((B64_LOOKUP (b64_char k) =? k) && is_b64 (b64_char k)) || (64 <=? k)).
  assert (Hf : f k = true) by (apply (byte_forall f); [by vm_compute|unfold is_byte; lia]).
  unfold f in Hf. apply orb_true_iff in Hf as [Hf|Hf]; [|apply Z.leb_le in Hf; lia].
  apply andb_true_iff in Hf as [H1 H2]. by apply Z.eqb_eq in H1.
Qed.

Lemma lor_low h l n : 0 <= n -> 0 <= l < 2 ^ n -> Z.lor (h * 2 ^ n) l = h * 2 ^ n + l.
Proof.
  intros Hn Hl. pose proof (Z.add_lor_land (h * 2 ^ n) l) as Ha.
  assert (H0 : Z.land (h * 2 ^ n) l = 0); [|lia].
  apply Z.bits_inj'. intros i Hi. rewrite Z.land_spec, Z.bits_0. destruct (decide (i < n)).
  - by rewrite Z.mul_pow2_bits_low by lia.
  - rewrite <- (Z.mod_small l (2 ^ n)) by done. rewrite Z.mod_pow2_bits_high by lia. apply andb_false_r.
Qed.

(** The values of the sextets of a group. *)
Lemma sextets a b c : is_byte a -> is_byte b -> is_byte c ->
  Z.shiftr a 2 = a / 4 /\
  Z.lor (Z.shiftl (Z.land a 3) 4) (Z.shiftr b 4) = (a mod 4) * 16 + b / 16 /\
  Z.lor (Z.shiftl (Z.land b 15) 2) (Z.shiftr c 6) = (b mod 16) * 4 + c / 64 /\
  Z.land c 63 = c mod 64.
Proof.
  unfold is_byte. intros Ha Hb Hc.
  change 3 with (Z.ones 2). change 15 with (Z.ones 4). change 63 with (Z.ones 6).
  rewrite !Z.land_ones, !Z.shiftr_div_pow2, !Z.shiftl_mul_pow2 by lia.
  change (2 ^ 2) with 4. change (2 ^ 4) with 16. change (2 ^ 6) with 64.
  split_and!; [done| | |done].
  - apply (lor_low _ _ 4); [lia|]. split; [apply Z.div_pos; lia|apply Z.div_lt_upper_bound; lia].
  - apply (lor_low _ _ 2); [lia|]. split; [apply Z.div_pos; lia|apply Z.div_lt_upper_bound; lia].
Qed.

(** The accumulator keeps its low bits exact; only those are ever read. *)
Definition push (bits v : Z) : Z := Z.lor (toInt32 (Z.shiftl bits 6)) v.

Lemma toInt32_mod z k : 0 <= k <= 32 -> toInt32 z mod 2 ^ k = z mod 2 ^ k.
Proof.
  intros Hk. unfold toInt32. assert (Hd : (2 ^ k | 2 ^ 32)).
  { exists (2 ^ (32 - k)). rewrite <- Z.pow_add_r by lia. f_equal. lia. }
  rewrite Zminus_mod. rewrite <- (Znumtheory.Zmod_div_mod (2 ^ k) (2 ^ 32)); [|lia..|done].
  rewrite <- Zminus_mod. f_equal. lia.
Qed.

Lemma push_mod bits v k : 0 <= v < 64 -> 6 <= k <= 32 -> push bits v mod 2 ^ k = (bits * 64 + v) mod 2 ^ k.
Proof.
  intros Hv Hk. unfold push. rewrite Z.shiftl_mul_pow2 by lia.
  assert (Hm : exists h, toInt32 (bits * 2 ^ 6) = h * 2 ^ 6).
  { pose proof (toInt32_mod (bits * 2 ^ 6) 6 ltac:(lia)) as Ht. rewrite Z.mod_mul in Ht by lia.
    apply Z.mod_divide in Ht as [h Hh]; [|lia]. by exists h. }
  destruct Hm as [h Hh]. pose proof (toInt32_mod (bits * 2 ^ 6) k ltac:(lia)) as Ht.
  rewrite Hh, lor_low by lia. rewrite Hh in Ht.
  rewrite <- Zplus_mod_idemp_l, Ht, Zplus_mod_idemp_l. done.
Qed.

(** Reading a byte [n] bits up. *)
Lemma read_byte x n : 0 <= n -> Z.land (Z.shiftr x n) 255 = (x mod 2 ^ (n + 8)) / 2 ^ n.
Proof.
  intros Hn. change 255 with (Z.ones 8). rewrite Z.land_ones, Z.shiftr_div_pow2 by lia.
  rewrite Z.pow_add_r by lia. pose proof (Z.pow_pos_nonneg 2 n ltac:(lia) Hn).
  rewrite Z.rem_mul_r by lia. rewrite (Z.mul_comm (2 ^ n)), Z.add_comm, Z.div_add_l by lia.
  rewrite (Z.div_small (x mod 2 ^ n)) by (apply Z.mod_pos_bound; lia). lia.
Qed.

Lemma push_low x v k : 0 <= v < 64 -> 0 <= k <= 6 -> push x v mod 2 ^ k = v mod 2 ^ k.
Proof.
  intros Hv Hk. assert (Hd : (2 ^ k | 2 ^ 6)).
  { exists (2 ^ (6 - k)). rewrite <- Z.pow_add_r by lia. f_equal. lia. }
  rewrite (Znumtheory.Zmod_div_mod (2 ^ k) (2 ^ 6) (push x v)) by (done || lia).
  rewrite push_mod by lia. rewrite Z.add_comm, Z.mod_add by lia.
  rewrite (Z.mod_small v (2 ^ 6)) by lia. done.
Qed.

(** The byte read after a push: the low bits of the old accumulator, then the sextet. *)
Lemma emit x v n : 0 <= v < 64 -> 0 <= n <= 4 ->
  Z.land (Z.shiftr (push x v) n) 255 = ((x mod 2 ^ (n + 2)) * 64 + v) / 2 ^ n.
Proof.
  intros Hv Hn. rewrite read_byte, push_mod by lia. f_equal.
  replace (n + 8) with ((n + 2) + 6) by lia. rewrite (Z.pow_add_r 2 (n + 2) 6) by lia.
  pose proof (Z.pow_pos_nonneg 2 (n + 2) ltac:(lia) ltac:(lia)).
  rewrite (Z.mul_comm (2 ^ (n + 2))), Z.rem_mul_r by lia.
  change (2 ^ 6) with 64. rewrite (Z.add_comm (x * 64) v), Z.mod_add, Z.div_add by lia.
  rewrite (Z.mod_small v), (Z.div_small v) by lia. rewrite Z.add_0_l. lia.
Qed.

Lemma decode_char x nb v cs : 0 <= v < 64 ->
  decode_loop x nb (b64_char v :: cs) =
    if 8 <=? nb + 6 then Z.land (Z.shiftr (push x v) (nb + 6 - 8)) 255 :: decode_loop (push x v) (nb + 6 - 8) cs
    else decode_loop (push x v) (nb + 6) cs.
Proof.
  intros Hv. cbn [decode_loop]. destruct (b64_lookup_char v Hv) as [-> _].
  rewrite (proj2 (Z.ltb_ge v 0)) by lia. done.
Qed.

Lemma decode_0 x v cs : 0 <= v < 64 ->
  decode_loop x 0 (b64_char v :: cs) = decode_loop (push x v) 6 cs.
Proof. intros Hv. by rewrite decode_char. Qed.

Lemma decode_6 x v cs : 0 <= v < 64 ->
  decode_loop x 6 (b64_char v :: cs) = (x mod 64 * 64 + v) / 16 :: decode_loop (push x v) 4 cs.
Proof. intros Hv. rewrite decode_char by done. change (8 <=? 6 + 6) with true. cbv iota. by rewrite emit by lia. Qed.

Lemma decode_4 x v cs : 0 <= v < 64 ->
  decode_loop x 4 (b64_char v :: cs) = (x mod 16 * 64 + v) / 4 :: decode_loop (push x v) 2 cs.
Proof. intros Hv. rewrite decode_char by done. change (8 <=? 4 + 6) with true. cbv iota. by rewrite emit by lia. Qed.

Lemma decode_2 x v cs : 0 <= v < 64 ->
  decode_loop x 2 (b64_char v :: cs) = (x mod 4 * 64 + v) / 1 :: decode_loop (push x v) 0 cs.
Proof. intros Hv. rewrite decode_char by done. change (8 <=? 2 + 6) with true. cbv iota. by rewrite emit by lia. Qed.

Definition chars_of (vs : list Z) : list ascii := b64_char <$> vs.

(** One full group decodes to its three bytes, whatever the accumulator held. *)
Lemma decode_group3 x a b c cs : is_byte a -> is_byte b -> is_byte c ->
  exists x', decode_loop x 0 (chars_of [a / 4; a mod 4 * 16 + b / 16; b mod 16 * 4 + c / 64; c mod 64] ++ cs)
    = a :: b :: c :: decode_loop x' 0 cs.
Proof.
  unfold is_byte. intros Ha Hb Hc. cbn [chars_of fmap list_fmap app].
  set (v1 := a / 4). set (v2 := a mod 4 * 16 + b / 16). set (v3 := b mod 16 * 4 + c / 64). set (v4 := c mod 64).
  assert (0 <= v1 < 64 /\ 0 <= v2 < 64 /\ 0 <= v3 < 64 /\ 0 <= v4 < 64) as (H1 & H2 & H3 & H4)
    by (unfold v1, v2, v3, v4; Z.div_mod_to_equations; lia).
  rewrite decode_0, decode_6, decode_4, decode_2 by done.
  rewrite (push_low x v1 6 H1 ltac:(lia) : _ mod 64 = _), (push_low _ v2 4 H2 ltac:(lia) : _ mod 16 = _), (push_low _ v3 2 H3 ltac:(lia) : _ mod 4 = _).
  eexists. f_equal; [|f_equal; [|f_equal]].
  - unfold v1, v2. change (2 ^ 6) with 64. change (2 ^ 4) with 16. Z.div_mod_to_equations. lia.
  - unfold v2, v3. change (2 ^ 4) with 16. change (2 ^ 2) with 4. Z.div_mod_to_equations. lia.
  - unfold v3, v4. change (2 ^ 2) with 4. Z.div_mod_to_equations. lia.
Qed.

Lemma decode_group2 x a b : is_byte a -> is_byte b ->
  decode_loop x 0 (chars_of [a / 4; a mod 4 * 16 + b / 16; b mod 16 * 4]) = [a; b].
Proof.
  unfold is_byte. intros Ha Hb. cbn [chars_of fmap list_fmap app].
  set (v1 := a / 4). set (v2 := a mod 4 * 16 + b / 16). set (v3 := b mod 16 * 4).
  assert (0 <= v1 < 64 /\ 0 <= v2 < 64 /\ 0 <= v3 < 64) as (H1 & H2 & H3)
    by (unfold v1, v2, v3; Z.div_mod_to_equations; lia).
  rewrite decode_0, decode_6, decode_4 by done.
  rewrite (push_low x v1 6 H1 ltac:(lia) : _ mod 64 = _), (push_low _ v2 4 H2 ltac:(lia) : _ mod 16 = _).
  f_equal; [|f_equal].
  - unfold v1, v2. change (2 ^ 6) with 64. change (2 ^ 4) with 16. Z.div_mod_to_equations. lia.
  - unfold v2, v3. change (2 ^ 4) with 16. change (2 ^ 2) with 4. Z.div_mod_to_equations. lia.
Qed.

Lemma decode_group1 x a : is_byte a -> decode_loop x 0 (chars_of [a / 4; a mod 4 * 16]) = [a].
Proof.
  unfold is_byte. intros Ha. cbn [chars_of fmap list_fmap app].
  set (v1 := a / 4). set (v2 := a mod 4 * 16).
  assert (0 <= v1 < 64 /\ 0 <= v2 < 64) as (H1 & H2) by (unfold v1, v2; Z.div_mod_to_equations; lia).
  rewrite decode_0, decode_6 by done.
  rewrite (push_low x v1 6 H1 ltac:(lia) : _ mod 64 = _).
  f_equal. unfold v1, v2. change (2 ^ 6) with 64. change (2 ^ 4) with 16. Z.div_mod_to_equations. lia.
Qed.

Lemma clean_char v s : 0 <= v < 64 -> clean (String (b64_char v) s) = b64_char v :: clean s.
Proof. intros Hv. simpl. by destruct (b64_lookup_char v Hv) as [_ ->]. Qed.

Lemma div4_range a : is_byte a -> 0 <= a / 4 < 64.
Proof. unfold is_byte. intros. Z.div_mod_to_equations. lia. Qed.

Lemma mix2_range a b : is_byte a -> is_byte b -> 0 <= a mod 4 * 16 + b / 16 < 64.
Proof. unfold is_byte. intros. Z.div_mod_to_equations. lia. Qed.

Lemma mix3_range b c : is_byte b -> is_byte c -> 0 <= b mod 16 * 4 + c / 64 < 64.
Proof. unfold is_byte. intros. Z.div_mod_to_equations. lia. Qed.

Lemma mod64_range c : 0 <= c mod 64 < 64.
Proof. apply Z.mod_pos_bound. lia. Qed.

Local Hint Resolve div4_range mix2_range mix3_range mod64_range : sextet.

Local Hint Resolve is_byte_0 : sextet.

(** What the decoder sees of an encoded text: its sextets, group by group. *)
Fixpoint sextet_list (b : bytes) : list Z :=
  match b with
  | [] => []
  | [x] => [x / 4; x mod 4 * 16]
  | [x; y] => [x / 4; x mod 4 * 16 + y / 16; y mod 16 * 4]
  | x :: y :: z :: b' => [x / 4; x mod 4 * 16 + y / 16; y mod 16 * 4 + z / 64; z mod 64] ++ sextet_list b'
  end.

(** Induction on a list, three elements at a time. *)
Lemma list_ind3 {A} (P : list A -> Prop) :
  P [] -> (forall x, P [x]) -> (forall x y, P [x; y]) ->
  (forall x y z l, P l -> P (x :: y :: z :: l)) -> forall l, P l.
Proof.
  intros H0 H1 H2 H3 l.
  enough (P l /\ (forall x, P (x :: l)) /\ (forall x y, P (x :: y :: l))) as [? _] by done.
  induction l as [|z l (Ha & Hb & Hc)]; [done|]. split_and!; eauto.
Qed.

Lemma clean_toBase64 b : Forall is_byte b -> clean (toBase64 b) = chars_of (sextet_list b).
Proof.
  induction b as [|x|x y|x y z b IH] using list_ind3; intros Hb; [done|..];
    rewrite ?Forall_cons in Hb; cbn [toBase64 sextet_list].
  - unfold group. cbv zeta. cbn [default from_option id]. destruct (sextets x 0 0) as (-> & -> & _ & _); [tauto|auto with sextet..|].
    rewrite Z.add_0_r. rewrite !clean_char; [done|..]; [|apply div4_range; tauto].
    pose proof (mix2_range x 0 ltac:(tauto) is_byte_0) as H. rewrite Z.add_0_r in H. exact H.
  - unfold group. cbv zeta. cbn [default from_option id]. destruct (sextets x y 0) as (-> & -> & -> & _); [tauto|tauto|auto with sextet|].
    rewrite Z.add_0_r. pose proof (mix3_range y 0 ltac:(tauto) is_byte_0) as H. rewrite Z.add_0_r in H.
    rewrite !clean_char; [done|exact H|apply mix2_range; tauto|apply div4_range; tauto].
  - change (group x (Some y) (Some z) +:+ toBase64 b) with
      (String (b64_char (Z.shiftr x 2)) (String (b64_char (Z.lor (Z.shiftl (Z.land x 3) 4) (Z.shiftr y 4)))
        (String (b64_char (Z.lor (Z.shiftl (Z.land y 15) 2) (Z.shiftr z 6)))
          (String (b64_char (Z.land z 63)) (toBase64 b))))).
    destruct (sextets x y z) as (-> & -> & -> & ->); [tauto..|].
    rewrite !clean_char; [|apply mod64_range|apply mix3_range; tauto|apply mix2_range; tauto|apply div4_range; tauto].
    rewrite IH by tauto. done.
Qed.

Lemma decode_sextets b x : Forall is_byte b -> decode_loop x 0 (chars_of (sextet_list b)) = b.
Proof.
  revert x. induction b as [|a|a b|a b c l IH] using list_ind3; intros x Hb; rewrite ?Forall_cons in Hb.
  - done.
  - apply decode_group1. tauto.
  - apply decode_group2; tauto.
  - cbn [sextet_list]. unfold chars_of. rewrite fmap_app.
    destruct (decode_group3 x a b c (chars_of (sextet_list l))) as [x' Hx]; [tauto..|].
    unfold chars_of in Hx. rewrite Hx, IH by tauto. done.
Qed.

Lemma length_sextets b : (Z.to_nat (Z.shiftr (Z.of_nat (length (sextet_list b)) * 3) 2) = length b)%nat.
Proof.
  rewrite Z.shiftr_div_pow2 by lia. change (2 ^ 2) with 4.
  induction b as [|x|x y|x y z b IH] using list_ind3; [done..|].
  cbn [sextet_list]. rewrite length_app. cbn [length].
  replace (Z.of_nat (4 + length (sextet_list b)) * 3) with (Z.of_nat (length (sextet_list b)) * 3 + 3 * 4) by lia.
  rewrite Z.div_add by lia. rewrite Z2Nat.inj_add by (try apply Z.div_pos; lia). rewrite IH. simpl. lia.
Qed.

(** The phone's base64 decoder inverts its encoder on every byte string, with and
    without padding: the 32-bit accumulator overflows on long inputs, but no bit that
    is read is ever lost. *)
Lemma fromBase64_toBase64 b : Forall is_byte b -> fromBase64 (toBase64 b) = b.
Proof.
  intros Hb. unfold fromBase64. rewrite clean_toBase64, decode_sextets by done.
  unfold chars_of. rewrite length_fmap, length_sextets. unfold fill.
  by rewrite take_ge, Nat.sub_diag, app_nil_r by lia.
Qed.


(** ** Keys on the wire *)

Lemma length_fromBase64_toBase64 b : Forall is_byte b -> length (fromBase64 (toBase64 b)) = length b.
Proof. intros. by rewrite fromBase64_toBase64. Qed.

(** A raw key survives the DER wrapping: the phone reads back what it (or the daemon)
    published. *)
Lemma raw_spki_roundtrip k : Forall is_byte k -> length k = 32%nat -> rawPublicKeyFromB64 (spkiPublicKeyB64 k) = k.
Proof.
  intros Hk Hl. unfold rawPublicKeyFromB64, spkiPublicKeyB64, slice_last.
  rewrite fromBase64_toBase64.
  - rewrite length_app, Hl, Nat.add_sub. by rewrite drop_app_length.
  - apply Forall_app. split; [|done]. repeat constructor; unfold is_byte; lia.
Qed.

(** ** The two implementations of the frame contract agree *)

(** What relates the two libraries: both are AES-256-GCM with a 16-byte tag, RFC 4648
    base64, and the same JSON. *)
Record Interop {Key} (P : Platform Key) (N : Noble Key) : Prop := {
  io_encrypt k n a p :
    encrypt N k n a p = utf8_bytes (gcm_encrypt k (utf8_text n) (utf8_text a) (utf8_text p)).1 ++
                        utf8_bytes (gcm_encrypt k (utf8_text n) (utf8_text a) (utf8_text p)).2;
  io_tag k n a p : String.length (gcm_encrypt k n a p).2 = 16%nat;
  io_decrypt k n a c t : String.length t = 16%nat ->
    decrypt N k (utf8_bytes n) (utf8_bytes a) (utf8_bytes c ++ utf8_bytes t) =
      utf8_bytes <$> gcm_decrypt k n a c t;
  io_base64 s : base64 s = toBase64 (utf8_bytes s);
  io_unbase64 s : unbase64 (base64 s) = s;
  io_stringify p : stringify N p = Frame.stringify p;
  io_parse s : parse N s = Frame.parse s;
}.

Section interop.
Context {Key : Type} (P : Platform Key) (N : Noble Key) (IO : Interop P N).

Lemma length_utf8_bytes s : length (utf8_bytes s) = String.length s.
Proof.
  unfold utf8_bytes. rewrite length_fmap. induction s as [|c s IH]; [done|]. simpl. by rewrite IH.
Qed.

Lemma seal_is_node_seal k s p d nonce :
  Forall is_byte nonce -> FrameCrypto.seal N k s p d nonce = node_seal k s p d (utf8_text nonce).
Proof.
  intros Hn. unfold FrameCrypto.seal, node_seal, aadBytes. rewrite (io_encrypt P N IO).
  rewrite !utf8_text_bytes, (io_stringify P N IO).
  pose proof (io_tag P N IO k (utf8_text nonce) (frameAADString d s) (Frame.stringify p)) as Ht.
  destruct (gcm_encrypt _ _ _ _) as [body tag]. cbn [fst snd] in *.
  rewrite length_app, (length_utf8_bytes tag), Ht, Nat.add_sub. unfold subarray.
  rewrite drop_0, Nat.sub_0_r, take_app_length, drop_app_length, !(io_base64 P N IO).
  by rewrite utf8_bytes_text.
Qed.

(** A frame some sealer of the contract may have written. *)
Definition well_formed (f : SealedFrame) : Prop :=
  exists n c t s, f = mkFrame (base64 n) (base64 c) (base64 t) s /\ String.length t = 16%nat.

Lemma open_is_node_open k f d : well_formed f -> FrameCrypto.open N k f d = node_open k f d.
Proof.
  intros (n & c & t & s & -> & Ht). unfold FrameCrypto.open, node_open, aadBytes. cbn [f_n f_c f_t f_seq].
  rewrite !(io_unbase64 P N IO), !(io_base64 P N IO), !fromBase64_toBase64 by apply utf8_bytes_range.
  rewrite (io_decrypt P N IO) by done.
  destruct (gcm_decrypt _ _ _ _ _) as [x|]; [|done]. simpl. by rewrite utf8_text_bytes, (io_parse P N IO).
Qed.

Lemma node_seal_well_formed k s s' p d r : well_formed (with_seq (node_seal k s p d r) s').
Proof.
  unfold node_seal. pose proof (io_tag P N IO k r (frameAADString d s) (Frame.stringify p)) as Ht.
  destruct (gcm_encrypt _ _ _ _) as [body tag]. by exists r, body, tag, s'.
Qed.

(** C17. The phone's implementation of the sealing contract and the daemon's are the
    same function where frames come from a sealer: from the same nonce they write the same
    frame, byte for byte; on what either of them sealed, presented under any key, direction
    and sequence number, and more generally on every well-formed frame, whose fields are
    canonical base64 and whose tag has 16 bytes, they accept the same and read the same
    contents.  On frames no sealer writes they can differ ([open_ignores_the_split]). *)
Theorem phone_and_daemon_agree k s p d nonce :
  Forall is_byte nonce ->
  FrameCrypto.seal N k s p d nonce = node_seal k s p d (utf8_text nonce) /\
  (forall k' s' d', FrameCrypto.open N k' (with_seq (FrameCrypto.seal N k s p d nonce) s') d' =
                    node_open k' (with_seq (node_seal k s p d (utf8_text nonce)) s') d') /\
  (forall f, well_formed f -> forall k' d', FrameCrypto.open N k' f d' = node_open k' f d').
Proof.
  intros Hn. split; [by apply seal_is_node_seal|]. split.
  - intros k' s' d'. rewrite seal_is_node_seal by done. apply open_is_node_open, node_seal_well_formed.
  - intros f Hf k' d'. by apply open_is_node_open.
Qed.

(** The phone hands the engine an implementation of its interface. *)
Lemma phone_crypto_laws (serializable : Plain -> Prop) :
  @PlatformLaws Key P serializable -> @SessionCryptoLaws Key string (createSessionCrypto N) serializable.
Proof.
  intros HP. split; cbn [Frame.seal Frame.open_frame createSessionCrypto].
  - intros k s p d r Hp. rewrite seal_is_node_seal, utf8_text_bytes by apply utf8_bytes_range.
    rewrite <- (node_open_seal k s p d r Hp). apply open_is_node_open.
    replace (node_seal k s p d r) with (with_seq (node_seal k s p d r) s); [apply node_seal_well_formed|].
    unfold with_seq, node_seal. by destruct (gcm_encrypt _ _ _ _).
  - done.
  - intros k k' s s' p p' d d' r Hp. rewrite seal_is_node_seal, utf8_text_bytes by apply utf8_bytes_range.
    rewrite open_is_node_open by apply node_seal_well_formed. by apply node_open_bound.
Qed.

End interop.

(** On the phone the boundary between ciphertext and tag is not authenticated: bytes
    moved from one field to the other open the same. *)
Lemma open_ignores_the_split {Key} (N : Noble Key) k n c t c' t' s d :
  fromBase64 c ++ fromBase64 t = fromBase64 c' ++ fromBase64 t' ->
  FrameCrypto.open N k (mkFrame n c t s) d = FrameCrypto.open N k (mkFrame n c' t' s) d.
Proof. intros H. unfold FrameCrypto.open. cbn. by rewrite H. Qed.

(** ** Two concrete libraries that agree *)

Fixpoint strip (p s : string) : option string :=
  match p, s with
  | EmptyString, _ => Some s
  | String a p', String b s' => if decide (a = b) then strip p' s' else None
  | _, _ => None
  end.

Definition demo_tag : string := "0123456789abcdef".

(** A ciphertext that spells out key and associated data, with a constant tag. *)
Definition demo_platform : Platform string := {|
  gcm_encrypt k n a p := (escape k +:+ escape a +:+ p, demo_tag);
  gcm_decrypt k n a c t := if decide (t = demo_tag) then strip (escape k +:+ escape a) c else None;
  base64 s := toBase64 (utf8_bytes s);
  unbase64 s := utf8_text (fromBase64 s);
  Frame.stringify := Encode.text_of;
  Frame.parse := Encode.of_text;
|}.

Definition demo_noble : Noble string := {|
  encrypt k n a p :=
    let '(c, t) := @gcm_encrypt _ demo_platform k (utf8_text n) (utf8_text a) (utf8_text p) in
    utf8_bytes c ++ utf8_bytes t;
  decrypt k n a ct :=
    let m := (length ct - 16)%nat in
    utf8_bytes <$> @gcm_decrypt _ demo_platform k (utf8_text n) (utf8_text a) (utf8_text (take m ct)) (utf8_text (drop m ct));
  getPublicKey b := b;
  getSharedSecret a b := zip_with Z.lxor a b;
  hkdf a b i n := utf8_text (a ++ b ++ i);
  hmac a b := a ++ b;
  stringify := Encode.text_of;
  parse := Encode.of_text;
|}.

Lemma demo_interop : Interop demo_platform demo_noble.
Proof.
  split; try done.
  - intros k n a c t Ht. cbn [decrypt demo_noble].
    rewrite length_app, (length_utf8_bytes t), Ht, Nat.add_sub, take_app_length, drop_app_length.
    by rewrite !utf8_text_bytes.
  - intros s. cbn. by rewrite fromBase64_toBase64, utf8_text_bytes by apply utf8_bytes_range.
Qed.

Lemma phone_and_daemon_agree_witness :
  Forall is_byte [1; 2; 3] /\
  @FrameCrypto.seal string demo_noble "key" 7 (PEv (ack 3)) d2c [1; 2; 3]
    = @node_seal string demo_platform "key" 7 (PEv (ack 3)) d2c (utf8_text [1; 2; 3]).
Proof.
  assert (Hb : Forall is_byte [1; 2; 3]) by (repeat constructor; unfold is_byte; lia).
  split; [exact Hb|].
  exact (proj1 (phone_and_daemon_agree demo_platform demo_noble demo_interop "key" 7
                  (PEv (ack 3)) d2c [1; 2; 3] Hb)).
Defined.
