(* ===== verification/KeyAgreement.v ===== *)
(** * Keys and their agreement

    The key half of [packages/protocol/src/crypto-node.ts], with what uses it:
    [deriveSessionKey] of [packages/daemon/src/infrastructure/pairing.ts] on the daemon and
    [sessionCryptoFor] of [packages/cli/src/cc.ts] on a second machine; the phone's half is
    [MobileCrypto].  node:crypto's key objects are abstract; they are written as DER and
    base64, and agree with the phone's library on X25519 and HKDF. *)

From stdpp Require Import proof_irrel.
From S2P Require Import Prelude JsMap Js Types Frame Bytes MobileCrypto.

Local Open Scope Z_scope.

Module NodeKeys.

Section node.
Context {Priv Pub Key : Type}.

(** node:crypto and Buffer, on byte strings; the two constructors of key objects throw. *)
Record Node : Type := mkNode {
  x25519_key : bytes -> Priv;
  public_of : Priv -> Pub;
  export_spki : Pub -> bytes;
  export_pkcs8 : Priv -> bytes;
  createPublicKey : bytes -> outcome Pub;
  createPrivateKey : bytes -> outcome Priv;
  diffieHellman : Priv -> Pub -> bytes;
  hkdfSync : bytes -> bytes -> bytes -> Z -> Key;
  buffer_base64 : bytes -> string;
  buffer_from_base64 : string -> bytes;
}.

Variable V : Node.

(** The keys of an identity. *)
Record KeyPair : Type := mkKeyPair { publicKey : Pub; privateKey : Priv }.

(** [generateKeyPairSync('x25519')], on its random bytes. *)
Definition generateIdentity (random : bytes) : KeyPair :=
  let k := x25519_key V random in mkKeyPair (public_of V k) k.

Definition exportPublic (key : Pub) : string := buffer_base64 V (export_spki V key).
Definition importPublic (b64 : string) : outcome Pub := createPublicKey V (buffer_from_base64 V b64).
Definition exportPrivate (key : Priv) : string := buffer_base64 V (export_pkcs8 V key).
Definition importPrivate (b64 : string) : outcome Priv := createPrivateKey V (buffer_from_base64 V b64).

(** [info = 'app.claudecode/v1'] *)
Definition default_info : string := "app.claudecode/v1".

Definition deriveSessionKey (privateKey : Priv) (peerPublicKey : Pub) (salt : bytes) (info : string) : Key :=
  let shared := diffieHellman V privateKey peerPublicKey in
  hkdfSync V shared salt (utf8_bytes info) 32.

(** [Identity.deriveSessionKey(devicePublicKeyB64, salt)] *)
Definition identity_deriveSessionKey (keys : KeyPair) (devicePublicKeyB64 : string) (salt : bytes) : outcome Key :=
  match importPublic devicePublicKeyB64 with
  | Ok device => Ok (deriveSessionKey (privateKey keys) device salt default_info)
  | Throw e => Throw e
  end.

(** [sessionCryptoFor(device)]: the keys are imported once; then [deriveKey]. *)
Definition sessionCryptoFor (devicePrivateKey daemonPublicKey : string) : outcome (string -> Key) :=
  match importPrivate devicePrivateKey with
  | Throw e => Throw e
  | Ok priv =>
      match importPublic daemonPublicKey with
      | Throw e => Throw e
      | Ok daemonPub => Ok (fun saltB64 => deriveSessionKey priv daemonPub (buffer_from_base64 V saltB64) default_info)
      end
  end.

End node.
Arguments Node : clear implicits.
Arguments KeyPair : clear implicits.

End NodeKeys.

Import FrameCrypto NodeKeys.

(** ** Laws *)

Definition key_bytes (b : bytes) : Prop := length b = 32%nat /\ Forall is_byte b.

(** What relates the libraries: base64 is RFC 4648, a public key is written as RFC 8410
    says, a private one is read back, and both sides compute X25519, whose shared secret
    is the same from either side, and HKDF-SHA256. *)
Record SameCurve {Priv Pub Key} (V : Node Priv Pub Key) (N : Noble Key) (raw : Pub -> bytes) (secret : Priv -> bytes) : Prop := {
  sc_base64 b : Forall is_byte b -> buffer_base64 V b = toBase64 b;
  sc_from_base64 b : Forall is_byte b -> buffer_from_base64 V (toBase64 b) = b;
  sc_raw k : key_bytes (raw k);
  sc_spki k : export_spki V k = SPKI_PREFIX ++ raw k;
  sc_read_public b : key_bytes b -> exists k, createPublicKey V (SPKI_PREFIX ++ b) = Ok k /\ raw k = b;
  sc_pkcs8 k : Forall is_byte (export_pkcs8 V k) /\ createPrivateKey V (export_pkcs8 V k) = Ok k;
  sc_public_of k : raw (public_of V k) = getPublicKey N (secret k);
  sc_public_bytes b : key_bytes b -> key_bytes (getPublicKey N b);
  sc_shared a k : diffieHellman V a k = getSharedSecret N (secret a) (raw k);
  sc_commutes a b : getSharedSecret N a (getPublicKey N b) = getSharedSecret N b (getPublicKey N a);
  sc_hkdf s salt n : hkdfSync V s salt INFO n = hkdf N s salt INFO n;
}.

Section laws.
Context {Priv Pub Key : Type} (V : Node Priv Pub Key) (N : Noble Key) (raw : Pub -> bytes) (secret : Priv -> bytes).
Hypothesis SC : SameCurve V N raw secret.

Lemma prefix_bytes b : Forall is_byte b -> Forall is_byte (SPKI_PREFIX ++ b).
Proof. intros Hb. apply Forall_app. split; [|done]. repeat constructor; unfold is_byte; lia. Qed.

Lemma exported_public k : NodeKeys.exportPublic V k = spkiPublicKeyB64 (raw k).
Proof.
  unfold NodeKeys.exportPublic, spkiPublicKeyB64. rewrite (sc_spki V N raw secret SC).
  apply (sc_base64 V N raw secret SC), prefix_bytes, (sc_raw V N raw secret SC).
Qed.

Lemma imported_public b : key_bytes b -> exists k, NodeKeys.importPublic V (spkiPublicKeyB64 b) = Ok k /\ raw k = b.
Proof.
  intros Hb. unfold NodeKeys.importPublic, spkiPublicKeyB64. rewrite (sc_from_base64 V N raw secret SC) by apply prefix_bytes, Hb.
  by apply (sc_read_public V N raw secret SC).
Qed.

Lemma imported_private k : NodeKeys.importPrivate V (NodeKeys.exportPrivate V k) = Ok k.
Proof.
  destruct (sc_pkcs8 V N raw secret SC k) as [Hb Hk]. unfold NodeKeys.importPrivate, NodeKeys.exportPrivate.
  by rewrite (sc_base64 V N raw secret SC), (sc_from_base64 V N raw secret SC).
Qed.

(** What node derives, in terms of the phone's library. *)
Lemma derived a k salt : NodeKeys.deriveSessionKey V a k salt default_info = FrameCrypto.deriveSessionKey N (secret a) (raw k) salt.
Proof.
  unfold NodeKeys.deriveSessionKey, FrameCrypto.deriveSessionKey. rewrite (sc_shared V N raw secret SC).
  apply (sc_hkdf V N raw secret SC).
Qed.

(** A key of the other side, as it came over the wire. *)
Lemma daemon_derives s b salt : key_bytes b ->
  identity_deriveSessionKey V (mkKeyPair (public_of V s) s) (spkiPublicKeyB64 b) salt =
    Ok (FrameCrypto.deriveSessionKey N (secret s) b salt).
Proof.
  intros Hb. unfold identity_deriveSessionKey. destruct (imported_public b Hb) as (k & -> & Hk). cbn [privateKey].
  by rewrite derived, Hk.
Qed.

(** The phone, told the daemon's key by a code and its salt by the hello. *)
Lemma phone_derives (s : Priv) (random salt : bytes) : key_bytes random -> Forall is_byte salt ->
  let phone := FrameCrypto.generateKeyPair N random in
  identity_deriveSessionKey V (mkKeyPair (public_of V s) s) (spkiPublicKeyB64 (snd phone)) salt =
    Ok (session_deriveKey N (fst phone) (rawPublicKeyFromB64 (NodeKeys.exportPublic V (public_of V s))) (buffer_base64 V salt)).
Proof.
  intros Hr Hs phone. destruct (sc_raw V N raw secret SC (public_of V s)) as [Hl Hb].
  rewrite exported_public, daemon_derives by apply (sc_public_bytes V N raw secret SC random Hr).
  rewrite raw_spki_roundtrip by done. unfold session_deriveKey. rewrite (sc_base64 V N raw secret SC), fromBase64_toBase64 by done.
  cbn [phone FrameCrypto.generateKeyPair fst snd]. unfold FrameCrypto.deriveSessionKey.
  by rewrite (sc_public_of V N raw secret SC), (sc_commutes V N raw secret SC).
Qed.

(** C18. Every paired device and the daemon arrive at one session key, each from its own
    private key, the other's public key as it was written down at pairing, and the salt of
    the hello.  A phone that generated its key from any 32 bytes and was told the daemon's
    key by a pairing code derives, from the salt it reads, exactly the key the daemon
    derives from the key the phone registered; and so does a second machine that reads its
    own private key and the daemon's public key back from its record. *)
Theorem both_ends_derive_one_key (s t : Priv) (random salt : bytes) :
  key_bytes random -> Forall is_byte salt ->
  let daemon := mkKeyPair (public_of V s) s in
  let daemonPublicKey := NodeKeys.exportPublic V (publicKey daemon) in
  let saltB64 := buffer_base64 V salt in
  let phone := FrameCrypto.generateKeyPair N random in
  identity_deriveSessionKey V daemon (spkiPublicKeyB64 (snd phone)) salt =
    Ok (session_deriveKey N (fst phone) (rawPublicKeyFromB64 daemonPublicKey) saltB64) /\
  exists deriveKey, sessionCryptoFor V (NodeKeys.exportPrivate V t) daemonPublicKey = Ok deriveKey /\
    identity_deriveSessionKey V daemon (NodeKeys.exportPublic V (public_of V t)) salt = Ok (deriveKey saltB64).
Proof.
  intros Hr Hs daemon daemonPublicKey saltB64 phone. split; [by apply phone_derives|].
  unfold daemonPublicKey. cbn [publicKey daemon]. rewrite !exported_public.
  destruct (sc_raw V N raw secret SC (public_of V s)) as [Hl Hb].
  assert (Hsalt : saltB64 = toBase64 salt) by (by apply (sc_base64 V N raw secret SC)).
  unfold sessionCryptoFor. rewrite imported_private.
    destruct (imported_public (raw (public_of V s))) as (k & -> & Hk); [by split|]. eexists. split; [reflexivity|].
    unfold daemon. rewrite daemon_derives by apply (sc_raw V N raw secret SC). rewrite derived, Hk, Hsalt, (sc_from_base64 V N raw secret SC) by done.
    unfold FrameCrypto.deriveSessionKey. by rewrite !(sc_public_of V N raw secret SC), (sc_commutes V N raw secret SC).
Qed.

(** What the daemon seals under its key the phone opens under its own, and conversely. *)
Theorem derived_keys_talk (P : Platform Key) (serializable : Plain -> Prop) (s : Priv) (random salt nonce : bytes) seq p d key :
  Interop P N -> @PlatformLaws Key P serializable -> key_bytes random -> Forall is_byte salt -> Forall is_byte nonce -> serializable p ->
  let phone := FrameCrypto.generateKeyPair N random in
  let phone_key := session_deriveKey N (fst phone) (rawPublicKeyFromB64 (NodeKeys.exportPublic V (public_of V s))) (buffer_base64 V salt) in
  identity_deriveSessionKey V (mkKeyPair (public_of V s) s) (spkiPublicKeyB64 (snd phone)) salt = Ok key ->
  FrameCrypto.open N phone_key (node_seal key seq p d (utf8_text nonce)) d = Some p /\
  node_open key (FrameCrypto.seal N phone_key seq p d nonce) d = Some p.
Proof.
  intros IO HP Hr Hs Hn Hp phone phone_key Hk.
  pose proof (phone_derives s random salt Hr Hs) as Hd. cbv zeta in Hd. unfold phone in Hk. rewrite Hd in Hk. injection Hk as <-.
  fold phone. fold phone_key. split.
  - rewrite <- (node_open_seal phone_key seq p d (utf8_text nonce) Hp). apply (open_is_node_open P N IO).
    replace (node_seal phone_key seq p d (utf8_text nonce)) with (with_seq (node_seal phone_key seq p d (utf8_text nonce)) seq);
      [by apply (node_seal_well_formed P N IO)|].
    unfold with_seq, node_seal. by destruct (gcm_encrypt _ _ _ _).
  - rewrite (seal_is_node_seal P N IO) by done. by apply node_open_seal.
Qed.

End laws.

(** ** Two concrete libraries: a key is its 32 bytes, and the shared secret their exclusive or *)

Section demo.

#[local] Instance key_bytes_dec b : Decision (key_bytes b).
Proof. unfold key_bytes, is_byte. apply _. Defined.

Notation demo_key := (dsig key_bytes).

Lemma demo_bytes n : is_byte n -> key_bytes (replicate 32 n).
Proof. intros Hn. split; [apply length_replicate|]. apply Forall_replicate, Hn. Qed.

Lemma five_is_byte : is_byte 5.
Proof. unfold is_byte. lia. Qed.

Definition demo_first : demo_key := dexist (replicate 32 5) (demo_bytes 5 five_is_byte).

Definition demo_read (b : bytes) : outcome demo_key :=
  match decide (key_bytes b) with left H => Ok (dexist b H) | right _ => Throw "invalid key" end.

Definition demo_node : Node demo_key demo_key string := {|
  x25519_key b := demo_first;
  public_of k := k;
  export_spki k := SPKI_PREFIX ++ `k;
  export_pkcs8 k := `k;
  createPublicKey b := demo_read (drop 12 b);
  createPrivateKey b := demo_read b;
  diffieHellman a k := zip_with Z.lxor (`a) (`k);
  hkdfSync s salt info n := hkdf demo_noble s salt info n;
  buffer_base64 := toBase64;
  buffer_from_base64 := fromBase64;
|}.

Lemma demo_read_key (k : demo_key) : demo_read (`k) = Ok k.
Proof.
  unfold demo_read. destruct (decide _) as [H|H]; [|by destruct (H (proj2_dsig k))].
  f_equal. by apply dsig_eq.
Qed.

Lemma demo_curve : SameCurve demo_node demo_noble proj1_sig proj1_sig.
Proof.
  split; try done.
  - intros b Hb. by apply fromBase64_toBase64.
  - intros k. apply (proj2_dsig k).
  - intros b Hb. exists (dexist b Hb). split; [|done]. apply (demo_read_key (dexist b Hb)).
  - intros k. split; [apply (proj2_dsig k)|apply demo_read_key].
  - intros a. cbn. induction a as [|x a IH]; intros [|y b]; [done..|]. cbn. by rewrite Z.lxor_comm, IH.
Qed.

Lemma both_ends_derive_one_key_witness :
  identity_deriveSessionKey demo_node (mkKeyPair demo_first demo_first) (spkiPublicKeyB64 (replicate 32 7)) [1; 2; 3] =
    Ok (session_deriveKey demo_noble (replicate 32 7) (rawPublicKeyFromB64 (NodeKeys.exportPublic demo_node demo_first)) "AQID").
Proof.
  assert (Hr : key_bytes (replicate 32 7)) by (apply demo_bytes; unfold is_byte; lia).
  assert (Hs : Forall is_byte [1; 2; 3]) by (repeat constructor; unfold is_byte; lia).
  exact (proj1 (both_ends_derive_one_key demo_node demo_noble proj1_sig proj1_sig demo_curve demo_first demo_first (replicate 32 7) [1; 2; 3] Hr Hs)).
Defined.

End demo.
