(* ===== verification/Fleet.v ===== *)
(** * The phone's view state

    [apps/mobile/src/core/state/fleetState.ts]: the reducer from the daemon's events
    to what the screens render, and its selectors.  An object used as a map keeps its
    keys in the order of their insertion (identifiers are not integers, which
    JavaScript would put first). *)

From S2P Require Import Prelude JsMap Js Types.

Local Open Scope Z_scope.

Module FleetState.

Definition MAX_TRANSCRIPT : nat := 200.

Record t : Type := mkFleetState {
  sessions : jsmap string SessionInfo;
  approvals : jsmap string PendingApproval;
  jobs : jsmap string JobInfo;
  transcripts : jsmap string (list jsval);
  history : list ApprovalHistoryEntry;
  lastError : option string;
}.

Definition emptyFleetState : t := mkFleetState [] [] [] [] [] None.

(** [l.slice(-n)] *)
Definition last_n {A} (n : nat) (l : list A) : list A := drop (length l - n) l.

(** [Object.fromEntries(l)]: a later entry replaces an earlier one in its place. *)
Definition fromEntries {V} (l : list (string * V)) : jsmap string V :=
  foldl (fun m e => mset e.1 e.2 m) [] l.

Definition applyEvent (st : t) (event : ServerEvent) : t :=
  match event with
  | session_list ss =>
      mkFleetState (fromEntries ((fun s => (si_id s, s)) <$> ss)) (approvals st) (jobs st) (transcripts st)
        (history st) (lastError st)
  | session_update s =>
      mkFleetState (mset (si_id s) s (sessions st)) (approvals st) (jobs st) (transcripts st)
        (history st) (lastError st)
  | approval_pending a =>
      mkFleetState (sessions st) (mset (toolUseId a) a (approvals st)) (jobs st) (transcripts st)
        (history st) (lastError st)
  | approval_resolved id _ _ =>
      mkFleetState (sessions st) (mdelete id (approvals st)) (jobs st) (transcripts st)
        (history st) (lastError st)
  | job_update j =>
      mkFleetState (sessions st) (approvals st) (mset (j_id j) j (jobs st)) (transcripts st)
        (history st) (lastError st)
  | stream id ev =>
      let prev := default [] (mget id (transcripts st)) in
      mkFleetState (sessions st) (approvals st) (jobs st)
        (mset id (last_n MAX_TRANSCRIPT (prev ++ [ev])) (transcripts st)) (history st) (lastError st)
  | approval_history l =>
      mkFleetState (sessions st) (approvals st) (jobs st) (transcripts st) l (lastError st)
  | error m =>
      mkFleetState (sessions st) (approvals st) (jobs st) (transcripts st) (history st) (Some m)
  | revoked _ => st
  | ack _ => st
  end.

(** A fold over the stream of events. *)
Definition applyAll (st : t) (events : list ServerEvent) : t := foldl applyEvent st events.

(** [Array.prototype.sort] with a comparison of a numeric field: stable, ascending. *)
Fixpoint insert_by {A} (key : A -> Z) (x : A) (l : list A) : list A :=
  match l with
  | [] => [x]
  | y :: l' => if key x <? key y then x :: l else y :: insert_by key x l'
  end.

Definition sort_by {A} (key : A -> Z) (l : list A) : list A :=
  foldl (fun acc x => insert_by key x acc) [] l.

Definition sessionList (st : t) : list SessionInfo :=
  sort_by (fun s => - si_lastActivityAt s) (mvalues (sessions st)).

Definition pendingApprovals (st : t) : list PendingApproval :=
  sort_by deadlineAt (mvalues (approvals st)).

Definition pendingCount (st : t) : Z := Z.of_nat (length (mkeys (approvals st))).

End FleetState.

Import FleetState.

(** ** What the state is: the last word on every key *)

(** What an event says about a session, an approval, a job: a value, its removal, or
    nothing. *)
Definition session_word (id : string) (e : ServerEvent) : option (option SessionInfo) :=
  match e with
  | session_list ss => Some (last (filter (fun s => si_id s = id) ss))
  | session_update s => if decide (si_id s = id) then Some (Some s) else None
  | _ => None
  end.

Definition approval_word (id : string) (e : ServerEvent) : option (option PendingApproval) :=
  match e with
  | approval_pending a => if decide (toolUseId a = id) then Some (Some a) else None
  | approval_resolved id' _ _ => if decide (id' = id) then Some None else None
  | _ => None
  end.

Definition job_word (id : string) (e : ServerEvent) : option (option JobInfo) :=
  match e with
  | job_update j => if decide (j_id j = id) then Some (Some j) else None
  | _ => None
  end.

Definition history_word (e : ServerEvent) : option (list ApprovalHistoryEntry) :=
  match e with approval_history l => Some l | _ => None end.

Definition error_word (e : ServerEvent) : option (option string) :=
  match e with error m => Some (Some m) | _ => None end.

(** The last word of a stream, or [d] when there is none. *)
Definition last_word {V} (word : ServerEvent -> option V) (d : V) (l : list ServerEvent) : V :=
  default d (last (omap word l)).

(** The transcript events of a session, in order. *)
Definition streamed (id : string) (l : list ServerEvent) : list jsval :=
  omap (fun e => match e with stream id' ev => if decide (id' = id) then Some ev else None | _ => None end) l.

Lemma last_word_app {V} (word : ServerEvent -> option V) d l e :
  last_word word d (l ++ [e]) = default (last_word word d l) (word e).
Proof.
  unfold last_word. rewrite omap_app. simpl. destruct (word e); simpl.
  - by rewrite last_snoc.
  - by rewrite app_nil_r.
Qed.

Lemma mget_fromEntries {V} (l : list (string * V)) k :
  mget k (fromEntries l) = snd <$> last (filter (fun e => e.1 = k) l).
Proof.
  unfold fromEntries. induction l as [|e l IH] using rev_ind; [done|].
  rewrite foldl_app, filter_app. cbn [foldl]. rewrite mget_mset, IH, filter_cons, filter_nil.
  destruct (decide (k = e.1)) as [->|Hn]; [rewrite decide_True by done|rewrite decide_False by done].
  - by rewrite last_snoc.
  - by rewrite app_nil_r.
Qed.

Lemma filter_fmap_id (ss : list SessionInfo) id :
  snd <$> last (filter (fun e : string * SessionInfo => e.1 = id) ((fun s => (si_id s, s)) <$> ss)) =
  last (filter (fun s => si_id s = id) ss).
Proof.
  induction ss as [|s ss IH] using rev_ind; [done|].
  rewrite fmap_app, !filter_app. simpl. rewrite !filter_cons, !filter_nil. simpl.
  destruct (decide (si_id s = id)); [by rewrite !last_snoc|by rewrite !app_nil_r].
Qed.

(** One event at a time. *)
Lemma applyEvent_session id st e :
  mget id (sessions (applyEvent st e)) = default (mget id (sessions st)) (session_word id e).
Proof.
  destruct e; cbn [applyEvent sessions session_word]; try done.
  - by rewrite mget_fromEntries, filter_fmap_id.
  - rewrite mget_mset. repeat case_decide; simplify_eq; done.
Qed.

Lemma applyEvent_approval id st e :
  mget id (approvals (applyEvent st e)) = default (mget id (approvals st)) (approval_word id e).
Proof.
  destruct e; cbn [applyEvent approvals approval_word]; try done.
  - rewrite mget_mset. repeat case_decide; simplify_eq; done.
  - rewrite mget_mdelete. repeat case_decide; simplify_eq; done.
Qed.

Lemma applyEvent_job id st e :
  mget id (jobs (applyEvent st e)) = default (mget id (jobs st)) (job_word id e).
Proof.
  destruct e; cbn [applyEvent jobs job_word]; try done.
  rewrite mget_mset. repeat case_decide; simplify_eq; done.
Qed.

Lemma transcript_snoc {A} n (l : list A) x : last_n n (last_n n l ++ [x]) = last_n n (l ++ [x]).
Proof.
  unfold last_n. rewrite !length_app, length_drop. simpl.
  destruct (decide (length l < n)%nat) as [Hlt|Hge].
  - replace (length l - n)%nat with 0%nat by lia. rewrite drop_0. f_equal. lia.
  - destruct n as [|n].
    + rewrite !Nat.sub_0_r. rewrite (drop_ge l) by lia. simpl. rewrite Nat.sub_diag.
      rewrite !drop_ge; [done|rewrite length_app; simpl; lia|simpl; lia].
    + replace (length l - (length l - S n) + 1 - S n)%nat with 1%nat by lia.
      replace (length l + 1 - S n)%nat with (length l - S n + 1)%nat by lia.
      rewrite !drop_app_le by (rewrite ?length_drop; lia). by rewrite drop_drop.
Qed.

Lemma length_last_n {A} n (l : list A) : (length (last_n n l) <= n)%nat.
Proof. unfold last_n. rewrite length_drop. lia. Qed.

(** C36. The phone shows, at every moment, the last word of the daemon on everything:
    folding the reducer over any stream of events gives for each session, approval
    and job exactly what the last event that speaks of it says (a full session list
    speaks of every session), the last history and error, and of every transcript
    the last 200 events in order. *)
Theorem view_is_last_word (l : list ServerEvent) :
  let st := applyAll emptyFleetState l in
  (forall id, mget id (sessions st) = last_word (session_word id) None l) /\
  (forall id, mget id (approvals st) = last_word (approval_word id) None l) /\
  (forall id, mget id (jobs st) = last_word (job_word id) None l) /\
  (forall id, default [] (mget id (transcripts st)) = last_n MAX_TRANSCRIPT (streamed id l)) /\
  history st = last_word history_word [] l /\
  lastError st = last_word error_word None l.
Proof.
  induction l as [|e l IH] using rev_ind; [done|].
  unfold applyAll in *. rewrite foldl_app. cbn [foldl]. cbv zeta in *.
  destruct IH as (Hs & Ha & Hj & Ht & Hh & He). set (st := foldl applyEvent emptyFleetState l) in *.
  split_and!.
  - intros id. by rewrite last_word_app, <- Hs, applyEvent_session.
  - intros id. by rewrite last_word_app, <- Ha, applyEvent_approval.
  - intros id. by rewrite last_word_app, <- Hj, applyEvent_job.
  - intros id. unfold streamed. rewrite omap_app. fold (streamed id l).
    destruct e; cbn [applyEvent transcripts omap list_omap]; rewrite ?app_nil_r; try apply Ht.
    rewrite mget_mset. destruct (decide (id = sessionId)) as [->|Hn].
    + rewrite decide_True by done. simpl default. rewrite (Ht sessionId). apply transcript_snoc.
    + rewrite decide_False by done. rewrite app_nil_r. apply Ht.
  - rewrite last_word_app, <- Hh. by destruct e.
  - rewrite last_word_app, <- He. by destruct e.
Qed.

(** ** The selectors *)

Section sort.
Context {A : Type} (key : A -> Z).

Lemma insert_by_perm x l : insert_by key x l ≡ₚ x :: l.
Proof.
  induction l as [|y l IH]; simpl; [done|]. case_match; [done|]. rewrite IH. apply Permutation_swap.
Qed.

Lemma sort_by_perm l : sort_by key l ≡ₚ l.
Proof.
  unfold sort_by. induction l as [|x l IH] using rev_ind; [done|].
  rewrite foldl_app. cbn [foldl]. rewrite insert_by_perm, IH. by rewrite Permutation_cons_append.
Qed.

Lemma insert_by_sorted x l :
  StronglySorted (fun a b => key a <= key b) l -> StronglySorted (fun a b => key a <= key b) (insert_by key x l).
Proof.
  induction 1 as [|y l Hs IH Hy]; simpl; [by repeat constructor|].
  destruct (Z.ltb_spec (key x) (key y)).
  - constructor; [by constructor|]. constructor; [lia|].
    eapply Forall_impl; [exact Hy|]. simpl. intros. lia.
  - constructor; [done|]. rewrite Forall_forall in Hy |- *. intros z Hz.
    rewrite insert_by_perm in Hz. apply elem_of_cons in Hz as [->|Hz]; [lia|by apply Hy].
Qed.

Lemma sort_by_sorted l : StronglySorted (fun a b => key a <= key b) (sort_by key l).
Proof.
  unfold sort_by. induction l as [|x l IH] using rev_ind; [constructor|].
  rewrite foldl_app. cbn [foldl]. by apply insert_by_sorted.
Qed.

End sort.

(** Both lists show every entry of the state once: the sessions most recently active
    first, the approvals soonest deadline first; the badge counts the approvals. *)
Lemma selectors_sort st :
  sessionList st ≡ₚ mvalues (sessions st) /\
  StronglySorted (fun a b => si_lastActivityAt b <= si_lastActivityAt a) (sessionList st) /\
  pendingApprovals st ≡ₚ mvalues (approvals st) /\
  StronglySorted (fun a b => deadlineAt a <= deadlineAt b) (pendingApprovals st) /\
  pendingCount st = Z.of_nat (length (pendingApprovals st)).
Proof.
  unfold sessionList, pendingApprovals, pendingCount. split_and!; [apply sort_by_perm| |apply sort_by_perm|apply sort_by_sorted|].
  - pose proof (sort_by_sorted (fun s => - si_lastActivityAt s) (mvalues (sessions st))) as H.
    induction H as [|x l Hl IH Hx]; constructor; [done|].
    eapply Forall_impl; [exact Hx|]. simpl. lia.
  - rewrite sort_by_perm. unfold mkeys, mvalues. by rewrite !length_fmap.
Qed.
