(* ===== verification/MobileClient.v ===== *)
(** * The phone's client host

    [apps/mobile/src/core/protocol/clientController.ts] and
    [apps/mobile/src/core/transport.ts]: the newline framing and the writing around
    the client engine, and the WebSocket it is driven over. *)

From S2P Require Import Prelude JsMap Js Types Frame Sync Resend Client Framing.

Local Open Scope Z_scope.

Module ClientController.

Section controller.
Context {Key Nonce X : Type} `{SessionCrypto Key Nonce}.
Variable deviceId : string.
Variable deriveKey : string -> Key.

(** The engine and the host's own state: what a callback of the host can reach. *)
Record host : Type := mkHost { client : ReliableClient.t Key; ext : X }.

(** The controller: the unfinished line, and the rest. *)
Record t : Type := mk { buf : string; inner : host }.

(** The options: how to write a line, the outbound counter, the randomness of the
    sealing, JSON, and the host's callbacks, which may call [send]. *)
Record Options : Type := mkOptions {
  write : string -> eff X unit;
  nextSeq : eff X Z;
  draw_nonces : X -> (nat -> Nonce) * X;
  stringify : ReliableClient.Outbound -> string;
  parse : string -> option WireMsg;
  callback : ReliableClient.Callback -> eff host unit;
}.

Variable o : Options.

Definition on_ext {A} (m : eff X A) : eff host A :=
  fun h => let '(r, x) := m (ext h) in (r, mkHost (client h) x).

Definition set_client (c : ReliableClient.t Key) : eff host unit := modify (fun h => mkHost c (ext h)).

(** [new ClientController(opts)] *)
Definition new (x : X) : t := mk EmptyString (mkHost ReliableClient.new x).

Definition line_of (m : ReliableClient.Outbound) : string :=
  stringify o m +:+ String Framing.newline EmptyString.

Definition flush : eff host unit :=
  c ← gets client;
  let '(out, c') := ReliableClient.drain c in
  set_client c' ;;
  for_each (fun m => on_ext (write o (line_of m))) out.

Definition on_inner {A} (m : eff host A) : eff t A :=
  fun c => let '(r, h) := m (inner c) in (r, mk (buf c) h).

Definition connected : eff t unit :=
  on_inner (c ← gets client; set_client (ReliableClient.onOpen deviceId c) ;; flush).

(** The body of the loop of [feed] on one line. *)
Definition on_line (line : string) : eff host unit :=
  if Framing.is_blank line then mret tt else
  match parse o line with
  | None => mret tt
  | Some msg =>
      rnd ← (fun h => let '(r, x) := draw_nonces o (ext h) in (Ok r, mkHost (client h) x));
      c ← gets client;
      let '(c', cbs) := ReliableClient.onMessage deriveKey rnd c msg in
      set_client c' ;;
      for_each (callback o) cbs ;;
      flush
  end.

(** [while ((i = this.buf.indexOf('\n')) >= 0)]: each turn shortens the buffer. *)
Fixpoint feed_loop (fuel : nat) : eff t unit :=
  match fuel with
  | O => mret tt
  | S fuel' =>
      b ← gets buf;
      match Framing.take_line b with
      | None => mret tt
      | Some (line, rest) =>
          modify (fun c => mk rest (inner c)) ;;
          on_inner (on_line line) ;;
          feed_loop fuel'
      end
  end.

Definition feed (chunk : string) : eff t unit :=
  modify (fun c => mk (buf c +:+ chunk) (inner c)) ;;
  b ← gets buf;
  feed_loop (String.length b).

Definition disconnected : eff t unit :=
  on_inner (c ← gets client; set_client (ReliableClient.onClose c)) ;;
  modify (fun c => mk EmptyString (inner c)).

(** [send(command, reliable)]: the engine draws the number and throws when full. *)
Definition send (command : Plain) (reliable : bool) : eff host Z :=
  seq ← on_ext (nextSeq o);
  rnd ← (fun h => let '(r, x) := draw_nonces o (ext h) in (Ok r, mkHost (client h) x));
  c ← gets client;
  let '(r, c') := ReliableClient.send (rnd 0%nat) seq command reliable c in
  set_client c' ;;
  match r with
  | Ok seq => flush ;; mret seq
  | Throw e => throw e
  end.

Definition is_ready (c : t) : bool := ReliableClient.is_ready (client (inner c)).

(** ** The WebSocket (transport.ts) *)

(** [openWebSocket(url, opts)] makes a controller of its own for every socket; [write]
    goes to the socket only while it is open. *)
Definition open_write (is_open : X -> bool) (ws_send : string -> eff X unit) (line : string) : eff X unit :=
  b ← gets is_open;
  if b : bool then ws_send line else mret tt.

Definition openWebSocket (x : X) : t := new x.

(** The socket's events. *)
Inductive WsEvent : Type :=
| WsOpen
| WsMessage (data : string)
| WsClose
| WsError.

Definition on_ws (onClose : eff X unit) (e : WsEvent) : eff t unit :=
  match e with
  | WsOpen => connected
  | WsMessage data => feed data
  | WsClose => disconnected ;; on_inner (on_ext onClose)
  | WsError => mret tt
  end.

End controller.
Arguments host : clear implicits.
Arguments t : clear implicits.
Arguments Options : clear implicits.

End ClientController.

Import ClientController.

Section laws.
Context {Key Nonce X : Type} `{SessionCrypto Key Nonce}.
Context (deviceId : string) (deriveKey : string -> Key) (o : Options Key Nonce X).
Implicit Types c : ClientController.t Key X.

Notation feed := (ClientController.feed deriveKey o).
Notation feed_loop := (ClientController.feed_loop deriveKey o).
Notation on_line := (ClientController.on_line deriveKey o).

(** The loop takes the lines of the buffer in order; its length is enough turns. *)
Lemma feed_loop_drain n c :
  (String.length (buf c) <= n)%nat ->
  feed_loop n c =
    match for_each on_line (Framing.drain (buf c)).1 (inner c) with
    | (Ok _, h) => (Ok tt, mk (Framing.drain (buf c)).2 h)
    | (Throw e, h) => (Throw e, (feed_loop n c).2)
    end.
Proof.
  revert c. induction n as [|n IH]; intros c Hn.
  - destruct c as [b h]. destruct b; simpl in *; [done|lia].
  - cbn [ClientController.feed_loop]. rewrite drain_unfold.
    unfold mbind, eff_bind, gets, modify. cbn.
    destruct (Framing.take_line (buf c)) as [[line rest]|] eqn:Ht; [|by destruct c].
    pose proof (take_line_Some _ _ _ Ht) as [Hb _].
    assert (Hlen : (String.length rest <= n)%nat)
      by (rewrite Hb, string_length_app in Hn; simpl in Hn; lia).
    destruct (Framing.drain rest) as [lines b'] eqn:Hd. cbn [fst snd for_each].
    unfold on_inner. cbn. unfold mbind, eff_bind.
    destruct (on_line line (inner c)) as [[[]|e] h]; [|done].
    rewrite (IH (mk rest h)) by done. cbn [buf inner]. rewrite Hd. cbn [fst snd].
    by destruct (for_each on_line lines h) as [[[]|e] h'].
Qed.

Lemma for_each_app {W A} (f : A -> eff W unit) l1 l2 w :
  for_each f (l1 ++ l2) w =
    match for_each f l1 w with (Ok _, w') => for_each f l2 w' | (Throw e, w') => (Throw e, w') end.
Proof.
  revert w. induction l1 as [|x l1 IH]; intros w; [done|]. cbn [app for_each].
  unfold mbind, eff_bind. destruct (f x w) as [[[]|e] w']; [apply IH|done].
Qed.

(** However the socket cuts the daemon's stream into messages, the phone hands the
    engine exactly the complete lines, in order, each followed by the writing of
    what the engine answers, and keeps the unfinished line for the next message. *)
Theorem phone_reads_lines_in_order chunks lines rest x h' :
  Framing.drain (foldr String.append "" chunks) = (lines, rest) ->
  for_each on_line lines x = (Ok tt, h') ->
  for_each feed chunks (mk EmptyString x) = (Ok tt, mk rest h').
Proof.
  intros Hd Hr.
  enough (Hgen : forall b l r x, read_chunks b chunks = (l, r) ->
            Framing.has_newline b = false -> for_each on_line l x = (Ok tt, h') ->
            for_each feed chunks (mk b x) = (Ok tt, mk r h')).
  { apply (Hgen _ lines); [by rewrite read_chunks_join|done|done]. }
  clear. induction chunks as [|c chunks IH]; intros b l r x Hc Hb Hl.
  { injection Hc as <- <-. simpl in Hl. injection Hl as <-. done. }
  assert (Hcons : read_chunks b (c :: chunks) =
            let (l1, r1) := Framing.drain (b +:+ c) in
            let (l2, r2) := read_chunks r1 chunks in (l1 ++ l2, r2)).
  { clear. revert b c. induction chunks as [|c' chunks IH] using rev_ind; intros b c.
    - unfold read_chunks. simpl. destruct (Framing.drain (b +:+ c)). by rewrite app_nil_r.
    - rewrite app_comm_cons, read_chunks_snoc, IH. destruct (Framing.drain (b +:+ c)) as [l1 r1].
      rewrite read_chunks_snoc. destruct (read_chunks r1 chunks) as [l2 r2]. cbn [fst snd].
      destruct (Framing.drain (r2 +:+ c')). by rewrite app_assoc. }
  rewrite Hcons in Hc. pose proof (drain_complete (b +:+ c)) as Hn.
  destruct (Framing.drain (b +:+ c)) as [l1 r1] eqn:Hd1. destruct (read_chunks r1 chunks) as [l2 r2] eqn:Hd2.
  injection Hc as <- <-. rewrite for_each_app in Hl.
  destruct (for_each on_line l1 x) as [[[]|e] h1] eqn:Hl1; [|done].
  cbn [for_each]. unfold mbind, eff_bind.
  assert (Hf : feed c (mk b x) = (Ok tt, mk r1 h1)).
  { unfold ClientController.feed, mbind, eff_bind, modify, gets. cbn [buf inner].
    rewrite feed_loop_drain by done. cbn [buf inner]. rewrite Hd1. cbn [fst snd]. by rewrite Hl1. }
  rewrite Hf. by eapply IH.
Qed.

(** Reopening the phone's socket loses what the engine promises to keep: the
    transport makes a new controller for every socket, so whatever was outstanding or
    last seen on the old one, the next hello asks for nothing, and the handshake that
    follows it resends nothing. *)
Theorem reopening_forgets (old : ClientController.t Key X) salt rnd :
  let c := client (inner (openWebSocket (X:=X) (ext (inner old)))) in
  (ReliableClient.drain (ReliableClient.onOpen deviceId c)).1 = [ReliableClient.OHello deviceId None] /\
  (ReliableClient.drain (ReliableClient.onMessage deriveKey rnd
     (ReliableClient.drain (ReliableClient.onOpen deviceId c)).2 salt).1).1 = [].
Proof.
  cbn. split; [done|]. unfold ReliableClient.onMessage. cbn. repeat case_decide; done.
Qed.

End laws.

(** ** A concrete host *)

Definition demo_options : Options string string (list string) := {|
  write l := modify (fun x => x ++ [l]);
  nextSeq := mret 1;
  draw_nonces x := (fun _ => "n", x);
  ClientController.stringify _ := "out";
  ClientController.parse l := if decide (l = "salt") then Some (msg_of_salt "s" true None) else None;
  callback _ := mret tt;
|}.

Notation demo_crypto := (@node_SessionCrypto string toy_platform).

(** An engine with one command outstanding. *)
Definition demo_engine : ReliableClient.t string :=
  (@ReliableClient.send string string demo_crypto "n" 1 (PCmd cmd_list) true ReliableClient.new).2.

Definition demo_chunks : list string :=
  ["sa"; "lt" +:+ String Framing.newline "ju"; "nk" +:+ String Framing.newline "par"; "t"].

Lemma phone_reads_lines_in_order_witness :
  exists h, for_each (@ClientController.feed string string (list string) demo_crypto (fun s => s) demo_options)
      demo_chunks (mk "" (mkHost demo_engine [])) = (Ok tt, mk "part" h) /\ length (ext h) = 1%nat.
Proof.
  pose (run := for_each (@ClientController.on_line string string (list string) demo_crypto (fun s => s) demo_options)
                 ["salt"; "junk"] (mkHost demo_engine [])).
  assert (Hd : Framing.drain (foldr String.append "" demo_chunks) = (["salt"; "junk"], "part"))
    by (vm_compute; reflexivity).
  assert (Hr : run = (Ok tt, run.2)) by (vm_compute; reflexivity).
  exists run.2. split; [|vm_compute; reflexivity].
  exact (phone_reads_lines_in_order (fun s => s) demo_options demo_chunks _ _ _ _ Hd Hr).
Defined.
