(* ===== verification/PairCode.v ===== *)
(** * Pair codes and the pairing of a phone

    [packages/protocol/src/pairCode.ts], [packages/cli/src/pairing.ts] and
    [apps/mobile/src/core/protocol/pairing.ts]: the out-of-band code that carries the
    daemon's key and one-time secret, and what a phone does with it.  [JSON.parse] is
    a parameter, and so is Node's base64url decoder; Node's encoder is RFC 4648's. *)

From S2P Require Import Prelude JsMap Js Types Framing Frame Bytes Text MobileCrypto Pairing.

Local Open Scope Z_scope.

Module PairCode.

(** [v] is not checked, so it is whatever the text holds. *)
Record PairPayload : Type := mkPairPayload {
  pp_v : jsval;
  pp_addr : string;
  pp_pk : string;
  pp_s : string;
}.

Definition parsePairPayload (parse : string -> option jsval) (json : string) : outcome PairPayload :=
  match parse json with
  | None => Throw "not a valid pairing code (could not decode)."
  | Some payload =>
      match jprop "pk" payload, jprop "s" payload, jprop "addr" payload with
      | JStr pk, JStr s, JStr addr => Ok (mkPairPayload (jprop "v" payload) addr pk s)
      | _, _, _ => Throw "pairing code is missing required fields (pk/s/addr)."
      end
  end.

(** [.] of a regular expression: anything but a line terminator (on ASCII). *)
Definition is_dot (c : ascii) : bool := negb (bool_decide (c = "010"%char) || bool_decide (c = "013"%char)).

(** [/^tcp:\/\/(.+)$/] *)
Definition tcpTargetFromAddr (addr : string) : option string :=
  match Text.strip_prefix "tcp://" addr with
  | Some (String c rest) => if Text.all_chars is_dot (String c rest) then Some (String c rest) else None
  | _ => None
  end.

(** [Buffer.from(bytes).toString('base64url')]: the url-safe alphabet, no padding. *)
Definition url_char (c : ascii) : ascii :=
  if decide (c = "+"%char) then "-"%char else if decide (c = "/"%char) then "_"%char else c.

Fixpoint url_of_base64 (s : string) : string :=
  match s with
  | EmptyString => EmptyString
  | String c s' => if decide (c = "="%char) then url_of_base64 s' else String (url_char c) (url_of_base64 s')
  end.

Definition encodePairCode (qrJson : string) : string :=
  url_of_base64 (FrameCrypto.toBase64 (utf8_bytes qrJson)).

(** [decodePairCode] of the CLI, over Node's decoder. *)
Definition decodePairCode (from_base64url : string -> bytes) (parse : string -> option jsval) (code : string)
    : outcome PairPayload :=
  parsePairPayload parse (utf8_text (from_base64url (Text.trim code))).

End PairCode.

Module MobilePairing.
Import PairCode.

Record DeviceRecord : Type := mkDeviceRecord {
  dr_deviceId : string;
  devicePrivateKey : string;
  devicePublicKey : string;
  daemonPublicKey : string;
  daemonAddress : string;
}.

(** [.replace(/-/g, '+').replace(/_/g, '/')] *)
Definition standard_char (c : ascii) : ascii :=
  if decide (c = "-"%char) then "+"%char else if decide (c = "_"%char) then "/"%char else c.

Definition decodePairCode (parse : string -> option jsval) (code : string) : outcome PairPayload :=
  let standardB64 := Text.map_chars standard_char (Text.trim code) in
  parsePairPayload parse (utf8_text (FrameCrypto.fromBase64 standardB64)).

(** [/^wss?:\/\/.+/]: anything may follow the first character after the slashes. *)
Definition wsUrlFromAddr (addr : string) : option string :=
  let dot_follows rest := match rest with Some (String c _) => is_dot c | _ => false end in
  if dot_follows (Text.strip_prefix "ws://" addr) || dot_follows (Text.strip_prefix "wss://" addr)
  then Some addr else None.

Record CompletePair : Type := mkCompletePair {
  cp_devicePublicKey : string;
  cp_deviceName : string;
  cp_proof : string;
}.

Record PairingAttempt : Type := mkAttempt {
  target : option string;
  device : bytes * bytes;
  completePair : CompletePair;
}.

Section noble.
Context {Key : Type} (N : FrameCrypto.Noble Key).

(** [startPairing(payload, deviceName)], given the 32 random bytes it draws. *)
Definition startPairing (payload : PairPayload) (deviceName : string) (random : bytes) : PairingAttempt :=
  let dev := FrameCrypto.generateKeyPair N random in
  let devicePublicKeyB64 := FrameCrypto.spkiPublicKeyB64 dev.2 in
  let proof := FrameCrypto.pairingProof N (pp_s payload) devicePublicKeyB64 (pp_pk payload) in
  mkAttempt (wsUrlFromAddr (pp_addr payload)) dev (mkCompletePair devicePublicKeyB64 deviceName proof).

Definition deviceRecordFromPaired (deviceId : string) (attempt : PairingAttempt) (payload : PairPayload)
    : outcome DeviceRecord :=
  match truthy_str (target attempt) with
  | None => Throw "the daemon advertised no WebSocket address; enable CC_CLIENT_WS_PORT on it to pair a phone."
  | Some address =>
      Ok (mkDeviceRecord deviceId (FrameCrypto.toBase64 (device attempt).1)
            (cp_devicePublicKey (completePair attempt)) (pp_pk payload) address)
  end.

(** [sessionCryptoFromRecord(record)]: its key derivation. *)
Definition sessionCryptoFromRecord (record : DeviceRecord) : string -> Key :=
  FrameCrypto.session_deriveKey N (FrameCrypto.fromBase64 (devicePrivateKey record))
    (FrameCrypto.rawPublicKeyFromB64 (daemonPublicKey record)).

End noble.

End MobilePairing.

Import PairCode MobilePairing Text.

(** ** The code survives its transport *)

(** A character of base64 text. *)
Definition b64_text (c : ascii) : bool := FrameCrypto.is_b64 c || bool_decide (c = "="%char).

Lemma b64_char_text k : 0 <= k < 64 -> b64_text (FrameCrypto.b64_char k) = true.
Proof. intros Hk. unfold b64_text. by destruct (b64_lookup_char k Hk) as [_ ->]. Qed.

Lemma toBase64_text b : Forall is_byte b -> all_chars b64_text (FrameCrypto.toBase64 b) = true.
Proof.
  induction b as [|x|x y|x y z b IH] using list_ind3; intros Hb; [done|..]; rewrite ?Forall_cons in Hb;
    cbn [FrameCrypto.toBase64].
  - destruct (sextets x 0 0) as (H1 & H2 & _ & _); [tauto|apply is_byte_0..|].
    unfold FrameCrypto.group. cbv zeta. cbn [default from_option id all_chars]. rewrite H1, H2.
    rewrite (b64_char_text (x / 4)) by (apply div4_range; tauto).
    rewrite b64_char_text by (apply mix2_range; [tauto|apply is_byte_0]). done.
  - destruct (sextets x y 0) as (H1 & H2 & H3 & _); [tauto|tauto|apply is_byte_0|].
    unfold FrameCrypto.group. cbv zeta. cbn [default from_option id all_chars]. rewrite H1, H2, H3.
    rewrite (b64_char_text (x / 4)) by (apply div4_range; tauto).
    rewrite b64_char_text by (apply mix2_range; tauto).
    rewrite b64_char_text by (apply mix3_range; [tauto|apply is_byte_0]). done.
  - destruct (sextets x y z) as (H1 & H2 & H3 & H4); [tauto..|].
    unfold FrameCrypto.group. cbv zeta. rewrite all_chars_app. cbn [default from_option id all_chars].
    rewrite H1, H2, H3, H4.
    rewrite (b64_char_text (x / 4)) by (apply div4_range; tauto).
    rewrite b64_char_text by (apply mix2_range; tauto).
    rewrite b64_char_text by (apply mix3_range; tauto).
    rewrite b64_char_text by (apply mod64_range). by rewrite IH by tauto.
Qed.

(** Undoing the url-safe alphabet gives back what the decoder reads. *)
Lemma clean_url s : all_chars b64_text s = true ->
  FrameCrypto.clean (map_chars standard_char (url_of_base64 s)) = FrameCrypto.clean s.
Proof.
  induction s as [|c s IH]; [done|]. cbn [all_chars]. intros [Hc Hs]%andb_true_iff. specialize (IH Hs).
  cbn [url_of_base64]. destruct (decide (c = "="%char)) as [->|Hne]; [exact IH|].
  cbn [map_chars FrameCrypto.clean]. rewrite IH.
  assert (Hchar : standard_char (url_char c) = c); [|by rewrite Hchar].
  destruct c as [[] [] [] [] [] [] [] []]; vm_compute in Hc |- *; congruence.
Qed.

Lemma url_no_space s : all_chars b64_text s = true ->
  all_chars (fun c => negb (Framing.is_space c)) (url_of_base64 s) = true.
Proof.
  induction s as [|c s IH]; [done|]. cbn [all_chars]. intros [Hc Hs]%andb_true_iff. specialize (IH Hs).
  cbn [url_of_base64]. destruct (decide (c = "="%char)); [exact IH|].
  cbn [all_chars]. rewrite IH. destruct c as [[] [] [] [] [] [] [] []]; vm_compute in Hc |- *; congruence.
Qed.

Lemma phone_reads_code parse json ws1 ws2 :
  all_chars Framing.is_space ws1 = true -> all_chars Framing.is_space ws2 = true ->
  MobilePairing.decodePairCode parse (ws1 +:+ encodePairCode json +:+ ws2) = parsePairPayload parse json.
Proof.
  intros H1 H2. unfold MobilePairing.decodePairCode, encodePairCode.
  pose proof (toBase64_text (utf8_bytes json) (utf8_bytes_range json)) as Ht.
  rewrite trim_word by (try done; by apply url_no_space). cbv zeta.
  assert (Hf : FrameCrypto.fromBase64 (map_chars standard_char (url_of_base64 (FrameCrypto.toBase64 (utf8_bytes json))))
               = utf8_bytes json).
  { rewrite <- (fromBase64_toBase64 (utf8_bytes json)) at 2 by apply utf8_bytes_range.
    unfold FrameCrypto.fromBase64. by rewrite clean_url. }
  by rewrite Hf, utf8_text_bytes.
Qed.

Lemma node_reads_code from_base64url parse json ws1 ws2 :
  (forall b, Forall is_byte b -> from_base64url (url_of_base64 (FrameCrypto.toBase64 b)) = b) ->
  all_chars Framing.is_space ws1 = true -> all_chars Framing.is_space ws2 = true ->
  PairCode.decodePairCode from_base64url parse (ws1 +:+ encodePairCode json +:+ ws2) = parsePairPayload parse json.
Proof.
  intros Hnode H1 H2. unfold PairCode.decodePairCode, encodePairCode.
  pose proof (toBase64_text (utf8_bytes json) (utf8_bytes_range json)) as Ht.
  rewrite trim_word by (try done; by apply url_no_space).
  by rewrite Hnode, utf8_text_bytes by apply utf8_bytes_range.
Qed.

(** A pair code reads back, on the phone and on a second machine, as the payload
    the daemon printed, whatever white space the pasting adds around it: the phone's
    own alphabet translation and base64 and Node's agree on every code. *)
Theorem pair_code_roundtrip from_base64url parse json ws1 ws2 :
  (forall b, Forall is_byte b -> from_base64url (url_of_base64 (FrameCrypto.toBase64 b)) = b) ->
  all_chars Framing.is_space ws1 = true -> all_chars Framing.is_space ws2 = true ->
  MobilePairing.decodePairCode parse (ws1 +:+ encodePairCode json +:+ ws2) = parsePairPayload parse json /\
  PairCode.decodePairCode from_base64url parse (ws1 +:+ encodePairCode json +:+ ws2) = parsePairPayload parse json.
Proof.
  intros Hnode H1 H2. split; [by apply phone_reads_code|by apply node_reads_code].
Qed.

(** ** Pairing a phone, end to end *)

Section phone_pairing.
Context {X Key : Type} (p : Identity.Platform X) (N : FrameCrypto.Noble Key) (parse : string -> option jsval).

(** What the two sides' platforms have in common: JSON carries the payload, both
    compute HMAC-SHA256 in base64, X25519 is symmetric, and the disk takes writes. *)
Record Compatible : Prop := {
  c_json a pk s : exists v, parse (Identity.stringify_qr p a pk s) =
    Some (JObj [("v", v); ("addr", JStr a); ("pk", JStr pk); ("s", JStr s)]);
  c_hmac s m : Identity.hmac p s m = FrameCrypto.toBase64 (FrameCrypto.hmac N (utf8_bytes s) (utf8_bytes m));
  c_store l x : exists x', Identity.write_store p l x = (Ok tt, x');
  c_ecdh a b : FrameCrypto.getSharedSecret N a (FrameCrypto.getPublicKey N b) =
               FrameCrypto.getSharedSecret N b (FrameCrypto.getPublicKey N a);
  c_public a : Forall is_byte (FrameCrypto.getPublicKey N a) /\ length (FrameCrypto.getPublicKey N a) = 32%nat;
}.

Lemma begin_effect (i i1 : Identity.t X) addr qr sec exp :
  Identity.beginPairing p addr i = (Ok (qr, sec, exp), i1) ->
  qr = Identity.stringify_qr p addr (Identity.publicKeyB64 i) sec /\
  Identity.publicKeyB64 i1 = Identity.publicKeyB64 i /\
  Identity.pendingPairing i1 = Some (Identity.mkPending sec exp).
Proof.
  unfold Identity.beginPairing, mbind, eff_bind, gets, modify, mret, eff_ret, Identity.draw, Identity.platform.
  cbn. destruct (Identity.random_secret p (Identity.ext i)) as [s x1]. cbn. by intros [= <- <- <- <-].
Qed.

Lemma complete_accepts (i : Identity.t X) sec exp pk name :
  (forall l x, exists x', Identity.write_store p l x = (Ok tt, x')) ->
  Identity.pendingPairing i = Some (Identity.mkPending sec exp) ->
  Identity.clock p (Identity.ext i) <= exp ->
  exists d i', Identity.completePairing p pk name (Identity.pairingProof p sec pk (Identity.publicKeyB64 i)) i
               = (Ok (Identity.Paired d), i') /\ Identity.publicKey d = pk /\ d ∈ Identity.devices i' /\
               Identity.pendingPairing i' = None.
Proof.
  intros Hw Hp Hc. unfold Identity.completePairing, mbind, eff_bind, gets. rewrite Hp. cbn.
  rewrite (proj2 (Z.ltb_ge _ _)) by done. rewrite constantTimeEqual_spec, bool_decide_true by done. cbn.
  unfold Identity.draw, Identity.persist, Identity.platform, mbind, eff_bind, gets, modify. cbn.
  destruct (Identity.random_id p (Identity.ext i)) as [id x1]. cbn.
  match goal with |- context [Identity.write_store p ?l ?x] => destruct (Hw l x) as [x2 ->] end.
  eexists _, _. split; [done|]. cbn. split; [done|]. split; [|done].
  apply elem_of_app. right. by left.
Qed.


End phone_pairing.

(** ** Concrete platforms *)

Fixpoint unescape (s : string) : option (string * string) :=
  match s with
  | String "." rest => Some (EmptyString, rest)
  | String "+" (String c s') =>
      match unescape s' with Some (a, rest) => Some (String c a, rest) | None => None end
  | _ => None
  end.

Lemma unescape_escape a rest : unescape (escape a +:+ rest) = Some (a, rest).
Proof.
  induction a as [|c a IH]; [done|]. cbn [escape]. rewrite !string_cons_app. cbn [unescape]. by rewrite IH.
Qed.

Definition demo_parse (s : string) : option jsval :=
  '(a, s) ← unescape s; '(pk, s) ← unescape s; '(sec, _) ← unescape s;
  Some (JObj [("v", JNull); ("addr", JStr a); ("pk", JStr pk); ("s", JStr sec)]).

(** 32 bytes of a text. *)
Definition fit (b : bytes) : bytes := take 32 (((fun x => x mod 256) <$> b) ++ replicate 32 0).

Definition demo_lib : FrameCrypto.Noble string := {|
  FrameCrypto.encrypt := FrameCrypto.encrypt demo_noble;
  FrameCrypto.decrypt := FrameCrypto.decrypt demo_noble;
  FrameCrypto.getPublicKey := fit;
  FrameCrypto.getSharedSecret a b := zip_with Z.lxor (fit a) b;
  FrameCrypto.hkdf := FrameCrypto.hkdf demo_noble;
  FrameCrypto.hmac a b := a ++ b;
  FrameCrypto.stringify := FrameCrypto.stringify demo_noble;
  FrameCrypto.parse := FrameCrypto.parse demo_noble;
|}.

(** A daemon whose world is its clock. *)
Definition demo_identity : Identity.Platform Z := {|
  Identity.hmac s m := FrameCrypto.toBase64 (utf8_bytes s ++ utf8_bytes m);
  Identity.random_secret x := ("secret", x);
  Identity.random_id x := ("device-1", x);
  Identity.clock x := x;
  Identity.write_store _ := mret tt;
  Identity.stringify_qr a pk s := escape a +:+ escape pk +:+ escape s;
|}.

Lemma fit_bytes a : Forall is_byte (fit a) /\ length (fit a) = 32%nat.
Proof.
  unfold fit. split.
  - apply Forall_take, Forall_app. split; [|apply Forall_replicate, is_byte_0].
    apply Forall_fmap, Forall_true. intros x. apply (Z.mod_pos_bound x 256). lia.
  - rewrite length_take, length_app, length_replicate. lia.
Qed.

Lemma demo_compatible : Compatible demo_identity demo_lib demo_parse.
Proof.
  split.
  - intros a pk s. exists JNull. cbn [Identity.stringify_qr demo_identity]. unfold demo_parse.
    rewrite unescape_escape. simpl. rewrite unescape_escape. simpl.
    rewrite <- (string_app_empty_r (escape s)), unescape_escape. done.
  - done.
  - intros l x. by exists x.
  - intros a b. cbn. clear. generalize (fit a), (fit b). intros l. induction l as [|x l IH]; intros [|y k]; simpl; [done..|].
    by rewrite IH, Z.lxor_comm.
  - intros a. apply fit_bytes.
Qed.


Lemma pair_code_roundtrip_witness :
  MobilePairing.decodePairCode demo_parse (encodePairCode "{}" +:+ " ") = parsePairPayload demo_parse "{}" /\
  PairCode.decodePairCode (fun s => FrameCrypto.fromBase64 (map_chars standard_char s)) demo_parse
    (encodePairCode "{}" +:+ " ") = parsePairPayload demo_parse "{}".
Proof.
  apply (pair_code_roundtrip _ demo_parse "{}" "" " "); [|reflexivity|reflexivity].
  intros b Hb. rewrite <- (fromBase64_toBase64 b Hb) at 2. unfold FrameCrypto.fromBase64.
  rewrite clean_url; [reflexivity|]. exact (toBase64_text b Hb).
Defined.
