(* ===== verification/Daemon.v ===== *)
(** * The composition root

    [packages/daemon/src/index.ts] and [wire] of
    [packages/daemon/src/application/commands.ts]: the listeners that tie the broker,
    the sessions, the store and the broadcasts together, the snapshot a device
    resyncs from, and what they promise to a connected phone, whose view is the
    reducer of [Fleet].  A broadcast is recorded as the event every connected device
    is sent ([Hub] and [Delivery] carry it from there). *)

From S2P Require Import Prelude JsMap Js Types Approvals Jobs Db HookBridge Fleet.

Local Open Scope Z_scope.

Module Daemon.

(** ** Approvals: the broker's listeners and the hook bridge's dependencies *)

Section approvals.
Context {Sock O S : Type} `{EqDecision Sock}.

(** The store, everything broadcast so far, and the rest of the process. *)
Record world : Type := mkWorld { db : Db.t; sent : list ServerEvent; rest : S }.

Definition on_rest (f : S -> S) (x : world) : world := mkWorld (db x) (sent x) (f (rest x)).

(** What the hook bridge is given, besides the store and the broadcast: the sessions
    and the sockets, which live in the rest of the process, and [p_store_fault], the error
    the store would throw from a statement now, if it would (a full disk, a lock). *)
Record Process : Type := mkProcess {
  p_sessionByClaudeId : option string -> S -> option O;
  p_owner_id : O -> string;
  p_track : O -> string -> S -> S;
  p_untrack : O -> string -> S -> S;
  p_owner_info : O -> S -> SessionInfo;
  p_selfDenyMs : Z;
  p_notify : S -> S;
  p_sock_write : Sock -> HookBridge.HookDecision -> S -> S;
  p_sock_destroy : Sock -> S -> S;
  p_clock : S -> Z;
  p_parse : string -> option HookBridge.HookMessage;
  p_store_fault : S -> option string;
}.

(** A statement of the store, which either runs or throws and changes nothing. *)
Definition on_db (p : Process) (f : Db.t -> Db.t) : eff world unit := fun x =>
  match p_store_fault p (rest x) with
  | Some e => (Throw e, x)
  | None => (Ok tt, mkWorld (f (db x)) (sent x) (rest x))
  end.

Definition broadcast (ev : ServerEvent) : eff world unit :=
  modify (fun x => mkWorld (db x) (sent x ++ [ev]) (rest x)).

(** [broker.on('pending')]; [p_notify] is [pushService.notifyApprovalPending]. *)
Definition on_pending (p : Process) (a : PendingApproval) : eff world unit :=
  on_db p (Db.recordApprovalRequested a) ;; modify (on_rest (p_notify p)).

(** [broker.on('resolved')]; [a.decision!] throws when there is none. *)
Definition on_resolved (p : Process) (a : PendingApproval) : eff world unit :=
  match decision a with
  | None => throw "TypeError: Cannot read properties of null"
  | Some d =>
      on_db p (Db.recordApprovalDecision (toolUseId a) (d_decision d) (d_reason d) (d_by d) (d_at d)) ;;
      broadcast (approval_resolved (toolUseId a) (d_decision d) (d_by d))
  end.

(** [createHookServer({ broker, sessionByClaudeId, selfDenyMs, broadcast, log })] *)
Definition bridge_deps (p : Process) : HookBridge.Deps Sock O world :=
  HookBridge.mkDeps
    (fun id x => p_sessionByClaudeId p id (rest x)) (p_owner_id p)
    (fun o id => on_rest (p_track p o id)) (fun o id => on_rest (p_untrack p o id))
    (fun o x => p_owner_info p o (rest x)) (p_selfDenyMs p)
    broadcast (on_pending p) (on_resolved p)
    (fun s d => on_rest (p_sock_write p s d)) (fun s => on_rest (p_sock_destroy p s))
    (fun x => p_clock p (rest x)) (p_parse p).

End approvals.
Arguments world : clear implicits.
Arguments Process : clear implicits.

(** ** Sessions: [sessionByClaudeId], [wire] and [onSession] *)

(** The sessions that have been wired, by identifier, with what [info()] says of each
    (an exited one is still referred to by its process); the live map; the store; the
    broadcasts. *)
Record fleet : Type := mkFleet {
  objects : jsmap string SessionInfo;
  live : jsset string;
  fdb : Db.t;
  fsent : list ServerEvent;
}.

Definition sessionByClaudeId (claudeSessionId : option string) (f : fleet) : option string :=
  match truthy_str claudeSessionId with
  | None => None
  | Some c =>
      List.find (fun id => match mget id (objects f) with
                           | Some s => bool_decide (si_claudeSessionId s = Some c)
                           | None => false
                           end) (live f)
  end.

Definition set_objects o (f : fleet) : fleet := mkFleet o (live f) (fdb f) (fsent f).
Definition set_live l (f : fleet) : fleet := mkFleet (objects f) l (fdb f) (fsent f).
Definition set_fdb d (f : fleet) : fleet := mkFleet (objects f) (live f) d (fsent f).

(** [broadcast({ type: 'session_update', session: session.info() })] *)
Definition announce (id : string) : eff fleet unit :=
  modify (fun f => match mget id (objects f) with
                   | Some s => mkFleet (objects f) (live f) (fdb f) (fsent f ++ [session_update s])
                   | None => f
                   end).

(** [wire(session, sessions, broadcast, log)], besides the listeners it attaches. *)
Definition wire (id : string) : eff fleet unit :=
  modify (fun f => set_live (sadd id (live f)) f) ;; announce id.

(** [onSession(job, session)]: the insert throws on an identifier already on record,
    and then nothing is wired. *)
Definition onSession (s : SessionInfo) : eff fleet unit :=
  d ← gets fdb;
  match Db.recordSessionStarted (si_id s) (si_cwd s) (si_label s) (si_startedAt s) d with
  | Throw e => throw e
  | Ok d' =>
      modify (set_fdb d') ;;
      modify (fun f => set_objects (mset (si_id s) s (objects f)) f) ;;
      wire (si_id s)
  end.

(** The listeners of 'state', in the order they were attached; [s] is the session as
    it is when the event fires. *)
Definition on_state (s : SessionInfo) : eff fleet unit :=
  modify (fun f => set_objects (mset (si_id s) s (objects f)) f) ;;
  announce (si_id s) ;;
  modify (fun f => set_fdb (Db.updateSessionActivity (si_id s) (si_claudeSessionId s) (si_model s)
                              (si_lastActivityAt s) (fdb f)) f).

Definition on_stream (id : string) (ev : jsval) : eff fleet unit :=
  modify (fun f => mkFleet (objects f) (live f) (fdb f) (fsent f ++ [stream id ev])).

(** The listeners of 'exit'. *)
Definition on_exit (s : SessionInfo) (code : option Z) (now : Z) : eff fleet unit :=
  modify (fun f => set_objects (mset (si_id s) s (objects f)) f) ;;
  announce (si_id s) ;;
  modify (fun f => set_live (sdelete (si_id s) (live f)) f) ;;
  modify (fun f => set_fdb (Db.recordSessionEnded (si_id s) (si_state s) code now (fdb f)) f).

(** ** The snapshot *)

Definition snapshot {W X} (infos : list SessionInfo) (b : ApprovalBroker.t W X) (live : list JobInfo) (d : Db.t)
    : list ServerEvent :=
  session_list infos ::
  (approval_pending <$> ApprovalBroker.list_undecided b) ++
  (job_update <$> mergeSnapshotJobs live (Db.queryRecentJobs 50 d)).

(** ** Boot and addresses *)

(** The reconciliation at boot. *)
Definition boot (bootTime : Z) (d : Db.t) : Db.t :=
  (Db.reconcileOrphanedJobs bootTime (Db.reconcileOrphanedSessions bootTime d).2).2.

Definition tcp_address (host : string) (port : Z) : string := "tcp://" +:+ host +:+ ":" +:+ pretty port.
Definition ws_address (host : string) (port : Z) : string := "ws://" +:+ host +:+ ":" +:+ pretty port.

(** A listener that has come up. *)
Inductive listening : Type := TcpUp (port : Z) | WsUp (port : Z).

#[export] Instance listening_eq_dec : EqDecision listening.
Proof. solve_decision. Defined.

(** The network listeners started: those configured, when a host was resolved. *)
Definition started (host : option string) (tcp ws : option Z) : list listening :=
  match host with
  | None => []
  | Some _ => match tcp with Some p => [TcpUp p] | None => [] end ++ match ws with Some p => [WsUp p] | None => [] end
  end.

(** The 'listening' callbacks on [advertisedAddress]. *)
Definition on_listening (host : string) (ws : option Z) (e : listening) (advertised : string) : string :=
  match e with
  | TcpUp p => match ws with None => tcp_address host p | Some _ => advertised end
  | WsUp p => ws_address host p
  end.

Definition advertised (clientSock host : string) (ws : option Z) (ups : list listening) : string :=
  foldl (fun a e => on_listening host ws e a) ("unix://" +:+ clientSock) ups.

End Daemon.

Import Daemon.

(** ** The snapshot, seen from a phone *)

Lemma applyAll_sessions_quiet id es st :
  Forall (fun e => session_word id e = None) es ->
  mget id (FleetState.sessions (FleetState.applyAll st es)) = mget id (FleetState.sessions st).
Proof.
  intros Hq. revert st. induction Hq as [|e es He _ IH]; intros st; [done|].
  unfold FleetState.applyAll in *. cbn [foldl]. rewrite IH, applyEvent_session. by rewrite He.
Qed.

Lemma applyAll_approvals_pending (l : list PendingApproval) st id :
  mget id (FleetState.approvals (FleetState.applyAll st (approval_pending <$> l))) =
    match last (filter (fun a => toolUseId a = id) l) with Some a => Some a | None => mget id (FleetState.approvals st) end.
Proof.
  unfold FleetState.applyAll. induction l as [|a l IH] using rev_ind; [done|].
  rewrite fmap_app, foldl_app, filter_app. cbn [fmap list_fmap foldl].
  rewrite applyEvent_approval, IH. cbn [approval_word]. rewrite filter_cons, filter_nil.
  destruct (decide (toolUseId a = id)); [by rewrite last_snoc|by rewrite app_nil_r].
Qed.

Lemma applyAll_approvals_quiet id es st :
  Forall (fun e => approval_word id e = None) es ->
  mget id (FleetState.approvals (FleetState.applyAll st es)) = mget id (FleetState.approvals st).
Proof.
  intros Hq. revert st. induction Hq as [|e es He _ IH]; intros st; [done|].
  unfold FleetState.applyAll in *. cbn [foldl]. rewrite IH, applyEvent_approval. by rewrite He.
Qed.

Lemma applyAll_app st l1 l2 : FleetState.applyAll st (l1 ++ l2) = FleetState.applyAll (FleetState.applyAll st l1) l2.
Proof. apply foldl_app. Qed.

Lemma applyAll_jobs (l : list JobInfo) st id :
  mget id (FleetState.jobs (FleetState.applyAll st (job_update <$> l))) =
    match last (filter (fun j => j_id j = id) l) with Some j => Some j | None => mget id (FleetState.jobs st) end.
Proof.
  unfold FleetState.applyAll. induction l as [|j l IH] using rev_ind; [done|].
  rewrite fmap_app, foldl_app, filter_app. cbn [fmap list_fmap foldl].
  rewrite applyEvent_job, IH. cbn [job_word]. rewrite filter_cons, filter_nil.
  destruct (decide (j_id j = id)); [by rewrite last_snoc|by rewrite app_nil_r].
Qed.

Lemma applyAll_jobs_quiet id es st :
  Forall (fun e => job_word id e = None) es ->
  mget id (FleetState.jobs (FleetState.applyAll st es)) = mget id (FleetState.jobs st).
Proof.
  intros Hq. revert st. induction Hq as [|e es He _ IH]; intros st; [done|].
  unfold FleetState.applyAll in *. cbn [foldl]. rewrite IH, applyEvent_job. by rewrite He.
Qed.

(** The request the broker still waits on. *)
Definition undecided (m : jsmap string PendingApproval) (id : string) : option PendingApproval :=
  match mget id m with
  | Some a => match decision a with None => Some a | Some _ => None end
  | None => None
  end.

Lemma last_unique {A} (P : A -> Prop) `{!forall x, Decision (P x)} (l : list A) x :
  x ∈ l -> P x -> (forall y, y ∈ l -> P y -> y = x) -> last (filter P l) = Some x.
Proof.
  intros Hx HP Hu. destruct (last (filter P l)) as [y|] eqn:Hl.
  - apply last_Some_elem_of in Hl. apply list_elem_of_filter in Hl as [HPy Hy]. f_equal. by apply Hu.
  - apply last_None in Hl. exfalso. assert (Hin : x ∈ filter P l) by (by apply list_elem_of_filter).
    rewrite Hl in Hin. by apply elem_of_nil in Hin.
Qed.

Lemma last_none {A} (P : A -> Prop) `{!forall x, Decision (P x)} (l : list A) :
  (forall y, y ∈ l -> ~ P y) -> last (filter P l) = None.
Proof.
  intros Hn. apply last_None. induction l as [|y l IH]; [done|].
  rewrite filter_cons_False by (apply Hn; left). apply IH. intros z Hz. apply Hn. by right.
Qed.

(** What a broker lists under an identifier. *)
Lemma listed {W X} (b : ApprovalBroker.t W X) id :
  ApprovalBroker.wf b ->
  last (filter (fun a => toolUseId a = id) (ApprovalBroker.list_undecided b)) = undecided (ApprovalBroker.pending b) id.
Proof.
  intros Hwf. unfold undecided.
  assert (Hin : forall a, a ∈ ApprovalBroker.list_undecided b <->
            decision a = None /\ mget (toolUseId a) (ApprovalBroker.pending b) = Some a).
  { intros a. unfold ApprovalBroker.list_undecided. rewrite list_elem_of_filter.
    unfold mvalues. rewrite list_elem_of_fmap. split.
    - intros [Hd ([k a'] & -> & Hin)]. split; [done|]. cbn [snd] in *.
      apply elem_mget in Hin; [|apply (ApprovalBroker.wf_pending _ Hwf)].
      by rewrite (ApprovalBroker.wf_id _ Hwf _ _ Hin).
    - intros [Hd Hm]. split; [done|]. exists (toolUseId a, a). split; [done|by apply mget_Some_elem]. }
  destruct (mget id (ApprovalBroker.pending b)) as [a|] eqn:Ha; [destruct (decision a) as [dr|] eqn:Hd|].
  - apply last_none. intros y [Hy Hm]%Hin Hid. rewrite Hid in Hm. congruence.
  - pose proof (ApprovalBroker.wf_id _ Hwf _ _ Ha) as Hid. apply last_unique; [|done|].
    + apply Hin. by rewrite Hid.
    + intros y [Hy Hm]%Hin Hidy. rewrite Hidy in Hm. congruence.
  - apply last_none. intros y [Hy Hm]%Hin Hid. rewrite Hid in Hm. congruence.
Qed.

(** What a snapshot's merged jobs say of an identifier: the queue's own record when it
    has one, the store's otherwise. *)
Definition job_said (id : string) (live durable : list JobInfo) : option JobInfo :=
  match last (filter (fun j => j_id j = id) live) with
  | Some j => Some j
  | None => last (filter (fun j => j_id j = id) durable)
  end.

Lemma elem_live_ids (live : list JobInfo) id :
  id ∈ foldl (fun s j => sadd (j_id j) s) [] live <-> exists j, j ∈ live /\ j_id j = id.
Proof.
  induction live as [|j live IH] using rev_ind.
  - split; [by intros ?%elem_of_nil|]. intros (j & Hj & _). by apply elem_of_nil in Hj.
  - rewrite foldl_app. cbn [foldl]. rewrite elem_sadd, IH. split.
    + intros [->|(j' & Hj & Hid)]; [exists j|exists j']; rewrite elem_of_app, list_elem_of_singleton; auto.
    + intros (j' & Hj & Hid). apply elem_of_app in Hj as [Hj|Hj%list_elem_of_singleton]; [right; eauto|left; congruence].
Qed.

Lemma merged_says (live durable : list JobInfo) id :
  last (filter (fun j => j_id j = id) (mergeSnapshotJobs live durable)) = job_said id live durable.
Proof.
  unfold mergeSnapshotJobs, job_said. rewrite filter_app, last_app, list_filter_filter.
  destruct (last (filter (fun j => j_id j = id) live)) as [j|] eqn:Hl.
  - rewrite last_none; [done|]. intros y _ [Hid Hn]. apply Hn. apply elem_live_ids.
    apply last_Some_elem_of, list_elem_of_filter in Hl as [Hj Hin]. exists j. split; [done|congruence].
  - replace (filter (fun x => j_id x = id /\ ~ j_id x ∈ foldl (fun s j => sadd (j_id j) s) [] live) durable)
      with (filter (fun j => j_id j = id) durable); [by destruct (last (filter _ durable))|].
    apply list_filter_iff. intros y. split; [|by intros [? _]]. intros Hid. split; [done|].
    rewrite elem_live_ids, Hid. intros (j & Hj & Hidj).
    apply last_None in Hl. assert (Hin : j ∈ filter (fun j => j_id j = id) live) by (by apply list_elem_of_filter).
    rewrite Hl in Hin. by apply elem_of_nil in Hin.
Qed.

(** C35. What a full resync does to a phone, whatever it showed before: its sessions
    become exactly the ones listed; every approval the broker still waits on is shown
    as it is pending; every job the queue or the store's last fifty know is shown as
    the queue has it, or else as the store has it.  An approval or a job the snapshot does
    not list is left as it was: a request resolved while the phone was away stays on its
    screen, and so does a job older than the fifty. *)
Theorem snapshot_resyncs {W X} (st : FleetState.t) (infos : list SessionInfo) (b : ApprovalBroker.t W X)
    (live : list JobInfo) (D : Db.t) (Hwf : ApprovalBroker.wf b) :
  let st' := FleetState.applyAll st (snapshot infos b live D) in
  (forall id, mget id (FleetState.sessions st') = last (filter (fun s => si_id s = id) infos)) /\
  (forall id, mget id (FleetState.approvals st') =
     match undecided (ApprovalBroker.pending b) id with Some a => Some a | None => mget id (FleetState.approvals st) end) /\
  (forall id, mget id (FleetState.jobs st') =
     match job_said id live (Db.queryRecentJobs 50 D) with Some j => Some j | None => mget id (FleetState.jobs st) end).
Proof.
  cbv zeta. unfold snapshot.
  change (session_list infos :: ?l) with ([session_list infos] ++ l). rewrite !applyAll_app.
  split_and!; intros id.
  - rewrite (applyAll_sessions_quiet _ (job_update <$> _)) by (apply Forall_fmap, Forall_true; done).
    rewrite applyAll_sessions_quiet by (apply Forall_fmap, Forall_true; done).
    unfold FleetState.applyAll. cbn [foldl]. apply applyEvent_session.
  - rewrite applyAll_approvals_quiet by (apply Forall_fmap, Forall_true; done).
    rewrite applyAll_approvals_pending, listed by done. by destruct (undecided _ _).
  - rewrite applyAll_jobs, merged_says.
    rewrite (applyAll_jobs_quiet _ (approval_pending <$> _)) by (apply Forall_fmap, Forall_true; done).
    by destruct (job_said _ _ _).
Qed.

Definition demo_gone : PendingApproval := mkPendingApproval "gone" "s" "Bash" JNull None 1 9 None.

Lemma snapshot_resyncs_witness :
  let st := FleetState.applyAll FleetState.emptyFleetState [approval_pending demo_gone] in
  let b : ApprovalBroker.t unit unit := ApprovalBroker.new tt in
  ApprovalBroker.wf b /\
  mget "gone" (FleetState.approvals (FleetState.applyAll st (snapshot [] b [] Db.empty))) = Some demo_gone.
Proof.
  cbv zeta. split; [apply broker_wf_new|].
  destruct (snapshot_resyncs (FleetState.applyAll FleetState.emptyFleetState [approval_pending demo_gone]) []
              (ApprovalBroker.new (W:=unit) tt) [] Db.empty (broker_wf_new tt)) as (_ & Ha & _).
  rewrite Ha. reflexivity.
Defined.

(** ** The live sessions, their rows and their announcements *)

Lemma sessionByClaudeId_live c f id :
  sessionByClaudeId c f = Some id ->
  id ∈ live f /\ exists s, mget id (objects f) = Some s /\ si_claudeSessionId s = c /\ c <> None.
Proof.
  unfold sessionByClaudeId. destruct (truthy_str c) as [c'|] eqn:Hc; [|done].
  assert (c = Some c') as -> by (destruct c as [x|]; [unfold truthy_str in Hc; by case_match; simplify_eq|done]).
  intros Hf. apply List.find_some in Hf as [Hin Hb]. split; [by apply list_elem_of_In|].
  destruct (mget id (objects f)) as [s|]; [|done]. apply bool_decide_eq_true in Hb. eauto.
Qed.

(** What the session listeners run on: sessions spawned, and events of wired ones. *)
Inductive fstep (f : fleet) : fleet -> Prop :=
| f_spawn s : fstep f (snd (onSession s f))
| f_state s : si_id s ∈ mkeys (objects f) -> fstep f (snd (on_state s f))
| f_stream id ev : id ∈ mkeys (objects f) -> fstep f (snd (on_stream id ev f))
| f_exit s code now : si_id s ∈ mkeys (objects f) -> fstep f (snd (on_exit s code now f))
| f_other g : (forall D, Db.sessions (g D) = Db.sessions D) -> fstep f (set_fdb (g (fdb f)) f).

(** From a store reconciled at boot, with nothing spawned yet. *)
Inductive freach (bootTime : Z) (db0 : Db.t) : fleet -> Prop :=
| freach_boot : freach bootTime db0 (mkFleet [] [] (boot bootTime db0) [])
| freach_step f f' : freach bootTime db0 f -> fstep f f' -> freach bootTime db0 f'.

Definition open_ids (D : Db.t) : list string := Db.sr_id <$> filter (fun r => Db.is_open r = true) (Db.sessions D).

(** The session a phone connected since the start shows. *)
Definition seen (f : fleet) (id : string) : option SessionInfo :=
  mget id (FleetState.sessions (FleetState.applyAll FleetState.emptyFleetState (fsent f))).

Record fleet_inv (f : fleet) : Prop := {
  fi_nodup : NoDup (live f);
  fi_wired id : id ∈ live f -> id ∈ mkeys (objects f);
  fi_rows id : id ∈ live f <-> id ∈ open_ids (fdb f);
  fi_seen id : seen f id = mget id (objects f);
}.

Lemma seen_snoc o l D es ev id :
  seen (mkFleet o l D (es ++ [ev])) id = default (seen (mkFleet o l D es) id) (session_word id ev).
Proof. unfold seen. cbn [fsent]. rewrite applyAll_app. unfold FleetState.applyAll at 1. cbn [foldl]. apply applyEvent_session. Qed.

Lemma elem_open_ids D id : id ∈ open_ids D <-> exists r, r ∈ Db.sessions D /\ Db.sr_id r = id /\ Db.sr_final_state r = None.
Proof.
  unfold open_ids. rewrite list_elem_of_fmap. setoid_rewrite list_elem_of_filter. unfold Db.is_open. split.
  - intros (r & -> & Ho & Hr). exists r. split_and!; try done. by destruct (Db.sr_final_state r).
  - intros (r & Hr & <- & Ho). exists r. rewrite Ho. done.
Qed.

Lemma open_update id (g : Db.SessionRow -> Db.SessionRow) rows id' :
  (forall r, Db.sr_id (g r) = Db.sr_id r) ->
  (forall r, Db.is_open (g r) = Db.is_open r) ->
  (exists r, r ∈ (Db.update_where (Db.is_key Db.sr_id id) g rows).1 /\ Db.sr_id r = id' /\ Db.sr_final_state r = None) <->
  (exists r, r ∈ rows /\ Db.sr_id r = id' /\ Db.sr_final_state r = None).
Proof.
  intros Hid Hop. assert (Hf : forall r, Db.sr_final_state (g r) = None <-> Db.sr_final_state r = None).
  { intros r. specialize (Hop r). unfold Db.is_open in Hop. by destruct (Db.sr_final_state (g r)), (Db.sr_final_state r). }
  setoid_rewrite update_where_elem. split.
  - intros (r & [[Hin Hk]|(r0 & Hin & Hk & ->)] & Hi & Ho); [eauto|].
    exists r0. rewrite Hid in Hi. apply (Hf r0) in Ho. eauto.
  - intros (r & Hin & Hi & Ho). destruct (Db.is_key Db.sr_id id r) eqn:Hk; [|eauto 10].
    exists (g r). rewrite Hid, Hf. eauto 10.
Qed.

Lemma open_ended id st code now D id' :
  id' ∈ open_ids (Db.recordSessionEnded id st code now D) <-> id' <> id /\ id' ∈ open_ids D.
Proof.
  rewrite !elem_open_ids. unfold Db.recordSessionEnded. cbn [Db.sessions]. setoid_rewrite update_where_elem.
  unfold Db.is_key. split.
  - intros (r & [[Hin Hk]|(r0 & Hin & Hk & ->)] & <- & Ho); [|done]. apply bool_decide_eq_false in Hk. eauto.
  - intros (Hn & r & Hin & <- & Ho). exists r. split_and!; try done. left. split; [done|]. by apply bool_decide_eq_false.
Qed.

Lemma open_started s D D' id' :
  Db.recordSessionStarted (si_id s) (si_cwd s) (si_label s) (si_startedAt s) D = Ok D' ->
  id' ∈ open_ids D' <-> id' = si_id s \/ id' ∈ open_ids D.
Proof.
  unfold Db.recordSessionStarted. case_match; [done|]. intros [= <-]. rewrite !elem_open_ids. cbn [Db.sessions].
  setoid_rewrite elem_of_app. setoid_rewrite list_elem_of_singleton. split.
  - intros (r & [Hin| ->] & <- & Ho); [right; eauto|by left].
  - intros [->|(r & Hin & Hi & Ho)]; [|eauto]. eexists. split; [by right|done].
Qed.

Lemma fleet_inv_boot bootTime db0 : fleet_inv (mkFleet [] [] (boot bootTime db0) []).
Proof.
  split; cbn [live objects fdb]; [constructor|by intros id ?%elem_of_nil| |done].
  intros id. split; [by intros ?%elem_of_nil|]. rewrite elem_open_ids. intros (r & Hin & _ & Ho). exfalso.
  unfold boot, Db.reconcileOrphanedJobs, Db.reconcileOrphanedSessions in Hin.
  rewrite (surjective_pairing (Db.update_where Db.is_open _ (Db.sessions db0))) in Hin. cbn [snd Db.sessions] in Hin.
  apply update_where_elem in Hin as [[_ Hk]|(r0 & _ & _ & ->)]; [|done].
  unfold Db.is_open in Hk. by rewrite Ho in Hk.
Qed.

Lemma fleet_inv_spawn s f : fleet_inv f -> fleet_inv (snd (onSession s f)).
Proof.
  intros [H1 H2 H3 H4]. unfold onSession, mbind, eff_bind at 1, gets. cbn [Datatypes.id].
  destruct (Db.recordSessionStarted _ _ _ _ (fdb f)) as [D'|e] eqn:HD; [|done].
  unfold wire, announce, mbind, eff_bind, modify. cbn [set_fdb set_objects set_live objects live fdb fsent snd].
  rewrite mget_mset_eq. cbn [snd]. split; cbn [live objects fdb].
  - by apply NoDup_sadd.
  - intros id. rewrite elem_sadd, elem_mkeys_mset. naive_solver.
  - intros id. rewrite elem_sadd, (open_started _ _ _ _ HD), H3. done.
  - intros id. rewrite seen_snoc, mget_mset. cbn [session_word].
    specialize (H4 id). unfold seen in *. cbn [fsent] in *. rewrite H4.
    destruct (decide (si_id s = id)) as [<-|Hn]; [by rewrite decide_True|]. by rewrite decide_False.
Qed.

Lemma fleet_inv_announced s l g f :
  fleet_inv f -> si_id s ∈ mkeys (objects f) ->
  NoDup l -> (forall id, id ∈ l -> id ∈ live f) -> (forall id, id ∈ l <-> id ∈ open_ids (g (fdb f))) ->
  fleet_inv (mkFleet (mset (si_id s) s (objects f)) l (g (fdb f)) (fsent f ++ [session_update s])).
Proof.
  intros [H1 H2 H3 H4] Hin Hnd Hl Ho. split; cbn [live objects fdb]; [done| |done|].
  - intros id Hid. rewrite elem_mkeys_mset. right. auto.
  - intros id. rewrite seen_snoc, mget_mset. cbn [session_word].
    specialize (H4 id). unfold seen in *. cbn [fsent] in *. rewrite H4.
    destruct (decide (si_id s = id)) as [<-|Hn]; [by rewrite decide_True|]. by rewrite decide_False.
Qed.

Lemma fleet_inv_step f f' : fstep f f' -> fleet_inv f -> fleet_inv f'.
Proof.
  destruct 1 as [s|s Hs|id ev Hid|s code now Hs|g Hg]; intros Hf.
  - by apply fleet_inv_spawn.
  - unfold on_state, announce, mbind, eff_bind, modify. cbn [set_objects objects snd]. rewrite mget_mset_eq.
    cbn [set_fdb set_objects objects live fdb fsent snd].
    apply (fleet_inv_announced s (live f) (Db.updateSessionActivity (si_id s) (si_claudeSessionId s) (si_model s) (si_lastActivityAt s)));
      try done; [apply Hf|].
    intros id. rewrite (fi_rows _ Hf), !elem_open_ids. symmetry. unfold Db.updateSessionActivity. cbn [Db.sessions].
    by apply open_update.
  - destruct Hf as [H1 H2 H3 H4]. split; try done. intros id'. cbn [on_stream modify snd objects].
    rewrite seen_snoc. cbn [session_word default]. apply H4.
  - unfold on_exit, announce, mbind, eff_bind, modify. cbn [set_objects objects snd]. rewrite mget_mset_eq.
    cbn [set_fdb set_objects set_live objects live fdb fsent snd].
    apply (fleet_inv_announced s (sdelete (si_id s) (live f)) (Db.recordSessionEnded (si_id s) (si_state s) code now));
      try done; [by apply NoDup_sdelete, Hf|by intros id [_ ?]%elem_sdelete|].
    intros id. by rewrite elem_sdelete, open_ended, (fi_rows _ Hf).
  - destruct Hf as [H1 H2 H3 H4]. split; try done. intros id. cbn [set_fdb live fdb].
    rewrite H3, !elem_open_ids. by rewrite Hg.
Qed.


Definition demo_session (st : SessionState) : SessionInfo := mkSessionInfo "s1" None "/r" "r" st None 1 2 0.

Definition demo_ran : fleet :=
  snd (on_exit (demo_session finished) (Some 0) 9 (snd (onSession (demo_session starting) (mkFleet [] [] (boot 0 Db.empty) [])))).


(** ** The advertised address *)

(** Whatever order the listeners come up in: with a WebSocket port configured only its
    own listener changes the address; without one the TCP listener does. *)
Lemma advertised_any_order sock host tcp ws ups :
  (forall e, e ∈ ups -> e ∈ started (Some host) tcp ws) ->
  advertised sock host ws ups =
    match ws with
    | Some p => if bool_decide (WsUp p ∈ ups) then ws_address host p else "unix://" +:+ sock
    | None => match tcp with
              | Some p => if bool_decide (TcpUp p ∈ ups) then tcp_address host p else "unix://" +:+ sock
              | None => "unix://" +:+ sock
              end
    end.
Proof.
  unfold advertised. induction ups as [|e ups IH] using rev_ind; intros Hin.
  - cbn [foldl]. destruct ws as [w|]; [|destruct tcp as [t|]]; try done;
      (rewrite bool_decide_false; [done|apply not_elem_of_nil]).
  - rewrite foldl_app. cbn [foldl].
    assert (He : e ∈ started (Some host) tcp ws) by (apply Hin, elem_of_app; right; by left).
    rewrite IH by (intros e' He'; apply Hin, elem_of_app; by left).
    unfold started in He. apply elem_of_app in He.
    destruct ws as [w|], tcp as [t|]; cbn [on_listening];
      rewrite ?list_elem_of_singleton, ?elem_of_nil in He.
    all: destruct He as [He|He]; try (by exfalso); subst e; cbn [on_listening]; try done.
    all: try (rewrite (bool_decide_true (_ ∈ _ ++ _)) by (apply elem_of_app; right; by left); done).
    rewrite (bool_decide_ext (WsUp w ∈ ups ++ [TcpUp t]) (WsUp w ∈ ups)); [done|].
    rewrite elem_of_app, list_elem_of_singleton. split; [by intros [?|?]|by left].
Qed.

(** ** The phone's view and the audit trail follow the broker *)

Section mirror.
Context {Sock O S : Type} `{EqDecision Sock} (p : Process Sock O S).
(** The store takes its statements. *)
Hypothesis store_takes : forall s, p_store_fault p s = None.
Notation W := (HookBridge.t Sock O (world S)).
Notation d := (bridge_deps p).
Notation pend w := (ApprovalBroker.pending (HookBridge.broker w)).
Notation bext w := (ApprovalBroker.ext (HookBridge.broker w)).

(** What a phone connected since the start shows under [id]. *)
Definition shown (x : world S) (id : string) : option PendingApproval :=
  mget id (FleetState.approvals (FleetState.applyAll FleetState.emptyFleetState (sent x))).

(** The daemon's steps: a line or the close of a hook socket, a client's decision, a
    purge, any broadcast that says nothing of an approval, anything else. *)
Inductive dstep : W -> W -> Prop :=
| d_line w sock line : dstep w (snd (HookBridge.onLine d sock line w))
| d_close w sock : dstep w (snd (HookBridge.onClose d sock w))
| d_decide w now id v reason by_ :
    dstep w (snd (HookBridge.on_broker (ApprovalBroker.decide (HookBridge.ports d) now id v reason by_) w))
| d_purge w id : id ∈ ApprovalBroker.timers (HookBridge.broker w) ->
    dstep w (HookBridge.mk (ApprovalBroker.purge id (HookBridge.broker w)) (HookBridge.claimed w))
| d_other w ev : (forall id, approval_word id ev = None) ->
    dstep w (snd (HookBridge.outside (modify (fun x => mkWorld (db x) (sent x ++ [ev]) (rest x))) w))
| d_rest w f : dstep w (snd (HookBridge.outside (modify (on_rest f)) w)).

Inductive dreach (s : S) (db0 : Db.t) : W -> Prop :=
| dreach_boot : dreach s db0 (HookBridge.mk (ApprovalBroker.new (mkWorld db0 [] s)) [])
| dreach_step w w' : dreach s db0 w -> dstep w w' -> dreach s db0 w'.

(** The row of a request and its decision columns. *)
Definition on_record (x : world S) (id : string) : option (option (Verdict * string * string * Z)) :=
  Db.decision_columns <$> Db.find_approval id (db x).

Definition decided_as (dr : DecisionRecord) : option (Verdict * string * string * Z) :=
  Some (d_decision dr, d_reason dr, d_by dr, d_at dr).

Record mirrors (m : jsmap string PendingApproval) (x : world S) : Prop := {
  mi_shown id : shown x id = undecided m id;
  mi_row id a : mget id m = Some a -> is_Some (on_record x id);
  mi_audit id a dr : mget id m = Some a -> decision a = Some dr -> on_record x id = Some (decided_as dr);
}.

(** Nothing an approval is shown or recorded by changes. *)
Definition quiet (x x' : world S) : Prop := db x' = db x /\ forall id, shown x' id = shown x id.

Lemma still_refl x : quiet x x.
Proof. done. Qed.

Lemma still_trans x y z : quiet x y -> quiet y z -> quiet x z.
Proof. intros [H1 H2] [H3 H4]. split; [congruence|]. intros id. by rewrite H4, H2. Qed.

Lemma shown_snoc D R x ev id :
  shown (mkWorld D (sent x ++ [ev]) R) id = default (shown x id) (approval_word id ev).
Proof. unfold shown, FleetState.applyAll. cbn [sent]. rewrite foldl_app. cbn [foldl]. apply applyEvent_approval. Qed.

Lemma quiet_other x ev : (forall id, approval_word id ev = None) -> quiet x (mkWorld (db x) (sent x ++ [ev]) (rest x)).
Proof. intros Hev. split; [done|]. intros id. by rewrite shown_snoc, Hev. Qed.

Lemma quiet_rest x f : quiet x (on_rest f x).
Proof. done. Qed.

Lemma mirrors_quiet m x x' : quiet x x' -> mirrors m x -> mirrors m x'.
Proof.
  intros [Hd Hs] [H1 H2 H3]. unfold on_record in *. split; intros; unfold on_record; rewrite ?Hd, ?Hs; eauto.
Qed.

Lemma announce_quiet o x : fst (HookBridge.announce d o x) = Ok tt /\ quiet x (snd (HookBridge.announce d o x)).
Proof. destruct o; [|done]. split; [done|]. cbn. by apply quiet_other. Qed.

Lemma respond_quiet h v r x :
  fst (HookBridge.respond d h v r x) = Ok tt /\ quiet x (snd (HookBridge.respond d h v r x)).
Proof.
  unfold HookBridge.respond, mbind, eff_bind, modify. cbn [HookBridge.sock_write HookBridge.untrackPendingApproval].
  match goal with |- context [HookBridge.announce d ?o ?x1] => destruct (announce_quiet o x1) as [H1 H2] end.
  split; [exact H1|]. eapply still_trans; [|exact H2]. destruct (HookBridge.h_owner h); done.
Qed.

Lemma daemon_reliable : HookBridge.reliable d.
Proof.
  split.
  - intros ev x. done.
  - intros a x. cbn [HookBridge.listen_pending bridge_deps]. unfold on_pending, on_db, mbind, eff_bind. by rewrite store_takes.
  - intros a Ha x. cbn [HookBridge.listen_resolved bridge_deps]. unfold on_resolved, on_db, mbind, eff_bind. destruct (decision a); [by rewrite store_takes|done].
Qed.

(** *** Settling a request *)

Definition settles (a : PendingApproval) (dr : DecisionRecord) (x x' : world S) : Prop :=
  db x' = Db.recordApprovalDecision (toolUseId a) (d_decision dr) (d_reason dr) (d_by dr) (d_at dr) (db x) /\
  forall id, shown x' id = if decide (id = toolUseId a) then None else shown x id.

Lemma tail_settles {A} o v reason a dr id (k : eff (ApprovalBroker.t (HookBridge.Handle Sock O) (world S)) A) b :
  decision a = Some dr -> (forall b', snd (k b') = b') ->
  settles a dr (ApprovalBroker.ext b)
    (ApprovalBroker.ext (snd ((ApprovalBroker.call_waiter (HookBridge.ports d) o v reason ;;
       ApprovalBroker.outside (ApprovalBroker.on_resolved (HookBridge.ports d) a) ;;
       ApprovalBroker.schedule_purge id ;; k) b))).
Proof.
  intros Ha Hk. unfold mbind, eff_bind.
  assert (Hc : fst (ApprovalBroker.call_waiter (HookBridge.ports d) o v reason b) = Ok tt /\
               quiet (ApprovalBroker.ext b) (ApprovalBroker.ext (snd (ApprovalBroker.call_waiter (HookBridge.ports d) o v reason b)))).
  { destruct o as [h|]; [|done]. unfold ApprovalBroker.call_waiter, mbind, eff_bind, modify, ApprovalBroker.outside.
    cbn [ApprovalBroker.ext ApprovalBroker.respond HookBridge.ports].
    destruct (respond_quiet h v reason (ApprovalBroker.ext b)) as [H1 H2].
    destruct (HookBridge.respond d h v reason (ApprovalBroker.ext b)) as [r x']. done. }
  destruct Hc as [Hok [Hq1 Hq2]].
  destruct (ApprovalBroker.call_waiter (HookBridge.ports d) o v reason b) as [r b1]. cbn [fst snd] in *. subst r.
  unfold ApprovalBroker.outside. cbn [ApprovalBroker.on_resolved HookBridge.ports HookBridge.listen_resolved bridge_deps].
  unfold on_resolved. rewrite Ha. unfold mbind, eff_bind, on_db, broadcast, modify. rewrite store_takes. cbn. rewrite Hk. cbn.
  split; [cbn; by rewrite Hq1|].
  intros id'. rewrite shown_snoc. cbn [approval_word]. rewrite Hq2. destruct (decide (id' = toolUseId a)) as [->|Hn]; [by rewrite decide_True|].
  by rewrite decide_False by done.
Qed.

Lemma decide_ext now id v reason by_ (b : ApprovalBroker.t (HookBridge.Handle Sock O) (world S)) a :
  mget id (ApprovalBroker.pending b) = Some a -> decision a = None ->
  settles (ApprovalBroker.with_decision a (mkDecision v reason by_ now)) (mkDecision v reason by_ now)
    (ApprovalBroker.ext b) (ApprovalBroker.ext (snd (ApprovalBroker.decide (HookBridge.ports d) now id v reason by_ b))).
Proof.
  intros Ha Hd. unfold ApprovalBroker.decide. unfold mbind at 1, eff_bind at 1, gets at 1. cbn [Datatypes.id].
  rewrite Ha, Hd. unfold mbind at 1, eff_bind at 1, modify at 1.
  unfold mbind at 1, eff_bind at 1, gets at 1. unfold mbind at 1, eff_bind at 1, modify at 1.
  cbn [ApprovalBroker.set_pending ApprovalBroker.set_waiters ApprovalBroker.pending ApprovalBroker.waiters
       ApprovalBroker.timers ApprovalBroker.ext ApprovalBroker.answered].
  match goal with |- settles _ _ _ (ApprovalBroker.ext (snd (_ ?b1))) =>
    exact (tail_settles (mget id (ApprovalBroker.waiters b)) v reason
             (ApprovalBroker.with_decision a (mkDecision v reason by_ now)) (mkDecision v reason by_ now) id
             (mret ApprovalBroker.ok) b1 eq_refl ltac:(done)) end.
Qed.

Lemma abandon_ext now id (b : ApprovalBroker.t (HookBridge.Handle Sock O) (world S)) a :
  mget id (ApprovalBroker.pending b) = Some a -> decision a = None ->
  let dr := mkDecision deny ApprovalBroker.abandoned "daemon" now in
  settles (ApprovalBroker.with_decision a dr) dr
    (ApprovalBroker.ext b) (ApprovalBroker.ext (snd (ApprovalBroker.abandon (HookBridge.ports d) now id b))).
Proof.
  intros Ha Hd. unfold ApprovalBroker.abandon. unfold mbind at 1, eff_bind at 1, gets at 1. cbn [Datatypes.id].
  rewrite Ha, Hd. unfold mbind at 1, eff_bind at 1, gets at 1.
  unfold mbind at 1, eff_bind at 1, modify at 1. unfold mbind at 1, eff_bind at 1, modify at 1.
  cbn [ApprovalBroker.set_pending ApprovalBroker.set_waiters ApprovalBroker.pending ApprovalBroker.waiters
       ApprovalBroker.timers ApprovalBroker.ext ApprovalBroker.answered].
  match goal with |- settles _ _ _ (ApprovalBroker.ext (snd (_ ?b1))) =>
    exact (tail_settles (mget id (ApprovalBroker.waiters b)) deny ApprovalBroker.abandoned
             (ApprovalBroker.with_decision a (mkDecision deny ApprovalBroker.abandoned "daemon" now))
             (mkDecision deny ApprovalBroker.abandoned "daemon" now) id (mret tt) b1 eq_refl ltac:(done)) end.
Qed.

Lemma undecided_mset m id a id' :
  undecided (mset id a m) id' = if decide (id' = id) then match decision a with None => Some a | Some _ => None end
                                else undecided m id'.
Proof. unfold undecided. rewrite mget_mset. by case_decide. Qed.

Lemma on_record_decision x x' id v r b t id' :
  db x' = Db.recordApprovalDecision id v r b t (db x) ->
  on_record x' id' = if decide (id' = id) then (fun _ => Some (v, r, b, t)) <$> on_record x id' else on_record x id'.
Proof.
  intros Hd. unfold on_record. rewrite Hd.
  pose proof (find_step id' (db x) (Db.OpDecision id v r b t)) as Hf. cbn [Db.step] in Hf. rewrite Hf. case_decide; [|done].
  by destruct (Db.find_approval id' (db x)) as [row|].
Qed.

(** Settling an undecided request keeps view and audit in step with the broker. *)
Lemma mirrors_settle m x x' id a dr :
  mirrors m x -> mget id m = Some a -> toolUseId a = id -> decision a = None ->
  settles (ApprovalBroker.with_decision a dr) dr x x' ->
  mirrors (mset id (ApprovalBroker.with_decision a dr) m) x'.
Proof.
  intros [H1 H2 H3] Ha Hid Hn [Hdb Hs]. cbn [toolUseId ApprovalBroker.with_decision] in Hdb, Hs. rewrite Hid in Hdb, Hs.
  split.
  - intros id'. rewrite Hs, undecided_mset. cbn. case_decide; [done|apply H1].
  - intros id' a'. rewrite mget_mset, (on_record_decision x x' _ _ _ _ _ id' Hdb). case_decide as Hc.
    + intros _. subst id'. destruct (H2 id a Ha) as [r ->]. by eexists.
    + intros Ha'. by eapply H2.
  - intros id' a' dr'. rewrite mget_mset, (on_record_decision x x' _ _ _ _ _ id' Hdb). case_decide as Hc.
    + intros [= <-] [= <-]. subst id'. destruct (H2 id a Ha) as [r ->]. done.
    + intros Ha' Hd'. by eapply H3.
Qed.

Lemma mirrors_open m x x' a :
  mirrors m x -> mget (toolUseId a) m = None -> decision a = None ->
  db x' = Db.recordApprovalRequested a (db x) ->
  (forall id, shown x' id = if decide (id = toolUseId a) then Some a else shown x id) ->
  mirrors (mset (toolUseId a) a m) x'.
Proof.
  intros [H1 H2 H3] Hm Hn Hdb Hs.
  assert (Hrec : forall id, on_record x' id =
            match on_record x id with Some r => Some r
            | None => if decide (toolUseId a = id) then Some None else None end).
  { intros id. unfold on_record. rewrite Hdb. pose proof (find_step id (db x) (Db.OpRequested a)) as Hf.
    cbn [Db.step] in Hf. rewrite Hf. destruct (Db.find_approval id (db x)); [done|]. by case_decide. }
  split.
  - intros id. rewrite Hs, undecided_mset, Hn. case_decide; [done|apply H1].
  - intros id a'. rewrite mget_mset, Hrec. case_decide as Hc.
    + intros _. subst id. rewrite decide_True by done. destruct (on_record x (toolUseId a)); by eexists.
    + intros Ha'. destruct (H2 id a' Ha') as [r ->]. by eexists.
  - intros id a' dr. rewrite mget_mset, Hrec. case_decide as Hc.
    + intros [= <-]. congruence.
    + intros Ha' Hd'. by rewrite (H3 id a' dr Ha' Hd').
Qed.

Definition good (w : W) : Prop := mirrors (pend w) (bext w).

Lemma good_outside_quiet {A} (m : eff (world S) A) w :
  quiet (bext w) (snd (m (bext w))) -> good w -> good (snd (HookBridge.outside m w)).
Proof.
  intros Hq Hg. unfold good, HookBridge.outside. destruct (m (bext w)) as [o x] eqn:Hm. cbn in *.
  by eapply mirrors_quiet.
Qed.

Lemma good_abandon id w :
  HookBridge.inv w -> good w -> good (snd (HookBridge.abandon d id w)).
Proof.
  intros [Hwf _] Hg. unfold HookBridge.abandon, HookBridge.on_broker.
  set (now := HookBridge.clock d (bext w)). unfold good in *.
  destruct (mget id (pend w)) as [a|] eqn:Ha; [destruct (decision a) as [dr|] eqn:Hd|].
  - pose proof (abandon_idle (HookBridge.ports d) now id (HookBridge.broker w)) as Hi.
    destruct (ApprovalBroker.abandon _ _ _ _) as [o b]. cbn in *. rewrite Hi; [done|congruence].
  - pose proof (abandon_settles (HookBridge.ports d) now id (HookBridge.broker w) a Ha Hd) as Hs.
    pose proof (abandon_ext now id (HookBridge.broker w) a Ha Hd) as He.
    destruct (ApprovalBroker.abandon _ _ _ _) as [o b]. cbn in *. rewrite (st_pending _ _ _ _ _ _ Hs).
    eapply mirrors_settle; [exact Hg|exact Ha|by apply (ApprovalBroker.wf_id _ Hwf)|done|exact He].
  - pose proof (abandon_idle (HookBridge.ports d) now id (HookBridge.broker w)) as Hi.
    destruct (ApprovalBroker.abandon _ _ _ _) as [o b]. cbn in *. rewrite Hi; [done|congruence].
Qed.

Lemma good_decide now id v reason by_ w :
  HookBridge.inv w -> good w ->
  good (snd (HookBridge.on_broker (ApprovalBroker.decide (HookBridge.ports d) now id v reason by_) w)).
Proof.
  intros [Hwf _] Hg. unfold HookBridge.on_broker, good in *.
  destruct (mget id (pend w)) as [a|] eqn:Ha; [destruct (decision a) as [dr|] eqn:Hd|].
  - pose proof (decide_idle (HookBridge.ports d) now id v reason by_ (HookBridge.broker w)) as Hi.
    destruct (ApprovalBroker.decide _ _ _ _ _ _ _) as [o b]. cbn in *. destruct Hi as [-> _]; [congruence|done].
  - pose proof (decide_settles (HookBridge.ports d) now id v reason by_ (HookBridge.broker w) a Ha Hd) as Hs.
    pose proof (decide_ext now id v reason by_ (HookBridge.broker w) a Ha Hd) as He.
    destruct (ApprovalBroker.decide _ _ _ _ _ _ _) as [o b]. cbn in *. rewrite (st_pending _ _ _ _ _ _ Hs).
    eapply mirrors_settle; [exact Hg|exact Ha|by apply (ApprovalBroker.wf_id _ Hwf)|done|exact He].
  - pose proof (decide_idle (HookBridge.ports d) now id v reason by_ (HookBridge.broker w)) as Hi.
    destruct (ApprovalBroker.decide _ _ _ _ _ _ _) as [o b]. cbn in *. destruct Hi as [-> _]; [congruence|done].
Qed.

(** The bookkeeping and the announcement that follow a request the broker took. *)
Lemma good_opened sock owner a b w :
  ApprovalBroker.pending b = mset (toolUseId a) a (pend w) ->
  mget (toolUseId a) (pend w) = None -> decision a = None -> good w ->
  db (ApprovalBroker.ext b) = Db.recordApprovalRequested a (db (bext w)) ->
  sent (ApprovalBroker.ext b) = sent (bext w) ->
  good (snd ((HookBridge.claim sock (toolUseId a) ;;
    HookBridge.outside (modify (fun x => match owner with Some o => HookBridge.trackPendingApproval d o (toolUseId a) x | None => x end)) ;;
    HookBridge.outside (HookBridge.broadcast d (approval_pending a)) ;;
    HookBridge.outside (HookBridge.announce d owner)) (HookBridge.mk b (HookBridge.claimed w)))).
Proof.
  intros Hp Hnone Hn Hg Hdb Hsent. unfold mbind at 1 2 3, eff_bind at 1 2 3.
  cbn [HookBridge.claim modify]. unfold HookBridge.outside at 1. cbn [modify].
  set (x1 := match owner with Some o => HookBridge.trackPendingApproval d o (toolUseId a) (ApprovalBroker.ext b)
             | None => ApprovalBroker.ext b end).
  assert (Hx1 : db x1 = db (ApprovalBroker.ext b) /\ sent x1 = sent (ApprovalBroker.ext b)) by (by destruct owner).
  unfold HookBridge.outside at 1. cbn [HookBridge.broadcast bridge_deps broadcast modify].
  apply good_outside_quiet; [apply announce_quiet|]. unfold good. cbn.
  rewrite Hp. eapply mirrors_open; [exact Hg|done|done| |].
  - cbn. destruct Hx1 as [H1 _]. unfold x1 in H1. cbn in H1. by rewrite H1.
  - intros id. rewrite shown_snoc. cbn [approval_word].
    assert (Hsh : shown x1 id = shown (bext w) id) by (unfold shown; destruct Hx1 as [_ ->]; by rewrite Hsent).
    unfold x1 in Hsh. cbn in Hsh. rewrite Hsh. destruct (decide (id = toolUseId a)) as [->|Hne].
    + by rewrite decide_True.
    + by rewrite decide_False by done.
Qed.

Lemma good_openRequest sock ev w : HookBridge.inv w -> good w -> good (snd (HookBridge.openRequest d sock ev w)).
Proof.
  intros Hinv Hg. unfold HookBridge.openRequest, mbind at 1, eff_bind at 1, gets at 1.
  set (owner := HookBridge.sessionByClaudeId d _ _). set (a := HookBridge.approval_of d ev owner _).
  unfold mbind at 1, eff_bind at 1, HookBridge.on_broker at 1.
  destruct (mhas (toolUseId a) (pend w)) eqn:Hh.
  - rewrite open_lost by done. cbn [negb]. unfold mbind, eff_bind, good in *.
    cbn. eapply mirrors_quiet; [|exact Hg]. done.
  - pose proof (open_won (HookBridge.ports d) a (HookBridge.mkHandle sock owner (toolUseId a)) (HookBridge.broker w) Hh) as (Hp & _).
    assert (Hopen : fst (ApprovalBroker.open (HookBridge.ports d) a (HookBridge.mkHandle sock owner (toolUseId a)) (HookBridge.broker w)) = Ok true
       /\ db (ApprovalBroker.ext (snd (ApprovalBroker.open (HookBridge.ports d) a (HookBridge.mkHandle sock owner (toolUseId a)) (HookBridge.broker w))))
          = Db.recordApprovalRequested a (db (bext w))
       /\ sent (ApprovalBroker.ext (snd (ApprovalBroker.open (HookBridge.ports d) a (HookBridge.mkHandle sock owner (toolUseId a)) (HookBridge.broker w))))
          = sent (bext w)).
    { unfold ApprovalBroker.open, mbind, eff_bind, gets, modify. cbn [Datatypes.id]. rewrite Hh.
      unfold ApprovalBroker.outside. cbn [ApprovalBroker.on_pending HookBridge.ports HookBridge.listen_pending bridge_deps].
      unfold on_pending, mbind, eff_bind, on_db. rewrite store_takes. done. }
    destruct Hopen as (Hok & Hdb & Hsent).
    destruct (ApprovalBroker.open _ _ _ _) as [o b]. cbn [fst snd] in *. subst o. cbn [negb].
    apply good_opened; try done. unfold mhas in Hh. by destruct (mget (toolUseId a) (pend w)).
Qed.

Lemma dstep_inv w w' : dstep w w' -> HookBridge.inv w -> HookBridge.inv w'.
Proof.
  intros Hs Hi. eapply (inv_step d); [apply daemon_reliable| |exact Hi].
  destruct Hs; by constructor.
Qed.

Lemma good_close ids w :
  HookBridge.inv w -> good w -> good (snd (for_each (HookBridge.abandon d) ids w)).
Proof.
  revert w. induction ids as [|id ids IH]; intros w Hi Hg; [done|]. cbn [for_each]. unfold mbind, eff_bind.
  pose proof (good_abandon id w Hi Hg) as Hg1.
  assert (Hi1 : HookBridge.inv (snd (HookBridge.abandon d id w))).
  { unfold HookBridge.abandon.
    pose proof (close_loop d [id] w daemon_reliable Hi) as Hc. cbn [for_each] in Hc.
    unfold mbind, eff_bind, HookBridge.abandon in Hc.
    destruct (HookBridge.on_broker _ w) as [[u|e] w1]; naive_solver. }
  destruct (HookBridge.abandon d id w) as [[u|e] w1]; [by apply IH|done].
Qed.

Lemma good_step w w' : dstep w w' -> HookBridge.inv w -> good w -> good w'.
Proof.
  destruct 1 as [w sock line|w sock|w now id v r by_|w id Hin|w ev Hev|w f]; intros Hi Hg.
  - unfold HookBridge.onLine. destruct (Framing.Framing.is_blank line); [done|].
    destruct (HookBridge.parseJson d line) as [[| |ev]|]; try done.
    unfold try_catch. pose proof (good_openRequest sock ev w Hi Hg) as Ho.
    by destruct (HookBridge.openRequest d sock ev w) as [[u|e] w1].
  - unfold HookBridge.onClose. by apply good_close.
  - by apply good_decide.
  - destruct Hi as [Hwf _]. destruct (ApprovalBroker.wf_timers _ Hwf id Hin) as (a & Ha & Hd).
    destruct Hg as [H1 H2 H3]. split; cbn [HookBridge.broker ApprovalBroker.purge ApprovalBroker.ext ApprovalBroker.pending].
    + intros id'. rewrite H1. unfold undecided. rewrite mget_mdelete. case_decide as Hc; [|done].
      subst id'. rewrite Ha. by destruct (decision a).
    + intros id' a'. rewrite mget_mdelete. case_decide; [done|apply H2].
    + intros id' a' dr. rewrite mget_mdelete. case_decide; [done|apply H3].
  - apply good_outside_quiet; [|done]. by apply quiet_other.
  - apply good_outside_quiet; [|done]. apply quiet_rest.
Qed.

Lemma dreach_good s db0 w : dreach s db0 w -> HookBridge.inv w /\ good w.
Proof.
  induction 1 as [|w w' _ [Hi Hg] Hs].
  - split; [split; [apply broker_wf_new|done]|]. split; done.
  - split; [by eapply dstep_inv|by eapply good_step].
Qed.

End mirror.

(** C14. While the store takes its statements, whatever hook sockets, clients, timers and
    sessions do, in any order: a phone that has been connected since the start, has heard
    every broadcast and never resynced shows exactly the approvals the broker still waits
    on, each as it was requested; every request the broker remembers has a row in the audit
    trail under its identifier (the first request's, where an identifier was used again);
    and for a decided one that row has the decision, the reason, the decider and the time
    that settled it. *)
Theorem phone_mirrors_broker {Sock O S} `{EqDecision Sock} (p : Process Sock O S) s db0 (w : HookBridge.t Sock O (world S))
    (Hstore : forall st, p_store_fault p st = None) (Hr : dreach p s db0 w) :
  (forall id, shown (ApprovalBroker.ext (HookBridge.broker w)) id = undecided (ApprovalBroker.pending (HookBridge.broker w)) id) /\
  (forall id a, mget id (ApprovalBroker.pending (HookBridge.broker w)) = Some a -> is_Some (on_record (ApprovalBroker.ext (HookBridge.broker w)) id)) /\
  (forall id a dr, mget id (ApprovalBroker.pending (HookBridge.broker w)) = Some a -> decision a = Some dr ->
     on_record (ApprovalBroker.ext (HookBridge.broker w)) id = Some (decided_as dr)).
Proof. destruct (dreach_good p Hstore s db0 w Hr) as [_ [H1 H2 H3]]. done. Qed.

(** A hook socket asks, a client decides. *)
Definition demo_process : Process nat unit unit :=
  mkProcess (fun _ _ => None) (fun _ => "s") (fun _ _ x => x) (fun _ _ x => x)
    (fun _ _ => mkSessionInfo "s" None "/" "s" ready None 0 0 0) 5 (fun x => x) (fun _ _ x => x) (fun _ x => x)
    (fun _ => 10)
    (fun line => Some (HookBridge.HookRequest (HookBridge.mkHookEvent (Some line) (Some "s") (Some "Bash") None None)))
    (fun _ => None).

Definition demo_asked : HookBridge.t nat unit (world unit) :=
  snd (HookBridge.onLine (bridge_deps demo_process) 1%nat "t1"
    (HookBridge.mk (ApprovalBroker.new (mkWorld Db.empty [] tt)) [])).

Definition demo_answered : HookBridge.t nat unit (world unit) :=
  snd (HookBridge.on_broker (ApprovalBroker.decide (HookBridge.ports (bridge_deps demo_process)) 11 "t1" allow "fine" "phone") demo_asked).

Lemma phone_mirrors_broker_witness :
  dreach demo_process tt Db.empty demo_answered /\
  shown (ApprovalBroker.ext (HookBridge.broker demo_asked)) "t1" <> None /\
  shown (ApprovalBroker.ext (HookBridge.broker demo_answered)) "t1" = None /\
  on_record (ApprovalBroker.ext (HookBridge.broker demo_answered)) "t1" = Some (Some (allow, "fine", "phone", 11)).
Proof.
  assert (H1 : dreach demo_process tt Db.empty demo_asked)
    by (eapply dreach_step; [apply dreach_boot|apply d_line]).
  assert (H2 : dreach demo_process tt Db.empty demo_answered)
    by (eapply dreach_step; [exact H1|apply d_decide]).
  split; [exact H2|]. split; [vm_compute; discriminate|].
  destruct (phone_mirrors_broker demo_process tt Db.empty demo_answered (fun _ => eq_refl) H2) as (Hs & _ & Ha).
  split; [rewrite Hs; vm_compute; reflexivity|].
  assert (Hp : exists a, mget "t1" (ApprovalBroker.pending (HookBridge.broker demo_answered)) = Some a /\
                         decision a = Some (mkDecision allow "fine" "phone" 11))
    by (eexists; split; vm_compute; reflexivity).
  destruct Hp as (a & Hm & Hd). exact (Ha "t1" a _ Hm Hd).
Defined.

(** The store has to take them: when the row of a decision cannot be written, the call has
    been answered and the broker is done with it, but the phone goes on showing it, and the
    audit trail has it undecided. *)
Definition full_disk : Process nat unit bool :=
  mkProcess (fun _ _ => None) (fun _ => "s") (fun _ _ x => x) (fun _ _ x => x)
    (fun _ _ => mkSessionInfo "s" None "/" "s" ready None 0 0 0) 5 (fun x => x) (fun _ _ _ => true) (fun _ x => x)
    (fun _ => 10)
    (fun line => Some (HookBridge.HookRequest (HookBridge.mkHookEvent (Some line) (Some "s") (Some "Bash") None None)))
    (fun full => if full : bool then Some "database or disk is full" else None).

Lemma failed_store_leaves_approval_shown :
  let w0 := snd (HookBridge.onLine (bridge_deps full_disk) 1%nat "t1" (HookBridge.mk (ApprovalBroker.new (mkWorld Db.empty [] false)) [])) in
  let w1 := snd (HookBridge.on_broker (ApprovalBroker.decide (HookBridge.ports (bridge_deps full_disk)) 11 "t1" allow "fine" "phone") w0) in
  let x := ApprovalBroker.ext (HookBridge.broker w1) in
  dreach full_disk false Db.empty w1 /\ rest x = true /\
  undecided (ApprovalBroker.pending (HookBridge.broker w1)) "t1" = None /\
  ApprovalBroker.waiters (HookBridge.broker w1) = [] /\
  toolUseId <$> shown x "t1" = Some "t1" /\ on_record x "t1" = Some None.
Proof.
  cbv zeta. split; [|vm_compute; auto 10].
  eapply dreach_step; [eapply dreach_step; [apply dreach_boot|apply d_line]|apply d_decide].
Qed.
