(* ===== verification/System.v ===== *)
(** * The daemon assembled

    The components of [packages/daemon/src/index.ts] plugged into one another: the client
    connections ([Connection]) over the hub ([Hub]), the dispatcher ([Commands]), the hook
    bridge ([HookBridge]) over the broker ([Approvals]) and the store ([Db]).  The world is
    the hub, the bridge with its broker, and the rest of the process: the store, what was
    written to the hook sockets, and the sessions, jobs, identity and sockets, which the
    parts given to [Parts] act on without reaching the broker.  One input at a time is
    handled to its end, as the event loop does.  An event keeps the value it had when it was
    broadcast; the objects events share are the subject of [Connection]. *)

From S2P Require Import Prelude JsMap Js Types Frame DeviceSessions Approvals Jobs.
From S2P Require Import Framing HookMargin Db Commands Hub Pairing Connection HookBridge Daemon.

Local Open Scope Z_scope.

Module System.

Section system.
Context {Key Nonce CSock HSock O X H S : Type} `{SessionCrypto Key Nonce} `{EqDecision CSock} `{EqDecision HSock}.
Notation Hub := (ClientHub.t Key CSock X ServerEvent).

(** The process beside the hub, the broker and the claims. *)
Record Rest : Type := mkRest { db : Db.t; hook_out : list (HSock * HookBridge.HookDecision); proc : S }.

Notation Bridge := (HookBridge.t HSock O Rest).
Notation World := (ClientConnection.t Key CSock X ServerEvent Bridge).

(** What the sessions, the jobs and the identity work on, and what they broadcast: the
    broadcasts of one call reach the hub, which none of them reads, when it returns. *)
Record outer : Type := mkOuter { o_db : Db.t; o_proc : S; o_sent : list ServerEvent }.

(** *** The bridge's view of the world: the hub is outside its broker *)

Definition map_ext {W A B} (f : A -> B) (b : ApprovalBroker.t W A) : ApprovalBroker.t W B :=
  ApprovalBroker.mk (ApprovalBroker.pending b) (ApprovalBroker.waiters b) (ApprovalBroker.timers b)
    (f (ApprovalBroker.ext b)) (ApprovalBroker.answered b).

Definition view (w : World) : HookBridge.t HSock O (Hub * Rest) :=
  let r := ClientConnection.rest w in
  HookBridge.mk (map_ext (pair (ClientConnection.hub w)) (HookBridge.broker r)) (HookBridge.claimed r).

Definition of_view (v : HookBridge.t HSock O (Hub * Rest)) : World :=
  ClientConnection.mk (fst (ApprovalBroker.ext (HookBridge.broker v)))
    (HookBridge.mk (map_ext snd (HookBridge.broker v)) (HookBridge.claimed v)).

Definition in_bridge {A} (m : eff (HookBridge.t HSock O (Hub * Rest)) A) : eff World A := fun w =>
  let (o, v) := m (view w) in (o, of_view v).

(** A call that only sees the identity, the sessions and the sockets. *)
Definition on_proc {A} (m : eff S A) : eff Bridge A := fun r =>
  let b := HookBridge.broker r in
  let x := ApprovalBroker.ext b in
  let (o, s) := m (proc x) in
  (o, HookBridge.mk (map_ext (fun x => mkRest (db x) (hook_out x) s) b) (HookBridge.claimed r)).

Definition proc_of (r : Bridge) : S := proc (ApprovalBroker.ext (HookBridge.broker r)).

(** *** The parts *)

Record Parts : Type := mkParts {
  net : ClientHub.Net Nonce CSock X;
  process : Daemon.Process HSock O S;
  identity : ClientConnection.PairingService Key S;
  maxPairedDevices : Z;
  (** which listener accepted the socket: pairing starts on the local one only *)
  allowPairingBootstrap : CSock -> bool;
  infos : S -> list SessionInfo;
  jobs : S -> list JobInfo;
  advertisedAddress : S -> string;
  random_salt : S -> string * S;
  parseJson : string -> option jsval;
  sessions : S -> jsmap string H;
  handle_ops : Commands.HandleOps outer H;
  jobQueue_enqueue : SpawnRequest -> string -> eff outer JobInfo;
  identity_revoke : string -> eff outer bool;
  push_register : string -> string -> PushPlatform -> eff outer unit;
  push_unregister : string -> eff outer unit;
}.

(** A call into the rest of the daemon. *)
Definition on_outer {A} (p : Parts) (m : eff outer A) : eff (Hub * Rest) A := fun y =>
  let (o, x) := m (mkOuter (db (snd y)) (proc (snd y)) []) in
  (o, (foldl (fun h ev => ClientHub.broadcast (net p) (fun e => e) ev h) (fst y) (o_sent x),
       mkRest (o_db x) (hook_out (snd y)) (o_proc x))).

Definition outside {A} (p : Parts) (m : eff outer A) : eff World A := in_bridge (HookBridge.outside (on_outer p m)).

(** *** The bridge and the broker's listeners *)

Definition on_rest (f : Rest -> Rest) : eff (Hub * Rest) unit := modify (fun y => (fst y, f (snd y))).
Definition set_proc (f : S -> S) (y : Hub * Rest) : Hub * Rest :=
  (fst y, mkRest (db (snd y)) (hook_out (snd y)) (f (proc (snd y)))).

(** A statement of the store, which either runs or throws and changes nothing. *)
Definition on_db (p : Parts) (f : Db.t -> Db.t) : eff (Hub * Rest) unit := fun y =>
  match Daemon.p_store_fault (process p) (proc (snd y)) with
  | Some e => (Throw e, y)
  | None => (Ok tt, (fst y, mkRest (f (db (snd y))) (hook_out (snd y)) (proc (snd y))))
  end.

(** [const broadcast = (ev) => hub.broadcast(ev)] *)
Definition broadcast (p : Parts) (ev : ServerEvent) : eff (Hub * Rest) unit :=
  modify (fun y => (ClientHub.broadcast (net p) (fun e => e) ev (fst y), snd y)).

(** [broker.on('pending')] *)
Definition on_pending (p : Parts) (a : PendingApproval) : eff (Hub * Rest) unit :=
  on_db p (Db.recordApprovalRequested a) ;; modify (set_proc (Daemon.p_notify (process p))).

(** [broker.on('resolved')] *)
Definition on_resolved (p : Parts) (a : PendingApproval) : eff (Hub * Rest) unit :=
  match decision a with
  | None => throw "TypeError: Cannot read properties of null"
  | Some d =>
      on_db p (Db.recordApprovalDecision (toolUseId a) (d_decision d) (d_reason d) (d_by d) (d_at d)) ;;
      broadcast p (approval_resolved (toolUseId a) (d_decision d) (d_by d))
  end.

(** [sock.write(...)] of a hook socket, with the account of what was written. *)
Definition hook_write (p : Parts) (sock : HSock) (d : HookBridge.HookDecision) (y : Hub * Rest) : Hub * Rest :=
  (fst y, mkRest (db (snd y)) (hook_out (snd y) ++ [(sock, d)]) (Daemon.p_sock_write (process p) sock d (proc (snd y)))).

(** [createHookServer({ broker, sessionByClaudeId, selfDenyMs, broadcast, log })] *)
Definition bridge (p : Parts) : HookBridge.Deps HSock O (Hub * Rest) :=
  let q := process p in
  HookBridge.mkDeps (fun id y => Daemon.p_sessionByClaudeId q id (proc (snd y))) (Daemon.p_owner_id q)
    (fun o id => set_proc (Daemon.p_track q o id)) (fun o id => set_proc (Daemon.p_untrack q o id))
    (fun o y => Daemon.p_owner_info q o (proc (snd y))) (Daemon.p_selfDenyMs q)
    (broadcast p) (on_pending p) (on_resolved p)
    (hook_write p) (fun s => set_proc (Daemon.p_sock_destroy q s))
    (fun y => Daemon.p_clock q (proc (snd y))) (Daemon.p_parse q).

(** *** The dispatcher *)

Definition broker_decide (p : Parts) (id : string) (v : Verdict) (reason by_ : string) : eff World ApprovalBroker.DecideResult :=
  fun w => in_bridge (HookBridge.on_broker
    (ApprovalBroker.decide (HookBridge.ports (bridge p)) (Daemon.p_clock (process p) (proc_of (ClientConnection.rest w))) id v reason by_)) w.

Definition lift_ops (p : Parts) (ops : Commands.HandleOps outer H) : Commands.HandleOps World H :=
  Commands.mkHandleOps (fun h => outside p (Commands.hd_info ops h)) (fun h t => outside p (Commands.hd_send ops h t))
    (fun h => outside p (Commands.hd_interrupt ops h)) (fun h m => outside p (Commands.hd_setModel ops h m))
    (fun h m => outside p (Commands.hd_setPermissionMode ops h m)).

(** [createCommandHandler({ sessions, broker, jobQueue, identity, db, push, ... })] *)
Definition commands (p : Parts) : Commands.Deps World H CSock :=
  Commands.mkDeps (fun w => sessions p (proc_of (ClientConnection.rest w))) (lift_ops p (handle_ops p))
    (broker_decide p) (fun id w => ApprovalBroker.get id (HookBridge.broker (ClientConnection.rest w)))
    (fun req by_ => outside p (jobQueue_enqueue p req by_)) (fun id => outside p (identity_revoke p id))
    (fun n => gets (fun w => Db.queryRecentApprovals (Z.to_nat n) (db (ApprovalBroker.ext (HookBridge.broker (ClientConnection.rest w))))))
    (fun dev token platform => outside p (push_register p dev token platform)) (fun dev => outside p (push_unregister p dev))
    (fun dev => ClientConnection.on_hub (ClientHub.disconnectDevice (net p) dev))
    (fun sock ev => ClientConnection.on_hub (ClientHub.sendTo (net p) (fun e => e) sock ev)).

(** The client's frame holds a command, or the switch has no case for it. *)
Definition dispatch (p : Parts) (cmd : Plain) (sock : CSock) (dev : string) : eff World unit :=
  match cmd with
  | PCmd c => Commands.handleCommand (commands p) c sock dev
  | PEv _ => throw "unexpected command"
  end.

(** *** The connections *)

Definition lift_identity (i : ClientConnection.PairingService Key S) : ClientConnection.PairingService Key Bridge :=
  ClientConnection.mkPairing (fun r => ClientConnection.publicKeyB64 i (proc_of r)) (fun r => ClientConnection.pairedCount i (proc_of r))
    (fun addr => on_proc (ClientConnection.beginPairing i addr)) (fun k n pf => on_proc (ClientConnection.completePairing i k n pf))
    (fun id r => ClientConnection.find i id (proc_of r)) (fun k salt => on_proc (ClientConnection.deriveSessionKey i k salt)).

Definition snapshot (p : Parts) (r : Bridge) : list ServerEvent :=
  Daemon.snapshot (infos p (proc_of r)) (HookBridge.broker r) (jobs p (proc_of r)) (db (ApprovalBroker.ext (HookBridge.broker r))).

(** [connectionHandler(allowPairingBootstrap)] for the listener of [sock]. *)
Definition connection (p : Parts) (sock : CSock) : ClientConnection.Deps Key Nonce CSock X ServerEvent Bridge :=
  ClientConnection.mkDeps (net p) (lift_identity (identity p)) (maxPairedDevices p) (allowPairingBootstrap p sock)
    (gets (snapshot p)) (fun e => e) (fun _ e => e) (fun r => advertisedAddress p (proc_of r)) (dispatch p)
    (fun r => let (salt, s) := random_salt p (proc_of r) in (salt, snd (on_proc (modify (fun _ => s)) r))) (parseJson p).

(** *** Inputs *)

(** A line or the close of a client or of a hook socket, a purge timer of the broker, and
    what else the event loop runs: sessions, jobs, and the platform under the hub. *)
Inductive input : Type :=
| ClientLine (sock : CSock) (line : string)
| ClientClose (sock : CSock)
| HookLine (sock : HSock) (line : string)
| HookClose (sock : HSock)
| PurgeTimer (id : string)
| Elsewhere (f : outer -> outer)
| Platform (f : X -> X).

Definition purge (id : string) (w : World) : World :=
  let v := view w in of_view (HookBridge.mk (ApprovalBroker.purge id (HookBridge.broker v)) (HookBridge.claimed v)).

Definition step (p : Parts) (w : World) (i : input) : World :=
  match i with
  | ClientLine sock line => snd (ClientConnection.onLine (connection p sock) sock line w)
  | ClientClose sock => snd (ClientConnection.onClose sock w)
  | HookLine sock line => snd (in_bridge (HookBridge.onLine (bridge p) sock line) w)
  | HookClose sock => snd (in_bridge (HookBridge.onClose (bridge p) sock) w)
  | PurgeTimer id => if bool_decide (id ∈ ApprovalBroker.timers (HookBridge.broker (ClientConnection.rest w))) then purge id w else w
  | Elsewhere f => snd (outside p (modify f) w)
  | Platform f => snd (ClientConnection.on_hub (fun h => ClientHub.set_net (f (ClientHub.net h)) h) w)
  end.

Definition run (p : Parts) (w : World) (ins : list input) : World := foldl (step p) w ins.

(** The daemon before its first input. *)
Definition boot (h : Hub) (d : Db.t) (s : S) : World :=
  ClientConnection.mk h (HookBridge.mk (ApprovalBroker.new (mkRest d [] s)) []).

(** *** Vocabulary *)

Definition out (w : World) : list (HSock * HookBridge.HookDecision) :=
  hook_out (ApprovalBroker.ext (HookBridge.broker (ClientConnection.rest w))).
Definition waiting (w : World) : jsmap string (HookBridge.Handle HSock O) := ApprovalBroker.waiters (HookBridge.broker (ClientConnection.rest w)).
Definition pending (w : World) : jsmap string PendingApproval := ApprovalBroker.pending (HookBridge.broker (ClientConnection.rest w)).

Definition store (w : World) : Db.t := db (ApprovalBroker.ext (HookBridge.broker (ClientConnection.rest w))).

(** What a statement of the store makes of it, unless the store throws. *)
Definition taken (p : Parts) (s : S) (f : Db.t -> Db.t) (d : Db.t) : Db.t :=
  match Daemon.p_store_fault (process p) s with
  | Some _ => d
  | None => f d
  end.

(** An event that acknowledges nothing. *)
Definition unacked (ev : ServerEvent) : Prop := match ev with ack _ => False | _ => True end.

(** The calls the dispatcher makes into the rest of the daemon. *)
Inductive service (p : Parts) : forall {A}, eff outer A -> Prop :=
| service_info h : service p (Commands.hd_info (handle_ops p) h)
| service_send h t : service p (Commands.hd_send (handle_ops p) h t)
| service_interrupt h : service p (Commands.hd_interrupt (handle_ops p) h)
| service_model h m : service p (Commands.hd_setModel (handle_ops p) h m)
| service_mode h m : service p (Commands.hd_setPermissionMode (handle_ops p) h m)
| service_enqueue req by_ : service p (jobQueue_enqueue p req by_)
| service_revoke id : service p (identity_revoke p id)
| service_register dev token platform : service p (push_register p dev token platform)
| service_unregister dev : service p (push_unregister p dev).

(** The approval a hook event asks for, in the state it arrives in. *)
Definition asked (p : Parts) (ev : HookBridge.HookEvent) (w : World) : PendingApproval :=
  let y := ApprovalBroker.ext (HookBridge.broker (view w)) in
  HookBridge.approval_of (bridge p) ev (HookBridge.sessionByClaudeId (bridge p) (HookBridge.ev_session_id ev) y) (HookBridge.clock (bridge p) y).

End system.
Arguments Rest : clear implicits.
Arguments outer : clear implicits.
Arguments Parts : clear implicits.
Arguments input : clear implicits.

End System.

Import System.

(** ** Laws *)

Section laws.
Context {Key Nonce CSock HSock O X H S : Type} `{SessionCrypto Key Nonce} `{EqDecision CSock} `{EqDecision HSock}.
Notation Bridge := (HookBridge.t HSock O (Rest HSock S)).
Notation World := (ClientConnection.t Key CSock X ServerEvent Bridge).
Implicit Types (p : Parts Key Nonce CSock HSock O X H S) (w : World).

Lemma of_view_view w : of_view (view w) = w.
Proof. by destruct w as [h [[]]]. Qed.

Lemma view_of_view (v : HookBridge.t HSock O (ClientHub.t Key CSock X ServerEvent * Rest HSock S)) : view (of_view v) = v.
Proof. by destruct v as [[? ? ? [] ?] ?]. Qed.

Lemma view_in_bridge {A} (m : eff _ A) w : view (snd (in_bridge m w)) = snd (m (view w)).
Proof. unfold in_bridge. destruct (m (view w)) as [o v]. apply view_of_view. Qed.

(** *** What a client's line does besides its command *)

Notation Hub := (ClientHub.t Key CSock X ServerEvent).

(** A call that authenticates nobody: it only drops connections. *)
Definition calm (f : Hub -> Hub) : Prop :=
  forall h, exists gone, ClientHub.clients (f h) = foldr mdelete (ClientHub.clients h) gone.

Lemma mget_drops (gone : list CSock) (m : jsmap CSock (ClientHub.ClientConn Key)) s c :
  mget s (foldr mdelete m gone) = Some c -> mget s m = Some c.
Proof. induction gone as [|g gone IH]; [done|]. cbn [foldr]. rewrite mget_mdelete. by case_decide. Qed.

Lemma mwf_drops (gone : list CSock) (m : jsmap CSock (ClientHub.ClientConn Key)) : mwf m -> mwf (foldr mdelete m gone).
Proof. intros Hm. induction gone as [|g gone IH]; [done|]. cbn [foldr]. auto with jsmap. Qed.

Lemma calm_same f : (forall h, ClientHub.clients (f h) = ClientHub.clients h) -> calm f.
Proof. intros Hf h. exists []. apply Hf. Qed.

Lemma calm_comp f g : calm f -> calm g -> calm (fun h => g (f h)).
Proof.
  intros Hf Hg h. destruct (Hf h) as [l1 H1], (Hg (f h)) as [l2 H2]. exists (l2 ++ l1). by rewrite H2, H1, foldr_app.
Qed.

Lemma calm_foldl {Y} (f : Hub -> Y -> Hub) l : (forall y, calm (fun h => f h y)) -> calm (fun h => foldl f h l).
Proof.
  intros Hf. induction l as [|y l IH]; [by apply calm_same|]. cbn [foldl].
  by apply (calm_comp (fun h => f h y) (fun h => foldl f h l)).
Qed.

Lemma calm_drop sock f : may_drop sock f -> calm f.
Proof. intros Hf h. destruct (Hf h) as [-> | ->]; [by exists []|by exists [sock]]. Qed.

Lemma calm_raw (n : ClientHub.Net Nonce CSock X) sock m : calm (ClientHub.writeRaw n sock m).
Proof. apply (calm_drop sock). intros h. apply writeFrame_clients. Qed.

Lemma calm_seal (n : ClientHub.Net Nonce CSock X) sock conn seq ev : calm (ClientHub.sealAndWrite n sock conn seq ev).
Proof. apply (calm_drop sock), may_drop_sealAndWrite. Qed.

Lemma calm_send (n : ClientHub.Net Nonce CSock X) sock conn ev : calm (ClientHub.sendSealed n (fun e => e) sock conn ev).
Proof. apply (calm_drop sock), may_drop_sendSealed. Qed.

Lemma calm_sendTo (n : ClientHub.Net Nonce CSock X) sock ev : calm (ClientHub.sendTo n (fun e => e) sock ev).
Proof. intros h. unfold ClientHub.sendTo. destruct (mget sock _); [apply calm_send|by exists []]. Qed.

Lemma calm_record (n : ClientHub.Net Nonce CSock X) dev ev : calm (fun h => snd (ClientHub.record n dev ev h)).
Proof. apply calm_same. intros h. unfold ClientHub.record. by destruct (DeviceSessions.recordSent _ _ _ _). Qed.

Lemma calm_group (n : ClientHub.Net Nonce CSock X) seq ev group : calm (ClientHub.write_group n seq ev group).
Proof. apply (calm_foldl (fun h e => ClientHub.sealAndWrite n e.1 e.2 seq ev h)). intros e. apply calm_seal. Qed.

Lemma calm_groups (n : ClientHub.Net Nonce CSock X) ev groups : calm (ClientHub.write_groups n (fun e => e) ev groups).
Proof.
  apply (calm_foldl (fun h g => let (seq, h1) := ClientHub.record n g.1 ev h in ClientHub.write_group n seq ev g.2 h1)).
  intros e h. destruct (calm_record n e.1 ev h) as [l1 H1]. destruct (ClientHub.record n e.1 ev h) as [seq h1].
  destruct (calm_group n seq ev e.2 h1) as [l2 H2]. exists (l2 ++ l1). cbn [snd] in H1. by rewrite H2, H1, foldr_app.
Qed.

Lemma calm_broadcast (n : ClientHub.Net Nonce CSock X) ev : calm (fun h => ClientHub.broadcast n (fun e => e) ev h).
Proof.
  intros h. unfold ClientHub.broadcast. set (g := ClientHub.group_sockets _).
  destruct (calm_groups n ev g h) as [l1 H1]. set (h1 := ClientHub.write_groups n _ ev g h) in *.
  destruct (calm_foldl (fun h device => if mhas device g then h else snd (ClientHub.record n device ev h))
    (DeviceSessions.knownDeviceIds (ClientHub.reg h1))) with (h := h1) as [l2 H2].
  - intros dev. destruct (mhas dev g); [by apply calm_same|apply calm_record].
  - exists (l2 ++ l1). by rewrite H2, H1, foldr_app.
Qed.

Lemma calm_disconnect (n : ClientHub.Net Nonce CSock X) dev : calm (ClientHub.disconnectDevice n dev).
Proof.
  intros h. unfold ClientHub.disconnectDevice.
  destruct (calm_foldl (fun h e => if decide (ClientHub.deviceId e.2 = dev)
    then ClientHub.set_net (ClientHub.net_destroy n e.1 (ClientHub.net h)) (ClientHub.set_clients (mdelete e.1 (ClientHub.clients h)) h)
    else h) (ClientHub.clients h)) with (h := ClientHub.set_reg (DeviceSessions.evict dev (ClientHub.reg h)) h) as [l Hl]; [|by exists l].
  intros e h0. case_decide; [by exists [e.1]|by exists []].
Qed.

Lemma calm_forget sock : calm (ClientHub.forget sock).
Proof. apply (calm_drop sock). intros h. by right. Qed.

(** *** What a command does *)

Section dispatched.
Variables (I : World -> Prop) (p : Parts Key Nonce CSock HSock O X H S) (sock : CSock).
Hypothesis I_service : forall A (m : eff (outer S) A), service p m -> preserves I (outside p m).
Hypothesis I_reply : forall ev, unacked ev -> preserves I (ClientConnection.on_hub (ClientHub.sendTo (net p) (fun e => e) sock ev)).
Hypothesis I_disconnect : forall dev, preserves I (ClientConnection.on_hub (ClientHub.disconnectDevice (net p) dev)).

#[local] Hint Constructors service : core.
#[local] Hint Resolve preserves_ret preserves_throw preserves_gets preserves_bind I_service I_disconnect : dispatched.

Lemma dispatched_infos hs : preserves I (Commands.infos (fun h => outside p (Commands.hd_info (handle_ops p) h)) hs).
Proof.
  induction hs as [|h hs IH]; cbn [Commands.infos]; [auto with dispatched|]. apply preserves_bind; [by apply I_service|]. intros i.
  apply preserves_bind; auto with dispatched.
Qed.

Lemma dispatched_session sid (k : H -> eff World unit) : (forall h, preserves I (k h)) ->
  preserves I (Commands.with_session (commands p) sock sid k).
Proof.
  intros Hk. unfold Commands.with_session. apply preserves_bind; [auto with dispatched|]. intros m.
  destruct (mget sid m); [apply Hk|by apply I_reply].
Qed.

(** A command acts outside the broker, but for a decision. *)
Lemma dispatched_command cmd dev :
  match cmd with
  | PCmd (cmd_decide id v reason by_) => preserves I (broker_decide p id v (default "" reason) (Commands.attribution dev by_))
  | _ => True
  end -> preserves I (dispatch p cmd sock dev).
Proof.
  intros Hd. destruct cmd as [[|l|cwd lb dt m pm ef|sid tx|sid|sid m|sid m|tid v r b|tg|tk pl]|ev]; cbn [dispatch Commands.handleCommand commands
    Commands.sessions Commands.handle_ops Commands.broker_decide Commands.broker_get Commands.jobQueue_enqueue
    Commands.identity_revoke Commands.db_queryRecentApprovals Commands.push_register Commands.push_unregister
    Commands.disconnectDevice Commands.reply lift_ops Commands.hd_info Commands.hd_send Commands.hd_interrupt
    Commands.hd_setModel Commands.hd_setPermissionMode];
    try (apply dispatched_session; intros h; by apply I_service); try (by apply I_service).
  - apply preserves_bind; [auto with dispatched|]. intros m. apply preserves_bind; [apply dispatched_infos|]. intros is_. by apply I_reply.
  - apply preserves_bind; [auto with dispatched|]. intros a. by apply I_reply.
  - destruct (match pm with Some m0 => _ | None => _ end); [by apply I_reply|]. apply preserves_bind; [by apply I_service|].
    intros job. case_decide; [by apply I_reply|auto with dispatched].
  - apply dispatched_session. intros h. destruct (PermissionModePolicy.permissionModeIsAllowed m); [by apply I_service|by apply I_reply].
  - apply preserves_bind; [done|]. intros [| |]; [auto with dispatched| |by apply I_reply].
    apply preserves_bind; [auto with dispatched|]. intros a. by apply I_reply.
  - apply preserves_bind; [by apply I_service|]. intros []; [|by apply I_reply].
    apply preserves_bind; [by apply I_service|]. intros _. apply preserves_bind; [by apply I_reply|]. auto with dispatched.
  - apply preserves_throw.
Qed.

End dispatched.

Section carried.
Variables (I : World -> Prop) (p : Parts Key Nonce CSock HSock O X H S) (sock : CSock).
Hypothesis I_calm : forall w f, calm f -> I w -> I (ClientConnection.mk (f (ClientConnection.hub w)) (ClientConnection.rest w)).
Hypothesis I_outside : forall w f, I w -> I (snd (outside p (modify f) w)).
Notation d := (connection p sock).

Lemma I_proc w (f : S -> S) : I w ->
  I (ClientConnection.mk (ClientConnection.hub w) (snd (on_proc (modify f) (ClientConnection.rest w)))).
Proof. intros Hw. apply (I_outside w (fun x => mkOuter (o_db x) (f (o_proc x)) [])) in Hw. by destruct w as [? [[? ? ? [] ?]]]. Qed.

Lemma carried_on_hub f : calm f -> preserves I (ClientConnection.on_hub f).
Proof. intros Hf w. by apply I_calm. Qed.

Lemma carried_registry {A} (f : DeviceSessions.t ServerEvent -> A * DeviceSessions.t ServerEvent) :
  preserves I (ClientConnection.on_registry f).
Proof.
  intros w Hw. unfold ClientConnection.on_registry. destruct (f _) as [a r].
  by apply (I_calm w (ClientHub.set_reg r)); [apply calm_same|].
Qed.

Lemma carried_proc {A} (m : eff S A) : preserves I (ClientConnection.on_rest (on_proc m)).
Proof.
  intros w Hw. unfold ClientConnection.on_rest, on_proc. pose proof (I_proc w (fun s => snd (m s)) Hw) as Hp.
  unfold on_proc, modify in Hp. cbn in Hp. by destruct (m _).
Qed.

Lemma carried_snapshot : preserves I (ClientConnection.on_rest (ClientConnection.snapshot d)).
Proof. intros w Hw. apply (I_calm w (fun h => h)); [by apply calm_same|done]. Qed.

Lemma carried_salt : preserves I (ClientConnection.on_rest (fun r => let (s, r') := ClientConnection.random_salt d r in (Ok s, r'))).
Proof.
  intros w Hw. unfold ClientConnection.on_rest. cbn [ClientConnection.random_salt connection].
  destruct (random_salt p _) as [salt s]. by apply (I_proc w (fun _ => s)).
Qed.

Lemma carried_send_event conn ev : preserves I (ClientConnection.send_event d sock conn ev).
Proof. intros w. apply carried_on_hub, calm_send. Qed.

Create HintDb carried.
Hint Resolve carried_on_hub calm_sendTo calm_disconnect calm_forget carried_registry carried_proc carried_snapshot carried_salt carried_send_event
  preserves_ret preserves_throw preserves_gets preserves_bind preserves_try preserves_for_each : carried.

Lemma carried_send_ack conn : preserves I (ClientConnection.send_ack d sock conn).
Proof. apply preserves_bind; [auto with carried|]. intros n. destruct (0 <? n); auto with carried. Qed.

Lemma carried_replay conn e : preserves I (ClientConnection.replay_one d sock conn e).
Proof. intros w. apply carried_on_hub, calm_seal. Qed.
Hint Resolve carried_send_ack carried_replay : carried.

Lemma carried_raw m : preserves I (ClientConnection.writeRaw d sock m).
Proof. apply carried_on_hub, calm_raw. Qed.

Lemma carried_destroy : preserves I (ClientConnection.destroy d sock).
Proof. apply carried_on_hub, calm_same. done. Qed.
Hint Resolve carried_raw carried_destroy : carried.

Lemma carried_finish conn seq (handled : bool) : preserves I (ClientConnection.finish d sock conn seq handled).
Proof.
  apply preserves_bind; [destruct handled; auto with carried|]. intros _.
  apply preserves_bind; [auto with carried|]. intros []; auto with carried.
Qed.

(** A line of an authenticated socket: what carries its command carries it. *)
Lemma carried_authenticated line w : ClientHub.connFor sock (ClientConnection.hub w) <> None ->
  (ClientConnection.executes d sock line w = None -> I w) ->
  match ClientConnection.executes d sock line w with
  | None => I (snd (ClientConnection.onLine d sock line w))
  | Some (dev, seq, cmd) => exists r,
      (forall w', w' = snd (dispatch p cmd sock dev
                         (ClientConnection.mk (ClientHub.set_reg r (ClientConnection.hub w)) (ClientConnection.rest w))) -> I w' ->
        I (snd (ClientConnection.onLine d sock line w)))
  end.
Proof.
  intros Hc Hw. unfold ClientConnection.executes in *. destruct (ClientHub.connFor sock (ClientConnection.hub w)) as [conn|] eqn:Hconn; [clear Hc|done].
  pose proof (onLine_incoming d sock line w conn Hconn) as Hi.
  destruct (ClientConnection.incoming d sock line w) as [[[dev seq] cmd]|] eqn:Hin.
  + destruct Hi as [-> Hl]. rewrite Hl. clear Hl. set (dev := ClientHub.deviceId conn) in *.
    set (fresh := fst (DeviceSessions.acceptInbound dev seq (ClientConnection.registry w))) in *.
    set (h := ClientHub.set_reg (snd (DeviceSessions.acceptInbound dev seq (ClientConnection.registry w))) (ClientConnection.hub w)).
    assert (Hacc : ClientConnection.on_registry (DeviceSessions.acceptInbound dev seq) w =
      (Ok fresh, ClientConnection.mk h (ClientConnection.rest w))).
    { unfold ClientConnection.on_registry, fresh, h, ClientConnection.registry. by destruct (DeviceSessions.acceptInbound dev seq _). }
    unfold ClientConnection.on_command. fold dev.
    destruct fresh; [|unfold mbind at 1, eff_bind at 1; rewrite Hacc; apply (I_calm w (ClientHub.set_reg _)); [by apply calm_same|by apply Hw]].
    exists (snd (DeviceSessions.acceptInbound dev seq (ClientConnection.registry w))). intros w' Hd Hw'. fold h in Hd. unfold mbind at 1, eff_bind at 1. rewrite Hacc.
    cbn [ClientConnection.handleCommand connection negb].
    unfold mbind at 1, eff_bind at 1, ClientConnection.guardMessage, try_catch, mbind at 1, eff_bind at 1.
    destruct (dispatch p cmd sock _ _) as [[[]|e] w2]; cbn [snd] in Hd; subst w'; by apply carried_finish.
  + clear Hi. specialize (Hw eq_refl). unfold ClientConnection.incoming in Hin. unfold ClientConnection.onLine.
    destruct (Framing.is_blank line); [done|]. destruct (ClientConnection.parseJson d line) as [msg|]; [|done].
    rewrite Hconn in Hin. unfold mbind, eff_bind, gets. rewrite Hconn. destruct (ClientConnection.jmember "seq" msg) as [seq|e]; [|done].
    destruct (ClientConnection.open_msg conn msg seq) as [| |s c]; [done| |done].
    assert (Hp : preserves I (ClientConnection.drop_connection d sock)) by (apply preserves_bind; auto with carried).
    by apply Hp.
Qed.

Lemma carried_outside {A} (m : eff (outer S) A) : preserves I (outside p m).
Proof.
  intros w Hw. pose proof (I_outside w (fun x => snd (m x)) Hw) as Ho. revert Ho.
  unfold outside, in_bridge, HookBridge.outside, on_outer, modify. cbn. by destruct (m _).
Qed.

Lemma carried_dispatch cmd dev :
  match cmd with
  | PCmd (cmd_decide id v reason by_) => preserves I (broker_decide p id v (default "" reason) (Commands.attribution dev by_))
  | _ => True
  end -> preserves I (dispatch p cmd sock dev).
Proof.
  apply dispatched_command; [intros A m _; apply carried_outside|intros ev _; apply carried_on_hub, calm_sendTo|
    intros d; apply carried_on_hub, calm_disconnect].
Qed.

(** A line of any socket, when a new connection is carried too. *)
Section greeting.
Hypothesis I_auth : forall w s c, I w -> I (ClientConnection.mk (ClientHub.authenticate s c (ClientConnection.hub w)) (ClientConnection.rest w)).

Lemma carried_authenticate conn : preserves I (ClientConnection.on_hub (ClientHub.authenticate sock conn)).
Proof. intros w. apply I_auth. Qed.
Hint Resolve carried_authenticate : carried.

Lemma carried_hello msg : preserves I (ClientConnection.handle_hello d sock msg).
Proof.
  unfold ClientConnection.handle_hello. apply preserves_bind; [auto with carried|]. intros [dv|]; [|auto with carried].
  apply preserves_bind; [auto with carried|]. intros salt.
  apply preserves_bind; [apply carried_proc|]. intros key. apply preserves_bind; [auto with carried|]. intros now.
  apply preserves_bind; [auto with carried|]. intros resume. apply preserves_bind; [auto with carried|]. intros _.
  apply preserves_bind; [|auto with carried]. destruct resume as [evs|]; (apply preserves_bind; [auto with carried|intros _]);
    auto with carried.
Qed.

Lemma carried_unauth msg : preserves I (ClientConnection.handleUnauth d sock msg).
Proof.
  unfold ClientConnection.handleUnauth. destruct (ClientConnection.is_str "begin_pair" _);
    [|destruct (ClientConnection.is_str "complete_pair" _); [|destruct (ClientConnection.is_str "hello" _);
      [apply carried_hello|auto with carried]]].
  - destruct (negb _); [auto with carried|]. apply preserves_bind; [auto with carried|]. intros addr.
    apply preserves_bind; [apply carried_proc|]. auto with carried.
  - apply preserves_bind; [auto with carried|]. intros n. destruct (_ <=? n); [auto with carried|].
    apply preserves_bind; [apply carried_proc|]. intros [dv|r]; auto with carried.
Qed.

Lemma carried_line line w : I w ->
  match ClientConnection.executes d sock line w with
  | None => I (snd (ClientConnection.onLine d sock line w))
  | Some (dev, seq, cmd) => exists h,
      (forall w', w' = snd (dispatch p cmd sock dev (ClientConnection.mk h (ClientConnection.rest w))) -> I w' ->
        I (snd (ClientConnection.onLine d sock line w)))
  end.
Proof.
  intros Hw. destruct (ClientHub.connFor sock (ClientConnection.hub w)) as [conn|] eqn:Hc.
  - pose proof (carried_authenticated line w) as Hl. rewrite Hc in Hl. specialize (Hl ltac:(done) (fun _ => Hw)).
    destruct (ClientConnection.executes d sock line w) as [[[dev seq] cmd]|]; [|exact Hl]. destruct Hl as [r Hl]. by eexists.
  - unfold ClientConnection.executes.
    rewrite incoming_unauth by done. unfold ClientConnection.onLine. destruct (Framing.is_blank line); [done|].
    destruct (ClientConnection.parseJson d line) as [msg|]; [|done].
    unfold mbind at 1, eff_bind at 1, gets at 1. rewrite Hc.
    apply (preserves_bind I (ClientConnection.guardMessage (ClientConnection.handleUnauth d sock msg))); [| |done].
    + unfold ClientConnection.guardMessage. apply preserves_try; [|auto with carried].
      apply preserves_bind; [apply carried_unauth|auto with carried].
    + auto with carried.
Qed.

End greeting.

End carried.

(** *** The bridge inside the daemon takes the bridge's own steps *)

Lemma reach_outside d y0 v {A} (m : eff (ClientHub.t Key CSock X ServerEvent * Rest HSock S) A) :
  HookBridge.reach (Sock:=HSock) (O:=O) d y0 v -> HookBridge.reach d y0 (snd (HookBridge.outside m v)).
Proof.
  intros Hr. replace (snd (HookBridge.outside m v)) with (snd (HookBridge.outside (modify (fun y => snd (m y))) v)).
  - eapply HookBridge.reach_step; [exact Hr|apply HookBridge.step_outside].
  - unfold HookBridge.outside, modify. by destruct (m _).
Qed.

Lemma view_on_hub f w : view (snd (ClientConnection.on_hub f w)) =
  snd (HookBridge.outside (modify (fun y => (f (fst y), snd y))) (view w)).
Proof. by destruct w as [? [[]]]. Qed.

(** The daemon refines the hook bridge. *)
Lemma run_reach p h d s ins :
  HookBridge.reach (bridge p) (h, mkRest d [] s) (view (run p (boot h d s) ins)).
Proof.
  set (I := fun w => HookBridge.reach (bridge p) (h, mkRest d [] s) (view w)).
  assert (Hhub : forall w f, I w -> I (ClientConnection.mk (f (ClientConnection.hub w)) (ClientConnection.rest w))).
  { intros w f Hw. change (I (snd (ClientConnection.on_hub f w))). unfold I. rewrite view_on_hub. by apply reach_outside. }
  assert (Hout : forall w f, I w -> I (snd (outside p (modify f) w))).
  { intros w f Hw. unfold I, outside. rewrite view_in_bridge. by apply reach_outside. }
  assert (Hdec : forall id v reason by_, preserves I (broker_decide p id v reason by_)).
  { intros id v reason by_ w Hw. unfold I, broker_decide. rewrite view_in_bridge.
    eapply HookBridge.reach_step; [exact Hw|apply HookBridge.step_decide]. }
  change (I (run p (boot h d s) ins)). unfold run. induction ins as [|i ins IH] using rev_ind; [apply HookBridge.reach_new|].
  rewrite foldl_app. cbn [foldl]. set (w := foldl (step p) (boot h d s) ins) in *.
  destruct i as [sock line|sock|sock line|sock|id|f|f]; cbn [step].
  - pose proof (carried_line I p sock (fun w f _ => Hhub w f) Hout (fun w s c => Hhub w (ClientHub.authenticate s c)) line w IH) as Hl.
    destruct (ClientConnection.executes (connection p sock) sock line w) as [[[dev seq] cmd]|]; [|done].
    destruct Hl as [h' Hl]. apply (Hl _ eq_refl).
    apply (carried_dispatch I p sock (fun w f _ => Hhub w f) Hout); [by destruct cmd as [[]|]|]. by apply (Hhub w (fun _ => h')).
  - by apply (Hhub w (ClientHub.forget sock)).
  - unfold I. rewrite view_in_bridge. eapply HookBridge.reach_step; [exact IH|apply HookBridge.step_line].
  - unfold I. rewrite view_in_bridge. eapply HookBridge.reach_step; [exact IH|apply HookBridge.step_close].
  - case_bool_decide as Hin; [|done]. unfold I, purge. rewrite view_of_view.
    eapply HookBridge.reach_step; [exact IH|]. apply HookBridge.step_purge. exact Hin.
  - by apply Hout.
  - by apply (Hhub w (fun h => ClientHub.set_net (f (ClientHub.net h)) h)).
Qed.

Lemma daemon_inv p h d s ins : broker_wf (view (run p (boot h d s) ins)).
Proof. eapply wf_reach, run_reach. Qed.

(** *** What goes out on the hook sockets *)

Notation Broker := (ApprovalBroker.t (HookBridge.Handle HSock O) (ClientHub.t Key CSock X ServerEvent * Rest HSock S)).

Definition bout (b : Broker) : list (HSock * HookBridge.HookDecision) := hook_out (snd (ApprovalBroker.ext b)).

Definition to_waiter (o : option (HookBridge.Handle HSock O)) (v : Verdict) (reason : string) : list (HSock * HookBridge.HookDecision) :=
  match o with Some h => [(HookBridge.h_sock h, HookBridge.mkHookDecision v reason)] | None => [] end.

Lemma call_waiter_out p o v reason b :
  bout (snd (ApprovalBroker.call_waiter (HookBridge.ports (bridge p)) o v reason b)) = bout b ++ to_waiter o v reason.
Proof.
  destruct o as [h|]; [|by rewrite app_nil_r]. unfold bout, ApprovalBroker.call_waiter, mbind, eff_bind, modify, ApprovalBroker.outside.
  cbn. unfold HookBridge.respond, HookBridge.announce, mbind, eff_bind, modify, gets. cbn. by destruct (HookBridge.h_owner h).
Qed.

Lemma resolved_out p a b :
  bout (snd (ApprovalBroker.outside (on_resolved p a) b)) = bout b.
Proof.
  unfold bout, ApprovalBroker.outside, on_resolved, on_db, mbind, eff_bind. destruct (decision a); [|done].
  by destruct (Daemon.p_store_fault _ _).
Qed.

Lemma tail_out {A} p o v reason a id (k : eff Broker A) b :
  (forall b', bout (snd (k b')) = bout b') ->
  bout (snd ((ApprovalBroker.call_waiter (HookBridge.ports (bridge p)) o v reason ;;
    ApprovalBroker.outside (on_resolved p a) ;; ApprovalBroker.schedule_purge id ;; k) b)) = bout b ++ to_waiter o v reason.
Proof.
  intros Hk. rewrite <- (call_waiter_out p o v reason b). unfold mbind, eff_bind.
  destruct (ApprovalBroker.call_waiter _ o v reason b) as [[u|e] b1]; [|done]. cbn [snd].
  rewrite <- (resolved_out p a b1). destruct (ApprovalBroker.outside (on_resolved p a) b1) as [[u'|e] b2]; [|done].
  cbn [ApprovalBroker.schedule_purge modify snd]. by rewrite Hk.
Qed.

Lemma decide_out p now id v reason by_ b a :
  mget id (ApprovalBroker.pending b) = Some a -> decision a = None ->
  bout (snd (ApprovalBroker.decide (HookBridge.ports (bridge p)) now id v reason by_ b)) =
    bout b ++ to_waiter (mget id (ApprovalBroker.waiters b)) v reason.
Proof.
  intros Ha Hd. unfold ApprovalBroker.decide. unfold mbind at 1, eff_bind at 1, gets at 1. cbn [Datatypes.id].
  rewrite Ha, Hd. unfold mbind at 1, eff_bind at 1, modify at 1. unfold mbind at 1, eff_bind at 1, gets at 1.
  unfold mbind at 1, eff_bind at 1, modify at 1. cbn [ApprovalBroker.set_pending ApprovalBroker.set_waiters ApprovalBroker.waiters].
  match goal with |- bout (snd (_ ?b0)) = _ =>
    exact (tail_out p (mget id (ApprovalBroker.waiters b)) v reason (ApprovalBroker.with_decision a (mkDecision v reason by_ now)) id
      (mret ApprovalBroker.ok) b0 (fun _ => eq_refl)) end.
Qed.

Lemma abandon_out p now id b :
  exists l, bout (snd (ApprovalBroker.abandon (HookBridge.ports (bridge p)) now id b)) = bout b ++ l /\
    Forall (fun x => HookBridge.hk_decision (snd x) = deny) l.
Proof.
  unfold ApprovalBroker.abandon. unfold mbind at 1, eff_bind at 1, gets at 1. cbn [Datatypes.id].
  destruct (mget id (ApprovalBroker.pending b)) as [a|]; [destruct (decision a)|]; [by exists []; rewrite app_nil_r| |by exists []; rewrite app_nil_r].
  exists (to_waiter (mget id (ApprovalBroker.waiters b)) deny ApprovalBroker.abandoned). split.
  - unfold mbind at 1, eff_bind at 1, gets at 1. unfold mbind at 1, eff_bind at 1, modify at 1.
    unfold mbind at 1, eff_bind at 1, modify at 1. cbn [ApprovalBroker.set_pending ApprovalBroker.set_waiters ApprovalBroker.waiters].
    match goal with |- bout (snd (_ ?b0)) = _ =>
      exact (tail_out p (mget id (ApprovalBroker.waiters b)) deny ApprovalBroker.abandoned
        (ApprovalBroker.with_decision a (mkDecision deny ApprovalBroker.abandoned "daemon" now)) id (mret tt) b0 (fun _ => eq_refl)) end.
  - destruct (mget id (ApprovalBroker.waiters b)); by repeat constructor.
Qed.

(** *** The row of a decision *)

Definition bdb (b : Broker) : Db.t := db (snd (ApprovalBroker.ext b)).
Definition bproc (b : Broker) : S := proc (snd (ApprovalBroker.ext b)).

Lemma call_waiter_db p o v reason b : exists b',
  ApprovalBroker.call_waiter (HookBridge.ports (bridge p)) o v reason b = (Ok tt, b') /\ bdb b' = bdb b.
Proof.
  destruct o as [h|]; [|by eexists]. unfold bdb, ApprovalBroker.call_waiter, mbind, eff_bind, modify, ApprovalBroker.outside.
  cbn. unfold HookBridge.respond, HookBridge.announce, mbind, eff_bind, modify, gets. cbn. destruct (HookBridge.h_owner h); by eexists.
Qed.

(** Up to its listeners, a decision leaves the store alone. *)
Lemma decide_to_listener p now id v reason by_ b a :
  mget id (ApprovalBroker.pending b) = Some a -> decision a = None ->
  exists b1, bdb b1 = bdb b /\
    ApprovalBroker.decide (HookBridge.ports (bridge p)) now id v reason by_ b =
      (ApprovalBroker.outside (on_resolved p (ApprovalBroker.with_decision a (mkDecision v reason by_ now))) ;;
       ApprovalBroker.schedule_purge id ;; mret ApprovalBroker.ok) b1.
Proof.
  intros Ha Hd. unfold ApprovalBroker.decide. unfold mbind at 1, eff_bind at 1, gets at 1. cbn [Datatypes.id].
  rewrite Ha, Hd. unfold mbind at 1, eff_bind at 1, modify at 1. unfold mbind at 1, eff_bind at 1, gets at 1.
  unfold mbind at 1, eff_bind at 1, modify at 1. cbn [ApprovalBroker.set_pending ApprovalBroker.set_waiters ApprovalBroker.waiters].
  unfold mbind at 1, eff_bind at 1.
  match goal with |- context [ApprovalBroker.call_waiter _ ?o v reason ?b0] => destruct (call_waiter_db p o v reason b0) as (b1 & -> & Hb) end.
  by exists b1.
Qed.

Lemma decide_db p now id v reason by_ b a :
  mget id (ApprovalBroker.pending b) = Some a -> decision a = None ->
  let b' := snd (ApprovalBroker.decide (HookBridge.ports (bridge p)) now id v reason by_ b) in
  bdb b' = taken p (bproc b') (Db.recordApprovalDecision (toolUseId a) v reason by_ now) (bdb b).
Proof.
  intros Ha Hd. destruct (decide_to_listener p now id v reason by_ b a Ha Hd) as (b1 & <- & ->).
  unfold bdb, bproc, taken, mbind, eff_bind, ApprovalBroker.outside, on_resolved, on_db.
  cbn [decision ApprovalBroker.with_decision]. unfold mbind, eff_bind.
  destruct (Daemon.p_store_fault (process p) (proc (snd (ApprovalBroker.ext b1)))) as [e|] eqn:Hf; cbn; by rewrite Hf.
Qed.

(** *** The effect of each input on the broker and on the hook sockets *)

Definition gate w : jsmap string PendingApproval * jsmap string (HookBridge.Handle HSock O) * list (HSock * HookBridge.HookDecision) :=
  (pending w, waiting w, out w).

Definition gate_of (v : HookBridge.t HSock O (ClientHub.t Key CSock X ServerEvent * Rest HSock S)) :=
  (ApprovalBroker.pending (HookBridge.broker v), ApprovalBroker.waiters (HookBridge.broker v), bout (HookBridge.broker v)).

Lemma gate_outside p w f : gate (snd (outside p (modify f) w)) = gate w.
Proof. done. Qed.

Lemma broker_decide_view p id v reason by_ w (P : Broker -> Prop) :
  P (snd (ApprovalBroker.decide (HookBridge.ports (bridge p)) (Daemon.p_clock (process p) (proc_of (ClientConnection.rest w))) id v reason by_
      (HookBridge.broker (view w)))) ->
  P (HookBridge.broker (view (snd (broker_decide p id v reason by_ w)))).
Proof.
  unfold broker_decide. rewrite view_in_bridge. unfold HookBridge.on_broker. by destruct (ApprovalBroker.decide _ _ _ _ _ _ _).
Qed.

(** A decision on an undecided request. *)
Lemma broker_decide_settles p id v reason by_ w a : mget id (pending w) = Some a -> decision a = None ->
  let w' := snd (broker_decide p id v reason by_ w) in
  exists now, pending w' = mset id (ApprovalBroker.with_decision a (mkDecision v reason by_ now)) (pending w) /\
    waiting w' = mdelete id (waiting w) /\ out w' = out w ++ to_waiter (mget id (waiting w)) v reason /\
    store w' = taken p (proc_of (ClientConnection.rest w')) (Db.recordApprovalDecision (toolUseId a) v reason by_ now) (store w).
Proof.
  intros Ha Hd. cbv zeta. set (now := Daemon.p_clock (process p) (proc_of (ClientConnection.rest w))). exists now. set (b := HookBridge.broker (view w)).
  pose proof (decide_settles (HookBridge.ports (bridge p)) now id v reason by_ b a Ha Hd) as [H1 H2 _ _].
  pose proof (decide_out p now id v reason by_ b a Ha Hd) as H3. pose proof (decide_db p now id v reason by_ b a Ha Hd) as H4.
  split_and!; [refine (broker_decide_view p id v reason by_ w (fun b' => ApprovalBroker.pending b' = _) _)|
    refine (broker_decide_view p id v reason by_ w (fun b' => ApprovalBroker.waiters b' = _) _)|
    refine (broker_decide_view p id v reason by_ w (fun b' => bout b' = _) _)|
    refine (broker_decide_view p id v reason by_ w (fun b' => bdb b' = taken p (bproc b') _ _) _)]; done.
Qed.

Lemma broker_decide_gate p id v reason by_ w :
  let w' := snd (broker_decide p id v reason by_ w) in
  gate w' = gate w \/
  exists a now, mget id (pending w) = Some a /\ decision a = None /\
    pending w' = mset id (ApprovalBroker.with_decision a (mkDecision v reason by_ now)) (pending w) /\
    waiting w' = mdelete id (waiting w) /\ out w' = out w ++ to_waiter (mget id (waiting w)) v reason.
Proof.
  cbv zeta. destruct (mget id (pending w)) as [a|] eqn:Ha; [destruct (decision a) eqn:Hd|].
  2:{ right. destruct (broker_decide_settles p id v reason by_ w a Ha Hd) as (now & H1 & H2 & H3 & _). by exists a, now. }
  all: left; refine (broker_decide_view p id v reason by_ w (fun b' => (ApprovalBroker.pending b', ApprovalBroker.waiters b', bout b') = _) _).
  all: cbn beta; rewrite (proj1 (decide_idle _ _ id v reason by_ (HookBridge.broker (view w)) ltac:(intros a' Ha'; change (mget id (pending w) = Some a') in Ha'; congruence))); done.
Qed.

(** The command that decides. *)
Lemma dispatch_decide p sock dev id v reason by_ w (P : World -> Prop) :
  (forall w' h, w' = snd (broker_decide p id v (default "" reason) (Commands.attribution dev by_) w) -> P (ClientConnection.mk h (ClientConnection.rest w'))) ->
  P (snd (dispatch p (PCmd (cmd_decide id v reason by_)) sock dev w)).
Proof.
  intros HP. cbn [dispatch Commands.handleCommand]. unfold mbind at 1, eff_bind at 1. cbn [commands Commands.broker_decide].
  destruct (broker_decide p id v _ _ w) as [[[| |]|e] w2]; cbn [snd] in HP.
  - specialize (HP w2 (ClientConnection.hub w2) eq_refl). by destruct w2.
  - apply (HP w2 _ eq_refl).
  - apply (HP w2 _ eq_refl).
  - specialize (HP w2 (ClientConnection.hub w2) eq_refl). by destruct w2.
Qed.

Lemma other_command p sock dev cmd w :
  match cmd with PCmd (cmd_decide _ _ _ _) => False | _ => True end -> gate (snd (dispatch p cmd sock dev w)) = gate w.
Proof.
  intros Hc. apply (carried_dispatch (fun x => gate x = gate w) p sock (fun w f _ Hx => Hx) (fun w f Hx => Hx)); [|done].
  by destruct cmd as [[]|].
Qed.

Lemma client_line_gate p sock line w :
  let w' := step p w (ClientLine sock line) in
  gate w' = gate w \/
  exists dev seq id v reason by_,
    ClientConnection.executes (connection p sock) sock line w = Some (dev, seq, PCmd (cmd_decide id v reason by_)) /\
    exists a now, mget id (pending w) = Some a /\ decision a = None /\
      pending w' = mset id (ApprovalBroker.with_decision a (mkDecision v (default "" reason) (Commands.attribution dev by_) now)) (pending w) /\
      waiting w' = mdelete id (waiting w) /\ out w' = out w ++ to_waiter (mget id (waiting w)) v (default "" reason).
Proof.
  cbv zeta. cbn [step]. set (g := gate w).
  set (line_end := snd (ClientConnection.onLine (connection p sock) sock line w)).
  (** every state the gate can be in after the dispatcher *)
  assert (Hany : forall Q : _ -> Prop, Q g ->
    (forall dev seq cmd h, ClientConnection.executes (connection p sock) sock line w = Some (dev, seq, cmd) ->
       Q (gate (snd (dispatch p cmd sock dev (ClientConnection.mk h (ClientConnection.rest w)))))) -> Q (gate line_end)).
  { intros Q Hq Hcmd. pose proof (carried_line (fun x => Q (gate x)) p sock (fun w f _ Hx => Hx) (fun w f Hx => Hx) (fun w s c Hx => Hx) line w Hq) as Hl.
    destruct (ClientConnection.executes (connection p sock) sock line w) as [[[dev seq] cmd]|]; [|exact Hl].
    destruct Hl as [h Hl]. apply (Hl _ eq_refl). by apply (Hcmd dev seq). }
  refine (Hany (fun g' => g' = g \/ exists dev seq id v reason by_,
    ClientConnection.executes (connection p sock) sock line w = Some (dev, seq, PCmd (cmd_decide id v reason by_)) /\
    exists a now, mget id g.1.1 = Some a /\ decision a = None /\
      g'.1.1 = mset id (ApprovalBroker.with_decision a (mkDecision v (default "" reason) (Commands.attribution dev by_) now)) g.1.1 /\
      g'.1.2 = mdelete id g.1.2 /\ g'.2 = g.2 ++ to_waiter (mget id g.1.2) v (default "" reason)) _ _); [by left|].
  intros dev seq cmd h Hex. set (w1 := ClientConnection.mk h (ClientConnection.rest w)).
  destruct cmd as [[|l|cwd lb dt m pm ef|sid tx|sid|sid m|sid m|id v reason by_|tg|tk pl]|ev];
    try (left; by apply (other_command p)).
  pose proof (broker_decide_gate p id v (default "" reason) (Commands.attribution dev by_) w1) as Hd. cbv zeta in Hd.
  assert (Hkeep : forall g', gate (snd (broker_decide p id v (default "" reason) (Commands.attribution dev by_) w1)) = g' ->
    gate (snd (dispatch p (PCmd (cmd_decide id v reason by_)) sock dev w1)) = g').
  { intros g' Hg'. cbn [dispatch Commands.handleCommand]. unfold mbind at 1, eff_bind at 1. cbn [commands Commands.broker_decide].
    destruct (broker_decide p id v _ _ w1) as [[[| |]|e] w2]; cbn [snd] in Hg'; by rewrite <- Hg'. }
  destruct Hd as [Hd|(a & now & H1 & H2 & H3 & H4 & H5)].
  - left. apply Hkeep. exact Hd.
  - right. exists dev, seq, id, v, reason, by_. split; [exact Hex|]. rewrite (Hkeep _ eq_refl). by exists a, now.
Qed.

Definition denials (l : list (HSock * HookBridge.HookDecision)) : Prop :=
  Forall (fun x => HookBridge.hk_decision (snd x) = deny) l.

Lemma pending_out p a (y : Hub * Rest HSock S) : hook_out (snd (snd (on_pending p a y))) = hook_out (snd y).
Proof. unfold on_pending, on_db, mbind, eff_bind. by destruct (Daemon.p_store_fault _ _). Qed.

Lemma hook_line_gate p sock line w :
  let w' := step p w (HookLine sock line) in
  (pending w' = pending w /\ waiting w' = waiting w /\ exists l, out w' = out w ++ l /\ denials l) \/
  exists ev owner, Daemon.p_parse (process p) line = Some (HookBridge.HookRequest ev) /\
    mhas (toolUseId (asked p ev w)) (pending w) = false /\
    pending w' = mset (toolUseId (asked p ev w)) (asked p ev w) (pending w) /\
    waiting w' = mset (toolUseId (asked p ev w)) (HookBridge.mkHandle sock owner (toolUseId (asked p ev w))) (waiting w) /\
    out w' = out w.
Proof.
  cbv zeta. cbn [step].
  assert (Hsame : pending w = pending w /\ waiting w = waiting w /\ exists l, out w = out w ++ l /\ denials l)
    by (split_and!; [done|done|]; exists []; rewrite app_nil_r; by split; [|constructor]).
  unfold HookBridge.onLine. destruct (Framing.is_blank line); [left; exact Hsame|].
  cbn [HookBridge.parseJson bridge]. destruct (Daemon.p_parse (process p) line) as [[| |ev]|]; try (left; exact Hsame).
  set (y := ApprovalBroker.ext (HookBridge.broker (view w))).
  set (owner := HookBridge.sessionByClaudeId (bridge p) (HookBridge.ev_session_id ev) y).
  set (a := asked p ev w). set (h := HookBridge.mkHandle sock owner (toolUseId a)).
  assert (Hw : forall x, snd (in_bridge (try_catch x (fun _ => mret tt)) w) = of_view (snd (x (view w)))).
  { intros x. unfold in_bridge, try_catch. by destruct (x (view w)) as [[[]|e] v]. }
  rewrite Hw. clear Hw. set (v' := snd (HookBridge.openRequest (bridge p) sock ev (view w))).
  destruct (mhas (toolUseId a) (pending w)) eqn:Hh.
  - left. assert (Hv : v' = snd ((HookBridge.outside (modify (hook_write p sock (HookBridge.mkHookDecision deny HookBridge.duplicate_reason))) ;;
      HookBridge.outside (modify (set_proc (Daemon.p_sock_destroy (process p) sock)))) (view w))).
    { unfold v', HookBridge.openRequest. unfold mbind at 1, eff_bind at 1, gets at 1. fold y. fold owner.
      change (HookBridge.approval_of (bridge p) ev owner (HookBridge.clock (bridge p) y)) with a.
      unfold mbind at 1, eff_bind at 1, HookBridge.on_broker at 1. by rewrite open_lost by exact Hh. }
    rewrite Hv. split_and!; [reflexivity|reflexivity|].
    exists [(sock, HookBridge.mkHookDecision deny HookBridge.duplicate_reason)]. split; [reflexivity|repeat constructor].
  - right. exists ev, owner.
    assert (Hv : gate_of v' =
      (mset (toolUseId a) a (pending w), mset (toolUseId a) h (waiting w), out w)).
    { unfold v', HookBridge.openRequest. unfold mbind at 1, eff_bind at 1, gets at 1. fold y. fold owner.
      change (HookBridge.approval_of (bridge p) ev owner (HookBridge.clock (bridge p) y)) with a. fold h.
      unfold mbind at 1, eff_bind at 1, HookBridge.on_broker at 1, ApprovalBroker.open, mbind at 1, eff_bind at 1, gets at 1. cbn [Datatypes.id].
      change (mhas (toolUseId a) (ApprovalBroker.pending (HookBridge.broker (view w)))) with (mhas (toolUseId a) (pending w)). rewrite Hh.
      unfold mbind, eff_bind, modify, ApprovalBroker.outside. cbn [ApprovalBroker.on_pending HookBridge.ports HookBridge.listen_pending bridge].
      match goal with |- context [on_pending p a ?y1] => pose proof (pending_out p a y1) as Ho; destruct (on_pending p a y1) as [[u|e] y2] end.
      all: rewrite <- (Ho : _ = out w); by destruct owner. }
    unfold gate_of in Hv. injection Hv as H1 H2 H3. by split_and!.
Qed.

Lemma close_out p ids v : exists l,
  hook_out (snd (ApprovalBroker.ext (HookBridge.broker (snd (for_each (HookBridge.abandon (bridge p)) ids v))))) =
    hook_out (snd (ApprovalBroker.ext (HookBridge.broker v))) ++ l /\ denials l.
Proof.
  revert v. induction ids as [|id ids IH]; intros v; cbn [for_each]; [exists []; rewrite app_nil_r; by split; [|constructor]|].
  unfold mbind, eff_bind, HookBridge.abandon at 1, HookBridge.on_broker.
  destruct (abandon_out p (HookBridge.clock (bridge p) (ApprovalBroker.ext (HookBridge.broker v))) id (HookBridge.broker v)) as (l1 & H1 & Hl1).
  destruct (ApprovalBroker.abandon _ _ _ _) as [[u|e] b]; cbn [snd] in *; [|by exists l1].
  destruct (IH (HookBridge.mk b (HookBridge.claimed v))) as (l2 & H2 & Hl2). exists (l1 ++ l2). split.
  - rewrite H2. cbn [HookBridge.broker]. unfold bout in H1. by rewrite H1, app_assoc.
  - by apply Forall_app.
Qed.

(** What still waits after the close of a hook socket is what waited, as it was. *)
Lemma hook_close_gate p sock w : broker_wf (view w) ->
  let w' := step p w (HookClose sock) in
  (forall id h, mget id (waiting w') = Some h -> mget id (waiting w) = Some h /\ mget id (pending w') = mget id (pending w)) /\
  exists l, out w' = out w ++ l /\ denials l.
Proof.
  intros Hi. cbv zeta. cbn [step]. unfold waiting, pending, out.
  assert (Hv : forall (m : eff _ unit), HookBridge.broker (ClientConnection.rest (snd (in_bridge m w))) =
    map_ext snd (HookBridge.broker (snd (m (view w))) : Broker)).
  { intros m. unfold in_bridge. by destruct (m (view w)). }
  rewrite Hv. unfold HookBridge.onClose. set (ids := HookBridge.claims sock (view w)). split.
  - apply (close_keeps (bridge p) ids (view w) Hi).
  - apply (close_out p ids (view w)).
Qed.

Lemma purge_gate p id w : broker_wf (view w) ->
  let w' := step p w (PurgeTimer id) in
  (forall i h, mget i (waiting w') = Some h -> mget i (waiting w) = Some h /\ mget i (pending w') = mget i (pending w)) /\ out w' = out w.
Proof.
  intros Hwf. cbv zeta. cbn [step]. case_bool_decide as Hin; [|done]. split; [|done].
  intros i h Hg. split; [exact Hg|]. change (pending (purge id w)) with (mdelete id (pending w)).
  rewrite mget_mdelete. case_decide as Hi; [|done]. subst i. exfalso.
  destruct (ApprovalBroker.wf_timers _ Hwf id Hin) as (a & Ha & Hd).
  assert (Hwt : mhas id (ApprovalBroker.waiters (HookBridge.broker (view w))) = true) by (unfold mhas; change (mget id (ApprovalBroker.waiters (HookBridge.broker (view w))) = Some h) in Hg; by rewrite Hg).
  apply (ApprovalBroker.wf_waiting _ Hwf) in Hwt as (a' & Ha' & Hn). congruence.
Qed.

(** *** What every run has come through *)

(** A request that waits was asked for by a line of its socket, and is pending as it was
    asked; a decision other than a denial that went out on a hook socket was a client's
    command, on a request that waited on that socket. *)
Definition explained p (w0 : World) (ins : list (input CSock HSock X S)) : Prop :=
  let w := run p w0 ins in
  (forall id h, mget id (waiting w) = Some h -> exists pre line post ev,
     ins = pre ++ HookLine (HookBridge.h_sock h) line :: post /\
     Daemon.p_parse (process p) line = Some (HookBridge.HookRequest ev) /\
     toolUseId (asked p ev (run p w0 pre)) = id /\ mget id (pending w) = Some (asked p ev (run p w0 pre))) /\
  (forall sock d, (sock, d) ∈ out w -> HookBridge.hk_decision d = allow ->
     exists pre cs line post dev seq id reason by_ h,
       ins = pre ++ ClientLine cs line :: post /\
       ClientConnection.executes (connection p cs) cs line (run p w0 pre) = Some (dev, seq, PCmd (cmd_decide id allow reason by_)) /\
       HookBridge.hk_reason d = default "" reason /\
       mget id (waiting (run p w0 pre)) = Some h /\ HookBridge.h_sock h = sock).

Lemma daemon_run_snoc p w0 ins i : run p w0 (ins ++ [i]) = step p (run p w0 ins) i.
Proof. unfold run. by rewrite foldl_app. Qed.

(** What keeps the waiting requests and sends only denials keeps the account. *)
Lemma explained_quiet p w0 ins i :
  let w := run p w0 ins in let w' := step p w i in
  (forall id h, mget id (waiting w') = Some h -> mget id (waiting w) = Some h /\ mget id (pending w') = mget id (pending w)) ->
  (exists l, out w' = out w ++ l /\ denials l) ->
  explained p w0 ins -> explained p w0 (ins ++ [i]).
Proof.
  cbv zeta. intros Hw (l & Hl & Hd) [H1 H2]. unfold explained. rewrite daemon_run_snoc. split.
  - intros id h Hg. destruct (Hw id h Hg) as [Hg' Hp]. destruct (H1 id h Hg') as (pre & line & post & ev & -> & Hrest).
    exists pre, line, (post ++ [i]), ev. rewrite Hp. by rewrite <- app_assoc.
  - intros sock d. rewrite Hl, elem_of_app. intros [Hin|Hin] Ha.
    + destruct (H2 sock d Hin Ha) as (pre & cs & line & post & dev & seq & id & reason & by_ & h & -> & Hrest).
      exists pre, cs, line, (post ++ [i]), dev, seq, id, reason, by_, h. by rewrite <- app_assoc.
    + unfold denials in Hd. rewrite Forall_forall in Hd. specialize (Hd _ Hin). cbn in Hd. congruence.
Qed.

Lemma explained_run p h d s ins : explained p (boot h d s) ins.
Proof.
  induction ins as [|i ins IH] using rev_ind.
  { split; [done|]. intros sock e Hin. by apply not_elem_of_nil in Hin. }
  pose proof (daemon_inv p h d s ins) as Hi. set (w := run p (boot h d s) ins) in *.
  destruct i as [sock line|sock|sock line|sock|id|f|f].
  - destruct (client_line_gate p sock line w) as [Hg|(dev & seq & id & v & reason & by_ & Hex & a & now & Ha & Hd & Hp & Hw & Ho)].
    + unfold gate in Hg. apply pair_equal_spec in Hg as [[Hp Hw]%pair_equal_spec Ho]. apply explained_quiet; [|exists []; rewrite app_nil_r; by split; [|constructor]|done].
      intros i hd. fold w. by rewrite Hw, Hp.
    + destruct IH as [H1 H2]. unfold explained. rewrite daemon_run_snoc. fold w. split.
      * intros i hd. rewrite Hw, Hp, mget_mdelete, mget_mset. case_decide as Hne; [done|]. intros Hg.
        destruct (H1 i hd Hg) as (pre & l & post & ev & Heq & Hrest). rewrite ?decide_False by done.
        exists pre, l, (post ++ [ClientLine sock line]), ev. split; [|exact Hrest]. rewrite Heq. by rewrite <- app_assoc.
      * intros hs e. rewrite Ho, elem_of_app. intros [Hin|Hin] Hall.
        -- destruct (H2 hs e Hin Hall) as (pre & cs & l & post & dev' & seq' & id' & reason' & by' & h' & Heq & Hrest).
           exists pre, cs, l, (post ++ [ClientLine sock line]), dev', seq', id', reason', by', h'. split; [|exact Hrest].
           rewrite Heq. by rewrite <- app_assoc.
        -- unfold to_waiter in Hin. destruct (mget id (waiting w)) as [hd|] eqn:Hhd; [|by apply not_elem_of_nil in Hin].
           apply list_elem_of_singleton in Hin. injection Hin as -> ->. cbn in Hall. subst v.
           exists ins, sock, line, [], dev, seq, id, reason, by_, hd. by split_and!.
  - apply explained_quiet; [by intros|exists []; rewrite app_nil_r; by split; [|constructor]|done].
  - destruct (hook_line_gate p sock line w) as [(Hp & Hw & Ho)|(ev & owner & Hpar & Hh & Hp & Hw & Ho)].
    + apply explained_quiet; [|done|done]. intros i hd. fold w. by rewrite Hw, Hp.
    + destruct IH as [H1 H2]. unfold explained. rewrite daemon_run_snoc. fold w. split.
      * intros i hd. rewrite Hw, Hp, !mget_mset. case_decide as Hne.
        -- intros [= <-]. exists ins, line, [], ev. by split_and!.
        -- intros Hg. destruct (H1 i hd Hg) as (pre & l & post & ev' & Heq & Hrest).
           exists pre, l, (post ++ [HookLine sock line]), ev'. split; [|exact Hrest]. rewrite Heq. by rewrite <- app_assoc.
      * intros hs e. rewrite Ho. intros Hin Hall.
        destruct (H2 hs e Hin Hall) as (pre & cs & l & post & dev' & seq' & id' & reason' & by' & h' & Heq & Hrest).
        exists pre, cs, l, (post ++ [HookLine sock line]), dev', seq', id', reason', by', h'. split; [|exact Hrest].
        rewrite Heq. by rewrite <- app_assoc.
  - destruct (hook_close_gate p sock w Hi) as [Hw Ho]. by apply explained_quiet.
  - destruct (purge_gate p id w Hi) as [Hw Ho]. apply explained_quiet; [done| |done]. exists []. rewrite app_nil_r. by split; [|constructor].
  - apply explained_quiet; [by intros|exists []; rewrite app_nil_r; by split; [|constructor]|done].
  - apply explained_quiet; [by intros|exists []; rewrite app_nil_r; by split; [|constructor]|done].
Qed.

(** *** Who is connected *)

(** The hub through the bridge: no operation of the bridge authenticates a socket. *)
Section bridge_calm.
Variables (p : Parts Key Nonce CSock HSock O X H S) (J : Hub -> Prop).
Hypothesis J_announce : forall ev h, unacked ev -> J h -> J (ClientHub.broadcast (net p) (fun e => e) ev h).
Notation View := (HookBridge.t HSock O (Hub * Rest HSock S)).

Lemma calm_still (f : Hub * Rest HSock S -> Hub * Rest HSock S) :
  (forall y, fst (f y) = fst y) -> preserves (fun y => J (fst y)) (modify f).
Proof. intros Hf y Hy. cbn. by rewrite Hf. Qed.

Lemma calm_announce ev : unacked ev -> preserves (fun y => J (fst y)) (broadcast p ev).
Proof. intros Hev y. by apply J_announce. Qed.

Lemma calm_owner o : preserves (fun y => J (fst y)) (HookBridge.announce (bridge p) o).
Proof. destruct o as [o|]; [|apply preserves_ret]. apply preserves_bind; [apply preserves_gets|]. intros i. by apply calm_announce. Qed.

Lemma calm_respond hd v r : preserves (fun y => J (fst y)) (HookBridge.respond (bridge p) hd v r).
Proof.
  apply preserves_bind; [by apply calm_still|]. intros _. apply preserves_bind; [|intros; apply calm_owner].
  apply calm_still. intros y. by destruct (HookBridge.h_owner hd).
Qed.

Lemma calm_db f : preserves (fun y => J (fst y)) (on_db p f).
Proof. intros y Hy. unfold on_db. by destruct (Daemon.p_store_fault _ _). Qed.

Lemma calm_pending a : preserves (fun y => J (fst y)) (on_pending p a).
Proof. apply preserves_bind; [apply calm_db|]. intros _. by apply calm_still. Qed.

Lemma calm_resolved a : preserves (fun y => J (fst y)) (on_resolved p a).
Proof.
  unfold on_resolved. destruct (decision a); [|apply preserves_throw].
  apply preserves_bind; [apply calm_db|]. intros _. by apply calm_announce.
Qed.

Definition JB (b : Broker) : Prop := J (fst (ApprovalBroker.ext b)).

Lemma calm_broker_outside (m : eff (Hub * Rest HSock S) unit) :
  preserves (fun y => J (fst y)) m -> preserves JB (ApprovalBroker.outside m).
Proof. intros Hm b Hb. unfold ApprovalBroker.outside. specialize (Hm _ Hb). by destruct (m _). Qed.

Lemma calm_waiter o v r : preserves JB (ApprovalBroker.call_waiter (HookBridge.ports (bridge p)) o v r).
Proof.
  destruct o as [hd|]; [|apply preserves_ret]. apply preserves_bind; [by intros b Hb|]. intros _.
  by apply calm_broker_outside, calm_respond.
Qed.

Lemma calm_settle {A} o v r a id (k : eff Broker A) : preserves JB k ->
  preserves JB (ApprovalBroker.call_waiter (HookBridge.ports (bridge p)) o v r ;;
    ApprovalBroker.outside (on_resolved p a) ;; ApprovalBroker.schedule_purge id ;; k).
Proof.
  intros Hk. apply preserves_bind; [apply calm_waiter|]. intros _.
  apply preserves_bind; [apply calm_broker_outside, calm_resolved|]. intros _. apply preserves_bind; [by intros b Hb|]. by intros _.
Qed.

Lemma calm_decide now id v r by_ : preserves JB (ApprovalBroker.decide (HookBridge.ports (bridge p)) now id v r by_).
Proof.
  apply preserves_bind; [apply preserves_gets|]. intros b. destruct (mget id _) as [a|]; [|apply preserves_ret].
  destruct (decision a); [apply preserves_ret|]. apply preserves_bind; [by intros b' Hb|]. intros _.
  apply preserves_bind; [apply preserves_gets|]. intros o. apply preserves_bind; [by intros b' Hb|]. intros _.
  apply calm_settle, preserves_ret.
Qed.

Lemma calm_abandon now id : preserves JB (ApprovalBroker.abandon (HookBridge.ports (bridge p)) now id).
Proof.
  apply preserves_bind; [apply preserves_gets|]. intros b. destruct (mget id _) as [a|]; [|apply preserves_ret].
  destruct (decision a); [apply preserves_ret|].
  apply preserves_bind; [apply preserves_gets|]. intros o. apply preserves_bind; [by intros b' Hb|]. intros _.
  apply preserves_bind; [by intros b' Hb|]. intros _.
  pose proof (calm_settle o deny ApprovalBroker.abandoned (ApprovalBroker.with_decision a (mkDecision deny ApprovalBroker.abandoned "daemon" now)) id
    (mret tt) (preserves_ret JB tt)) as Hs. exact Hs.
Qed.

Lemma calm_open a hd : preserves JB (ApprovalBroker.open (HookBridge.ports (bridge p)) a hd).
Proof.
  apply preserves_bind; [apply preserves_gets|]. intros b. destruct (mhas _ _); [apply preserves_ret|].
  apply preserves_bind; [by intros b' Hb|]. intros _. apply preserves_bind; [by intros b' Hb|]. intros _.
  apply preserves_bind; [apply calm_broker_outside, calm_pending|]. intros _. apply preserves_ret.
Qed.

Definition JV (v : View) : Prop := JB (HookBridge.broker v).

Lemma calm_on_broker {A} (m : eff Broker A) : preserves JB m -> preserves JV (HookBridge.on_broker m).
Proof. intros Hm v Hv. unfold HookBridge.on_broker. specialize (Hm _ Hv). by destruct (m _). Qed.

Lemma calm_outside (m : eff (Hub * Rest HSock S) unit) :
  preserves (fun y => J (fst y)) m -> preserves JV (HookBridge.outside m).
Proof. intros Hm v Hv. unfold HookBridge.outside. specialize (Hm _ Hv). by destruct (m _). Qed.

Lemma calm_hook_line sk line : preserves JV (HookBridge.onLine (bridge p) sk line).
Proof.
  unfold HookBridge.onLine. destruct (Framing.is_blank line); [apply preserves_ret|].
  destruct (HookBridge.parseJson _ line) as [[| |ev]|]; [apply preserves_throw|apply preserves_ret| |apply preserves_ret].
  apply preserves_try; [|intros; apply preserves_ret]. apply preserves_bind; [apply preserves_gets|]. intros x.
  apply preserves_bind; [apply calm_on_broker, calm_open|]. intros [].
  - apply preserves_bind; [by intros v Hv|]. intros _. apply preserves_bind.
    { apply calm_outside, calm_still. intros y. by destruct (HookBridge.sessionByClaudeId _ _ _). }
    intros _. apply preserves_bind; [by apply calm_outside, calm_announce|]. intros _. apply calm_outside, calm_owner.
  - apply preserves_bind; [by apply calm_outside, calm_still|]. intros _. by apply calm_outside, calm_still.
Qed.

Lemma calm_hook_close sk : preserves JV (HookBridge.onClose (bridge p) sk).
Proof.
  intros v. unfold HookBridge.onClose. apply (preserves_for_each JV). intros id.
  apply calm_on_broker. intros b. apply calm_abandon.
Qed.

End bridge_calm.

(** What every input does to the hub; a line of a socket that has not authenticated may
    authenticate it. *)
Lemma step_hub p w i (J : Hub -> Prop) :
  (forall f h, calm f -> J h -> J (f h)) ->
  (forall sk line, i = ClientLine sk line -> ClientHub.connFor sk (ClientConnection.hub w) = None ->
     forall s c h, J h -> J (ClientHub.authenticate s c h)) ->
  J (ClientConnection.hub w) -> J (ClientConnection.hub (step p w i)).
Proof.
  intros HJ Hauth. set (I := fun x : World => J (ClientConnection.hub x)). intros Hw. change (I (step p w i)). change (I w) in Hw.
  assert (Hcalm : forall w0 f, calm f -> I w0 -> I (ClientConnection.mk (f (ClientConnection.hub w0)) (ClientConnection.rest w0)))
    by (intros w0 f; apply HJ).
  assert (Hout : forall w0 f, I w0 -> I (snd (outside p (modify f) w0))).
  { intros w0 f. unfold I, outside, in_bridge. cbn. apply (HJ (fun h => foldl _ h _)). apply calm_foldl. intros ev. apply calm_broadcast. }
  assert (Hin : forall A (m : eff (HookBridge.t HSock O (Hub * Rest HSock S)) A), preserves (JV J) m -> preserves I (in_bridge m)).
  { intros A m Hm w0 Hw0. unfold in_bridge. specialize (Hm (view w0) Hw0). by destruct (m (view w0)). }
  assert (Hann : forall ev h, unacked ev -> J h -> J (ClientHub.broadcast (net p) (fun e => e) ev h))
    by (intros ev h _; apply (HJ (fun h => ClientHub.broadcast (net p) (fun e => e) ev h)), calm_broadcast).
  destruct i as [sock line|sock|sock line|sock|id|f|f]; cbn [step].
  - assert (Hdis : forall cmd dev, preserves I (dispatch p cmd sock dev)).
    { intros cmd dev. apply (carried_dispatch I p sock Hcalm Hout). destruct cmd as [[]|]; try done. intros w0. unfold broker_decide.
      apply Hin. apply calm_on_broker. apply (calm_decide p J Hann). }
    destruct (ClientHub.connFor sock (ClientConnection.hub w)) as [c|] eqn:Hc.
    + pose proof (carried_authenticated I p sock Hcalm line w) as Ha. rewrite Hc in Ha. specialize (Ha ltac:(done) (fun _ => Hw)).
      destruct (ClientConnection.executes (connection p sock) sock line w) as [[[dev seq] cmd]|]; [|exact Ha].
      destruct Ha as [r Ha]. apply (Ha _ eq_refl), Hdis. apply (Hcalm w (ClientHub.set_reg r)); [by apply calm_same|done].
    + pose proof (carried_line I p sock Hcalm Hout) as Ha. specialize (Ha (fun w0 s c => Hauth sock line eq_refl Hc s c (ClientConnection.hub w0)) line w Hw).
      unfold ClientConnection.executes in Ha. by rewrite incoming_unauth in Ha.
  - apply (Hcalm w (ClientHub.forget sock)); [apply calm_forget|done].
  - apply Hin; [apply (calm_hook_line p J Hann)|done].
  - apply Hin; [apply (calm_hook_close p J Hann)|done].
  - by case_bool_decide.
  - by apply Hout.
  - apply (Hcalm w (fun h => ClientHub.set_net (f (ClientHub.net h)) h)); [by apply calm_same|done].
Qed.

(** Everything but a line of a socket that has not authenticated. *)
Lemma step_calm p w i : (forall sk line, i = ClientLine sk line -> ClientHub.connFor sk (ClientConnection.hub w) <> None) ->
  forall sk c, ClientHub.connFor sk (ClientConnection.hub (step p w i)) = Some c -> ClientHub.connFor sk (ClientConnection.hub w) = Some c.
Proof.
  intros Hl. apply (step_hub p w i (fun h => forall sk c, ClientHub.connFor sk h = Some c -> ClientHub.connFor sk (ClientConnection.hub w) = Some c)).
  - intros f h Hf Hj sk c. unfold ClientHub.connFor at 1. destruct (Hf h) as [gone ->]. intros Hg. apply Hj. by apply mget_drops in Hg.
  - intros sk line Hi Hn. by destruct (Hl sk line Hi).
  - by intros sk c.
Qed.

(** The connections of a hub stay a map. *)
Lemma run_clients p w ins :
  mwf (ClientHub.clients (ClientConnection.hub w)) -> mwf (ClientHub.clients (ClientConnection.hub (run p w ins))).
Proof.
  intros Hw. induction ins as [|i ins IH] using rev_ind; [done|]. rewrite daemon_run_snoc.
  apply (step_hub p (run p w ins) i (fun h => mwf (ClientHub.clients h))); [|intros; by apply mwf_mset|done].
  intros f h Hf Hh. destruct (Hf h) as [gone ->]. by apply mwf_drops.
Qed.

(** A socket is connected as a device only by a hello of its own that named the device
    when the identity knew it. *)
Definition greeted_as p (w0 : World) (ins : list (input CSock HSock X S)) (sk : CSock) (dev : string) : Prop :=
  exists pre line post msg device, ins = pre ++ ClientLine sk line :: post /\ parseJson p line = Some msg /\
    ClientConnection.is_str "hello" (jprop "type" msg) = true /\
    Connection.hello_device (connection p sk) msg (ClientConnection.rest (run p w0 pre)) = Some device /\
    dev = Identity.deviceId device.

Lemma executes_connected p cs line w dev seq cmd :
  ClientConnection.executes (connection p cs) cs line w = Some (dev, seq, cmd) ->
  exists c, ClientHub.connFor cs (ClientConnection.hub w) = Some c /\ dev = ClientHub.deviceId c.
Proof.
  unfold ClientConnection.executes, ClientConnection.incoming. destruct (Framing.is_blank line); [done|].
  destruct (ClientConnection.parseJson _ line) as [msg|]; [|done].
  destruct (ClientHub.connFor cs (ClientConnection.hub w)) as [c|]; [|done].
  destruct (ClientConnection.jmember "seq" msg); [|done]. destruct (ClientConnection.open_msg _ _ _); [done|done|].
  destruct (fst (DeviceSessions.acceptInbound _ _ _)); [|done]. intros [= <- _ _]. by exists c.
Qed.

Lemma greeted_snoc p w0 ins i sk dev : greeted_as p w0 ins sk dev -> greeted_as p w0 (ins ++ [i]) sk dev.
Proof. intros (pre & line & post & msg & device & -> & Hr). exists pre, line, (post ++ [i]), msg, device. by rewrite <- app_assoc. Qed.

Lemma connected_since p w0 ins sk c : ClientHub.connFor sk (ClientConnection.hub (run p w0 ins)) = Some c ->
  ClientHub.connFor sk (ClientConnection.hub w0) = Some c \/ greeted_as p w0 ins sk (ClientHub.deviceId c).
Proof.
  revert sk c. induction ins as [|i ins IH] using rev_ind; intros sk c; [by left|].
  rewrite daemon_run_snoc. set (w := run p w0 ins) in *.
  assert (Hmon : ClientHub.connFor sk (ClientConnection.hub w) = Some c ->
    ClientHub.connFor sk (ClientConnection.hub w0) = Some c \/ greeted_as p w0 (ins ++ [i]) sk (ClientHub.deviceId c)).
  { intros [Hg|Hg]%IH; [by left|right; by apply greeted_snoc]. }
  assert (Hc : (exists sk' line, i = ClientLine sk' line /\ ClientHub.connFor sk' (ClientConnection.hub w) = None) \/
    forall sk' line, i = ClientLine sk' line -> ClientHub.connFor sk' (ClientConnection.hub w) <> None).
  { destruct i as [sk' line| | | | | |]; try (by right). destruct (ClientHub.connFor sk' (ClientConnection.hub w)) eqn:Hs.
    - right. intros ? ? [= -> _]. by rewrite Hs.
    - left. by exists sk', line. }
  destruct Hc as [(sk' & line & -> & Hn)|Hc]; [|intros Hg; apply Hmon; by apply (step_calm p w i)].
  cbn [step]. intros Hg.
  destruct (onLine_unauth_only (connection p sk') sk' line w Hn) as [(msg & Hp & Hs & Hq)|Hsame].
  2:{ rewrite Hsame in Hg. by apply Hmon. }
  destruct (decide (sk = sk')) as [->|Hne]; [|rewrite Hs in Hg by done; by apply Hmon].
  destruct (Hq c Hg) as (Hty & device & Hd & Hid). right. exists ins, line, [], msg, device. by split_and!.
Qed.

Lemma connected_run p h d s ins : ClientHub.clients h = [] ->
  forall sk c, ClientHub.connFor sk (ClientConnection.hub (run p (boot h d s) ins)) = Some c ->
  greeted_as p (boot h d s) ins sk (ClientHub.deviceId c).
Proof. intros Hh sk c [Hc|Hc]%connected_since; [|done]. unfold ClientHub.connFor in Hc. cbn in Hc. by rewrite Hh in Hc. Qed.

(** A line whose command decides a request that is undecided. *)
Lemma line_decides p cs line w dev seq id v reason by_ a :
  ClientConnection.executes (connection p cs) cs line w = Some (dev, seq, PCmd (cmd_decide id v reason by_)) ->
  mget id (pending w) = Some a -> decision a = None ->
  let w' := step p w (ClientLine cs line) in
  exists now, pending w' = mset id (ApprovalBroker.with_decision a (mkDecision v (default "" reason) (Commands.attribution dev by_) now)) (pending w) /\
    waiting w' = mdelete id (waiting w) /\ out w' = out w ++ to_waiter (mget id (waiting w)) v (default "" reason) /\
    store w' = taken p (proc_of (ClientConnection.rest w')) (Db.recordApprovalDecision (toolUseId a) v (default "" reason) (Commands.attribution dev by_) now) (store w).
Proof.
  intros Hex Ha Hd. cbv zeta. destruct (executes_connected p _ _ _ _ _ _ Hex) as (c & Hc & _).
  set (Q := fun x : World => exists now,
    pending x = mset id (ApprovalBroker.with_decision a (mkDecision v (default "" reason) (Commands.attribution dev by_) now)) (pending w) /\
    waiting x = mdelete id (waiting w) /\ out x = out w ++ to_waiter (mget id (waiting w)) v (default "" reason) /\
    store x = taken p (proc_of (ClientConnection.rest x)) (Db.recordApprovalDecision (toolUseId a) v (default "" reason) (Commands.attribution dev by_) now) (store w)).
  change (Q (step p w (ClientLine cs line))).
  pose proof (carried_authenticated Q p cs (fun x f _ Hx => Hx) line w) as Hl. rewrite Hex, Hc in Hl.
  destruct (Hl ltac:(done) ltac:(done)) as [r Hr]. cbn [step]. apply (Hr _ eq_refl). clear Hl Hr.
  apply dispatch_decide. intros w' h ->.
  apply (broker_decide_settles p id v (default "" reason) (Commands.attribution dev by_)
    (ClientConnection.mk (ClientHub.set_reg r (ClientConnection.hub w)) (ClientConnection.rest w)) a Ha Hd).
Qed.

(** What waits is pending and undecided. *)
Lemma waits_undecided p h d s ins id hd : mget id (waiting (run p (boot h d s) ins)) = Some hd ->
  exists a, mget id (pending (run p (boot h d s) ins)) = Some a /\ decision a = None.
Proof.
  intros Hw. pose proof (daemon_inv p h d s ins) as Hwf. apply (ApprovalBroker.wf_waiting _ Hwf).
  unfold mhas. change (mget id (waiting (run p (boot h d s) ins))) with (mget id (ApprovalBroker.waiters (HookBridge.broker (view (run p (boot h d s) ins))))) in Hw.
  by rewrite Hw.
Qed.

End laws.
