(* ===== verification/Guarantee.v ===== *)
(** * The guarantee of the whole

    The bridge process ([HookProcess]) at one end of a hook socket of the assembled daemon
    ([System]) at the other: what Claude Code is told about a tool call goes back to a
    command a paired device sealed, about the payload Claude Code gave. *)

From S2P Require Import Prelude JsMap Js Types Frame DeviceSessions Approvals Jobs Framing.
From S2P Require Import HookMargin Db Commands Hub Pairing Connection HookProcess HookBridge Daemon System.
Import Framing System.

Local Open Scope Z_scope.

Module Guarantee.

(** [{ kind: 'approval_decision', decision, reason }] *)
Definition decision_value (d : HookBridge.HookDecision) : jsval :=
  JObj [("kind", JStr "approval_decision");
        ("decision", JStr (match HookBridge.hk_decision d with allow => "allow" | deny => "deny" end));
        ("reason", JStr (HookBridge.hk_reason d))].

(** [{ kind: 'approval_request', event }] *)
Definition request_value (event : jsval) : jsval := JObj [("kind", JStr "approval_request"); ("event", event)].

(** What [JSON.stringify] and [JSON.parse] promise about a message: one line, not blank,
    read back as the value it was made of. *)
Record prints (stringify : jsval -> string) (parse : string -> option jsval) (v : jsval) : Prop := {
  prints_line : has_newline (stringify v) = false;
  prints_text : is_blank (stringify v) = false;
  prints_back : parse (stringify v) = Some v;
}.

(** A stream socket that has delivered [received] of the lines [sent]. *)
Definition carries (sent : list string) (received : string) : Prop := exists later, unlines sent = received +:+ later.

(** What the daemon wrote to one hook socket. *)
Definition written_to {HSock} `{EqDecision HSock} (sock : HSock) (l : list (HSock * HookBridge.HookDecision)) : list HookBridge.HookDecision :=
  snd <$> filter (fun x => fst x = sock) l.

End Guarantee.

Import Guarantee.

(** ** Laws *)

Lemma carried_lines sent received :
  Forall (fun l => has_newline l = false) sent -> carries sent received -> (drain received).1 `prefix_of` sent.
Proof.
  intros Hn [later Hl]. assert (Hd : drain (received +:+ later) = (sent, "")).
  { rewrite <- Hl, <- (string_app_empty_r (unlines sent)). by apply drain_unlines. }
  rewrite drain_app in Hd. destruct (drain received) as [l1 r1]. destruct (drain (r1 +:+ later)) as [l2 r2].
  injection Hd as <- _. by exists l2.
Qed.

Section wire.
Variables (stringify : jsval -> string) (parse : string -> option jsval).
Notation lines ds := ((fun d => stringify (decision_value d)) <$> ds).
Notation printed ds := (Forall (fun d => prints stringify parse (decision_value d)) ds).

(** The verdict of what the daemon wrote is its first decision. *)
Lemma verdict_written ds : printed ds ->
  ApproveBridge.verdict parse (lines ds) =
    match ds with
    | [] => None
    | d :: _ => Some (ApproveBridge.mkDecision (HookBridge.hk_decision d)
        (ApproveBridge.jor (JStr (HookBridge.hk_reason d))
          (match HookBridge.hk_decision d with allow => "approved remotely" | deny => "rejected remotely" end)))
    end.
Proof.
  intros Hd. destruct Hd as [|d ds [_ Ht Hp] _]; [done|]. rewrite fmap_cons. cbn [ApproveBridge.verdict].
  rewrite Ht, Hp. by destruct d as [[] r].
Qed.

Lemma heard_allow received d ds : printed ds ->
  carries (lines ds) received -> ApproveBridge.permissionDecision d = allow -> ApproveBridge.verdict parse (drain received).1 = Some d ->
  exists d0, d0 ∈ ds /\ HookBridge.hk_decision d0 = allow.
Proof.
  intros Hd Hc Ha Hv. apply carried_lines in Hc; [|apply Forall_fmap; eapply Forall_impl; [exact Hd|]; intros d0; apply prints_line].
  destruct Hc as [l2 Hl]. apply fmap_app_inv in Hl as (d1 & d2 & H1 & _ & ->).
  apply Forall_app in Hd as [Hd _]. rewrite H1, verdict_written in Hv by done. destruct d1 as [|d0 d1]; [done|]. injection Hv as <-. exists d0.
  split; [rewrite elem_of_app; left; by left|exact Ha].
Qed.

End wire.

Section guarantee.
Context {Key Nonce CSock HSock O X H S : Type} `{SessionCrypto Key Nonce} `{EqDecision CSock} `{EqDecision HSock}.
Variables (p : Parts Key Nonce CSock HSock O X H S) (h : ClientHub.t Key CSock X ServerEvent) (d : Db.t) (s : S).
Variables (stringify : jsval -> string) (parse : string -> option jsval) (createConnection : option string).
Notation world ins := (run p (boot h d s) ins).
Notation bridge_run es := (ApproveBridge.run parse createConnection es).

(** C1. A tool runs only by a device's decision about it.  Take any run of the daemon, the
    inputs of every client, hook and timer in any order, and any run of the bridge process
    whose socket is [sock]: it hears a prefix of what the daemon wrote there, and is all
    the daemon hears there.  If it tells Claude Code to allow the call, then an earlier
    input of the daemon was a line of a client that its session key opened to the
    command to allow a request [id]; the client's socket was connected by its own hello
    as a device the identity then knew; at that moment the request waited on this very socket;
    it had come as a line that carries the payload the bridge read on its standard input;
    and what was pending under [id] is the approval that line asked for. *)
Theorem allowed_only_by_a_device (sock : HSock) ins es decision
    (Hnew : ClientHub.clients h = [])
    (Hdec : Forall (fun x => prints stringify parse (decision_value x)) (written_to sock (out (world ins))))
    (Hdown : carries ((fun x => stringify (decision_value x)) <$> written_to sock (out (world ins)))
               (ApproveBridge.heard parse createConnection es))
    (Hup : forall line, HookLine sock line ∈ ins ->
       exists e, e ∈ ApproveBridge.requests (bridge_run es) /\ line = stringify (request_value e)) :
  ApproveBridge.stdout (bridge_run es) = [decision] -> ApproveBridge.permissionDecision decision = allow ->
  exists pre cs line post dev seq id reason by_,
    ins = pre ++ ClientLine cs line :: post /\
    ClientConnection.executes (connection p cs) cs line (world pre) = Some (dev, seq, PCmd (cmd_decide id allow reason by_)) /\
    greeted_as p (boot h d s) pre cs dev /\
    exists pre0 post0 payload text ev,
      pre = pre0 ++ HookLine sock (stringify (request_value payload)) :: post0 /\
      ApproveBridge.StdinEnd (Some text) ∈ es /\ parse text = Some payload /\
      Daemon.p_parse (process p) (stringify (request_value payload)) = Some (HookBridge.HookRequest ev) /\
      toolUseId (asked p ev (world pre0)) = id /\ mget id (pending (world pre)) = Some (asked p ev (world pre0)).
Proof.
  intros Hout Ha. destruct (bridge_inv_run parse createConnection es) as [((_ & _ & Ho) & _)|(dc & (_ & _ & Ho) & Hv)]; [congruence|].
  rewrite Hout in Ho. injection Ho as <-. destruct Hv as [Hv|[_ Hd]]; [|congruence].
  destruct (heard_allow stringify parse _ decision (written_to sock (out (world ins))) Hdec Hdown Ha Hv) as (d0 & Hin & Hall).
  unfold written_to in Hin. apply list_elem_of_fmap in Hin as ([sk d1] & -> & Hin). cbn [snd] in Hall.
  apply list_elem_of_filter in Hin as [Hsk Hin]. cbn [fst] in Hsk. subst sk.
  destruct (explained_run p h d s ins) as [_ Hex].
  destruct (Hex sock d1 Hin Hall) as (pre & cs & line & post & dev & seq & id & reason & by_ & hd & Hins & He & _ & Hw & Hs).
  exists pre, cs, line, post, dev, seq, id, reason, by_. split_and!; [done|done| |].
  { destruct (executes_connected _ _ _ _ _ _ _ He) as (c & Hc & ->). by apply connected_run. }
  destruct (explained_run p h d s pre) as [Hreq _].
  destruct (Hreq id hd Hw) as (pre0 & line0 & post0 & ev & Hpre & Hp & Hid & Hpend). rewrite Hs in Hpre.
  destruct (Hup line0) as (payload & Hpl & ->); [rewrite Hins, Hpre; rewrite !elem_of_app, elem_of_cons; by left; right; left|].
  destruct (proj2 (sends_run parse createConnection es) payload Hpl) as (text & Ht & Hpt).
  exists pre0, post0, payload, text, ev. by split_and!.
Qed.

(** C2. What a device decides is what Claude Code is told.  In any run of the daemon, when
    a line of a client opens to the command to decide a request that waits, the verdict and
    the reason go out at once on the socket the request waits on, and nothing else does;
    the request waits no more, is on record as decided by the device that sealed the
    command, whatever name the command claims, and is so in the audit trail unless the
    store throws instead of taking the row; and the bridge process of that socket, having
    heard that text and nothing before it, has printed exactly that verdict with that
    reason, or a standing text where the reason is empty. *)
Theorem device_decision_is_obeyed ins cs line dev seq id v reason by_ hd es :
  ClientConnection.executes (connection p cs) cs line (world ins) = Some (dev, seq, PCmd (cmd_decide id v reason by_)) ->
  mget id (waiting (world ins)) = Some hd ->
  let w' := world (ins ++ [ClientLine cs line]) in
  let told := HookBridge.mkHookDecision v (default "" reason) in
  out w' = out (world ins) ++ [(HookBridge.h_sock hd, told)] /\ mget id (waiting w') = None /\
  (exists a now, mget id (pending (world ins)) = Some a /\ decision a = None /\
     decision <$> mget id (pending w') = Some (Some (mkDecision v (default "" reason) (Commands.attribution dev by_) now)) /\
     store w' = taken p (proc_of (ClientConnection.rest w'))
       (Db.recordApprovalDecision (toolUseId a) v (default "" reason) (Commands.attribution dev by_) now) (store (world ins))) /\
  (prints stringify parse (decision_value told) -> written_to (HookBridge.h_sock hd) (out (world ins)) = [] ->
   ApproveBridge.heard parse createConnection es = unlines ((fun x => stringify (decision_value x)) <$> written_to (HookBridge.h_sock hd) (out w')) ->
   ApproveBridge.stdout (bridge_run es) = [ApproveBridge.mkDecision v (ApproveBridge.jor (JStr (default "" reason))
     (match v with allow => "approved remotely" | deny => "rejected remotely" end))]).
Proof.
  intros Hex Hw w' told. unfold w'. rewrite daemon_run_snoc. destruct (waits_undecided p h d s ins id hd Hw) as (a & Ha & Hd).
  destruct (line_decides p cs line (world ins) dev seq id v reason by_ a Hex Ha Hd) as (now & Hp & Hwt & Ho & Hs).
  rewrite Hwt, Ho, Hs, Hp, Hw, mget_mdelete_eq, mget_mset_eq. split_and!; [done|done|by exists a, now|].
  change (to_waiter (Some hd) v (default "" reason)) with [(HookBridge.h_sock hd, told)].
  intros Hpr Hnone. unfold written_to in *. rewrite filter_app, fmap_app, Hnone. rewrite filter_cons_True by done. intros Hheard.
  assert (Hd1 : (drain (ApproveBridge.heard parse createConnection es)).1 = [stringify (decision_value told)]).
  { rewrite Hheard, <- (string_app_empty_r (unlines _)), drain_unlines; [done|by apply Forall_singleton, Hpr|done]. }
  pose proof (verdict_written stringify parse [told] ltac:(by apply Forall_singleton)) as Ht. rewrite list_fmap_singleton in Ht.
  destruct (bridge_inv_run parse createConnection es) as [(_ & _ & Hv & _)|(dc & (_ & _ & Hout) & Hv)]; rewrite Hd1, Ht in Hv; [done|].
  destruct Hv as [Hv|[Hv _]]; [|done]. injection Hv as <-. exact Hout.
Qed.

End guarantee.

(** ** A concrete tool call: the phone allows it *)

Section demo.
#[local] Existing Instance node_SessionCrypto.
#[local] Existing Instance toy_platform.

Definition demo_payload : jsval := JObj [("tool_use_id", JStr "t1")].
Definition demo_allowed : HookBridge.HookDecision := HookBridge.mkHookDecision allow "fine".

Definition demo_print (v : jsval) : string :=
  match jprop "kind" v with
  | JStr "approval_decision" => "decision"
  | JStr "approval_request" => "request"
  | _ => "payload"
  end.

Definition demo_read (s : string) : option jsval :=
  if bool_decide (s = "payload") then Some demo_payload
  else if bool_decide (s = "decision") then Some (decision_value demo_allowed) else None.

Definition demo_process : Daemon.Process nat unit unit :=
  Daemon.mkProcess (fun _ _ => None) (fun _ => "") (fun _ _ x => x) (fun _ _ x => x)
    (fun _ _ => mkSessionInfo "" None "" "" idle None 0 0 0) 1000 (fun x => x) (fun _ _ x => x) (fun _ x => x) (fun _ => 5)
    (fun l => if bool_decide (l = "request")
              then Some (HookBridge.HookRequest (HookBridge.mkHookEvent (Some "t1") None (Some "Bash") None None)) else None)
    (fun _ => None).

Definition demo_sealed : jsval :=
  let f := node_seal "key-salt" 1 (PCmd (cmd_decide "t1" allow (Some "fine") "me")) c2d "n" in
  JObj [("n", JStr (f_n f)); ("c", JStr (f_c f)); ("t", JStr (f_t f)); ("seq", JNum (NumFin (inject_Z 1)))].

Definition demo_parts : Parts string string nat nat unit Z unit unit :=
  mkParts demo_net demo_process demo_pairing 50 (fun _ => false) (fun _ => []) (fun _ => []) (fun _ => "tcp://host:1")
    (fun r => ("salt", r)) (fun l => if bool_decide (l = "sealed") then Some demo_sealed else if bool_decide (l = "hello") then Some demo_hello else None) (fun _ => [])
    (Commands.mkHandleOps (fun _ => throw "gone") (fun _ _ => mret tt) (fun _ => mret tt) (fun _ _ => mret tt) (fun _ _ => mret tt))
    (fun _ _ => throw "none") (fun _ => mret false) (fun _ _ _ => mret tt) (fun _ => mret tt).

(** The phone connects on socket 1 while the call waits on socket 7. *)
Definition demo_hub : ClientHub.t string nat Z ServerEvent := ClientHub.mk [] (DeviceSessions.new 200 200) 0 [].

Definition demo_inputs : list (input nat nat Z unit) :=
  [HookLine 7%nat "request"; ClientLine 1%nat "hello"; ClientLine 1%nat "sealed"].

Definition demo_bridge_events : list ApproveBridge.Event :=
  [ApproveBridge.StdinEnd (Some "payload"); ApproveBridge.SockConnect; ApproveBridge.SockData ("decision" +:+ String newline "")].

Lemma allowed_only_by_a_device_witness :
  ApproveBridge.stdout (ApproveBridge.run demo_read None demo_bridge_events) = [ApproveBridge.mkDecision allow (JStr "fine")] /\
  exists pre cs line post dev seq id reason by_,
    demo_inputs = pre ++ ClientLine cs line :: post /\
    ClientConnection.executes (connection demo_parts cs) cs line (run demo_parts (boot demo_hub Db.empty tt) pre) =
      Some (dev, seq, PCmd (cmd_decide id allow reason by_)).
Proof.
  assert (Hout : ApproveBridge.stdout (ApproveBridge.run demo_read None demo_bridge_events) = [ApproveBridge.mkDecision allow (JStr "fine")])
    by (vm_compute; reflexivity).
  assert (Hw : written_to 7%nat (out (run demo_parts (boot demo_hub Db.empty tt) demo_inputs)) = [demo_allowed]) by (vm_compute; reflexivity).
  split; [exact Hout|].
  destruct (allowed_only_by_a_device demo_parts demo_hub Db.empty tt demo_print demo_read None 7%nat demo_inputs demo_bridge_events
    (ApproveBridge.mkDecision allow (JStr "fine"))) as (pre & cs & line & post & dev & seq & id & reason & by_ & H1 & H2 & _).
  - reflexivity.
  - rewrite Hw. apply Forall_singleton. split; vm_compute; reflexivity.
  - rewrite Hw. exists "". vm_compute. reflexivity.
  - intros line Hin. exists demo_payload. unfold demo_inputs in Hin. apply elem_of_cons in Hin as [Hin|Hin].
    + injection Hin as ->. split; [apply list_elem_of_singleton; vm_compute; reflexivity|reflexivity].
    + apply elem_of_cons in Hin as [Hin|Hin]; [discriminate Hin|]. apply list_elem_of_singleton in Hin. discriminate Hin.
  - exact Hout.
  - reflexivity.
  - exists pre, cs, line, post, dev, seq, id, reason, by_. split; [exact H1|exact H2].
Defined.

Lemma device_decision_is_obeyed_witness :
  out (run demo_parts (boot demo_hub Db.empty tt) demo_inputs) = [(7%nat, demo_allowed)] /\
  ApproveBridge.stdout (ApproveBridge.run demo_read None demo_bridge_events) = [ApproveBridge.mkDecision allow (JStr "fine")].
Proof.
  assert (Hex : ClientConnection.executes (connection demo_parts 1%nat) 1%nat "sealed" (run demo_parts (boot demo_hub Db.empty tt) (take 2 demo_inputs)) =
    Some ("phone", 1, PCmd (cmd_decide "t1" allow (Some "fine") "me"))) by (vm_compute; reflexivity).
  assert (Hw : mget "t1" (waiting (run demo_parts (boot demo_hub Db.empty tt) (take 2 demo_inputs))) = Some (HookBridge.mkHandle 7%nat None "t1"))
    by (vm_compute; reflexivity).
  destruct (device_decision_is_obeyed demo_parts demo_hub Db.empty tt demo_print demo_read None (take 2 demo_inputs) 1%nat "sealed" "phone" 1 "t1" allow
    (Some "fine") "me" (HookBridge.mkHandle 7%nat None "t1") demo_bridge_events Hex Hw) as (Ho & _ & _ & Hb).
  split; [rewrite (Ho : out (run demo_parts (boot demo_hub Db.empty tt) demo_inputs) = _); vm_compute; reflexivity|].
  apply Hb; [split; vm_compute; reflexivity|vm_compute; reflexivity|vm_compute; reflexivity].
Defined.

End demo.
