(* ===== verification/Wires.v ===== *)
(** * The daemon on its wires

    The assembled daemon of [System] as the sockets drive it: chunks of text, each added to
    the buffer of its socket by the [data] listeners of
    [packages/daemon/src/interface/clientConnection.ts] and [hookBridge.ts], and a listener
    that throws ends the process.  The lines [System] takes are what these buffers yield. *)

From S2P Require Import Prelude JsMap Js Types Frame DeviceSessions Approvals Jobs.
From S2P Require Import Framing HookMargin Db Commands Hub Pairing Connection HookBridge Daemon System Guarantee.
Import System.

Local Open Scope Z_scope.

Module Wires.

Section wires.
Context {Key Nonce CSock HSock O X H S : Type} `{SessionCrypto Key Nonce} `{EqDecision CSock} `{EqDecision HSock}.
Notation Bridge := (HookBridge.t HSock O (Rest HSock S)).
Notation World := (ClientConnection.t Key CSock X ServerEvent Bridge).
Variable p : Parts Key Nonce CSock HSock O X H S.

(** The world, the [buf] of every socket's listener, and whether a listener has thrown. *)
Record t : Type := mk { world : World; client_buf : jsmap CSock string; hook_buf : jsmap HSock string; crashed : bool }.

Inductive event : Type :=
| ClientData (sock : CSock) (chunk : string)
| ClientGone (sock : CSock)
| HookData (sock : HSock) (chunk : string)
| HookGone (sock : HSock)
| Timer (id : string)
| Services (f : outer S -> outer S)
| Network (f : X -> X).

(** A listener runs on the world; a throw nothing catches is the end. *)
Definition listen {A} (m : eff World A) (keep : A -> t -> t) (st : t) : t :=
  match m (world st) with
  | (Ok a, w) => keep a (mk w (client_buf st) (hook_buf st) false)
  | (Throw _, w) => mk w (client_buf st) (hook_buf st) true
  end.

Definition keep_client (sock : CSock) (left : string) (st : t) : t :=
  mk (world st) (mset sock left (client_buf st)) (hook_buf st) (crashed st).
Definition keep_hook (sock : HSock) (left : string) (st : t) : t :=
  mk (world st) (client_buf st) (mset sock left (hook_buf st)) (crashed st).

Definition step (st : t) (e : event) : t :=
  if crashed st then st else
  match e with
  | ClientData sock chunk =>
      listen (ClientConnection.onData (connection p sock) sock (default "" (mget sock (client_buf st))) chunk) (keep_client sock) st
  | ClientGone sock => listen (ClientConnection.onClose sock) (fun _ st => st) st
  | HookData sock chunk =>
      listen (in_bridge (HookBridge.onData (bridge p) sock (default "" (mget sock (hook_buf st))) chunk)) (keep_hook sock) st
  | HookGone sock => listen (in_bridge (HookBridge.onClose (bridge p) sock)) (fun _ st => st) st
  | Timer id => mk (System.step p (world st) (PurgeTimer id)) (client_buf st) (hook_buf st) false
  | Services f => mk (System.step p (world st) (Elsewhere f)) (client_buf st) (hook_buf st) false
  | Network f => mk (System.step p (world st) (Platform f)) (client_buf st) (hook_buf st) false
  end.

Definition run (st : t) (es : list event) : t := foldl step st es.

Definition start (w : World) : t := mk w [] [] false.

(** ** Vocabulary *)

(** The text a socket has delivered, and the lines the daemon has taken from it. *)
Definition client_piece (sock : CSock) (e : event) : string :=
  match e with ClientData k c => if decide (k = sock) then c else "" | _ => "" end.
Definition hook_piece (sock : HSock) (e : event) : string :=
  match e with HookData k c => if decide (k = sock) then c else "" | _ => "" end.
Definition client_text (sock : CSock) (es : list event) : string := foldl (fun s e => s +:+ client_piece sock e) "" es.
Definition hook_text (sock : HSock) (es : list event) : string := foldl (fun s e => s +:+ hook_piece sock e) "" es.
Definition client_lines (sock : CSock) (ins : list (input CSock HSock X S)) : list string :=
  omap (fun i => match i with ClientLine k l => if decide (k = sock) then Some l else None | _ => None end) ins.
Definition hook_lines (sock : HSock) (ins : list (input CSock HSock X S)) : list string :=
  omap (fun i => match i with HookLine k l => if decide (k = sock) then Some l else None | _ => None end) ins.

(** The daemon destroys a hook socket. *)
Definition closes (k : HSock) (x : outer S) : outer S := mkOuter (o_db x) (Daemon.p_sock_destroy (process p) k (o_proc x)) [].

(** The daemon destroys a client's socket. *)
Definition destroys (sock : CSock) (x : X) : X := ClientHub.net_destroy (net p) sock x.

(** What an input of [System] comes from. *)
Definition licensed (es : list event) (i : input CSock HSock X S) : Prop :=
  match i with
  | ClientLine k _ => exists c, ClientData k c ∈ es
  | ClientClose k => ClientGone k ∈ es \/ exists c, ClientData k c ∈ es
  | HookLine k _ => exists c, HookData k c ∈ es
  | HookClose k => HookGone k ∈ es
  | PurgeTimer id => Timer id ∈ es
  | Elsewhere f => Services f ∈ es \/ exists k, f = closes k
  | Platform f => Network f ∈ es \/ exists k, f = destroys k
  end.

(** The cap on the line a client has begun: what its socket has proved by then. *)
Definition line_cap (sock : CSock) (w : World) : Z :=
  if ClientHub.isAuthenticated sock (ClientConnection.hub w) then ClientConnection.MAX_LINE_AUTHENTICATED
  else ClientConnection.MAX_LINE_UNAUTHENTICATED.

(** The unfinished line of a text, with the next chunk, is no longer than the cap. *)
Definition fits (cap : Z) (text chunk : string) : Prop :=
  Z.of_nat (String.length ((Framing.drain text).2 +:+ chunk)) <= cap.

(** No chunk of the socket has overrun the cap of its moment while the process lived. *)
Definition client_within (w0 : World) (es : list event) (sock : CSock) : Prop :=
  forall es1 chunk es2, es = es1 ++ ClientData sock chunk :: es2 -> crashed (run (start w0) es1) = false ->
    fits (line_cap sock (world (run (start w0) es1))) (client_text sock es1) chunk.
Definition hook_within (w0 : World) (es : list event) (sock : HSock) : Prop :=
  forall es1 chunk es2, es = es1 ++ HookData sock chunk :: es2 -> crashed (run (start w0) es1) = false ->
    fits HookBridge.MAX_HOOK_LINE (hook_text sock es1) chunk.

(** The lines taken are the first ones of the text, and, as long as the process lives, all
    of them. *)
Definition faithful (text : string) (lines : list string) (alive : bool) : Prop :=
  lines `prefix_of` (Framing.drain text).1 /\ (alive = true -> lines = (Framing.drain text).1).

End wires.
Arguments t : clear implicits.
Arguments event : clear implicits.

End Wires.

Import Framing Wires.

(** ** Laws *)

Section laws.
Context {Key Nonce CSock HSock O X H S : Type} `{SessionCrypto Key Nonce} `{EqDecision CSock} `{EqDecision HSock}.
Notation Bridge := (HookBridge.t HSock O (Rest HSock S)).
Notation World := (ClientConnection.t Key CSock X ServerEvent Bridge).
Variable p : Parts Key Nonce CSock HSock O X H S.
Notation run := (run p).
Implicit Types (w : World) (st : t Key CSock HSock O X S).

(** A listener over lines, whose lines are inputs, runs some first of them, all of them
    when it returns. *)
Lemma for_each_inputs (f : string -> eff World unit) (inp : string -> input CSock HSock X S) lines w :
  (forall w line, snd (f line w) = System.step p w (inp line)) ->
  exists done, done `prefix_of` lines /\ snd (for_each f lines w) = System.run p w (inp <$> done) /\
    (is_ok (fst (for_each f lines w)) = true -> done = lines).
Proof.
  intros Hf. revert w. induction lines as [|line lines IH]; intros w; [by exists []|].
  cbn [for_each]. unfold mbind, eff_bind. specialize (Hf w line).
  destruct (f line w) as [[u|e] w1]; cbn [snd] in Hf; subst w1.
  - destruct (IH (System.step p w (inp line))) as (taken & Hp & Hr & Ho). exists (line :: taken).
    split; [by apply prefix_cons|]. split; [exact Hr|]. intros Hok. by rewrite (Ho Hok).
  - exists [line]. split; [by apply prefix_cons, prefix_nil|done].
Qed.

Lemma in_bridge_for_each (f : string -> eff _ unit) lines w :
  in_bridge (Key:=Key) (CSock:=CSock) (HSock:=HSock) (O:=O) (X:=X) (S:=S) (for_each f lines) w =
    for_each (fun line => in_bridge (f line)) lines w.
Proof.
  revert w. induction lines as [|line lines IH]; intros w; cbn [for_each].
  - unfold in_bridge. cbn. by rewrite of_view_view.
  - unfold mbind, eff_bind, in_bridge. destruct (f line (view w)) as [[u|e] v]; [|done].
    specialize (IH (of_view v)). unfold in_bridge in IH. rewrite view_of_view in IH. exact IH.
Qed.

(** What one [data] event does: some first lines of the buffer, or a drop. *)
Lemma client_data_inputs sock buf chunk w :
  let r := ClientConnection.onData (connection p sock) sock buf chunk w in
  (Z.of_nat (String.length (buf +:+ chunk)) <= line_cap sock w /\ exists taken, taken `prefix_of` (drain (buf +:+ chunk)).1 /\ snd r = System.run p w (ClientLine sock <$> taken) /\
     (forall left, fst r = Ok left -> taken = (drain (buf +:+ chunk)).1 /\ left = (drain (buf +:+ chunk)).2)) \/
  (line_cap sock w < Z.of_nat (String.length (buf +:+ chunk)) /\ r = (Ok "", System.run p w [ClientClose sock; Platform (destroys p sock)])).
Proof.
  cbv zeta.
  change (ClientConnection.onData (connection p sock) sock buf chunk w) with
    ((if line_cap sock w <? Z.of_nat (String.length (buf +:+ chunk))
      then ClientConnection.drop_connection (connection p sock) sock ;; mret ""
      else read_loop (ClientConnection.onLine (connection p sock) sock) (buf +:+ chunk)) w).
  destruct (Z.ltb_spec (line_cap sock w) (Z.of_nat (String.length (buf +:+ chunk)))) as [Hc|Hc]; [by right|].
  left. rewrite read_loop_drain.
  destruct (for_each_inputs (ClientConnection.onLine (connection p sock) sock) (ClientLine sock) (drain (buf +:+ chunk)).1 w ltac:(done))
    as (taken & Hp & Hr & Ho).
  split; [done|]. exists taken. split; [done|]. unfold mbind, eff_bind. destruct (for_each _ _ w) as [[u|e] w']; cbn in Hr, Ho |- *; [|done].
  split; [done|]. intros left [= <-]. by rewrite Ho.
Qed.

Lemma hook_data_inputs sock buf chunk w :
  let r := in_bridge (HookBridge.onData (bridge p) sock buf chunk) w in
  (Z.of_nat (String.length (buf +:+ chunk)) <= HookBridge.MAX_HOOK_LINE /\ exists taken, taken `prefix_of` (drain (buf +:+ chunk)).1 /\ snd r = System.run p w (HookLine sock <$> taken) /\
     (forall left, fst r = Ok left -> taken = (drain (buf +:+ chunk)).1 /\ left = (drain (buf +:+ chunk)).2)) \/
  (HookBridge.MAX_HOOK_LINE < Z.of_nat (String.length (buf +:+ chunk)) /\ r = (Ok "", System.run p w [Elsewhere (closes p sock)])).
Proof.
  cbv zeta. unfold HookBridge.onData. destruct (Z.ltb_spec HookBridge.MAX_HOOK_LINE (Z.of_nat (String.length (buf +:+ chunk)))) as [Hc|Hc].
  - right. split; [done|]. by destruct w as [? [[? ? ? [] ?]]].
  - left. split; [done|].
    destruct (for_each_inputs (fun line => in_bridge (HookBridge.onLine (bridge p) sock line)) (HookLine sock) (drain (buf +:+ chunk)).1 w ltac:(done))
      as (taken & Hp & Hr & Ho).
    assert (Heq : in_bridge (read_loop (HookBridge.onLine (bridge p) sock) (buf +:+ chunk)) w =
      (for_each (fun line => in_bridge (HookBridge.onLine (bridge p) sock line)) (drain (buf +:+ chunk)).1 ;; mret (drain (buf +:+ chunk)).2) w).
    { unfold mbind, eff_bind. rewrite <- in_bridge_for_each. unfold in_bridge. rewrite read_loop_drain. unfold mbind, eff_bind.
      by destruct (for_each _ _ (view w)) as [[u|e] v]. }
    rewrite Heq. exists taken. split; [done|]. unfold mbind, eff_bind. destruct (for_each _ _ w) as [[u|e] w']; cbn in Hr, Ho |- *; [|done].
    split; [done|]. intros left [= <-]. by rewrite Ho.
Qed.

(** *** One socket's stream *)

(** The lines taken from a text so far, with the buffer, as long as it has kept to its caps. *)
Definition tracked (kept : Prop) (text : string) (lines : list string) (buf : string) (dead : bool) : Prop :=
  kept -> lines `prefix_of` (drain text).1 /\ (dead = false -> drain text = (lines, buf)).

Lemma drain_more a b : drain (a +:+ b) = ((drain a).1 ++ (drain ((drain a).2 +:+ b)).1, (drain ((drain a).2 +:+ b)).2).
Proof. rewrite drain_app. destruct (drain a) as [l1 r1]. cbn. by destruct (drain (r1 +:+ b)). Qed.

Lemma tracked_dead (kept kept' : Prop) text lines buf buf' chunk : (kept' -> kept) ->
  tracked kept text lines buf true -> tracked kept' (text +:+ chunk) lines buf' true.
Proof. intros Hk Ht Hk'. split; [|done]. destruct (Ht (Hk Hk')) as [Hp _]. rewrite drain_more. cbn [fst]. by apply prefix_app_r. Qed.

Lemma tracked_still (kept kept' : Prop) text lines buf dead : (kept' -> kept) ->
  tracked kept text lines buf false -> tracked kept' (text +:+ "") lines buf dead.
Proof. rewrite string_app_empty_r. intros Hk Ht Hk'. destruct (Ht (Hk Hk')) as [Hp Hd]. split; [done|]. intros _. by apply Hd. Qed.

Lemma tracked_data (kept kept' : Prop) text lines buf chunk taken left dead : (kept' -> kept) ->
  tracked kept text lines buf false -> taken `prefix_of` (drain (buf +:+ chunk)).1 ->
  (dead = false -> taken = (drain (buf +:+ chunk)).1 /\ left = (drain (buf +:+ chunk)).2) ->
  tracked kept' (text +:+ chunk) (lines ++ taken) left dead.
Proof.
  intros Hk Ht Hp Hd Hk'. destruct (Ht (Hk Hk')) as [_ Hs]. specialize (Hs eq_refl).
  rewrite drain_more, Hs. cbn [fst snd]. split; [by apply prefix_app|]. intros Hl. by destruct (Hd Hl) as [-> ->].
Qed.

Lemma tracked_drop (kept kept' : Prop) cap text lines buf chunk lines' buf' dead : (kept' -> kept) -> (kept' -> fits cap text chunk) ->
  tracked kept text lines buf false -> cap < Z.of_nat (String.length (buf +:+ chunk)) ->
  tracked kept' (text +:+ chunk) lines' buf' dead.
Proof.
  intros Hk Hf Ht Hover Hk'. destruct (Ht (Hk Hk')) as [_ Hs]. specialize (Hs eq_refl).
  specialize (Hf Hk'). unfold fits in Hf. rewrite Hs in Hf. cbn [snd] in Hf. lia.
Qed.

(** All sockets of a kind, one of which delivers a chunk. *)
Section family.
Context {K : Type} `{EqDecision K} (kept kept' : K -> Prop) (bufs : jsmap K string) (text : K -> string) (lines : K -> list string).
Variables (sock : K) (chunk : string).
Hypothesis still_kept : forall k, kept' k -> kept k.
Hypothesis before : forall k, tracked (kept k) (text k) (lines k) (default "" (mget k bufs)) false.
Notation buf := (default "" (mget sock bufs)).

Definition after_chunk (o : outcome string) : jsmap K string := match o with Ok b => mset sock b bufs | Throw _ => bufs end.

Lemma family_other o k dead : k <> sock -> tracked (kept' k) (text k +:+ "") (lines k ++ []) (default "" (mget k (after_chunk o))) dead.
Proof.
  intros Hk. rewrite app_nil_r. apply (tracked_still (kept k)); [apply still_kept|]. unfold after_chunk.
  destruct o; [rewrite mget_mset_ne by done|]; apply before.
Qed.

Lemma family_data o taken k :
  taken `prefix_of` (drain (buf +:+ chunk)).1 ->
  (forall left, o = Ok left -> taken = (drain (buf +:+ chunk)).1 /\ left = (drain (buf +:+ chunk)).2) ->
  tracked (kept' k) (text k +:+ if decide (sock = k) then chunk else "") (lines k ++ if decide (sock = k) then taken else [])
    (default "" (mget k (after_chunk o))) (negb (is_ok o)).
Proof.
  intros Hp Ho. case_decide as Hk; [subst k|by apply family_other].
  apply (tracked_data (kept sock) _ _ _ buf); [apply still_kept|apply before|done|].
  destruct o as [left|e]; [|done]. intros _. cbn. rewrite mget_mset_eq. by apply Ho.
Qed.

Lemma family_drop cap o k : (kept' sock -> fits cap (text sock) chunk) -> cap < Z.of_nat (String.length (buf +:+ chunk)) ->
  tracked (kept' k) (text k +:+ if decide (sock = k) then chunk else "") (lines k ++ [])
    (default "" (mget k (after_chunk o))) (negb (is_ok o)).
Proof.
  intros Hf Hover. case_decide as Hk; [subst k|by apply family_other].
  eapply (tracked_drop (kept sock)); [apply still_kept|exact Hf|apply before|exact Hover].
Qed.

End family.

(** *** A run *)

Lemma client_within_before w0 es e sock : client_within p w0 (es ++ [e]) sock -> client_within p w0 es sock.
Proof. intros Hk es1 chunk es2 ->. apply (Hk es1 chunk (es2 ++ [e])). by rewrite <- app_assoc. Qed.
Lemma hook_within_before w0 es e sock : hook_within p w0 (es ++ [e]) sock -> hook_within p w0 es sock.
Proof. intros Hk es1 chunk es2 ->. apply (Hk es1 chunk (es2 ++ [e])). by rewrite <- app_assoc. Qed.

Record traces w0 (es : list (event CSock HSock X S)) st (ins : list (input CSock HSock X S)) : Prop := {
  tr_world : world st = System.run p w0 ins;
  tr_client sock : tracked (client_within p w0 es sock) (client_text sock es) (client_lines sock ins)
    (default "" (mget sock (client_buf st))) (crashed st);
  tr_hook sock : tracked (hook_within p w0 es sock) (hook_text sock es) (hook_lines sock ins)
    (default "" (mget sock (hook_buf st))) (crashed st);
  tr_licensed : Forall (licensed p es) ins;
}.

Lemma client_lines_taken sock k taken :
  client_lines sock ((ClientLine k : string -> input CSock HSock X S) <$> taken) = if decide (k = sock) then taken else [].
Proof. induction taken as [|l taken IH]; [by case_decide|]. unfold client_lines in *. cbn. rewrite IH. by case_decide. Qed.
Lemma hook_lines_taken sock k taken :
  hook_lines sock ((HookLine k : string -> input CSock HSock X S) <$> taken) = if decide (k = sock) then taken else [].
Proof. induction taken as [|l taken IH]; [by case_decide|]. unfold hook_lines in *. cbn. rewrite IH. by case_decide. Qed.
Lemma client_lines_hook sock k taken : client_lines sock ((HookLine k : string -> input CSock HSock X S) <$> taken) = [].
Proof. unfold client_lines. by induction taken. Qed.
Lemma hook_lines_client sock k taken : hook_lines sock ((ClientLine k : string -> input CSock HSock X S) <$> taken) = [].
Proof. unfold hook_lines. by induction taken. Qed.

Lemma licensed_weaken es e i : licensed p es i -> licensed p (es ++ [e]) i.
Proof. destruct i; cbn; setoid_rewrite elem_of_app; naive_solver. Qed.

(** One more event, with the inputs it amounts to. *)
Lemma traces_snoc w0 es st ins e new w cb hb dead : traces w0 es st ins ->
  w = System.run p (world st) new -> Forall (licensed p (es ++ [e])) new ->
  (forall k, tracked (client_within p w0 (es ++ [e]) k) (client_text k es +:+ client_piece k e)
     (client_lines k ins ++ client_lines k new) (default "" (mget k cb)) dead) ->
  (forall k, tracked (hook_within p w0 (es ++ [e]) k) (hook_text k es +:+ hook_piece k e)
     (hook_lines k ins ++ hook_lines k new) (default "" (mget k hb)) dead) ->
  traces w0 (es ++ [e]) (mk w cb hb dead) (ins ++ new).
Proof.
  intros [Hw _ _ Hl] -> Hlic Hc Hh. split; cbn.
  - rewrite Hw. unfold System.run. by rewrite foldl_app.
  - intros k. unfold client_text, client_lines. rewrite foldl_app, omap_app. apply Hc.
  - intros k. unfold hook_text, hook_lines. rewrite foldl_app, omap_app. apply Hh.
  - apply Forall_app. split; [|exact Hlic]. eapply Forall_impl; [exact Hl|]. intros i. apply licensed_weaken.
Qed.

Lemma listen_eq {A} (m : eff World A) keep st : Wires.listen m keep st =
  match fst (m (world st)) with
  | Ok a => keep a (mk (snd (m (world st))) (client_buf st) (hook_buf st) false)
  | Throw _ => mk (snd (m (world st))) (client_buf st) (hook_buf st) true
  end.
Proof. unfold Wires.listen. by destruct (m (world st)) as [[a|e] w]. Qed.

Lemma traces_client w0 es st ins sock chunk : st = run (start w0) es -> crashed st = false -> traces w0 es st ins ->
  exists new, traces w0 (es ++ [ClientData sock chunk]) (Wires.step p st (ClientData sock chunk)) (ins ++ new).
Proof.
  intros Hst Hd Htr. pose proof Htr as [_ Htc Hth _]. unfold Wires.step. rewrite Hd in Htc, Hth |- *. rewrite listen_eq.
  pose proof (client_data_inputs sock (default "" (mget sock (client_buf st))) chunk (world st)) as Hin. cbv zeta in Hin.
  destruct (ClientConnection.onData _ _ _ _ _) as [o w']. cbn [fst snd] in Hin |- *.
  replace (match o with Ok a => _ | Throw _ => _ end) with
    (mk w' (after_chunk (client_buf st) sock o) (hook_buf st) (negb (is_ok o))) by (by destruct o).
  assert (Hhere : exists c, ClientData sock c ∈ es ++ [ClientData sock chunk]) by (exists chunk; set_solver).
  destruct Hin as [(_ & taken & Hp & Hr & Hok)|(Hover & [-> Hr]%pair_equal_spec)]; eexists; (eapply traces_snoc; [exact Htr|exact Hr| | |]).
  - apply Forall_fmap, Forall_true. intros l. exact Hhere.
  - intros k. rewrite client_lines_taken.
    exact (family_data _ _ _ (fun k => client_text k es) (fun k => client_lines k ins) sock chunk (client_within_before w0 es _) Htc o taken k Hp Hok).
  - intros k. rewrite hook_lines_client, app_nil_r. apply (tracked_still (hook_within p w0 es k)); [apply hook_within_before|apply Hth].
  - repeat (apply Forall_cons; split); [by right|right; by eexists|constructor].
  - intros k. refine (family_drop _ _ _ (fun k => client_text k es) (fun k => client_lines k ins) sock chunk (client_within_before w0 es _) Htc _ (Ok "") k _ Hover).
    intros Hk. rewrite Hst in Hd |- *. exact (Hk es chunk [] eq_refl Hd).
  - intros k. rewrite app_nil_r. apply (tracked_still (hook_within p w0 es k)); [apply hook_within_before|apply Hth].
Qed.

Lemma traces_hook w0 es st ins sock chunk : st = run (start w0) es -> crashed st = false -> traces w0 es st ins ->
  exists new, traces w0 (es ++ [HookData sock chunk]) (Wires.step p st (HookData sock chunk)) (ins ++ new).
Proof.
  intros Hst Hd Htr. pose proof Htr as [_ Htc Hth _]. unfold Wires.step. rewrite Hd in Htc, Hth |- *. rewrite listen_eq.
  pose proof (hook_data_inputs sock (default "" (mget sock (hook_buf st))) chunk (world st)) as Hin. cbv zeta in Hin.
  destruct (in_bridge (HookBridge.onData _ _ _ _) _) as [o w']. cbn [fst snd] in Hin |- *.
  replace (match o with Ok a => _ | Throw _ => _ end) with
    (mk w' (client_buf st) (after_chunk (hook_buf st) sock o) (negb (is_ok o))) by (by destruct o).
  assert (Hhere : exists c, HookData sock c ∈ es ++ [HookData sock chunk]) by (exists chunk; set_solver).
  destruct Hin as [(_ & taken & Hp & Hr & Hok)|(Hover & [-> Hr]%pair_equal_spec)]; eexists; (eapply traces_snoc; [exact Htr|exact Hr| | |]).
  - apply Forall_fmap, Forall_true. intros l. exact Hhere.
  - intros k. rewrite client_lines_hook, app_nil_r. apply (tracked_still (client_within p w0 es k)); [apply client_within_before|apply Htc].
  - intros k. rewrite hook_lines_taken.
    exact (family_data _ _ _ (fun k => hook_text k es) (fun k => hook_lines k ins) sock chunk (hook_within_before w0 es _) Hth o taken k Hp Hok).
  - apply Forall_singleton. right. by eexists.
  - intros k. rewrite app_nil_r. apply (tracked_still (client_within p w0 es k)); [apply client_within_before|apply Htc].
  - intros k. refine (family_drop _ _ _ (fun k => hook_text k es) (fun k => hook_lines k ins) sock chunk (hook_within_before w0 es _) Hth _ (Ok "") k _ Hover).
    intros Hk. rewrite Hst in Hd. exact (Hk es chunk [] eq_refl Hd).
Qed.

(** An event without text, which is one input. *)
Lemma traces_quiet w0 es st ins e i dead : crashed st = false -> traces w0 es st ins ->
  match i with ClientLine _ _ | HookLine _ _ => False | _ => licensed p (es ++ [e]) i end ->
  (forall k, client_piece k e = "") -> (forall k, hook_piece k e = "") ->
  traces w0 (es ++ [e]) (mk (System.step p (world st) i) (client_buf st) (hook_buf st) dead) (ins ++ [i]).
Proof.
  intros Hd Htr Hi Hc Hh. pose proof Htr as [_ Htc Hth _]. rewrite Hd in Htc, Hth. eapply traces_snoc; [exact Htr|done| | |].
  - apply Forall_singleton. by destruct i.
  - intros k. rewrite Hc. replace (client_lines k [i]) with (@nil string) by (by destruct i). rewrite app_nil_r. apply (tracked_still (client_within p w0 es k)); [apply client_within_before|apply Htc].
  - intros k. rewrite Hh. replace (hook_lines k [i]) with (@nil string) by (by destruct i). rewrite app_nil_r. apply (tracked_still (hook_within p w0 es k)); [apply hook_within_before|apply Hth].
Qed.

Lemma traces_step w0 es st ins e : st = run (start w0) es -> traces w0 es st ins -> exists new, traces w0 (es ++ [e]) (Wires.step p st e) (ins ++ new).
Proof.
  intros Hst Htr. assert (Hin : e ∈ es ++ [e]) by set_solver. destruct (crashed st) eqn:Hd.
  { unfold Wires.step. rewrite Hd. exists []. pose proof Htr as [_ Htc Hth _]. rewrite Hd in Htc, Hth. destruct st as [w cb hb dead]. cbn in *. subst dead.
    eapply traces_snoc; [exact Htr|done|constructor| |]; intros k; rewrite app_nil_r;
      [eapply (tracked_dead (client_within p w0 es k)), Htc; apply client_within_before|eapply (tracked_dead (hook_within p w0 es k)), Hth; apply hook_within_before]. }
  destruct e as [sock chunk|sock|sock chunk|sock|id|f|f]; try (by apply traces_client); try (by apply traces_hook);
    unfold Wires.step; rewrite Hd, ?listen_eq.
  - exists [ClientClose sock]. apply (traces_quiet w0 es st ins (ClientGone sock) (ClientClose sock) false); try done. by left.
  - exists [HookClose sock].
    pose proof (fun dead => traces_quiet w0 es st ins (HookGone sock) (HookClose sock) dead Hd Htr Hin ltac:(done) ltac:(done)) as Hq. cbn [System.step] in Hq.
    destruct (fst _); apply Hq.
  - exists [PurgeTimer id]. by apply traces_quiet.
  - exists [Elsewhere f]. apply traces_quiet; try done. by left.
  - exists [Platform f]. apply traces_quiet; try done. by left.
Qed.

Lemma traces_run w0 es : exists ins, traces w0 es (run (start w0) es) ins.
Proof.
  induction es as [|e es [ins IH]] using rev_ind; [exists []; split; try done; intros k _; by split|].
  unfold Wires.run. rewrite foldl_app. cbn [foldl]. destruct (traces_step w0 es _ ins e eq_refl IH) as [new Hn]. by exists (ins ++ new).
Qed.

Lemma wires_run_snoc w0 es e : run (start w0) (es ++ [e]) = Wires.step p (run (start w0) es) e.
Proof. unfold Wires.run. by rewrite foldl_app. Qed.

(** The first chunk that overruns its cap: nothing of it is taken. *)
Lemma client_overrun w0 es sock chunk : let st := run (start w0) es in
  crashed st = false -> client_within p w0 es sock -> ~ fits (line_cap sock (world st)) (client_text sock es) chunk ->
  run (start w0) (es ++ [ClientData sock chunk]) =
    mk (System.run p (world st) [ClientClose sock; Platform (destroys p sock)]) (mset sock "" (client_buf st)) (hook_buf st) false.
Proof.
  intros st Hd Hk Hover. rewrite wires_run_snoc. fold st. unfold Wires.step. rewrite Hd, listen_eq.
  destruct (traces_run w0 es) as [ins [_ Hc _ _]]. fold st in Hc. destruct (Hc sock Hk) as [_ Hs]. specialize (Hs Hd).
  unfold fits in Hover. rewrite Hs in Hover. cbn [snd] in Hover.
  destruct (client_data_inputs sock (default "" (mget sock (client_buf st))) chunk (world st)) as [[Hle _]|[_ Hr]]; [lia|by rewrite Hr].
Qed.

Lemma hook_overrun w0 es sock chunk : let st := run (start w0) es in
  crashed st = false -> hook_within p w0 es sock -> ~ fits HookBridge.MAX_HOOK_LINE (hook_text sock es) chunk ->
  run (start w0) (es ++ [HookData sock chunk]) =
    mk (System.run p (world st) [Elsewhere (closes p sock)]) (client_buf st) (mset sock "" (hook_buf st)) false.
Proof.
  intros st Hd Hk Hover. rewrite wires_run_snoc. fold st. unfold Wires.step. rewrite Hd, listen_eq.
  destruct (traces_run w0 es) as [ins [_ _ Hh _]]. fold st in Hh. destruct (Hh sock Hk) as [_ Hs]. specialize (Hs Hd).
  unfold fits in Hover. rewrite Hs in Hover. cbn [snd] in Hover.
  destruct (hook_data_inputs sock (default "" (mget sock (hook_buf st))) chunk (world st)) as [[Hle _]|[_ Hr]]; [lia|by rewrite Hr].
Qed.

(** C7. What the sockets deliver is what the daemon takes, line by line.  However the
    transports cut the streams into chunks and interleave them, and wherever a listener
    throws, the daemon on its wires goes through inputs of [System], each of which the
    events license.  However long its stream, as long as no chunk has made the unfinished
    line of a socket longer than the cap of that moment (64 KiB for a client that has proved
    nothing, 4 MiB for one that has, 8 MiB for a hook), the lines taken from the socket are the
    first lines of all the text it delivered, in order, and all its complete lines while the
    process lives.  The first chunk that does overrun the cap has nothing of it taken: the
    client is forgotten and its socket destroyed, or the hook's socket is. *)
Theorem wires_refine_lines w0 es : let st := run (start w0) es in
  exists ins, world st = System.run p w0 ins /\ Forall (licensed p es) ins /\
  (forall sock, client_within p w0 es sock -> faithful (client_text sock es) (client_lines sock ins) (negb (crashed st))) /\
  (forall sock, hook_within p w0 es sock -> faithful (hook_text sock es) (hook_lines sock ins) (negb (crashed st))) /\
  (forall sock chunk, crashed st = false -> client_within p w0 es sock ->
     ~ fits (line_cap sock (world st)) (client_text sock es) chunk ->
     run (start w0) (es ++ [ClientData sock chunk]) =
       mk (System.run p (world st) [ClientClose sock; Platform (destroys p sock)]) (mset sock "" (client_buf st)) (hook_buf st) false) /\
  (forall sock chunk, crashed st = false -> hook_within p w0 es sock ->
     ~ fits HookBridge.MAX_HOOK_LINE (hook_text sock es) chunk ->
     run (start w0) (es ++ [HookData sock chunk]) =
       mk (System.run p (world st) [Elsewhere (closes p sock)]) (client_buf st) (mset sock "" (hook_buf st)) false).
Proof.
  intros st. destruct (traces_run w0 es) as [ins [Hw Hc Hh Hl]]. exists ins. split; [exact Hw|]. split; [exact Hl|].
  assert (Ht : forall kept text lines buf, tracked kept text lines buf (crashed st) -> kept -> faithful text lines (negb (crashed st))).
  { intros kept text lines buf Ht Hk. destruct (Ht Hk) as [Hp Hd]. split; [exact Hp|]. intros Ha. apply negb_true_iff in Ha. by rewrite (Hd Ha). }
  split_and!; [intros sock; eapply Ht, Hc|intros sock; eapply Ht, Hh|intros sock chunk; apply client_overrun|intros sock chunk; apply hook_overrun].
Qed.

End laws.

(** ** The phone's two lines of [Guarantee], cut across them *)

Section demo.
#[local] Existing Instance node_SessionCrypto.
#[local] Existing Instance toy_platform.

Definition demo_chunks : list (event nat nat Z unit) :=
  [HookData 7%nat "requ"; ClientData 1%nat "hel"; HookData 7%nat ("est" +:+ String newline "");
   ClientData 1%nat ("lo" +:+ String newline "sea"); ClientData 1%nat ("led" +:+ String newline "")].

Example demo_chunks_are_lines :
  world (run demo_parts (start (boot demo_hub Db.empty tt)) demo_chunks) = System.run demo_parts (boot demo_hub Db.empty tt) demo_inputs /\
  crashed (run demo_parts (start (boot demo_hub Db.empty tt)) demo_chunks) = false.
Proof. split; vm_compute; reflexivity. Qed.

End demo.
