(* ===== verification/Revocation.v ===== *)
(** * Revocation

    What [revoke] in [packages/daemon/src/application/commands.ts] promises about the
    assembled daemon ([System]): the store of trust, the open sockets and everything that
    comes after. *)

From S2P Require Import Prelude JsMap Js Types Frame DeviceSessions Approvals Jobs Framing.
From S2P Require Import HookMargin Db Commands Hub Pairing Connection HookBridge Daemon System Guarantee.
Import Framing System.

Local Open Scope Z_scope.

(** ** Laws *)

Section revocation.
Context {Key Nonce CSock HSock O X H S : Type} `{SessionCrypto Key Nonce} `{EqDecision CSock} `{EqDecision HSock}.
Notation Bridge := (HookBridge.t HSock O (Rest HSock S)).
Notation World := (ClientConnection.t Key CSock X ServerEvent Bridge).
Variables (p : Parts Key Nonce CSock HSock O X H S) (dev : string).

(** No socket is connected as the device. *)
Definition out_of_hub (w : World) : Prop :=
  forall sk c, ClientHub.connFor sk (ClientConnection.hub w) = Some c -> ClientHub.deviceId c <> dev.

Lemma disconnect_puts_out w : out_of_hub (snd (ClientConnection.on_hub (ClientHub.disconnectDevice (net p) dev) w)).
Proof.
  intros sk c Hg. unfold ClientHub.connFor in Hg. cbn in Hg. unfold ClientHub.disconnectDevice in Hg.
  apply disconnect_loop in Hg as [Hg Hd]. apply Hd. by apply mget_Some_elem.
Qed.

Lemma calm_keeps_out w f : calm f -> out_of_hub w -> out_of_hub (ClientConnection.mk (f (ClientConnection.hub w)) (ClientConnection.rest w)).
Proof.
  intros Hf Hw sk c Hg. destruct (Hf (ClientConnection.hub w)) as [gone Hc]. unfold ClientHub.connFor in Hg. cbn in Hg.
  rewrite Hc in Hg. apply mget_drops in Hg. by apply (Hw sk).
Qed.

(** Forgetting the device's push token, which comes between the revocation and the
    disconnection, returns when the identity has been told at [w]. *)
Definition forgets (w : World) : Prop :=
  is_ok (fst (outside p (push_unregister p dev) (snd (outside p (identity_revoke p dev) w)))) = true.

(** A call into the rest of the daemon does not look at the hub. *)
Lemma outside_hub_blind {A B} (m : eff (outer S) A) (k : eff (outer S) B) h w :
  fst (outside p m (ClientConnection.mk h (ClientConnection.rest w))) = fst (outside p m w) /\
  fst (outside p k (snd (outside p m (ClientConnection.mk h (ClientConnection.rest w))))) = fst (outside p k (snd (outside p m w))).
Proof.
  destruct w as [hw [[pe wa ti [x ho pr] an] cl]]. unfold outside, in_bridge, HookBridge.outside, on_outer. cbn.
  destruct (m (mkOuter x pr [])) as [o [x1 pr1 se]]. cbn. split; [done|]. by destruct (k (mkOuter x1 pr1 [])).
Qed.

(** The command itself: when it gets as far as the disconnection, nobody is left
    connected as the device. *)
Lemma revoke_puts_out sock by_ w :
  fst (outside p (identity_revoke p dev) w) = Ok true -> forgets w ->
  out_of_hub (snd (dispatch p (PCmd (cmd_revoke dev)) sock by_ w)).
Proof.
  intros Hr Hf. cbn [dispatch Commands.handleCommand commands Commands.identity_revoke Commands.push_unregister Commands.reply Commands.disconnectDevice].
  unfold forgets in Hf. unfold mbind at 1, eff_bind at 1. destruct (outside p (identity_revoke p dev) w) as [o w1]. cbn in Hr, Hf. subst o. cbv iota.
  unfold mbind at 1, eff_bind at 1. destruct (outside p (push_unregister p dev) w1) as [[u|e] w2]; [|done]. cbv iota.
  unfold mbind at 1, eff_bind at 1. apply disconnect_puts_out.
Qed.

(** The whole line: what follows the command on the way out connects nobody. *)
Lemma revoke_line_puts_out sock line by_ seq w :
  ClientConnection.executes (connection p sock) sock line w = Some (by_, seq, PCmd (cmd_revoke dev)) ->
  fst (outside p (identity_revoke p dev) w) = Ok true -> forgets w ->
  out_of_hub (step p w (ClientLine sock line)).
Proof.
  intros Hex Hr Hf. destruct (executes_connected _ _ _ _ _ _ _ Hex) as (c & Hc & _).
  assert (Hcalm : forall w f, calm f -> out_of_hub w -> out_of_hub (ClientConnection.mk (f (ClientConnection.hub w)) (ClientConnection.rest w)))
    by apply calm_keeps_out.
  pose proof (carried_authenticated out_of_hub p sock Hcalm line w) as Ha. rewrite Hex, Hc in Ha.
  destruct (Ha ltac:(done) ltac:(done)) as [r Hl]. cbn [step]. apply (Hl _ eq_refl).
  destruct (outside_hub_blind (identity_revoke p dev) (push_unregister p dev) (ClientHub.set_reg r (ClientConnection.hub w)) w) as [H1 H2].
  apply revoke_puts_out; unfold forgets; [by rewrite H1|by rewrite H2].
Qed.

(** The line of a connected socket connects nobody. *)
Lemma revoke_line_connects_nobody sock line by_ seq cmd w sk c :
  ClientConnection.executes (connection p sock) sock line w = Some (by_, seq, cmd) ->
  ClientHub.connFor sk (ClientConnection.hub (step p w (ClientLine sock line))) = Some c ->
  ClientHub.connFor sk (ClientConnection.hub w) = Some c.
Proof.
  intros Hex. destruct (executes_connected _ _ _ _ _ _ _ Hex) as (c0 & Hc & _). apply step_calm.
  intros sk' line' [= -> ->]. by rewrite Hc.
Qed.

(** C6. A revoked device is out until it is trusted anew.  Take a client's line whose command
    revokes a device the identity knew.  If forgetting the device's push token does not
    throw, the line leaves no socket connected as that device, however many it had, and its
    own included when it revokes itself; if it throws, the device is revoked and its
    sockets are not closed.  From then on, whatever the
    clients, the hooks, the timers and the rest of the daemon do, in any order, a socket is
    connected as that device, to receive events or to have a command carried out, only by
    a hello after the revocation, on that socket, when the identity knew the device again,
    or, in the second case alone, because it was connected as the device before. *)
Theorem revoked_device_is_out w sock line by_ seq after
    (Hcmd : ClientConnection.executes (connection p sock) sock line w = Some (by_, seq, PCmd (cmd_revoke dev)))
    (Hknown : fst (outside p (identity_revoke p dev) w) = Ok true) :
  let w0 := step p w (ClientLine sock line) in
  let w' := run p w0 after in
  let admitted sk := greeted_as p w0 after sk dev \/
    (~ forgets w /\ exists c, ClientHub.connFor sk (ClientConnection.hub w) = Some c /\ ClientHub.deviceId c = dev) in
  (forgets w -> out_of_hub w0) /\
  (forall sk c, ClientHub.connFor sk (ClientConnection.hub w') = Some c -> ClientHub.deviceId c = dev -> admitted sk) /\
  (forall sk line' seq' cmd, ClientConnection.executes (connection p sk) sk line' w' = Some (dev, seq', cmd) -> admitted sk).
Proof.
  intros w0 w' admitted.
  assert (Hout : forgets w -> out_of_hub w0) by (intros; eapply revoke_line_puts_out; eauto).
  assert (Hin : forall sk c, ClientHub.connFor sk (ClientConnection.hub w') = Some c -> ClientHub.deviceId c = dev -> admitted sk).
  { intros sk c [Hc|Hg]%connected_since Hd; [right|left; by rewrite <- Hd]. split.
    - intros Hf. by destruct (Hout Hf sk c Hc).
    - exists c. split; [|done]. eapply revoke_line_connects_nobody; eauto. }
  split_and!; [exact Hout|exact Hin|]. intros sk line' seq' cmd Hex.
  destruct (executes_connected _ _ _ _ _ _ _ Hex) as (c & Hc & Hd). by apply (Hin sk c).
Qed.

End revocation.

(** ** A concrete revocation: the laptop revokes the phone, which is trusted again later *)

Section demo.
#[local] Existing Instance node_SessionCrypto.
#[local] Existing Instance toy_platform.

(** The rest of the daemon is whether the phone is trusted. *)
Definition demo_identity : ClientConnection.PairingService string bool :=
  ClientConnection.mkPairing (fun _ => "pk-daemon") (fun _ => 1) (fun addr => mret ("qr", 1000)) (fun _ _ _ => throw "bad")
    (fun id trusted => if decide (id = "phone") then if trusted : bool then Some demo_phone else None else None)
    (fun pk salt => mret ("key-" +:+ salt)).

Definition demo_daemon : Daemon.Process nat unit bool :=
  Daemon.mkProcess (fun _ _ => None) (fun _ => "") (fun _ _ x => x) (fun _ _ x => x)
    (fun _ _ => mkSessionInfo "" None "" "" idle None 0 0 0) 1000 (fun x => x) (fun _ _ x => x) (fun _ x => x) (fun _ => 5)
    (fun _ => None) (fun _ => None).

Definition demo_revoke : jsval :=
  let f := node_seal "k2" 1 (PCmd (cmd_revoke "phone")) c2d "n" in
  JObj [("n", JStr (f_n f)); ("c", JStr (f_c f)); ("t", JStr (f_t f)); ("seq", JNum (NumFin (inject_Z 1)))].

Definition demo_parts_with (unregister : eff (outer bool) unit) : Parts string string nat nat unit Z unit bool :=
  mkParts demo_net demo_daemon demo_identity 50 (fun _ => false) (fun _ => []) (fun _ => []) (fun _ => "tcp://host:1")
    (fun r => ("salt", r)) (fun l => if bool_decide (l = "revoke") then Some demo_revoke else if bool_decide (l = "hello") then Some demo_hello else None)
    (fun _ => []) (Commands.mkHandleOps (fun _ => throw "gone") (fun _ _ => mret tt) (fun _ => mret tt) (fun _ _ => mret tt) (fun _ _ => mret tt))
    (fun _ _ => throw "none")
    (fun _ x => (Ok (o_proc x), mkOuter (o_db x) false (o_sent x))) (fun _ _ _ => mret tt) (fun _ => unregister).

Definition demo_parts : Parts string string nat nat unit Z unit bool := demo_parts_with (mret tt).

(** The phone has two sockets, the laptop one. *)
Definition demo_connected : ClientConnection.t string nat Z ServerEvent (HookBridge.t nat unit (Rest nat bool)) :=
  boot (ClientHub.mk [(1%nat, ClientHub.mkConn "k1" "phone"); (2%nat, ClientHub.mkConn "k2" "laptop"); (3%nat, ClientHub.mkConn "k3" "phone")]
    (DeviceSessions.new 200 200) 0 []) Db.empty true.

Definition demo_after : list (input nat nat Z bool) :=
  [ClientLine 1%nat "hello"; Elsewhere (fun x => mkOuter (o_db x) true []); ClientLine 3%nat "hello"].

Lemma revoked_device_is_out_witness :
  let w0 := step demo_parts demo_connected (ClientLine 2%nat "revoke") in
  ClientHub.connFor 1%nat (ClientConnection.hub w0) = None /\
  ClientHub.connFor 1%nat (ClientConnection.hub (run demo_parts w0 demo_after)) = None /\
  greeted_as demo_parts w0 demo_after 3%nat "phone".
Proof.
  split; [vm_compute; reflexivity|]. split; [vm_compute; reflexivity|].
  assert (Hcmd : ClientConnection.executes (connection demo_parts 2%nat) 2%nat "revoke" demo_connected =
    Some ("laptop", 1, PCmd (cmd_revoke "phone"))) by (vm_compute; reflexivity).
  assert (Hknown : fst (outside demo_parts (identity_revoke demo_parts "phone") demo_connected) = Ok true) by (vm_compute; reflexivity).
  assert (Hforgets : forgets demo_parts "phone" demo_connected) by (vm_compute; reflexivity).
  destruct (revoked_device_is_out demo_parts "phone" demo_connected 2%nat "revoke" "laptop" 1 demo_after Hcmd Hknown)
    as (_ & Hin & _).
  destruct (Hin 3%nat (ClientHub.mkConn "key-salt" "phone")) as [Hg|[Hn _]]; [vm_compute; reflexivity|vm_compute; reflexivity|exact Hg|].
  destruct (Hn Hforgets).
Defined.

(** The case the theorem sets apart happens: when the store refuses to forget the push
    token, the phone is revoked, and both of its sockets stay connected. *)
Lemma failed_unregister_keeps_sockets :
  let failing := demo_parts_with (throw "SQLITE_FULL") in
  let w0 := step failing demo_connected (ClientLine 2%nat "revoke") in
  fst (outside failing (identity_revoke failing "phone") demo_connected) = Ok true /\
  proc_of (ClientConnection.rest w0) = false /\
  ClientHub.deviceId <$> ClientHub.connFor 1%nat (ClientConnection.hub w0) = Some "phone" /\
  ClientHub.deviceId <$> ClientHub.connFor 3%nat (ClientConnection.hub w0) = Some "phone".
Proof. vm_compute. auto. Qed.

End demo.
