(* ===== verification/Spawning.v ===== *)
(** * What a session is started with

    The path of a spawn from the command of a device to the command line of [claude]:
    [spawnSession] and the job queue's ports of [packages/daemon/src/index.ts], over the
    dispatcher ([Commands]), the queue ([Jobs]), the margin policy ([HookMargin]) and the
    session adapter ([Session]).  The store, the sessions, the sockets and the clock are the
    rest of the machine; each may fail. *)

From S2P Require Import Prelude JsMap Js Types HookMargin Jobs Session Approvals Commands HookProcess.

Local Open Scope Z_scope.

Module Spawning.

Section spawning.
Context {S Sock : Type}.

(** The machine under the daemon: the files a project's settings are read from, what was
    started, with the files of that moment, the modes sessions were moved to, and the rest. *)
Record machine : Type := mkMachine {
  files : string -> option string;
  launched : list (Session.SpawnOptions * (string -> option string));
  moved : list PermissionMode;
  other : S;
}.

Notation Queue := (JobQueue.t Session.t machine).

Record Parts : Type := mkParts {
  hookSock : string;
  selfDenyMs : Z;
  maxConcurrent : option Z;
  parseJson : string -> option jsval;
  number_text : Q -> string;
  (** [spawn('claude', args, { cwd, env })] *)
  spawn : string -> list string -> jsmap string string -> eff S unit;
  now : S -> Z;
  randomUUID : S -> string * S;
  (** the queue's store, [onSession] and its 'update' listener *)
  insertJob : JobInfo -> eff S unit;
  updateJobState : string -> JobPatch -> eff S unit;
  onSession : JobInfo -> Session.t -> eff S unit;
  on_update : JobInfo -> eff S unit;
  (** the dispatcher's other dependencies *)
  services : Commands.Deps S Session.t Sock;
}.

Definition on_other {A} (m : eff S A) : eff machine A := fun x =>
  let (o, s) := m (other x) in (o, mkMachine (files x) (launched x) (moved x) s).

(** *** The queue's ports *)

(** The reasons of [evaluateHookMargin] and of [FileHookMarginPolicy.check]. *)
Definition reason_text (show : Q -> string) (r : HookMargin.Reason) : string :=
  match r with
  | HookMargin.NoBridgeHook label => "no PreToolUse hook running approve-bridge.mjs in " +:+ label
  | HookMargin.TightMargin settingsTimeoutMs marginMs selfDenyMs =>
      "settings timeout (" +:+ show settingsTimeoutMs +:+ "ms) leaves only " +:+ show marginMs +:+ "ms of margin over " +:+
      "self-deny (" +:+ pretty selfDenyMs +:+ "ms); need at least " +:+ pretty HookMargin.MIN_MARGIN_MS +:+ "ms"
  | HookMargin.NoSettings path => "no " +:+ path +:+ ", approve-bridge hook not installed"
  | HookMargin.InvalidJson path => path +:+ " is not valid JSON"
  end.

(** [new FileHookMarginPolicy()], as the queue calls it. *)
Definition check (v : Parts) (cwd : string) (deny : Z) : eff machine (option string) := fun x =>
  match HookMargin.check (files x) (parseJson v) cwd deny with
  | Throw e => (Throw e, x)
  | Ok HookMargin.MarginOk => (Ok None, x)
  | Ok (HookMargin.MarginRefused r) => (Ok (Some (reason_text (number_text v) r)), x)
  end.

Definition spawn_options (v : Parts) (req : SpawnRequest) : Session.SpawnOptions :=
  Session.mkSpawnOptions (rq_cwd req) (rq_label req) (rq_disallowedTools req) (rq_model req) (rq_permissionMode req)
    (rq_effort req) (hookSock v) (selfDenyMs v).

(** [spawnSession(req)]: the constructor starts [claude]; a [spawn] that throws starts
    nothing. *)
Definition spawnSession (v : Parts) (req : SpawnRequest) : eff machine Session.t :=
  let o := spawn_options v req in
  uuid ← on_other (fun s => let (u, s') := randomUUID v s in (Ok u, s'));
  on_other (spawn v (Session.so_cwd o) (Session.claude_args o) (Session.environment o)) ;;
  modify (fun x => mkMachine (files x) (launched x ++ [(o, files x)]) (moved x) (other x)) ;;
  gets (fun x => Session.new (now v (other x)) uuid o).

(** [new JobQueue({ db, maxConcurrent, selfDenyMs, hookMargin, spawnSession, onSession, log })] *)
Definition jobQueue (v : Parts) : JobQueue.Ports Session.t machine :=
  JobQueue.mkPorts (fun j => on_other (insertJob v j)) (fun id patch => on_other (updateJobState v id patch))
    (maxConcurrent v) (selfDenyMs v) (check v) (spawnSession v) (fun j s => on_other (onSession v j s))
    (fun j => on_other (on_update v j)) Session.id (fun x => now v (other x)).

(** *** The dispatcher over the queue *)

Definition on_queue {A} (m : eff S A) : eff Queue A := JobQueue.call (on_other m).

(** [jobQueue.enqueue(req, requestedBy)] *)
Definition enqueue (v : Parts) (req : SpawnRequest) (by_ : string) : eff Queue JobInfo :=
  id ← on_queue (fun s => let (u, s') := randomUUID v s in (Ok u, s'));
  job ← JobQueue.enqueue (jobQueue v) id req by_;
  match job with Some j => mret j | None => throw "unreachable" end.

(** [session.setPermissionMode(mode)], with the account of it. *)
Definition setPermissionMode (v : Parts) (h : Session.t) (mode : PermissionMode) : eff Queue unit :=
  JobQueue.call (modify (fun x => mkMachine (files x) (launched x) (moved x ++ [mode]) (other x))) ;;
  on_queue (Commands.hd_setPermissionMode (Commands.handle_ops (services v)) h mode).

(** [createCommandHandler({ sessions, broker, jobQueue, ... })] *)
Definition commands (v : Parts) : Commands.Deps Queue Session.t Sock :=
  let d := services v in
  let h := Commands.handle_ops d in
  let state q := other (JobQueue.ext q) in
  Commands.mkDeps (fun q => Commands.sessions d (state q))
    (Commands.mkHandleOps (fun s => on_queue (Commands.hd_info h s)) (fun s t => on_queue (Commands.hd_send h s t))
       (fun s => on_queue (Commands.hd_interrupt h s)) (fun s m => on_queue (Commands.hd_setModel h s m)) (setPermissionMode v))
    (fun id w reason by_ => on_queue (Commands.broker_decide d id w reason by_)) (fun id q => Commands.broker_get d id (state q))
    (enqueue v) (fun id => on_queue (Commands.identity_revoke d id)) (fun n => on_queue (Commands.db_queryRecentApprovals d n))
    (fun dev token platform => on_queue (Commands.push_register d dev token platform)) (fun dev => on_queue (Commands.push_unregister d dev))
    (fun dev => on_queue (Commands.disconnectDevice d dev)) (fun sock ev => on_queue (Commands.reply d sock ev)).

(** *** Runs: any command of any device, the exit of a session, and what else happens on
    the machine, which may rewrite any file *)

Inductive step (v : Parts) : Queue -> Queue -> Prop :=
| step_command q cmd sock dev : step v q (snd (Commands.handleCommand (commands v) cmd sock dev q))
| step_exit q w1 s id w2 code err : JobQueue.watched q = w1 ++ (s, id) :: w2 ->
    step v q (snd (JobQueue.exit_event (jobQueue v) s id code err (w1 ++ w2) q))
| step_outside q f s :
    step v q (JobQueue.mk (JobQueue.heap q) (JobQueue.jobs q) (JobQueue.running q) (JobQueue.watched q)
      (mkMachine f (launched (JobQueue.ext q)) (moved (JobQueue.ext q)) s)).

Inductive reach (v : Parts) (f : string -> option string) (s : S) : Queue -> Prop :=
| reach_new : reach v f s (JobQueue.new (mkMachine f [] [] s))
| reach_step q q' : reach v f s q -> step v q q' -> reach v f s q'.

(** *** Vocabulary *)

(** A mode that lets no tool run without a decision, or none asked for. *)
Definition guarded (mode : option PermissionMode) : Prop := mode = None \/ mode = Some plan.

(** The project's settings, as [f] has them. *)
Definition settings_in (v : Parts) (f : string -> option string) (cwd : string) : option jsval :=
  f (cwd +:+ "/.claude/settings.json") ≫= parseJson v.

End spawning.
Arguments machine : clear implicits.
Arguments Parts : clear implicits.

End Spawning.

Import Spawning.

(** ** Laws *)

Section laws.
Context {S Sock : Type} (v : Parts S Sock).
Notation Queue := (JobQueue.t Session.t (machine S)).
Implicit Types (q : Queue).

(** What was started was permitted, by the files of that moment. *)
Definition permitted (l : Session.SpawnOptions * (string -> option string)) : Prop :=
  guarded (Session.so_permissionMode (fst l)) /\ Session.environment (fst l) =
    [("CC_DAEMON_SOCK", hookSock v); ("CC_HOOK_SELF_DENY_MS", pretty (selfDenyMs v))] /\
  HookMargin.check (snd l) (parseJson v) (Session.so_cwd (fst l)) (selfDenyMs v) = Ok HookMargin.MarginOk.

(** Every job asks for a guarded mode, and what happened was permitted. *)
Definition gated q : Prop :=
  (forall id j, mget id (JobQueue.heap q) = Some j -> guarded (j_permissionMode j)) /\
  Forall permitted (launched (JobQueue.ext q)) /\ Forall (eq plan) (moved (JobQueue.ext q)).

(** The job [id] may start now. *)
Definition checked (id : string) q : Prop :=
  gated q /\ exists j, mget id (JobQueue.heap q) = Some j /\
    HookMargin.check (files (JobQueue.ext q)) (parseJson v) (j_cwd j) (selfDenyMs v) = Ok HookMargin.MarginOk.

(** An assignment that leaves the request alone. *)
Definition bookkeeping (f : JobInfo -> JobInfo) : Prop :=
  forall j, j_permissionMode (f j) = j_permissionMode j /\ j_cwd (f j) = j_cwd j.

(** A property of the heap's requests and of the machine's account. *)
Section kept.
Variable K : Queue -> Prop.
Hypothesis K_assign : forall id f q, bookkeeping f -> K q -> K (snd (JobQueue.assign id f q)).
Hypothesis K_other : forall q js n w s, K q ->
  K (JobQueue.mk (JobQueue.heap q) js n w (mkMachine (files (JobQueue.ext q)) (launched (JobQueue.ext q)) (moved (JobQueue.ext q)) s)).

Lemma kept_other {A} (m : eff S A) : preserves K (JobQueue.call (on_other m)).
Proof.
  intros q Hq. unfold JobQueue.call, on_other. destruct (m _) as [o s].
  by apply (K_other q (JobQueue.jobs q) (JobQueue.running q) (JobQueue.watched q)).
Qed.

Lemma kept_still js n w q : K q -> K (JobQueue.mk (JobQueue.heap q) js n w (JobQueue.ext q)).
Proof. intros Hq. apply (K_other q js n w (other (JobQueue.ext q))) in Hq. by destruct q as [? ? ? ? []]. Qed.

Lemma kept_assign id f : bookkeeping f -> preserves K (JobQueue.assign id f).
Proof. intros Hf q. by apply K_assign. Qed.

Lemma kept_deref {A} id (k : JobInfo -> eff Queue A) dead : (forall j, preserves K (k j)) -> preserves K (JobQueue.deref id k dead).
Proof. intros Hk q Hq. unfold JobQueue.deref. destruct (mget id _); [by apply Hk|done]. Qed.

Lemma kept_running d : preserves K (JobQueue.add_running d).
Proof. intros q. apply kept_still. Qed.

Lemma kept_delete id : preserves K (JobQueue.jobs_delete id).
Proof. intros q. apply kept_still. Qed.

Lemma kept_check cwd deny : preserves K (JobQueue.call (check v cwd deny)).
Proof.
  intros q Hq. unfold JobQueue.call, check. destruct (HookMargin.check _ _ _ _) as [[|r]|e]; by apply kept_still.
Qed.

Create HintDb kept.
Hint Resolve preserves_ret preserves_throw preserves_gets preserves_bind preserves_try kept_other kept_deref kept_running kept_delete kept_assign : kept.

Lemma kept_emit id : preserves K (JobQueue.emit (jobQueue v) id).
Proof. apply kept_deref. intros j. apply kept_other. Qed.
Hint Resolve kept_emit : kept.

Lemma kept_store_update id patch : preserves K (JobQueue.call (JobQueue.updateJobState (jobQueue v) id patch)).
Proof. apply kept_other. Qed.

Lemma kept_store_insert j : preserves K (JobQueue.call (JobQueue.insertJob (jobQueue v) j)).
Proof. apply kept_other. Qed.

Lemma kept_session j s : preserves K (JobQueue.call (JobQueue.onSession (jobQueue v) j s)).
Proof. apply kept_other. Qed.
Hint Resolve kept_store_update kept_store_insert kept_session : kept.

Lemma kept_fail id msg : preserves K (JobQueue.fail_job (jobQueue v) id msg).
Proof.
  unfold JobQueue.fail_job. repeat (apply preserves_bind; [|intros ?]); auto with kept; by apply kept_assign.
Qed.
End kept.

Lemma gated_assign id f q : bookkeeping f -> gated q -> gated (snd (JobQueue.assign id f q)).
Proof.
  intros Hf (Hh & Hl & Hm). unfold JobQueue.assign, modify. cbn [snd]. destruct (mget id (JobQueue.heap q)) as [j|] eqn:Hj; [|done].
  split; [|done]. intros id' j'. cbn [JobQueue.heap]. rewrite mget_mset. case_decide as Heq; [|by apply Hh].
  intros [= <-]. destruct (Hf j) as [-> _]. by apply (Hh id).
Qed.

Lemma checked_assign id id' f q : bookkeeping f -> checked id q -> checked id (snd (JobQueue.assign id' f q)).
Proof.
  intros Hf [Hg (j & Hj & Hc)]. split; [by apply gated_assign|]. unfold JobQueue.assign, modify. cbn [snd].
  destruct (mget id' (JobQueue.heap q)) as [j'|] eqn:Hj'; [|by exists j]. cbn [JobQueue.heap JobQueue.ext].
  rewrite mget_mset. case_decide as Heq; [subst id'|by exists j]. exists (f j'). split; [done|].
  rewrite Hj in Hj'. injection Hj' as <-. by destruct (Hf j) as [_ ->].
Qed.

Lemma gated_other q js n w s : gated q ->
  gated (JobQueue.mk (JobQueue.heap q) js n w (mkMachine (files (JobQueue.ext q)) (launched (JobQueue.ext q)) (moved (JobQueue.ext q)) s)).
Proof. done. Qed.

Lemma checked_other id q js n w s : checked id q ->
  checked id (JobQueue.mk (JobQueue.heap q) js n w (mkMachine (files (JobQueue.ext q)) (launched (JobQueue.ext q)) (moved (JobQueue.ext q)) s)).
Proof. done. Qed.

Hint Resolve preserves_ret preserves_throw preserves_gets preserves_bind preserves_try : gated.

Lemma gated_call {A} (m : eff S A) : preserves gated (JobQueue.call (on_other m)).
Proof. apply kept_other, gated_other. Qed.
Lemma gated_deref {A} id (k : JobInfo -> eff Queue A) dead : (forall j, preserves gated (k j)) -> preserves gated (JobQueue.deref id k dead).
Proof. apply kept_deref. Qed.
Lemma gated_set id f : bookkeeping f -> preserves gated (JobQueue.assign id f).
Proof. apply kept_assign, gated_assign. Qed.
Lemma gated_emit id : preserves gated (JobQueue.emit (jobQueue v) id).
Proof. apply kept_emit, gated_other. Qed.
Lemma gated_fail id msg : preserves gated (JobQueue.fail_job (jobQueue v) id msg).
Proof. apply kept_fail; [apply gated_assign|apply gated_other]. Qed.
Lemma gated_check cwd deny : preserves gated (JobQueue.call (check v cwd deny)).
Proof. apply kept_check, gated_other. Qed.
Lemma gated_still js n w q : gated q -> gated (JobQueue.mk (JobQueue.heap q) js n w (JobQueue.ext q)).
Proof. done. Qed.
Hint Resolve gated_call gated_deref gated_set gated_emit gated_fail gated_check gated_still : gated.

(** The constructor starts what was checked. *)
Lemma gated_spawn id j q : checked id q -> mget id (JobQueue.heap q) = Some j ->
  gated (snd (JobQueue.call (spawnSession v (JobQueue.request_of j)) q)).
Proof.
  intros [(Hh & Hl & Hm) (j' & Hj' & Hc)] Hj. rewrite Hj in Hj'. injection Hj' as <-.
  unfold JobQueue.call, spawnSession, mbind, eff_bind, on_other, modify, gets. cbn.
  destruct (randomUUID v _) as [u s]. cbn. destruct (spawn v _ _ _ s) as [[[]|e] s']; cbn; [|done].
  split; [exact Hh|]. split; [|exact Hm]. apply Forall_app. split; [exact Hl|]. apply Forall_singleton. split_and!; [|done|exact Hc].
  by apply (Hh id).
Qed.

Lemma gated_block id q : checked id q -> gated (snd (JobQueue.spawn_block (jobQueue v) id q)).
Proof.
  intros Hk. unfold JobQueue.spawn_block. unfold JobQueue.deref at 1. destruct (mget id (JobQueue.heap q)) as [j|] eqn:Hj; [|apply Hk].
  unfold mbind at 1, eff_bind at 1. pose proof (gated_spawn id j q Hk Hj) as Hg.
  cbn [JobQueue.spawnSession jobQueue]. destruct (JobQueue.call (spawnSession v _) q) as [[s|e] q1]; [|exact Hg]. cbn [snd] in Hg.
  match goal with |- gated (snd (?m q1)) => assert (Hp : preserves gated m); [|by apply Hp] end.
  apply preserves_bind; [by apply gated_set|]. intros _. apply preserves_bind; [apply gated_call|]. intros _.
  apply preserves_bind; [|auto with gated]. apply gated_deref. intros j'. apply gated_call.
Qed.

Lemma gated_tryStart id : preserves gated (JobQueue.tryStart (jobQueue v) id).
Proof.
  unfold JobQueue.tryStart, JobQueue.deref. intros q Hq. destruct (mget id (JobQueue.heap q)) as [j|] eqn:Hj; [|done].
  unfold mbind at 1, eff_bind at 1, gets at 1. destruct (_ || _); [done|].
  unfold mbind at 1, eff_bind at 1. cbn [JobQueue.check JobQueue.selfDenyMs jobQueue]. unfold JobQueue.call at 1, check at 1.
  assert (Hsame : JobQueue.mk (JobQueue.heap q) (JobQueue.jobs q) (JobQueue.running q) (JobQueue.watched q) (JobQueue.ext q) = q) by (by destruct q).
  destruct (HookMargin.check _ _ _ _) as [[|r]|e] eqn:Hc; rewrite Hsame; [|by apply gated_fail|done].
  assert (Hk : checked id q) by (split; [done|by exists j]). clear Hj Hc Hsame Hq.
  match goal with |- gated (snd (?m q)) => assert (Ht : triple (checked id) m (fun _ => gated) gated) end.
  2:{ by destruct (triple_state _ _ _ _ Ht q Hk) as [[? ?]|?]. }
  assert (Hkeep : forall A (m : eff Queue A), preserves (checked id) m -> triple (checked id) m (fun _ => checked id) gated).
  { intros A m Hm q0 Hq0. specialize (Hm q0 Hq0). destruct (m q0) as [[a|e] q1]; [exact Hm|apply Hm]. }
  eapply triple_bind; [apply Hkeep; apply (kept_assign (checked id)); [apply checked_assign|done]|]. intros ?.
  eapply triple_bind; [apply Hkeep, preserves_gets|]. intros now.
  eapply triple_bind; [apply Hkeep; apply (kept_assign (checked id)); [apply checked_assign|done]|]. intros ?.
  eapply triple_bind; [apply Hkeep; apply (kept_running (checked id)); apply checked_other|]. intros ?.
  eapply triple_bind; [apply Hkeep; apply (kept_store_update (checked id)); apply checked_other|]. intros ?.
  eapply triple_bind; [apply Hkeep; apply (kept_emit (checked id)); apply checked_other|]. intros ?.
  apply (triple_bind _ _ _ (fun _ => gated)).
  - apply (triple_try _ _ _ _ _ gated).
    + intros q0 Hq0. pose proof (gated_block id q0 Hq0) as Hg. by destruct (JobQueue.spawn_block _ _ q0) as [[r|e] q1].
    + intros e. apply (triple_bind _ _ _ (fun _ => gated)); [by intros q0 Hq0|]. intros _.
      apply (triple_bind _ _ _ (fun _ => gated)); [|by intros _ q0 Hq0]. intros q0 Hq0.
      pose proof (gated_fail id ("failed to spawn: " +:+ e) q0 Hq0) as Hf. by destruct (JobQueue.fail_job _ _ _ q0) as [[u|e'] q1].
  - intros [s|] q0 Hq0; exact Hq0.
Qed.

Lemma gated_pump ids : preserves gated (JobQueue.pump (jobQueue v) ids).
Proof.
  induction ids as [|id ids IH]; cbn [JobQueue.pump]; [auto with gated|]. apply preserves_bind; [auto with gated|]. intros []; [auto with gated|].
  apply preserves_bind; [|by intros _]. apply gated_deref. intros j. case_bool_decide; [apply gated_tryStart|auto with gated].
Qed.

Lemma gated_exit s id code err rest : preserves gated (JobQueue.exit_event (jobQueue v) s id code err rest).
Proof.
  unfold JobQueue.exit_event, JobQueue.onExit. apply preserves_bind; [by intros q Hq|]. intros _.
  apply preserves_bind; [by intros q Hq|]. intros _. apply preserves_bind; [by apply gated_set|]. intros _.
  apply preserves_bind; [auto with gated|]. intros now. apply preserves_bind; [by apply gated_set|]. intros _.
  apply preserves_bind; [case_bool_decide; [by apply gated_set|auto with gated]|]. intros _.
  apply preserves_bind; [apply gated_deref; intros j; apply gated_call|]. intros _.
  apply preserves_bind; [apply gated_emit|]. intros _. apply preserves_bind; [by intros q Hq|]. intros _ q Hq. by apply gated_pump.
Qed.

(** The queue is only ever asked for a guarded mode. *)
Lemma gated_enqueue req by_ : guarded (rq_permissionMode req) -> preserves gated (enqueue v req by_).
Proof.
  intros Hg. apply preserves_bind; [apply gated_call|]. intros id. apply preserves_bind; [|intros []; auto with gated].
  unfold JobQueue.enqueue. apply preserves_bind; [auto with gated|]. intros created.
  apply preserves_bind.
  { intros q (Hh & Hl). split; [|exact Hl]. intros id' j. cbn [modify snd JobQueue.heap]. rewrite mget_mset.
    case_decide; [by intros [= <-]|apply Hh]. }
  intros _. apply preserves_bind; [apply gated_check|]. intros [r|].
  - do 2 (apply preserves_bind; [by apply gated_set|]; intros _). apply preserves_bind; [auto with gated|]. intros now.
    apply preserves_bind; [by apply gated_set|]. intros _. apply preserves_bind; [apply gated_deref; intros; apply gated_call|].
    intros _. apply preserves_bind; [apply gated_emit|]. auto with gated.
  - apply preserves_bind; [by intros q Hq|]. intros _. apply preserves_bind; [apply gated_deref; intros; apply gated_call|].
    intros _. apply preserves_bind; [apply gated_emit|]. intros _. apply preserves_bind; [apply gated_tryStart|]. auto with gated.
Qed.

Lemma gated_mode h m : PermissionModePolicy.permissionModeIsAllowed m = true -> preserves gated (setPermissionMode v h m).
Proof.
  intros Hm. apply preserves_bind; [|intros _; apply gated_call]. intros q (Hh & Hl & Hs).
  split; [exact Hh|]. split; [exact Hl|]. apply Forall_app. split; [exact Hs|]. apply Forall_singleton. by destruct m.
Qed.

Lemma gated_infos hs : preserves gated (Commands.infos (Commands.hd_info (Commands.handle_ops (commands v))) hs).
Proof.
  induction hs as [|h hs IH]; [apply preserves_ret|]. apply preserves_bind; [apply gated_call|]. intros i.
  apply preserves_bind; [exact IH|]. auto with gated.
Qed.

Lemma gated_session sock sid (k : Session.t -> eff Queue unit) : (forall h, preserves gated (k h)) ->
  preserves gated (Commands.with_session (commands v) sock sid k).
Proof.
  intros Hk. apply preserves_bind; [auto with gated|]. intros m. destruct (mget sid m); [apply Hk|apply gated_call].
Qed.

Lemma gated_command cmd sock dev : preserves gated (Commands.handleCommand (commands v) cmd sock dev).
Proof.
  destruct cmd as [|l|cwd lb dt m pm ef|sid tx|sid|sid m|sid m|tid w r b|tg|tk pl]; cbn [Commands.handleCommand];
    try (apply gated_session; intros h; apply gated_call); try apply gated_call.
  - apply preserves_bind; [auto with gated|]. intros m. apply preserves_bind; [apply gated_infos|]. intros is_. apply gated_call.
  - apply preserves_bind; [apply gated_call|]. intros a. apply gated_call.
  - assert (Hg : match pm with Some m0 => PermissionModePolicy.permissionModeIsAllowed m0 = true -> guarded pm | None => guarded pm end)
      by (destruct pm as [[]|]; try done; [by right|by left]).
    destruct pm as [m0|]; [destruct (PermissionModePolicy.permissionModeIsAllowed m0); [specialize (Hg eq_refl)|apply gated_call]|].
    all: apply preserves_bind; [by apply gated_enqueue|intros job; case_decide; [apply gated_call|auto with gated]].
  - apply gated_session. intros h. destruct (PermissionModePolicy.permissionModeIsAllowed m) eqn:Hm; [by apply gated_mode|apply gated_call].
  - apply preserves_bind; [apply gated_call|]. intros [| |]; [auto with gated| |apply gated_call].
    apply preserves_bind; [auto with gated|]. intros a. apply gated_call.
  - apply preserves_bind; [apply gated_call|]. intros []; [|apply gated_call].
    apply preserves_bind; [apply gated_call|]. intros _. apply preserves_bind; [apply gated_call|]. intros _. apply gated_call.
Qed.

Lemma gated_reach f s q : reach v f s q -> gated q.
Proof.
  induction 1 as [|q q' _ IH Hs]; [split; [done|split; constructor]|].
  destruct Hs as [q cmd sock dev|q w1 s0 id w2 code err _|q g s0]; [by apply gated_command|by apply gated_exit|done].
Qed.

(** C5. Every session runs behind the gate.  Whatever commands devices send, whatever
    fails in the store, the listeners and [spawn] itself, and however the projects'
    settings are rewritten in between, each session the daemon ever started was started in
    no mode but the default or [plan], with an environment that points the bridge at this
    daemon's own hook socket and gives it its deadline, and in a project whose settings, as
    they were at that moment, install the bridge, with every timeout at least 30 s past
    that deadline; and no session was ever moved to another mode than [plan]. *)
Theorem every_session_is_gated f s q (Hr : reach v f s q) :
  (forall o fs, (o, fs) ∈ launched (JobQueue.ext q) ->
     guarded (Session.so_permissionMode o) /\
     mget "CC_DAEMON_SOCK" (Session.environment o) = Some (hookSock v) /\
     mget "CC_HOOK_SELF_DENY_MS" (Session.environment o) = Some (pretty (selfDenyMs v)) /\
     exists settings, settings_in v fs (Session.so_cwd o) = Some settings /\
       (exists t, HookMargin.installs settings t) /\
       forall t, HookMargin.installs settings t -> HookMargin.leaves_margin (selfDenyMs v) t) /\
  (forall mode, mode ∈ moved (JobQueue.ext q) -> mode = plan).
Proof.
  destruct (gated_reach f s q Hr) as (_ & Hl & Hm). split.
  - intros o fs Hin. rewrite Forall_forall in Hl. destruct (Hl _ Hin) as (Hg & He & Hc). cbn [fst snd] in *.
    rewrite He. split_and!; [done|done|done|]. unfold settings_in. unfold HookMargin.check in Hc.
    destruct (fs _) as [raw|]; [|done]. cbn. destruct (parseJson v raw) as [settings|]; [|done].
    exists settings. split; [done|]. by apply margin_ok_iff in Hc as [_ Hc].
  - intros mode Hin. rewrite Forall_forall in Hm. by destruct (Hm _ Hin).
Qed.

End laws.

(** ** A concrete daemon: one session asked for in [plan], one in [bypassPermissions] *)

Section demo.

Definition demo_settings : jsval :=
  JObj [("hooks", JObj [("PreToolUse", JArr [JObj [("hooks", JArr [JObj [("command", JStr "node hook/approve-bridge.mjs"); ("timeout", JNum (NumFin 1500))]])]])])].

Definition demo_services : Commands.Deps nat Session.t nat :=
  Commands.mkDeps (fun _ => []) (Commands.mkHandleOps (fun _ => throw "gone") (fun _ _ => mret tt) (fun _ => mret tt) (fun _ _ => mret tt) (fun _ _ => mret tt))
    (fun _ _ _ _ => mret ApprovalBroker.unknown) (fun _ _ => None) (fun _ _ => throw "unused") (fun _ => mret false) (fun _ => mret [])
    (fun _ _ _ => mret tt) (fun _ => mret tt) (fun _ => mret tt) (fun _ _ => mret tt).

Definition demo_parts : Parts nat nat :=
  mkParts "/tmp/s" 1200000 (Some 1) (fun _ => Some demo_settings) (fun _ => "?") (fun _ _ _ => mret tt) (fun _ => 7)
    (fun n => (pretty (N.of_nat n), S n)) (fun _ => mret tt) (fun _ _ => mret tt) (fun _ _ => throw "disk full") (fun _ => mret tt) demo_services.

Definition demo_spawn (mode : option PermissionMode) : ClientCommand := cmd_spawn "/p" None None None mode None.

Definition demo_queue : JobQueue.t Session.t (machine nat) :=
  let q0 := JobQueue.new (mkMachine (fun _ => Some "settings") [] [] 0%nat) in
  let q1 := snd (Commands.handleCommand (commands demo_parts) (demo_spawn (Some bypassPermissions)) 1%nat "phone" q0) in
  snd (Commands.handleCommand (commands demo_parts) (demo_spawn (Some plan)) 1%nat "phone" q1).

Lemma every_session_is_gated_witness : exists o fs,
  launched (JobQueue.ext demo_queue) = [(o, fs)] /\ guarded (Session.so_permissionMode o).
Proof.
  assert (Hr : reach demo_parts (fun _ => Some "settings") 0%nat demo_queue).
  { eapply reach_step; [eapply reach_step; [apply reach_new|apply (step_command _ _ (demo_spawn (Some bypassPermissions)) 1%nat "phone")]|].
    apply (step_command _ _ (demo_spawn (Some plan)) 1%nat "phone"). }
  assert (Hl : launched (JobQueue.ext demo_queue) = [(spawn_options demo_parts (mkSpawnRequest "/p" None None None (Some plan) None), fun _ => Some "settings")])
    by (vm_compute; reflexivity).
  do 2 eexists. split; [exact Hl|].
  eapply (proj1 (every_session_is_gated demo_parts _ _ _ Hr)). rewrite Hl. left.
Defined.

End demo.
