(* ===== verification/Boot.v ===== *)
(** * Start and stop

    The top level of [packages/daemon/src/index.ts] from the configuration to the
    listeners, the constructor of [packages/daemon/src/infrastructure/db.ts] and the
    shutdown: in which order the daemon reads its configuration, loads its identity, opens
    its store, reconciles it and starts to listen, and what happens when one of these
    fails.  The file system, the database engine, the sockets and the [tailscale] program
    are a platform whose calls may throw. *)

From stdpp Require Import gmap.
From S2P Require Import Prelude JsMap Js Types Text Transport Config Pairing IdentityStore Db Jobs DeviceSessions Daemon.
Import Config.

Local Open Scope Z_scope.

Module Boot.

(** *** What listens, and for which protocol *)

Inductive Address : Type :=
| UnixSocket (path : string)
| TcpPort (host : string) (port : Z)
| WsPort (host : string) (port : Z).

Inductive Protocol : Type :=
| HookProtocol
| ClientProtocol (allowPairingBootstrap : bool).

Record Listener : Type := mkListener { address : Address; serves : Protocol }.

Section boot.
Context {Priv Pub X : Type}.

Record Platform : Type := mkPlatform {
  (** the configuration's conversions, as in [Config] *)
  Number : string -> jsnum;
  stringify : string -> string;
  show : count -> string;
  homedir : string;
  path_join : list string -> string;
  dirname : string -> string;
  (** the file system, by path *)
  disk : string -> IdentityStore.Env Priv Pub X;
  mkdirSync : string -> Z -> eff X unit;
  chmodSync : string -> Z -> eff X unit;
  unlinkSync : string -> eff X unit;
  (** node:sqlite: opening the file, and what the tables hold after the schema *)
  openDatabase : string -> eff X unit;
  execSchema : eff X Db.t;
  (** a statement of the open database, which may throw *)
  runStatement : eff X unit;
  closeDatabase : eff X unit;
  tailscale_ip : X -> outcome string;
  date_now : X -> Z;
  (** a session's [proc.stdin.end()] *)
  stdin_end : string -> eff X unit;
}.

Record t : Type := mk {
  ext : X;
  logged : list string;
  listeners : list Listener;
  exitCode : option Z;
}.

(** The process before its first statement. *)
Definition start (x : X) : t := mk x [] [] None.

(** The constants of the module once it has run. *)
Record Running : Type := mkRunning {
  config : DaemonConfig;
  keys : IdentityStore.KeyPair Priv Pub;
  devices : jsval;
  db : Db.t;
  deviceSessions : DeviceSessions.t ServerEvent;
}.

Variable p : Platform.

Definition os {A} (m : eff X A) : eff t A := fun w =>
  let (o, x) := m (ext w) in (o, mk x (logged w) (listeners w) (exitCode w)).

Definition log (s : string) : eff t unit := modify (fun w => mk (ext w) (logged w ++ [s]) (listeners w) (exitCode w)).

Definition listen (l : Listener) : eff t unit :=
  modify (fun w => mk (ext w) (logged w) (listeners w ++ [l]) (exitCode w)).

(** [process.exit(code)]: nothing after it runs, and the exit code tells it from an
    exception. *)
Definition exit {A} (code : Z) : eff t A := fun w =>
  (Throw "process.exit", mk (ext w) (logged w) (listeners w) (Some code)).

(** *** Configuration *)

Definition configuration (env : env_map) : eff t DaemonConfig :=
  match loadConfig (Number p) (stringify p) (show p) (homedir p) (path_join p) env with
  | Ok c => mret c
  | Throw e => log ("configuration error: " +:+ e) ;; exit 1
  end.

(** *** The store *)

Definition sidecars (dbPath : string) : list string := [dbPath; dbPath +:+ "-wal"; dbPath +:+ "-shm"].

(** [restrictPermissions(dbPath)] *)
Definition restrictPermissions (dbPath : string) : eff X unit :=
  for_each (fun f => try_catch (chmodSync p f 384) (fun _ => mret tt)) (sidecars dbPath).

(** [new Db(dbPath)] *)
Definition new_Db (dbPath : string) : eff X Db.t :=
  mkdirSync p (dirname p dbPath) 448 ;;
  openDatabase p dbPath ;;
  restrictPermissions dbPath ;;
  d ← execSchema p;
  restrictPermissions dbPath ;;
  mret d.

(** [new DeviceSessionRegistry(config.replayMaxDevices, config.replayMaxEventsPerDevice)] *)
Definition registry (c : DaemonConfig) : DeviceSessions.t ServerEvent :=
  DeviceSessions.new (default 200 (replayMaxDevices c)) (default 200 (replayMaxEventsPerDevice c)).

(** *** Reconciliation *)

Definition log_count (n : Z) (what : string) : eff t unit :=
  if bool_decide (n = 0) then mret tt else log ("reconciled " +:+ pretty n +:+ what).

Definition reconcile (d : Db.t) : eff t Db.t :=
  bootTime ← gets (fun w => date_now p (ext w));
  os (runStatement p) ;;
  let (sessions, d1) := Db.reconcileOrphanedSessions bootTime d in
  os (runStatement p) ;;
  let (jobs, d2) := Db.reconcileOrphanedJobs bootTime d1 in
  log_count sessions " orphaned session row(s) from a previous daemon process" ;;
  log_count jobs " orphaned job row(s) from a previous daemon process" ;;
  mret d2.

(** *** Sockets *)

Definition unlink_sockets (c : DaemonConfig) : eff t unit :=
  for_each (fun path => try_catch (os (unlinkSync p path)) (fun _ => mret tt)) [hookSock c; clientSock c].

(** [resolveTcpHost(config.clientTcpHost, config.clientSock, log)] *)
Definition resolve (c : DaemonConfig) : eff t (option string) :=
  exec ← gets (fun w => tailscale_ip p (ext w));
  let (lines, host) := Tailscale.resolveTcpHost (clientTcpHost c) (clientSock c) exec in
  for_each log lines ;; mret host.

Definition network (c : DaemonConfig) : eff t unit :=
  match clientTcpPort c, clientWsPort c with
  | None, None => mret tt
  | tcp, ws =>
      host ← resolve c;
      match host with
      | None => mret tt
      | Some h =>
          match tcp with Some port => listen (mkListener (TcpPort h port) (ClientProtocol false)) | None => mret tt end ;;
          match ws with Some port => listen (mkListener (WsPort h port) (ClientProtocol false)) | None => mret tt end
      end
  end.

(** *** The module, top to bottom *)

(** The identity and the store, and what is said of push. *)
Definition open_state (c : DaemonConfig) : eff t (IdentityStore.KeyPair Priv Pub * jsval * Db.t) :=
  identity ← os (IdentityStore.load (disk p (storePath c)) (storePath c));
  d ← os (new_Db (dbPath c));
  (if pushEnabled c then log ("push notifications enabled -> " +:+ pushEndpoint c) else mret tt) ;;
  mret (identity, d).

(** The local sockets, then the network. *)
Definition start_listening (c : DaemonConfig) : eff t unit :=
  unlink_sockets c ;;
  listen (mkListener (UnixSocket (hookSock c)) HookProtocol) ;;
  listen (mkListener (UnixSocket (clientSock c)) (ClientProtocol true)) ;;
  network c.

Definition main (env : env_map) : eff t Running :=
  c ← configuration env;
  state ← open_state c;
  d ← reconcile (snd state);
  start_listening c ;;
  mret (mkRunning c (fst (fst state)) (snd (fst state)) d (registry c)).

(** *** Afterwards: a listener's failure, and the signals *)

(** The 'error' event of a listener: the local servers have no listener for it. *)
Definition on_listen_error (l : Listener) (message : string) : eff t unit :=
  match address l with
  | UnixSocket _ => throw message
  | TcpPort _ _ => log ("client TCP listener error: " +:+ message)
  | WsPort _ _ => log ("WebSocket listener error: " +:+ message)
  end.

(** [Session.close()] *)
Definition close_session (id : string) : eff t unit := try_catch (os (stdin_end p id)) (fun _ => mret tt).

(** [shutdown], with the sessions of that moment. *)
Definition shutdown (c : DaemonConfig) (sessions : list string) : eff t unit :=
  log "shutting down" ;;
  for_each close_session sessions ;;
  os (closeDatabase p) ;;
  unlink_sockets c ;;
  exit 0.

(** *** Vocabulary *)

Definition accepted (env : env_map) : outcome DaemonConfig :=
  loadConfig (Number p) (stringify p) (show p) (homedir p) (path_join p) env.

(** The host of the network listeners: the one the operator named, or the one that
    [tailscale ip -4] prints when asked to, if it prints one. *)
Definition named_host (c : DaemonConfig) (exec : outcome string) : option string :=
  if bool_decide (clientTcpHost c = "auto") then
    match exec with
    | Ok text => let host := Text.first_line (Text.trim text) in if bool_decide (host = "") then None else Some host
    | Throw _ => None
    end
  else Some (clientTcpHost c).

(** The network listeners of a configuration at a host: each for the clients' protocol,
    without pairing. *)
Definition network_listeners (c : DaemonConfig) (host : string) : list Listener :=
  match clientTcpPort c with Some port => [mkListener (TcpPort host port) (ClientProtocol false)] | None => [] end ++
  match clientWsPort c with Some port => [mkListener (WsPort host port) (ClientProtocol false)] | None => [] end.

End boot.
Arguments Platform : clear implicits.
Arguments t : clear implicits.
Arguments Running : clear implicits.

End Boot.

Import Boot.

(** ** Laws *)

Section laws.
Context {Priv Pub X : Type} (p : Platform Priv Pub X).
Notation World := (t X).
Implicit Types (w : World) (c : DaemonConfig).

(** A computation of the part that only reads, writes and logs. *)
Definition silent {A} (m : eff World A) : Prop :=
  forall w, listeners (snd (m w)) = listeners w /\ exitCode (snd (m w)) = exitCode w.

Lemma silent_ret {A} (a : A) : silent (mret a).
Proof. done. Qed.
Lemma silent_os {A} (m : eff X A) : silent (os m).
Proof. intros w. unfold os. by destruct (m (ext w)). Qed.
Lemma silent_log s : silent (log s).
Proof. done. Qed.
Lemma silent_gets {A} (f : World -> A) : silent (gets f).
Proof. done. Qed.
Lemma silent_bind {A B} (m : eff World A) (k : A -> eff World B) : silent m -> (forall a, silent (k a)) -> silent (m ≫= k).
Proof.
  intros Hm Hk w. specialize (Hm w). unfold mbind, eff_bind. destruct (m w) as [[a|e] w']; [|done].
  cbn [snd] in Hm. destruct (Hk a w') as [-> ->]. done.
Qed.
Lemma silent_try {A} (m : eff World A) (k : string -> eff World A) : silent m -> (forall e, silent (k e)) -> silent (try_catch m k).
Proof.
  intros Hm Hk w. specialize (Hm w). unfold try_catch. destruct (m w) as [[a|e] w']; [done|].
  cbn [snd] in Hm. destruct (Hk e w') as [-> ->]. done.
Qed.
Lemma silent_each {A} (f : A -> eff World unit) l : (forall a, silent (f a)) -> silent (for_each f l).
Proof. intros Hf. induction l as [|a l IH]; [apply silent_ret|]. by apply silent_bind. Qed.

Create HintDb silent.
Hint Resolve silent_ret silent_os silent_log silent_gets silent_bind silent_try silent_each : silent.

Lemma silent_count n what : silent (log_count n what).
Proof. unfold log_count. case_bool_decide; auto with silent. Qed.
Hint Resolve silent_count : silent.

Lemma silent_reconcile d : silent (reconcile p d).
Proof.
  apply silent_bind; [auto with silent|]. intros bt. destruct (Db.reconcileOrphanedSessions bt d) as [n d1].
  apply silent_bind; [auto with silent|]. intros _. destruct (Db.reconcileOrphanedJobs bt d1) as [m d2]. auto with silent.
Qed.

Lemma silent_open_state c : silent (open_state p c).
Proof.
  apply silent_bind; [auto with silent|]. intros identity. apply silent_bind; [auto with silent|]. intros d.
  apply silent_bind; [by destruct (pushEnabled c); auto with silent|]. auto with silent.
Qed.

Lemma silent_unlink c : silent (unlink_sockets p c).
Proof. apply silent_each. auto with silent. Qed.

(** Calls that cannot throw. *)
Definition returns {A} (m : eff World A) : Prop := forall w, is_ok (fst (m w)) = true.

Lemma returns_bind {A B} (m : eff World A) (k : A -> eff World B) : returns m -> (forall a, returns (k a)) -> returns (m ≫= k).
Proof. intros Hm Hk w. specialize (Hm w). unfold mbind, eff_bind. destruct (m w) as [[a|e] w']; [apply Hk|done]. Qed.
Lemma returns_try {A} (m : eff World A) (k : string -> eff World A) : (forall e, returns (k e)) -> returns (try_catch m k).
Proof. intros Hk w. unfold try_catch. destruct (m w) as [[a|e] w']; [done|apply Hk]. Qed.
Lemma returns_each {A} (f : A -> eff World unit) l : (forall a, returns (f a)) -> returns (for_each f l).
Proof. intros Hf. induction l as [|a l IH]; [done|]. by apply returns_bind. Qed.
Lemma returns_unlink c : returns (unlink_sockets p c).
Proof. apply returns_each. intros path. by apply returns_try. Qed.

(** The network part. *)
Lemma logged_all l w : for_each log l w = (Ok tt, mk (ext w) (logged w ++ l) (listeners w) (exitCode w)).
Proof.
  revert w. induction l as [|s l IH]; intros w; cbn [for_each]; [rewrite app_nil_r; by destruct w|].
  unfold mbind, eff_bind, log at 1, modify. rewrite IH. cbn. by rewrite <- app_assoc.
Qed.

Lemma resolved c w : exists lg, resolve p c w = (Ok (named_host c (tailscale_ip p (ext w))), mk (ext w) lg (listeners w) (exitCode w)).
Proof.
  unfold resolve, mbind at 1, eff_bind at 1, gets at 1. cbn [fst snd].
  assert (Hh : snd (Tailscale.resolveTcpHost (clientTcpHost c) (clientSock c) (tailscale_ip p (ext w))) = named_host c (tailscale_ip p (ext w))).
  { unfold Tailscale.resolveTcpHost, named_host. case_decide as H0; [by rewrite H0|]. destruct (bool_decide (clientTcpHost c = "auto")); [|done]. cbn [negb].
    destruct (tailscale_ip p (ext w)) as [text|e]; [|done]. by destruct (Text.first_line (Text.trim text)). }
  destruct (Tailscale.resolveTcpHost _ _ _) as [lines host]. cbn [snd] in Hh. subst host.
  unfold mbind, eff_bind. rewrite logged_all. by eexists.
Qed.

Lemma network_listens c w : exists lg, network p c w =
  (Ok tt, mk (ext w) lg (listeners w ++ match named_host c (tailscale_ip p (ext w)) with Some h => network_listeners c h | None => [] end) (exitCode w)).
Proof.
  unfold network, network_listeners. destruct (resolved c w) as (lg & Hr).
  destruct (clientTcpPort c) as [tp|], (clientWsPort c) as [wp|].
  4: { exists (logged w). destruct (named_host _ _); rewrite app_nil_r; by destruct w. }
  all: exists lg; unfold mbind, eff_bind; rewrite Hr; destruct (named_host _ _) as [h|]; unfold listen, modify; cbn; by rewrite ?app_nil_r, <- ?app_assoc.
Qed.

(** The listening part. *)
Lemma listening c w : exists lg x, start_listening p c w =
  (Ok tt, mk x lg (listeners w ++ mkListener (UnixSocket (hookSock c)) HookProtocol :: mkListener (UnixSocket (clientSock c)) (ClientProtocol true) ::
    match named_host c (tailscale_ip p x) with Some h => network_listeners c h | None => [] end) (exitCode w)).
Proof.
  unfold start_listening. unfold mbind at 1, eff_bind at 1. destruct (silent_unlink c w) as [Hl He]. pose proof (returns_unlink c w) as Hu.
  destruct (unlink_sockets p c w) as [[[]|e] w1]; [|done]. cbn [snd] in Hl, He.
  unfold mbind at 1, eff_bind at 1, listen at 1, modify at 1. unfold mbind at 1, eff_bind at 1, listen at 1, modify at 1.
  match goal with |- context [network p c ?w] => destruct (network_listens c w) as (lg & ->) end.
  exists lg, (ext w1). cbn. by rewrite Hl, He, <- !app_assoc.
Qed.

Lemma bind_silent {A B} (m : eff World A) (k : A -> eff World B) w : silent m ->
  (exists e w1, (m ≫= k) w = (Throw e, w1) /\ listeners w1 = listeners w /\ exitCode w1 = exitCode w) \/
  (exists a w1, m w = (Ok a, w1) /\ (m ≫= k) w = k a w1 /\ listeners w1 = listeners w /\ exitCode w1 = exitCode w).
Proof.
  intros Hm. destruct (Hm w) as [Hl He]. unfold mbind, eff_bind. destruct (m w) as [[a|e] w1]; cbn in Hl, He; [right|left]; eauto 10.
Qed.

Lemma reconciled d w d' w' : reconcile p d w = (Ok d', w') -> exists bt, d' = Daemon.boot bt d.
Proof.
  unfold reconcile, Daemon.boot, mbind, eff_bind, gets. destruct (os (runStatement p) w) as [[[]|e] w1]; [|done].
  destruct (Db.reconcileOrphanedSessions _ d) as [n d1] eqn:H1. destruct (os (runStatement p) w1) as [[[]|e] w2]; [|done].
  destruct (Db.reconcileOrphanedJobs _ d1) as [m d2] eqn:H2. unfold log_count.
  do 2 case_bool_decide; intros [= <- _]; exists (date_now p (ext w)); by rewrite H1; cbn [snd]; rewrite H2.
Qed.

(** The store, once reconciled. *)
Definition settled (d : Db.t) : Prop :=
  (forall r, r ∈ Db.jobs d -> Db.jr_state r = done \/ Db.jr_state r = failed) /\
  (forall r, r ∈ Db.sessions d -> Db.sr_final_state r <> None).

Lemma boot_settled bt d : settled (Daemon.boot bt d).
Proof. destruct (reconcile_closes_orphans bt d) as (Hj & Hs & _). by split. Qed.


(** *** The shutdown *)

Lemma each_swallowed {A} (f : A -> eff X unit) l w :
  for_each (fun a => try_catch (os (f a)) (fun _ => mret tt)) l w =
    (Ok tt, mk (foldl (fun x a => snd (f a x)) (ext w) l) (logged w) (listeners w) (exitCode w)).
Proof.
  revert w. induction l as [|a l IH]; intros w; [by destruct w|]. cbn [for_each foldl]. unfold mbind at 1, eff_bind at 1.
  unfold try_catch at 1, os at 1. destruct (f a (ext w)) as [[[]|e] x]; unfold mret at 1, eff_ret at 1; rewrite IH; done.
Qed.

(** A signal ends the process whatever the sessions' pipes and the sockets' files do: every
    session is told, the store is closed, and then, unless closing it throws, both socket
    files are removed and the status is 0. *)
Theorem shutdown_ends c sessions w :
  let x1 := foldl (fun x id => snd (stdin_end p id x)) (ext w) sessions in
  let (o, w') := shutdown p c sessions w in
  match closeDatabase p x1 with
  | (Ok _, x2) => exitCode w' = Some 0 /\ ext w' = snd (unlinkSync p (clientSock c) (snd (unlinkSync p (hookSock c) x2)))
  | (Throw e, x2) => o = Throw e /\ exitCode w' = exitCode w /\ ext w' = x2
  end.
Proof.
  unfold shutdown, mbind, eff_bind, log, modify, close_session. rewrite each_swallowed. cbn [ext]. unfold os at 1. cbn [ext].
  destruct (closeDatabase p _) as [[[]|e] x2]; [|done]. unfold unlink_sockets. rewrite each_swallowed. done.
Qed.

(** *** The permissions of the store *)

Section private.
Variables (mode : X -> string -> option Z) (mine : string -> Prop).
Hypothesis chmod_done : forall f m x, is_ok (fst (chmodSync p f m x)) = true -> mode (snd (chmodSync p f m x)) f = Some m.
Hypothesis chmod_mine : forall f m x, mine f -> mode x f <> None -> is_ok (fst (chmodSync p f m x)) = true.
Hypothesis chmod_failed : forall f m x, is_ok (fst (chmodSync p f m x)) = false -> mode (snd (chmodSync p f m x)) f = mode x f.
Hypothesis chmod_else : forall f g m x, g <> f -> mode (snd (chmodSync p f m x)) g = mode x g.

(** Absent, or readable and writable by its owner only. *)
Definition closed (f : string) (x : X) : Prop := mode x f = None \/ mode x f = Some 384.

Lemma chmod_closes f g x : mine g -> closed g x \/ f = g -> closed g (snd (chmodSync p f 384 x)).
Proof.
  intros Hg Hc. destruct (decide (f = g)) as [->|Hne].
  - destruct (is_ok (fst (chmodSync p g 384 x))) eqn:Hok; [right; by apply chmod_done|].
    left. rewrite chmod_failed by done. destruct (mode x g) eqn:Hm; [|done]. rewrite chmod_mine in Hok; [done|done|congruence].
  - unfold closed. rewrite chmod_else by congruence. by destruct Hc.
Qed.

Lemma restrict_closes path g x : mine g -> g ∈ sidecars path -> closed g (snd (restrictPermissions p path x)).
Proof.
  intros Hg Hin. unfold restrictPermissions.
  assert (Hl : forall l x, closed g x \/ g ∈ l -> closed g (snd (for_each (fun f => try_catch (chmodSync p f 384) (fun _ => mret tt)) l x))).
  { clear x. induction l as [|f l IH]; intros x Hc; cbn [for_each].
    - destruct Hc as [Hc|Hc]; [exact Hc|by apply not_elem_of_nil in Hc].
    - assert (Hf : closed g (snd (chmodSync p f 384 x)) \/ g ∈ l).
      { destruct Hc as [Hc|[->|Hc]%elem_of_cons]; [left; apply chmod_closes; auto..|by right]. }
      unfold mbind at 1, eff_bind at 1. unfold try_catch at 1. destruct (chmodSync p f 384 x) as [[[]|e] x1]; by apply IH. }
  apply Hl. by right.
Qed.

(** Whenever the constructor of the store returns, the database and the files the engine
    keeps beside it, as far as they exist and are the daemon's own, are readable and
    writable by their owner only, whatever the umask was and the engine created. *)
Theorem store_is_private path x d x' f : new_Db p path x = (Ok d, x') -> mine f -> f ∈ sidecars path -> closed f x'.
Proof.
  intros Hn Hm Hf. unfold new_Db, mbind, eff_bind in Hn. destruct (mkdirSync p _ _ x) as [[[]|?] x1]; [|done].
  destruct (openDatabase p path x1) as [[[]|?] x2]; [|done]. destruct (restrictPermissions p path x2) as [[[]|?] x3]; [|done].
  destruct (execSchema p x3) as [[d'|?] x4]; [|done]. pose proof (restrict_closes path f x4 Hm Hf) as Hc.
  destruct (restrictPermissions p path x4) as [[[]|?] x5]; [|done]. by injection Hn as _ <-.
Qed.

End private.

End laws.

(** ** Concrete starts *)

Section demo.

Definition demo_running_job : JobInfo :=
  mkJobInfo "j1" "/p" None None None None None running (Some "s1") None "phone" 1 (Some 2) None.

(** The store holds the row of a running job. *)
Definition demo_platform (found : Db.t) : Platform string string (option string) :=
  mkPlatform (digits 0) (fun s => s) (fun _ => "?") "/home/u" (fun l => String.concat "/" l) (fun s => s)
    (fun _ => demo_disk) (fun _ _ => mret tt) (fun _ _ => throw "EPERM") (fun _ => throw "ENOENT") (fun _ => mret tt) (mret found)
    (mret tt) (mret tt) (fun _ => Ok ("100.64.0.7" +:+ String "010"%char "")) (fun _ => 9) (fun _ => throw "EPIPE").

Definition demo_start (env : env_map) := main (demo_platform Db.empty) env (start None).

Example defaults_listen_locally :
  listeners (snd (demo_start ∅)) =
    [mkListener (UnixSocket "/tmp/cc-daemon.sock") HookProtocol; mkListener (UnixSocket "/tmp/cc-client.sock") (ClientProtocol true)].
Proof. vm_compute. reflexivity. Qed.

Example phone_over_the_tailnet :
  drop 2 (listeners (snd (demo_start {[ "CC_CLIENT_WS_PORT" := "8765" ]}))) = [mkListener (WsPort "100.64.0.7" 8765) (ClientProtocol false)].
Proof. vm_compute. reflexivity. Qed.

Example bad_port_refused : exitCode (snd (demo_start {[ "CC_CLIENT_WS_PORT" := "0" ]})) = Some 1.
Proof. vm_compute. reflexivity. Qed.

(** Nothing asks whether the daemon that wrote the rows, or listens on the sockets, is
    gone: a second daemon started beside a running one fails its running jobs. *)
Example second_daemon_fails_live_jobs (d : Db.t) :
  Db.insertJob demo_running_job Db.empty = Ok d ->
  match fst (main (demo_platform d) ∅ (start None)) with
  | Ok r => Db.jr_state <$> Db.jobs (db r) = [failed]
  | Throw _ => False
  end.
Proof. intros [= <-]. vm_compute. reflexivity. Qed.

End demo.
