(* ===== verification/Ledger.v ===== *)
(** * What the assembled daemon acknowledges

    The acknowledgements of the daemon of [System], from the dispatcher that runs a command
    to the frames on the wire: the marks of [packages/daemon/src/domain/deviceSessions.ts],
    the replay log of [replay.ts], and what [packages/daemon/src/interface/clientHub.ts]
    writes to the sockets, under every input of the event loop. *)

From S2P Require Import Prelude JsMap Js Types Frame Sync Replay DeviceSessions Approvals Jobs.
From S2P Require Import Framing HookMargin Db Commands Hub Pairing Connection HookBridge Daemon System Guarantee.
Import System.

Local Open Scope Z_scope.

Module Ledger.

(** ** The registry's part *)

Section registry.
Variable done_for : string -> Z -> Prop.
Notation registry := (DeviceSessions.t ServerEvent).

(** A level is covered when every number up to it is done. *)
Definition covers (dev : string) (n : Z) : Prop := forall k, 1 <= k <= n -> done_for dev k.

(** An event tells a device nothing that is not done. *)
Definition honest (dev : string) (ev : ServerEvent) : Prop :=
  match ev with ack n => covers dev n | _ => True end.

(** The event [e] is in the replay log of [dev]. *)
Definition logged (r : registry) (dev : string) (e : Z * ServerEvent) : Prop :=
  exists en, mget dev (DeviceReplayLog.byDevice (DeviceSessions.log r)) = Some en /\ e ∈ DeviceReplayLog.events en.

Definition marks_done (dev : string) (q : DeviceSessions.Processed) : Prop :=
  covers dev (DeviceSessions.through q) /\ forall k, k ∈ DeviceSessions.ahead q -> done_for dev k.

(** The registry counts, and keeps for replay, only what is done. *)
Record credible (r : registry) : Prop := {
  cr_marks dev q : mget dev (DeviceSessions.processed r) = Some q -> marks_done dev q;
  cr_log dev e : logged r dev e -> honest dev e.2;
}.

(** What an operation of the registry may do. *)
Definition due (op : DeviceSessions.Op ServerEvent) : Prop :=
  match op with
  | DeviceSessions.OpProcessed dev seq => done_for dev seq
  | DeviceSessions.OpSent _ dev ev => honest dev ev
  | _ => True
  end.

End registry.

(** ** The hub's part *)

Section ledger.
Context {Key Nonce CSock HSock O X H S : Type} `{SessionCrypto Key Nonce} `{EqDecision CSock} `{EqDecision HSock}.
Notation Bridge := (HookBridge.t HSock O (Rest HSock S)).
Notation World := (ClientConnection.t Key CSock X ServerEvent Bridge).
Variable p : Parts Key Nonce CSock HSock O X H S.

(** A key the identity derives for a device [dev] it knows at some time. *)
Definition key_of (dev : string) (k : Key) : Prop :=
  exists device salt s, (exists id s0, ClientConnection.find (identity p) id s0 = Some device) /\ Identity.deviceId device = dev /\
    fst (ClientConnection.deriveSessionKey (identity p) (Identity.publicKey device) salt s) = Ok k.

(** A frame the daemon seals for a device, around an event that is honest to it. *)
Definition told (done_for : string -> Z -> Prop) (f : SealedFrame) : Prop :=
  exists dev k seq ev nonce, f = seal k seq (PEv ev) d2c nonce /\ key_of dev k /\ honest done_for dev ev.

Record ledger (done_for : string -> Z -> Prop) (h : ClientHub.t Key CSock X ServerEvent) : Prop := {
  lg_registry : credible done_for (ClientHub.reg h);
  lg_keys sk c : (sk, c) ∈ ClientHub.clients h -> key_of (ClientHub.deviceId c) (ClientHub.key c);
  lg_written sk f : (sk, ClientHub.Sealed f) ∈ ClientHub.written h -> told done_for f;
}.

(** The services of the daemon announce no acknowledgement, nor does what else runs. *)
Definition discreet_services : Prop :=
  forall A (m : eff (outer S) A), service p m -> forall d s, Forall unacked (o_sent (snd (m (mkOuter d s [])))).

Definition discreet (i : input CSock HSock X S) : Prop :=
  match i with
  | Elsewhere f => forall d s, Forall unacked (o_sent (f (mkOuter d s [])))
  | _ => True
  end.

(** The state in which the dispatcher is called on a command. *)
Definition entered (dev : string) (seq : Z) (w : World) : World :=
  ClientConnection.mk (ClientHub.set_reg (snd (DeviceSessions.acceptInbound dev seq (ClientConnection.registry w))) (ClientConnection.hub w))
    (ClientConnection.rest w).

(** The dispatcher has been called on the command of this number for [dev], and returned. *)
Definition ran (w0 : World) (ins : list (input CSock HSock X S)) (dev : string) (seq : Z) (cmd : Plain) : Prop :=
  exists pre cs line post, ins = pre ++ ClientLine cs line :: post /\
    ClientConnection.executes (connection p cs) cs line (run p w0 pre) = Some (dev, seq, cmd) /\
    fst (dispatch p cmd cs dev (entered dev seq (run p w0 pre))) = Ok tt.

End ledger.

End Ledger.

Import Ledger.

(** ** The registry *)

Section registry_laws.
Context (done_for : string -> Z -> Prop).
Implicit Types r : DeviceSessions.t ServerEvent.
Notation marks_done := (marks_done done_for).
Notation credible := (credible done_for).
Notation honest := (honest done_for).

Lemma close_gap_done fuel dev q : marks_done dev q -> marks_done dev (DeviceSessions.close_gap fuel q).
Proof.
  revert q. induction fuel as [|fuel IH]; intros q Hq; cbn [DeviceSessions.close_gap]; [done|].
  destruct (shas _ _) eqn:Hs; [|done]. apply shas_true in Hs. destruct Hq as [Hc Ha]. apply IH. split; cbn.
  - intros k Hk. destruct (decide (k = DeviceSessions.through q + 1)) as [->|]; [by apply Ha|apply Hc; lia].
  - intros k [_ Hk]%elem_sdelete. by apply Ha.
Qed.

Lemma mark_done dev seq q : done_for dev seq -> marks_done dev q -> marks_done dev (DeviceSessions.mark seq q).
Proof.
  intros Hd Hq. unfold DeviceSessions.mark. destruct (Z.eqb_spec seq (DeviceSessions.through q + 1)) as [Hs|Hs].
  - apply close_gap_done. destruct Hq as [Hc Ha]. split; cbn; [|done]. intros k Hk.
    destruct (decide (k = seq)) as [->|]; [done|apply Hc; lia].
  - destruct (_ <? seq); [|done]. destruct Hq as [Hc Ha]. split; cbn; [done|]. intros k [->|Hk]%elem_sadd; auto.
Qed.

Lemma push_elem cap (en : DeviceReplayLog.Entry ServerEvent) x e :
  e ∈ DeviceReplayLog.events (DeviceReplayLog.push cap en x) -> e ∈ DeviceReplayLog.events en \/ e = x.
Proof.
  unfold DeviceReplayLog.push. cbn. intros Hin. rewrite <- list_elem_of_singleton, <- elem_of_app.
  destruct (_ <? _); [exact (subseteq_drop _ _ _ Hin)|exact Hin].
Qed.

Lemma logged_sent now d ev r dev e :
  logged (DeviceSessions.step r (DeviceSessions.OpSent now d ev)) dev e -> logged r dev e \/ dev = d /\ e.2 = ev.
Proof.
  cbn [DeviceSessions.step]. unfold DeviceSessions.recordSent, DeviceSessions.outboundFor, logged.
  set (q := match mget d (DeviceSessions.outbound r) with Some _ => _ | None => _ end).
  assert (Hq : DeviceSessions.log (q.2) = DeviceSessions.log r) by (unfold q; by destruct (mget d _)).
  destruct q as [[out new] r1]. cbn [snd] in Hq. destruct (OutboundStream.next out) as [seq out'].
  rewrite Hq. pose proof (record_get now d seq ev (DeviceSessions.log r) dev) as Hg.
  destruct (DeviceReplayLog.record now d seq ev (DeviceSessions.log r)) as [evicted log1]. cbn in Hg |- *.
  rewrite Hg. intros (en & Hen & Hin). destruct (decide _); [done|]. destruct (decide (dev = d)) as [->|]; [|left; by exists en].
  injection Hen as <-. apply push_elem in Hin as [Hin|Hin]; [|right; by rewrite Hin].
  left. destruct (mget d (DeviceReplayLog.byDevice (DeviceSessions.log r))) as [en|]; [by exists en|by apply not_elem_of_nil in Hin].
Qed.

Lemma logged_hello now d ls r dev e :
  logged (DeviceSessions.step r (DeviceSessions.OpHello now d ls)) dev e -> logged r dev e.
Proof.
  cbn [DeviceSessions.step]. unfold DeviceSessions.resumeFor, DeviceSessions.outboundFor.
  assert (Ht : forall l, (exists en, mget dev (DeviceReplayLog.byDevice (DeviceReplayLog.touch now d l)) = Some en /\ e ∈ DeviceReplayLog.events en) ->
    exists en, mget dev (DeviceReplayLog.byDevice l) = Some en /\ e ∈ DeviceReplayLog.events en).
  { intros l. unfold DeviceReplayLog.touch. destruct (mget d _) as [en|] eqn:Hd; [|done]. cbn. rewrite mget_mset.
    case_decide as Heq; [subst|done]. intros (en' & [= <-] & Hin). by exists en. }
  destruct (mget d _); cbn; destruct ls as [ls|]; cbn; first [apply Ht|intros; by apply Ht|idtac].
  destruct (DeviceReplayLog.replayFrom _ _ _ _). apply Ht.
Qed.

Lemma logged_replayed now d ls r evs e :
  fst (DeviceSessions.resumeFor now d ls r) = Some evs -> e ∈ evs ->
  logged (DeviceSessions.step r (DeviceSessions.OpHello now d ls)) d e.
Proof.
  cbn [DeviceSessions.step]. unfold DeviceSessions.resumeFor.
  destruct (DeviceSessions.outboundFor d r) as [[out new] r1]. destruct ls as [ls|]; [|done]. destruct new; [done|].
  unfold DeviceReplayLog.replayFrom. cbn [DeviceSessions.log]. set (l := DeviceReplayLog.touch now d _).
  repeat match goal with |- context [if ?b then _ else _] => destruct b end; cbn [fst snd]; try done;
    try (intros [= <-] Hin; by apply not_elem_of_nil in Hin).
  destruct (mget d (DeviceReplayLog.byDevice l)) as [en|] eqn:Hen; [|done].
  destruct (DeviceReplayLog.events en) as [|[oldest ev] rest] eqn:Hevs; [done|]. destruct (_ <? oldest); [done|].
  intros Heq Hin. cbn [fst] in Heq. injection Heq as <-. apply list_elem_of_filter in Hin as [_ Hin]. exists en. by rewrite Hevs.
Qed.

Lemma credible_new a b : credible (DeviceSessions.new a b).
Proof. split; [done|]. by intros dev e (en & Hen & _). Qed.

Lemma credible_step r op : due done_for op -> credible r -> credible (DeviceSessions.step r op).
Proof.
  intros Hdue [Hm Hl]. split.
  - intros dev q. destruct op as [now d ls|now d ev|d seq|d seq|d]; try (rewrite step_processed_other by done; apply Hm).
    + cbn. rewrite mget_mset. case_decide as Hd; [rewrite Hd; clear dev Hd|apply Hm]. intros [= <-]. apply mark_done; [done|].
      destruct (mget d _) as [q|] eqn:Hq; [by apply Hm|]. split; cbn; [intros k Hk; cbn in Hk; lia|]. intros k Hk. by apply not_elem_of_nil in Hk.
    + cbn. rewrite mget_mdelete. case_decide; [done|apply Hm].
  - intros dev e. destruct op as [now d ls|now d ev|d seq|d seq|d].
    + intros Hin%logged_hello. by apply Hl.
    + intros [Hin|[-> ->]]%logged_sent; [by apply Hl|done].
    + unfold logged. cbn. unfold DeviceSessions.acceptInbound. destruct (InboundStream.accept _ _). apply Hl.
    + apply Hl.
    + unfold logged. cbn. rewrite mget_mdelete. case_decide; [by intros (en & ? & _)|apply Hl].
Qed.

Lemma credible_level r dev n : credible r -> DeviceSessions.ackLevel dev r = n -> covers done_for dev n.
Proof.
  intros [Hm _] <- k Hk. unfold DeviceSessions.ackLevel in Hk. destruct (mget dev _) as [q|] eqn:Hq; [|lia].
  by apply (proj1 (Hm dev q Hq)).
Qed.

Lemma unacked_honest dev ev : unacked ev -> honest dev ev.
Proof. by destruct ev. Qed.

End registry_laws.

(** ** The hub *)

Section hub_laws.
Context {Key Nonce CSock HSock O X H S : Type} `{SessionCrypto Key Nonce} `{EqDecision CSock} `{EqDecision HSock}.
Variables (p : Parts Key Nonce CSock HSock O X H S) (done_for : string -> Z -> Prop).
Notation Hub := (ClientHub.t Key CSock X ServerEvent).
Notation ledger := (ledger p done_for).
Notation told := (told p done_for).
Notation honest := (honest done_for).
Implicit Types h : Hub.

(** A hub that kept its registry, lost connections, and wrote frames it may write. *)
Lemma ledger_grow h h' ws : ledger h -> ClientHub.reg h' = ClientHub.reg h ->
  (forall e, e ∈ ClientHub.clients h' -> e ∈ ClientHub.clients h) ->
  ClientHub.written h' = ClientHub.written h ++ ws -> (forall sk f, (sk, ClientHub.Sealed f) ∈ ws -> told f) -> ledger h'.
Proof.
  intros [Hr Hk Hw] Hr' Hc' Hw' Hws. split; [by rewrite Hr'|intros sk c Hin; by apply (Hk sk), Hc'|].
  intros sk f. rewrite Hw'. intros [Hin|Hin]%elem_of_app; [by apply (Hw sk)|by apply (Hws sk)].
Qed.

Lemma ledger_quiet h h' : ledger h -> ClientHub.reg h' = ClientHub.reg h ->
  (forall e, e ∈ ClientHub.clients h' -> e ∈ ClientHub.clients h) -> ClientHub.written h' = ClientHub.written h -> ledger h'.
Proof.
  intros Hl Hr Hc Hw. apply (ledger_grow h h' [] Hl Hr Hc); [by rewrite app_nil_r|]. intros sk f Hin. by apply not_elem_of_nil in Hin.
Qed.

Lemma ledger_op h op : due done_for op -> ledger h -> ledger (ClientHub.set_reg (DeviceSessions.step (ClientHub.reg h) op) h).
Proof. intros Hdue [Hr Hk Hw]. split; [by apply credible_step|exact Hk|exact Hw]. Qed.

Lemma ledger_record dev ev h : honest dev ev -> ledger h -> ledger (snd (ClientHub.record (net p) dev ev h)).
Proof.
  intros Hev Hl. pose proof (ledger_op h (DeviceSessions.OpSent (ClientHub.clock (net p) (ClientHub.net h)) dev ev) Hev Hl) as Ho.
  cbn in Ho. unfold ClientHub.record. by destruct (DeviceSessions.recordSent _ _ _ _).
Qed.

Lemma may_drop_elem (f : Hub -> Hub) sock h e : may_drop sock f -> e ∈ ClientHub.clients (f h) -> e ∈ ClientHub.clients h.
Proof. intros Hf. destruct (Hf h) as [-> | ->]; [done|apply elem_mdelete]. Qed.

Lemma ledger_seal sock conn seq ev dev h : key_of p dev (ClientHub.key conn) -> honest dev ev ->
  ledger h -> ledger (ClientHub.sealAndWrite (net p) sock conn seq ev h).
Proof.
  intros Hk Hev Hl. destruct (Hub.sealAndWrite_reg (net p) sock conn seq ev h) as [Hr [nonce Hw]].
  refine (ledger_grow h _ _ Hl Hr _ Hw _); [intros e; apply (may_drop_elem _ sock), may_drop_sealAndWrite|].
  intros sk f [= _ ->]%list_elem_of_singleton. by exists dev, (ClientHub.key conn), seq, ev, nonce.
Qed.

Lemma ledger_raw sock m h : ledger h -> ledger (ClientHub.writeRaw (net p) sock m h).
Proof.
  intros Hl. destruct (Hub.writeFrame_reg (net p) sock (ClientHub.Raw m) h) as [Hr Hw].
  refine (ledger_grow h _ _ Hl Hr _ Hw _); [intros e; apply (may_drop_elem (ClientHub.writeFrame (net p) sock (ClientHub.Raw m)) sock); intros h'; apply writeFrame_clients|].
  by intros sk f [= _]%list_elem_of_singleton.
Qed.

Lemma ledger_send sock conn ev h : key_of p (ClientHub.deviceId conn) (ClientHub.key conn) -> honest (ClientHub.deviceId conn) ev ->
  ledger h -> ledger (ClientHub.sendSealed (net p) (fun e => e) sock conn ev h).
Proof.
  intros Hk Hev Hl. unfold ClientHub.sendSealed. pose proof (ledger_record _ ev h Hev Hl) as Hr.
  destruct (ClientHub.record _ _ _ _) as [seq h1]. by apply (ledger_seal _ _ _ _ (ClientHub.deviceId conn)).
Qed.

Lemma ledger_sendTo sock ev h : unacked ev -> ledger h -> ledger (ClientHub.sendTo (net p) (fun e => e) sock ev h).
Proof.
  intros Hev Hl. unfold ClientHub.sendTo. destruct (mget sock (ClientHub.clients h)) as [c|] eqn:Hc; [|done].
  apply ledger_send; [|by apply unacked_honest|done]. apply (lg_keys _ _ _ Hl sock). by apply mget_Some_elem.
Qed.

(** The frames of one broadcast are sealed for connections there were. *)
Lemma ledger_groups ev (groups : jsmap string (list (CSock * ClientHub.ClientConn Key))) h : unacked ev ->
  (forall d g e, (d, g) ∈ groups -> e ∈ g -> key_of p (ClientHub.deviceId e.2) (ClientHub.key e.2)) ->
  ledger h -> ledger (ClientHub.write_groups (net p) (fun e => e) ev groups h).
Proof.
  intros Hev. unfold ClientHub.write_groups. revert h. induction groups as [|[d g] groups IH]; intros h Hk Hl; [done|].
  cbn [foldl fst snd]. apply IH; [intros d' g' e Hin; apply (Hk d'); by right|].
  pose proof (ledger_record d ev h (unacked_honest _ d ev Hev) Hl) as Hr. destruct (ClientHub.record _ _ _ _) as [seq h1]. cbn [snd] in Hr.
  assert (Hg : forall e, e ∈ g -> key_of p (ClientHub.deviceId e.2) (ClientHub.key e.2)) by (intros e; apply (Hk d); by left).
  clear - Hr Hg Hev. unfold ClientHub.write_group. revert h1 Hr. induction g as [|e g IH]; intros h1 Hr; [done|]. cbn [foldl].
  apply IH; [intros e' Hin; apply Hg; by right|]. apply (ledger_seal _ _ _ _ (ClientHub.deviceId e.2)); [apply Hg; by left|by apply unacked_honest|done].
Qed.

Lemma ledger_broadcast ev h : unacked ev -> ledger h -> ledger (ClientHub.broadcast (net p) (fun e => e) ev h).
Proof.
  intros Hev Hl. unfold ClientHub.broadcast. set (g := ClientHub.group_sockets (ClientHub.clients h)).
  assert (Hg : ledger (ClientHub.write_groups (net p) (fun e => e) ev g h)).
  { apply ledger_groups; [done| |done]. intros d es [sk c] Hin He. apply (lg_keys _ _ _ Hl sk). cbn.
    rewrite <- (Hub.group_concat (ClientHub.clients h)). apply list_elem_of_In, in_concat. exists es.
    split; apply list_elem_of_In; [by apply (list_elem_of_fmap_2 snd) in Hin|done]. }
  generalize (DeviceSessions.knownDeviceIds (ClientHub.reg (ClientHub.write_groups (net p) (fun e => e) ev g h))).
  revert Hg. generalize (ClientHub.write_groups (net p) (fun e => e) ev g h). intros h0 Hh0 ds. revert h0 Hh0.
  induction ds as [|d ds IH]; intros h0 Hh0; [done|]. cbn [foldl]. apply IH.
  destruct (mhas d g); [done|]. by apply ledger_record; [apply unacked_honest|].
Qed.

Lemma ledger_broadcasts evs h : Forall unacked evs -> ledger h ->
  ledger (foldl (fun h ev => ClientHub.broadcast (net p) (fun e => e) ev h) h evs).
Proof.
  intros Hevs. revert h. induction Hevs as [|ev evs Hev _ IH]; intros h Hl; [done|]. cbn [foldl]. by apply IH, ledger_broadcast.
Qed.

Lemma ledger_disconnect dev h : ledger h -> ledger (ClientHub.disconnectDevice (net p) dev h).
Proof.
  intros Hl. unfold ClientHub.disconnectDevice. generalize (ClientHub.clients h) at 1.
  pose proof (ledger_op h (DeviceSessions.OpEvict dev) I Hl) as Ho. revert Ho. cbn [DeviceSessions.step].
  generalize (ClientHub.set_reg (DeviceSessions.evict dev (ClientHub.reg h)) h). intros h0 Hh0 l. revert h0 Hh0.
  induction l as [|e l IH]; intros h0 Hh0; [done|]. cbn [foldl]. apply IH. case_decide; [|done].
  apply (ledger_quiet h0); [done|done|intros e'; apply elem_mdelete|done].
Qed.

End hub_laws.

(** ** The daemon *)

Section daemon_laws.
Context {Key Nonce CSock HSock O X H S : Type} `{SessionCrypto Key Nonce} `{EqDecision CSock} `{EqDecision HSock}.
Notation Bridge := (HookBridge.t HSock O (Rest HSock S)).
Notation World := (ClientConnection.t Key CSock X ServerEvent Bridge).
Notation Hub := (ClientHub.t Key CSock X ServerEvent).
Variable p : Parts Key Nonce CSock HSock O X H S.
Implicit Types w : World.

Lemma ledger_weaken (d1 d2 : string -> Z -> Prop) (h : Hub) :
  (forall dev k, d1 dev k -> d2 dev k) -> ledger p d1 h -> ledger p d2 h.
Proof.
  intros Hd. assert (Hc : forall dev n, covers d1 dev n -> covers d2 dev n) by (intros dev n Hn k Hk; by apply Hd, Hn).
  assert (Hh : forall dev ev, honest d1 dev ev -> honest d2 dev ev) by (intros dev []; try done; apply Hc).
  intros [[Hm Hl] Hk Hw]. split; [split|exact Hk|].
  - intros dev q Hq. destruct (Hm dev q Hq) as [H1 H2]. split; [by apply Hc|]. intros k Hin. by apply Hd, H2.
  - intros dev e Hin. by apply Hh, Hl.
  - intros sk f Hin. destruct (Hw sk f Hin) as (dev & k & seq & ev & nonce & Hf & Hkey & Hev).
    exists dev, k, seq, ev, nonce. split_and!; [done|done|by apply Hh].
Qed.

Section kept.
Variables (done_for : string -> Z -> Prop) (sock : CSock).
Hypothesis services : discreet_services p.
Notation ledger := (ledger p done_for).
Notation d := (connection p sock).

Definition kept w : Prop := ledger (ClientConnection.hub w).

Lemma kept_on_hub f : (forall h, ledger h -> ledger (f h)) -> preserves kept (ClientConnection.on_hub f).
Proof. intros Hf w. apply Hf. Qed.

Lemma kept_on_rest {A} (m : eff Bridge A) : preserves kept (ClientConnection.on_rest m).
Proof. intros w Hw. unfold ClientConnection.on_rest. by destruct (m (ClientConnection.rest w)). Qed.

Lemma kept_accept dev seq : preserves kept (ClientConnection.on_registry (DeviceSessions.acceptInbound dev seq)).
Proof.
  intros w Hw. pose proof (ledger_op p done_for _ (DeviceSessions.OpAccept dev seq) I Hw) as Ho. revert Ho. cbn [DeviceSessions.step].
  unfold ClientConnection.on_registry, kept. by destruct (DeviceSessions.acceptInbound dev seq _).
Qed.

Lemma kept_resume now dev ls : preserves kept (ClientConnection.on_registry (DeviceSessions.resumeFor now dev ls)).
Proof.
  intros w Hw. pose proof (ledger_op p done_for _ (DeviceSessions.OpHello now dev ls) I Hw) as Ho. revert Ho. cbn [DeviceSessions.step].
  unfold ClientConnection.on_registry, kept. by destruct (DeviceSessions.resumeFor now dev ls _).
Qed.

(** What is replayed was recorded for the device. *)
Lemma resume_yields now dev ls :
  yields kept (ClientConnection.on_registry (DeviceSessions.resumeFor now dev ls))
    (fun o => forall evs, o = Some evs -> Forall (fun e : Z * ServerEvent => honest done_for dev e.2) evs).
Proof.
  intros w Hw o. pose proof (ledger_op p done_for _ (DeviceSessions.OpHello now dev ls) I Hw) as Ho.
  unfold ClientConnection.on_registry. pose proof (fun evs e => logged_replayed now dev ls (ClientHub.reg (ClientConnection.hub w)) evs e) as Hr.
  cbn [DeviceSessions.step] in Ho, Hr. destruct (DeviceSessions.resumeFor now dev ls _) as [o' r']. cbn in Ho, Hr |- *.
  intros [= <-] evs ->. apply Forall_forall. intros e Hin. apply (cr_log _ _ (lg_registry _ _ _ Ho) dev). by apply (Hr evs).
Qed.

Lemma kept_send_event conn ev : key_of p (ClientHub.deviceId conn) (ClientHub.key conn) -> honest done_for (ClientHub.deviceId conn) ev ->
  preserves kept (ClientConnection.send_event d sock conn ev).
Proof. intros Hk Hev w. apply kept_on_hub. intros h. by apply ledger_send. Qed.

Lemma kept_replay conn e : key_of p (ClientHub.deviceId conn) (ClientHub.key conn) -> honest done_for (ClientHub.deviceId conn) e.2 ->
  preserves kept (ClientConnection.replay_one d sock conn e).
Proof. intros Hk Hev w. apply kept_on_hub. intros h. by apply (ledger_seal _ _ _ _ _ _ (ClientHub.deviceId conn)). Qed.

Lemma kept_send_ack conn : key_of p (ClientHub.deviceId conn) (ClientHub.key conn) -> preserves kept (ClientConnection.send_ack d sock conn).
Proof.
  intros Hk. apply (preserves_bind_yields _ _ _ (covers done_for (ClientHub.deviceId conn))); [apply preserves_gets| |].
  - intros w Hw n [= <-]. by apply (credible_level _ _ _ _ (lg_registry _ _ _ Hw)).
  - intros n Hn. destruct (0 <? n); [|apply preserves_ret]. by apply kept_send_event.
Qed.

Lemma kept_raw m : preserves kept (ClientConnection.writeRaw d sock m).
Proof. apply kept_on_hub. intros h. apply ledger_raw. Qed.

Lemma kept_destroy : preserves kept (ClientConnection.destroy d sock).
Proof. apply kept_on_hub. intros h Hh. by apply (ledger_quiet p done_for h). Qed.

Lemma kept_forget : preserves kept (ClientConnection.on_hub (ClientHub.forget sock)).
Proof. apply kept_on_hub. intros h Hh. apply (ledger_quiet p done_for h); try done. intros e. apply elem_mdelete. Qed.

#[local] Hint Resolve preserves_ret preserves_throw preserves_gets preserves_bind kept_on_rest kept_accept kept_resume kept_raw kept_destroy kept_forget : kept.

(** A success is counted when it is one. *)
Lemma kept_finish conn seq (handled : bool) : key_of p (ClientHub.deviceId conn) (ClientHub.key conn) ->
  (handled = true -> done_for (ClientHub.deviceId conn) seq) -> preserves kept (ClientConnection.finish d sock conn seq handled).
Proof.
  intros Hk Hd. apply preserves_bind; [|intros _; apply preserves_bind; [auto with kept|]; intros []; [by apply kept_send_ack|auto with kept]].
  destruct handled; [|auto with kept]. intros w Hw. exact (ledger_op p done_for _ (DeviceSessions.OpProcessed _ _) (Hd eq_refl) Hw).
Qed.

Lemma kept_authenticate conn : key_of p (ClientHub.deviceId conn) (ClientHub.key conn) ->
  preserves kept (ClientConnection.on_hub (ClientHub.authenticate sock conn)).
Proof.
  intros Hk. apply kept_on_hub. intros h [Hr Hks Hw]. split; [exact Hr| |exact Hw].
  intros sk c [[= -> ->]|Hin]%elem_mset; [exact Hk|by apply (Hks sk)].
Qed.

Lemma snapshot_unacked r : Forall unacked (snapshot p r).
Proof.
  unfold snapshot, Daemon.snapshot. constructor; [exact I|]. apply Forall_app. split; apply Forall_fmap, Forall_true; by intros.
Qed.

Lemma kept_hello msg : preserves kept (ClientConnection.handle_hello d sock msg).
Proof.
  unfold ClientConnection.handle_hello.
  apply (preserves_bind_yields _ _ _ (fun o => forall dv, o = Some dv -> exists id s0, ClientConnection.find (identity p) id s0 = Some dv));
    [auto with kept| |].
  { intros w _ o [= <-] dv Hdv. destruct (jprop "deviceId" msg); try done. by eexists _, _. }
  intros [dv|] Hdv; [|auto with kept]. specialize (Hdv dv eq_refl). apply preserves_bind; [auto with kept|]. intros salt.
  apply (preserves_bind_yields _ _ _ (key_of p (Identity.deviceId dv))); [auto with kept| |].
  { intros w _ k Hk. exists dv, salt, (proc_of (ClientConnection.rest w)). split; [exact Hdv|]. split; [done|]. revert Hk.
    unfold ClientConnection.on_rest, proc_of. cbn. unfold on_proc.
    by destruct (ClientConnection.deriveSessionKey _ _ _ _). }
  intros k Hk. apply preserves_bind; [auto with kept|]. intros now. apply (preserves_bind_yields _ _ _ _ (kept_resume _ _ _) (resume_yields _ _ _)).
  intros resume Hres. apply preserves_bind; [by apply kept_authenticate|]. intros _. apply preserves_bind; [|intros _; by apply kept_send_ack].
  destruct resume as [evs|]; (apply preserves_bind; [apply kept_raw|]; intros _).
  - apply preserves_for_each_Forall. eapply Forall_impl; [by apply Hres|]. intros e He. by apply kept_replay.
  - apply (preserves_bind_yields _ _ _ (Forall unacked)); [auto with kept| |].
    { intros w _ evs [= <-]. apply snapshot_unacked. }
    intros evs Hevs. apply preserves_for_each_Forall. eapply Forall_impl; [exact Hevs|]. intros ev Hev.
    by apply kept_send_event; [|apply unacked_honest].
Qed.

Lemma kept_unauth msg : preserves kept (ClientConnection.handleUnauth d sock msg).
Proof.
  unfold ClientConnection.handleUnauth. repeat match goal with |- context [if ?b then _ else _] => destruct b end;
    auto using kept_hello with kept.
  - apply preserves_bind; [auto with kept|]. intros n. destruct (_ <=? n); [auto with kept|].
    apply preserves_bind; [auto with kept|]. intros [dv|r]; auto with kept.
Qed.

(** *** A command *)

Lemma kept_outside {A} (m : eff (outer S) A) : (forall db s, Forall unacked (o_sent (snd (m (mkOuter db s []))))) -> preserves kept (outside p m).
Proof.
  intros Hm w Hw. unfold outside, in_bridge, HookBridge.outside, on_outer, kept. cbn. 
  match goal with |- context [m ?x] => specialize (Hm (o_db x) (o_proc x)); cbn in Hm; destruct (m x) as [o x'] end.
  cbn. by apply ledger_broadcasts.
Qed.

Lemma kept_bridge {A} (m : eff (HookBridge.t HSock O (Hub * Rest HSock S)) A) : preserves (JV ledger) m -> preserves kept (in_bridge m).
Proof. intros Hm w Hw. unfold in_bridge, kept. specialize (Hm (view w) Hw). by destruct (m (view w)). Qed.

Lemma announces ev h : unacked ev -> ledger h -> ledger (ClientHub.broadcast (net p) (fun e => e) ev h).
Proof. apply ledger_broadcast. Qed.

Lemma kept_dispatch cmd dev : preserves kept (dispatch p cmd sock dev).
Proof.
  apply dispatched_command.
  - intros A m Hm. apply kept_outside. by apply services.
  - intros ev Hev. apply kept_on_hub. intros h. by apply ledger_sendTo.
  - intros dv. apply kept_on_hub, ledger_disconnect.
  - destruct cmd as [[]|]; try done. intros w. unfold broker_decide. apply kept_bridge, calm_on_broker, calm_decide, announces.
Qed.

Lemma kept_command conn seq cmd w : key_of p (ClientHub.deviceId conn) (ClientHub.key conn) ->
  (fst (DeviceSessions.acceptInbound (ClientHub.deviceId conn) seq (ClientConnection.registry w)) = true ->
   fst (dispatch p cmd sock (ClientHub.deviceId conn) (entered (ClientHub.deviceId conn) seq w)) = Ok tt -> done_for (ClientHub.deviceId conn) seq) ->
  kept w -> kept (snd (ClientConnection.on_command d sock conn seq cmd w)).
Proof.
  intros Hk Hdone Hw. set (dev := ClientHub.deviceId conn) in *. pose proof (kept_accept dev seq w Hw) as Ha.
  unfold ClientConnection.on_command. fold dev. unfold mbind at 1, eff_bind at 1.
  assert (Hacc : ClientConnection.on_registry (DeviceSessions.acceptInbound dev seq) w =
    (Ok (fst (DeviceSessions.acceptInbound dev seq (ClientConnection.registry w))), entered dev seq w)).
  { unfold ClientConnection.on_registry, entered, ClientConnection.registry. by destruct (DeviceSessions.acceptInbound dev seq _). }
  rewrite Hacc in Ha |- *. destruct (fst (DeviceSessions.acceptInbound dev seq _)); [|exact Ha]. specialize (Hdone eq_refl).
  cbn [negb ClientConnection.handleCommand connection]. pose proof (kept_dispatch cmd dev _ Ha) as Hd. cbn [snd] in Hd.
  unfold mbind at 1, eff_bind at 1, ClientConnection.guardMessage, try_catch, mbind at 1, eff_bind at 1.
  destruct (dispatch p cmd sock dev (entered dev seq w)) as [[[]|e] w2]; (apply kept_finish; [exact Hk| |exact Hd]); [intros _; by apply Hdone|done].
Qed.

(** A line of a socket keeps the account, when what it makes run is in it. *)
Lemma kept_line line w :
  (forall dev seq cmd, ClientConnection.executes d sock line w = Some (dev, seq, cmd) ->
     fst (dispatch p cmd sock dev (entered dev seq w)) = Ok tt -> done_for dev seq) ->
  kept w -> kept (snd (ClientConnection.onLine d sock line w)).
Proof.
  unfold ClientConnection.executes, ClientConnection.incoming, ClientConnection.onLine. intros Hdone Hw.
  destruct (Framing.is_blank line); [exact Hw|]. destruct (ClientConnection.parseJson d line) as [msg|]; [|exact Hw].
  unfold mbind at 1, eff_bind at 1, gets at 1.
  destruct (ClientHub.connFor sock (ClientConnection.hub w)) as [conn|] eqn:Hc.
  - assert (Hk : key_of p (ClientHub.deviceId conn) (ClientHub.key conn)) by (apply (lg_keys _ _ _ Hw sock); by apply mget_Some_elem).
    destruct (ClientConnection.jmember "seq" msg) as [seq|e]; [|exact Hw].
    destruct (ClientConnection.open_msg conn msg seq) as [| |n cmd]; [exact Hw| |].
    + revert w Hc Hw Hdone. intros w Hc Hw _. apply (preserves_bind kept); [apply kept_forget|intros; apply kept_destroy|exact Hw].
    + apply kept_command; [done| |done]. intros Hf Hd. apply (Hdone _ _ cmd); [|done]. cbn [ClientHub.connFor]. by rewrite Hf.
  - apply (preserves_bind kept (ClientConnection.guardMessage (ClientConnection.handleUnauth d sock msg))); [|auto with kept|exact Hw].
    apply preserves_try; [|auto with kept]. apply preserves_bind; [apply kept_unauth|auto with kept].
Qed.

End kept.

(** ** A run *)

Lemma ledger_step (done_for : string -> Z -> Prop) w i : discreet_services p -> discreet i ->
  (forall cs line dev seq cmd, i = ClientLine cs line -> ClientConnection.executes (connection p cs) cs line w = Some (dev, seq, cmd) ->
     fst (dispatch p cmd cs dev (entered dev seq w)) = Ok tt -> done_for dev seq) ->
  kept done_for w -> kept done_for (step p w i).
Proof.
  intros Hsv Hi Hdone Hw. destruct i as [sock line|sock|sock line|sock|id|f|f]; cbn [step].
  - apply kept_line; [done|by intros; eapply Hdone|done].
  - by apply kept_forget.
  - apply kept_bridge; [|done]. apply calm_hook_line, announces.
  - apply kept_bridge; [|done]. apply calm_hook_close, announces.
  - by case_bool_decide.
  - by apply kept_outside.
  - apply kept_on_hub; [|done]. intros h Hh. by apply (ledger_quiet p done_for h).
Qed.

Lemma ran_snoc w0 ins i dev seq : (exists cmd, ran p w0 ins dev seq cmd) -> exists cmd, ran p w0 (ins ++ [i]) dev seq cmd.
Proof.
  intros (cmd & pre & cs & line & post & -> & Hr). exists cmd, pre, cs, line, (post ++ [i]). by rewrite <- app_assoc.
Qed.

(** Along any run, what is counted, kept for replay and written is of commands that ran. *)
Lemma ledger_run h db s ins a b : discreet_services p -> Forall discreet ins ->
  ClientHub.clients h = [] -> ClientHub.written h = [] -> ClientHub.reg h = DeviceSessions.new a b ->
  ledger p (fun dev seq => exists cmd, ran p (boot h db s) ins dev seq cmd) (ClientConnection.hub (run p (boot h db s) ins)).
Proof.
  intros Hsv Hins Hc Hw Hr. induction ins as [|i ins IH] using rev_ind.
  - split; cbn; [rewrite Hr; apply credible_new|rewrite Hc|rewrite Hw]; intros ? ? Hin; by apply not_elem_of_nil in Hin.
  - apply Forall_app in Hins as [Hins [Hi _]%Forall_cons]. rewrite daemon_run_snoc. apply ledger_step; [done|done| |].
    + intros cs line dev seq cmd -> Hex Hd. exists cmd, ins, cs, line, []. by split_and!.
    + eapply ledger_weaken; [|by apply IH]. intros dev k. apply ran_snoc.
Qed.

(** A frame the daemon may write that opens to an acknowledgement. *)
Lemma told_ack `{!SessionCryptoLaws Key Nonce serializable} (done_for : string -> Z -> Prop) f k seq n :
  (forall ev, serializable (PEv ev)) -> told p done_for f ->
  open_frame k (with_seq f seq) d2c = Some (PEv (ack n)) -> exists dev, key_of p dev k /\ covers done_for dev n.
Proof.
  intros Hser (dev & k' & seq' & ev & nonce & -> & Hk & Hev) Ho.
  apply (open_bound _ _ seq' seq (PEv ev) (PEv (ack n)) d2c d2c nonce) in Ho; [|apply Hser].
  destruct Ho as (-> & _ & _ & [= <-]). by exists dev.
Qed.

(** C13. An acknowledgement on the wire is of commands that ran.  In any run of the daemon,
    whatever the clients send, whichever are closed and revoked, whatever hooks and jobs do,
    every number up to a device's acknowledgement level is of a command the dispatcher was
    called on for that device and returned from; and whoever opens a frame the daemon has
    written, and finds an acknowledgement in it, has the key of a device for which every
    number up to it is of such a command, even when the frame is a replay. *)
Theorem wire_acks_are_of_commands_run `{!SessionCryptoLaws Key Nonce serializable} h db s ins a b :
  (forall ev, serializable (PEv ev)) -> discreet_services p -> Forall discreet ins ->
  ClientHub.clients h = [] -> ClientHub.written h = [] -> ClientHub.reg h = DeviceSessions.new a b ->
  let w := run p (boot h db s) ins in
  (forall dev m, 1 <= m <= DeviceSessions.ackLevel dev (ClientConnection.registry w) -> exists cmd, ran p (boot h db s) ins dev m cmd) /\
  (forall sk f k seq n, (sk, ClientHub.Sealed f) ∈ ClientHub.written (ClientConnection.hub w) ->
     open_frame k (with_seq f seq) d2c = Some (PEv (ack n)) ->
     exists dev, key_of p dev k /\ forall m, 1 <= m <= n -> exists cmd, ran p (boot h db s) ins dev m cmd).
Proof.
  intros Hser Hsv Hins Hc Hw Hr w. pose proof (ledger_run h db s ins a b Hsv Hins Hc Hw Hr) as Hl. split.
  - intros dev. by apply (credible_level _ _ dev _ (lg_registry _ _ _ Hl)).
  - intros sk f k seq n Hin Ho. by apply (told_ack _ f k seq n Hser (lg_written _ _ _ Hl sk f Hin)).
Qed.

End daemon_laws.

(** ** A concrete exchange *)

#[local] Existing Instance node_SessionCrypto.
#[local] Existing Instance toy_platform.
#[local] Existing Instance toy_platform_laws.

Lemma demo_services : discreet_services demo_parts.
Proof. intros A m Hm d s. destruct Hm; constructor. Qed.

(** The phone connects and decides; its first command is acknowledged. *)
Definition demo_exchange : list (input nat nat Z unit) := [ClientLine 1%nat "hello"; ClientLine 1%nat "sealed"].

Definition demo_receipt : SealedFrame := node_seal "key-salt" 3 (PEv (ack 1)) d2c "n3".

Lemma demo_exchange_written :
  (1%nat, ClientHub.Sealed demo_receipt) ∈ ClientHub.written (ClientConnection.hub (run demo_parts (boot demo_hub Db.empty tt) demo_exchange)).
Proof.
  assert (Hw : ClientHub.written (ClientConnection.hub (run demo_parts (boot demo_hub Db.empty tt) demo_exchange)) !! 3%nat =
    Some (1%nat, ClientHub.Sealed demo_receipt)) by (vm_compute; reflexivity).
  by apply list_elem_of_lookup_2 in Hw.
Qed.

Lemma demo_discreet : Forall (@discreet nat nat Z unit) demo_exchange.
Proof. repeat constructor. Qed.

Lemma wire_acks_are_of_commands_run_witness :
  open_frame "key-salt" (with_seq demo_receipt 3) d2c = Some (PEv (ack 1)) /\
  exists dev cmd, ran demo_parts (boot demo_hub Db.empty tt) demo_exchange dev 1 cmd.
Proof.
  assert (Ho : open_frame "key-salt" (with_seq demo_receipt 3) d2c = Some (PEv (ack 1))) by (vm_compute; reflexivity).
  split; [exact Ho|].
  destruct (wire_acks_are_of_commands_run (serializable:=fun _ => True) demo_parts demo_hub Db.empty tt demo_exchange 200 200
    (fun _ => I) demo_services demo_discreet eq_refl eq_refl eq_refl) as [_ Hf].
  destruct (Hf 1%nat demo_receipt "key-salt" 3 1 demo_exchange_written Ho) as (dev & _ & Hm).
  exists dev. apply (Hm 1). lia.
Defined.
