(* ===== verification/QrField.v ===== *)
(** * The field and the Reed-Solomon code of the QR encoder

    [packages/cli/src/qr.ts], lines 16 to 60: the tables of GF(256) for the polynomial
    0x11D and the generator 2, the multiplication on them, the generator polynomial and
    the encoder.  The laws that make the code words decodable are proved for every
    block: the multiplication is that of polynomials, and every code word vanishes at
    the roots of the generator. *)

From S2P Require Import Prelude JsMap Bytes.

Local Open Scope Z_scope.

Module QrField.

(** ** The tables *)

(** [x <<= 1; if (x & 0x100) x ^= 0x11d] *)
Definition xtime (x : Z) : Z :=
  let x := Z.shiftl x 1 in
  if negb (Z.land x 256 =? 0) then Z.lxor x 285 else x.

(** One turn of the first loop: [x], [EXP] and [LOG]. *)
Definition table_step (s : Z * list Z * list Z) (i : nat) : Z * list Z * list Z :=
  let '(x, e, l) := s in (xtime x, <[i := x]> e, <[Z.to_nat x := Z.of_nat i]> l).

Definition tables : Z * list Z * list Z :=
  foldl table_step (1, replicate 512 0, replicate 256 0) (seq 0 255).

Definition LOG : list Z := Eval vm_compute in tables.2.

(** The second loop: [for (let i = 255; i < 512; i++) EXP[i] = EXP[i - 255]] *)
Definition EXP : list Z :=
  Eval vm_compute in foldl (fun e i => <[i := byte_at e (i - 255)]> e) tables.1.2 (seq 255 257).

Definition gfMul (a b : Z) : Z :=
  if (a =? 0) || (b =? 0) then 0
  else byte_at EXP (Z.to_nat (byte_at LOG (Z.to_nat a) + byte_at LOG (Z.to_nat b))).

(** ** The code *)

(** [p[j] ^= v] *)
Definition xor_at (j : nat) (v : Z) (p : list Z) : list Z := alter (fun x => Z.lxor x v) j p.

(** The product of [poly] with [x - e], as the loop of [rsGenerator] computes it. *)
Definition times_root (e : Z) (poly : list Z) : list Z :=
  foldl (fun next j => xor_at (S j) (gfMul (byte_at poly j) e) (xor_at j (byte_at poly j) next))
    (replicate (S (length poly)) 0) (seq 0 (length poly)).

Definition rsGenerator (degree : nat) : list Z :=
  foldl (fun poly i => times_root (byte_at EXP i) poly) [1] (seq 0 degree).

(** One turn of the division loop of [rsEncode]. *)
Definition reduce (gen : list Z) (res : list Z) (i : nat) : list Z :=
  let coef := byte_at res i in
  if coef =? 0 then res
  else foldl (fun r j => xor_at (i + j) (gfMul (byte_at gen j) coef) r) res (seq 0 (length gen)).

Definition rsEncode (data : list Z) (ecLen : nat) : list Z :=
  let gen := rsGenerator ecLen in
  drop (length data) (foldl (reduce gen) (data ++ replicate ecLen 0) (seq 0 (length data))).

End QrField.

Import QrField.

(** ** The field *)

(** The power [i] of the generator. *)
Definition alpha (i : Z) : Z := byte_at EXP (Z.to_nat (i mod 255)).

Definition check_powers : bool :=
  forallb (fun i => let x := byte_at EXP i in
    (1 <=? x) && (x <? 256) && (byte_at LOG (Z.to_nat x) =? Z.of_nat i) && (byte_at EXP (i + 255) =? x))
    (seq 0 255).

Definition check_logs : bool :=
  forallb (fun a => let l := byte_at LOG a in
    (0 <=? l) && (l <? 255) && (byte_at EXP (Z.to_nat l) =? Z.of_nat a)) (seq 1 255).

Definition check_double : bool := forallb (fun a => gfMul (Z.of_nat a) 2 =? xtime (Z.of_nat a)) (seq 0 256).

Lemma tables_ok : check_powers && check_logs && check_double = true.
Proof. vm_compute. reflexivity. Qed.

Lemma forallb_seq (f : nat -> bool) s n i : forallb f (seq s n) = true -> (s <= i < s + n)%nat -> f i = true.
Proof. intros Hf Hi. rewrite forallb_forall in Hf. apply Hf, in_seq. lia. Qed.

Lemma exp_facts i : (i < 255)%nat ->
  1 <= byte_at EXP i < 256 /\ byte_at LOG (Z.to_nat (byte_at EXP i)) = Z.of_nat i /\ byte_at EXP (i + 255) = byte_at EXP i.
Proof.
  intros Hi. pose proof tables_ok as Ht. apply andb_prop in Ht as [Ht _]. apply andb_prop in Ht as [Ht _].
  pose proof (forallb_seq _ _ _ i Ht ltac:(lia)) as H. cbv beta zeta in H. rewrite !andb_true_iff in H. lia.
Qed.

Lemma log_facts a : 1 <= a < 256 ->
  0 <= byte_at LOG (Z.to_nat a) < 255 /\ byte_at EXP (Z.to_nat (byte_at LOG (Z.to_nat a))) = a.
Proof.
  intros Ha. pose proof tables_ok as Ht. apply andb_prop in Ht as [Ht _]. apply andb_prop in Ht as [_ Ht].
  pose proof (forallb_seq _ _ _ (Z.to_nat a) Ht ltac:(lia)) as H. cbv beta zeta in H. rewrite !andb_true_iff in H.
  rewrite Z2Nat.id in H by lia. lia.
Qed.

Lemma gf_double a : is_byte a -> gfMul a 2 = xtime a.
Proof.
  intros Ha. unfold is_byte in Ha. pose proof tables_ok as Ht. apply andb_prop in Ht as [_ Ht].
  pose proof (forallb_seq _ _ _ (Z.to_nat a) Ht ltac:(lia)) as H. cbv beta in H.
  rewrite Z2Nat.id in H by lia. lia.
Qed.

Lemma alpha_range i : 1 <= alpha i < 256.
Proof. pose proof (Z.mod_pos_bound i 255). apply exp_facts. lia. Qed.

Lemma alpha_mod i : alpha (i mod 255) = alpha i.
Proof. unfold alpha. by rewrite Z.mod_mod. Qed.

Lemma alpha_log a : 1 <= a < 256 -> exists i, 0 <= i < 255 /\ a = alpha i.
Proof.
  intros Ha. destruct (log_facts a Ha) as [H1 H2]. exists (byte_at LOG (Z.to_nat a)).
  split; [done|]. unfold alpha. by rewrite Z.mod_small.
Qed.

Lemma byte_cases a : is_byte a -> a = 0 \/ exists i, 0 <= i < 255 /\ a = alpha i.
Proof. unfold is_byte. intros Ha. destruct (decide (a = 0)); [by left|right]. apply alpha_log. lia. Qed.

Lemma log_alpha i : byte_at LOG (Z.to_nat (alpha i)) = i mod 255.
Proof.
  pose proof (Z.mod_pos_bound i 255 ltac:(lia)) as Hi. unfold alpha.
  rewrite (proj1 (proj2 (exp_facts (Z.to_nat (i mod 255)) ltac:(lia)))). lia.
Qed.

Lemma gf_alpha i j : gfMul (alpha i) (alpha j) = alpha (i + j).
Proof.
  pose proof (alpha_range i) as Hi. pose proof (alpha_range j) as Hj. unfold gfMul.
  rewrite (proj2 (Z.eqb_neq (alpha i) 0)), (proj2 (Z.eqb_neq (alpha j) 0)) by lia. cbn [orb].
  pose proof (Z.mod_pos_bound i 255 ltac:(lia)). pose proof (Z.mod_pos_bound j 255 ltac:(lia)).
  rewrite !log_alpha. unfold alpha. rewrite Z.add_mod by lia. set (u := i mod 255) in *. set (v := j mod 255) in *.
  destruct (decide (u + v < 255)).
  - rewrite (Z.mod_small (u + v)) by lia. f_equal; lia.
  - replace ((u + v) mod 255) with (u + v - 255) by (apply (Z.mod_unique_pos _ _ 1); lia).
    rewrite <- (proj2 (proj2 (exp_facts (Z.to_nat (u + v - 255)) ltac:(lia)))). f_equal. lia.
Qed.

Lemma gf_0_l a : gfMul 0 a = 0.
Proof. done. Qed.

Lemma gf_0_r a : gfMul a 0 = 0.
Proof. unfold gfMul. by rewrite orb_true_r. Qed.

Lemma gf_byte a b : is_byte a -> is_byte b -> is_byte (gfMul a b).
Proof.
  intros [->|(i & _ & ->)]%byte_cases [->|(j & _ & ->)]%byte_cases; rewrite ?gf_0_l, ?gf_0_r; try (unfold is_byte; lia).
  rewrite gf_alpha. pose proof (alpha_range (i + j)). unfold is_byte. lia.
Qed.

Lemma gf_comm a b : is_byte a -> is_byte b -> gfMul a b = gfMul b a.
Proof.
  intros [->|(i & _ & ->)]%byte_cases [->|(j & _ & ->)]%byte_cases; rewrite ?gf_0_l, ?gf_0_r; try done.
  rewrite !gf_alpha. f_equal. lia.
Qed.

Lemma gf_assoc a b c : is_byte a -> is_byte b -> is_byte c -> gfMul (gfMul a b) c = gfMul a (gfMul b c).
Proof.
  intros [->|(i & _ & ->)]%byte_cases [->|(j & _ & ->)]%byte_cases [->|(k & _ & ->)]%byte_cases;
    rewrite ?gf_alpha, ?gf_0_l, ?gf_0_r, ?gf_0_l; try done. f_equal. lia.
Qed.

Lemma gf_1_l a : is_byte a -> gfMul 1 a = a.
Proof.
  intros [->|(i & _ & ->)]%byte_cases; [done|]. change 1 with (alpha 0). by rewrite gf_alpha.
Qed.

Lemma lxor_byte a b : is_byte a -> is_byte b -> is_byte (Z.lxor a b).
Proof.
  unfold is_byte. intros Ha Hb. assert (H0 : 0 <= Z.lxor a b) by (apply Z.lxor_nonneg; lia). split; [done|].
  destruct (decide (Z.lxor a b = 0)) as [->|Hn]; [lia|].
  apply (Z.log2_lt_pow2 _ 8); [lia|]. eapply Z.le_lt_trans; [apply Z.log2_lxor; lia|].
  assert (Hl : forall x, 0 <= x < 256 -> Z.log2 x < 8).
  { intros x Hx. destruct (decide (x = 0)) as [->|]; [done|]. apply Z.log2_lt_pow2; [lia|]. simpl. lia. }
  pose proof (Hl a Ha). pose proof (Hl b Hb). lia.
Qed.

Lemma carry_bit x : negb (Z.land x 256 =? 0) = Z.testbit x 8.
Proof.
  assert (Hb : forall n, 0 <= n -> Z.testbit (Z.land x 256) n = Z.testbit x n && bool_decide (n = 8)).
  { intros n Hn. rewrite Z.land_spec. f_equal. change 256 with (2 ^ 8). rewrite Z.pow2_bits_eqb by lia.
    case_bool_decide; lia. }
  destruct (Z.eqb_spec (Z.land x 256) 0) as [H0|H0]; cbn [negb].
  - specialize (Hb 8 ltac:(lia)). rewrite H0 in Hb. by rewrite bool_decide_true, andb_true_r in Hb.
  - destruct (Z.testbit x 8) eqn:Hx; [done|]. exfalso. apply H0. apply Z.bits_inj'. intros n Hn.
    rewrite Hb, Z.bits_0 by done. case_bool_decide; [subst n; by rewrite Hx|by rewrite andb_false_r].
Qed.

Lemma xtime_lxor a b : xtime (Z.lxor a b) = Z.lxor (xtime a) (xtime b).
Proof.
  unfold xtime. rewrite !carry_bit, Z.shiftl_lxor, Z.lxor_spec.
  set (x := Z.shiftl a 1). set (y := Z.shiftl b 1).
  destruct (Z.testbit x 8), (Z.testbit y 8); cbn [xorb]; rewrite ?Z.lxor_assoc; try done.
  - f_equal. by rewrite <- (Z.lxor_assoc 285), (Z.lxor_comm 285 y), Z.lxor_assoc, Z.lxor_nilpotent, Z.lxor_0_r.
  - f_equal. apply Z.lxor_comm.
Qed.

Lemma alpha_succ i : alpha (Z.succ i) = gfMul (alpha i) 2.
Proof. change 2 with (alpha 1). by rewrite gf_alpha. Qed.

Lemma gf_iter_xtime n a : is_byte a -> gfMul a (alpha (Z.of_nat n)) = Nat.iter n xtime a.
Proof.
  intros Ha. assert (Hb : forall i, is_byte (alpha i)) by (intros i; pose proof (alpha_range i); unfold is_byte; lia).
  induction n as [|n IH].
  - rewrite gf_comm by done. change (alpha (Z.of_nat 0)) with 1. by rewrite gf_1_l.
  - rewrite Nat2Z.inj_succ, alpha_succ, <- gf_assoc by (done || (unfold is_byte; lia)).
    rewrite gf_double by (by apply gf_byte). by rewrite IH.
Qed.

Lemma iter_xtime_lxor n a b : Nat.iter n xtime (Z.lxor a b) = Z.lxor (Nat.iter n xtime a) (Nat.iter n xtime b).
Proof. induction n as [|n IH]; [done|]. rewrite !Nat.iter_succ. by rewrite IH, xtime_lxor. Qed.

Lemma gf_lxor_l a b c : is_byte a -> is_byte b -> is_byte c -> gfMul (Z.lxor a b) c = Z.lxor (gfMul a c) (gfMul b c).
Proof.
  intros Ha Hb [->|(i & Hi & ->)]%byte_cases; [by rewrite !gf_0_r|].
  replace i with (Z.of_nat (Z.to_nat i)) by lia. rewrite !gf_iter_xtime by auto using lxor_byte. apply iter_xtime_lxor.
Qed.

Lemma gf_lxor_r a b c : is_byte a -> is_byte b -> is_byte c -> gfMul a (Z.lxor b c) = Z.lxor (gfMul a b) (gfMul a c).
Proof.
  intros. rewrite gf_comm, gf_lxor_l by auto using lxor_byte. by rewrite (gf_comm b), (gf_comm c).
Qed.

(** The product of two elements as the polynomials they stand for, modulo 0x11D: the
    sum of the shifts of [a] selected by the bits of [b]. *)
Definition poly_mul (a b : Z) : Z :=
  foldl (fun acc k => if Z.testbit b (Z.of_nat k) then Z.lxor acc (Nat.iter k xtime a) else acc) 0 (seq 0 8).

Definition low_part (b : Z) (n : nat) : Z :=
  foldl (fun acc k => if Z.testbit b (Z.of_nat k) then Z.lxor acc (2 ^ Z.of_nat k) else acc) 0 (seq 0 n).

Lemma low_part_spec b n i : 0 <= i -> Z.testbit (low_part b n) i = Z.testbit b i && bool_decide (i < Z.of_nat n).
Proof.
  intros Hi. induction n as [|n IH].
  - rewrite bool_decide_false by lia. by rewrite andb_false_r, Z.bits_0.
  - unfold low_part in *. rewrite seq_S, foldl_app. cbn [foldl Nat.add].
    destruct (Z.testbit b (Z.of_nat n)) eqn:Hb.
    + rewrite Z.lxor_spec, IH, Z.pow2_bits_eqb by lia.
      destruct (Z.eqb_spec (Z.of_nat n) i) as [<-|Hne].
      * rewrite Hb, (bool_decide_false (_ < _)), bool_decide_true by lia. done.
      * rewrite xorb_false_r. f_equal. apply bool_decide_ext. lia.
    + rewrite IH. destruct (decide (i = Z.of_nat n)) as [->|Hne]; [by rewrite Hb|].
      f_equal. apply bool_decide_ext. lia.
Qed.

Lemma low_part_byte b : is_byte b -> low_part b 8 = b.
Proof.
  intros Hb. unfold is_byte in Hb. apply Z.bits_inj'. intros i Hi. rewrite low_part_spec by done.
  destruct (decide (i < 8)) as [Hl|Hl]; [rewrite bool_decide_true by lia; by rewrite andb_true_r|].
  rewrite bool_decide_false, andb_false_r by lia. symmetry.
  destruct (decide (b = 0)) as [->|Hn]; [apply Z.bits_0|]. apply Z.bits_above_log2; [lia|].
  eapply Z.lt_le_trans; [apply (Z.log2_lt_pow2 b 8); [lia|simpl; lia]|lia].
Qed.

Lemma low_part_is_byte b n : (n <= 8)%nat -> is_byte (low_part b n).
Proof.
  induction n as [|n IH]; intros Hn; [unfold is_byte; cbn; lia|].
  unfold low_part in *. rewrite seq_S, foldl_app. cbn [foldl Nat.add]. case_match; [|apply IH; lia].
  apply lxor_byte; [apply IH; lia|]. unfold is_byte. split; [lia|].
  change 256 with (2 ^ 8). apply Z.pow_lt_mono_r; lia.
Qed.

Lemma power_of_two k : (k < 8)%nat -> alpha (Z.of_nat k) = 2 ^ Z.of_nat k.
Proof. intros Hk. do 8 (destruct k as [|k]; [reflexivity|]). lia. Qed.

(** The multiplication on the logarithm tables is the multiplication of GF(256):
    for every pair of bytes it is the product of the polynomials they stand for modulo
    x^8 + x^4 + x^3 + x^2 + 1. *)
Theorem gf_multiplies_polynomials a b (Ha : is_byte a) (Hb : is_byte b) : gfMul a b = poly_mul a b.
Proof.
  rewrite <- (low_part_byte b Hb) at 1. unfold poly_mul. assert (Hn : (8 <= 8)%nat) by lia. revert Hn.
  generalize 8%nat at 1 3 4. induction n as [|n IH]; intros Hn; [apply gf_0_r|].
  pose proof (low_part_is_byte b n ltac:(lia)) as Hl. specialize (IH ltac:(lia)).
  unfold low_part in *. rewrite !seq_S, !foldl_app. cbn [foldl Nat.add].
  destruct (Z.testbit b (Z.of_nat n)); [|exact IH].
  rewrite <- (power_of_two n) by lia.
  assert (is_byte (alpha (Z.of_nat n))) by (pose proof (alpha_range (Z.of_nat n)); unfold is_byte; lia).
  by rewrite gf_lxor_r, IH, gf_iter_xtime.
Qed.

Lemma gf_multiplies_polynomials_witness : is_byte 202 /\ is_byte 83 /\ gfMul 202 83 = poly_mul 202 83 /\ gfMul 202 83 = 143.
Proof.
  assert (H1 : is_byte 202) by (unfold is_byte; lia). assert (H2 : is_byte 83) by (unfold is_byte; lia).
  split; [exact H1|]. split; [exact H2|]. split; [exact (gf_multiplies_polynomials 202 83 H1 H2)|reflexivity].
Defined.

(** ** Polynomials *)

(** The value at [x], highest coefficient first, continuing from [acc]. *)
Definition horner (x acc : Z) (p : list Z) : Z := foldl (fun acc c => Z.lxor (gfMul acc x) c) acc p.

Definition poly_eval (p : list Z) (x : Z) : Z := horner x 0 p.

Definition poly_add (p q : list Z) : list Z := zip_with Z.lxor p q.
Definition poly_scale (c : Z) (p : list Z) : list Z := (fun a => gfMul a c) <$> p.

Section eval.
Context (x : Z) (Hx : is_byte x).

Lemma horner_app acc p q : horner x acc (p ++ q) = horner x (horner x acc p) q.
Proof. apply foldl_app. Qed.

Lemma horner_byte acc p : is_byte acc -> Forall is_byte p -> is_byte (horner x acc p).
Proof.
  intros Ha Hp. revert acc Ha. induction Hp as [|c p Hc _ IH]; intros acc Ha; [done|].
  apply IH, lxor_byte, Hc. by apply gf_byte.
Qed.

Lemma horner_add a b p q :
  is_byte a -> is_byte b -> Forall is_byte p -> Forall is_byte q -> length p = length q ->
  horner x (Z.lxor a b) (poly_add p q) = Z.lxor (horner x a p) (horner x b q).
Proof.
  intros Ha Hb Hp. revert a b q Ha Hb. induction Hp as [|c p Hc Hp IH]; intros a b q Ha Hb Hq Hl.
  - by destruct q.
  - destruct q as [|d q]; [done|]. apply Forall_cons in Hq as [Hd Hq]. injection Hl as Hl.
    change (horner x (Z.lxor (gfMul (Z.lxor a b) x) (Z.lxor c d)) (poly_add p q) =
      Z.lxor (horner x (Z.lxor (gfMul a x) c) p) (horner x (Z.lxor (gfMul b x) d) q)).
    rewrite gf_lxor_l, <- IH by (auto using lxor_byte, gf_byte). f_equal.
    rewrite !Z.lxor_assoc. f_equal. rewrite <- !Z.lxor_assoc. f_equal. apply Z.lxor_comm.
Qed.

Lemma eval_add p q : Forall is_byte p -> Forall is_byte q -> length p = length q ->
  poly_eval (poly_add p q) x = Z.lxor (poly_eval p x) (poly_eval q x).
Proof. intros. by apply (horner_add 0 0); auto using is_byte_0. Qed.

Lemma horner_scale c acc p : is_byte c -> is_byte acc -> Forall is_byte p ->
  horner x (gfMul acc c) (poly_scale c p) = gfMul (horner x acc p) c.
Proof.
  intros Hc Ha Hp. revert acc Ha. induction Hp as [|d p Hd Hp IH]; intros acc Ha; [done|].
  cbn [poly_scale fmap list_fmap horner foldl].
  change (foldl _ ?a (list_fmap _ _ _ p)) with (horner x a (poly_scale c p)).
  replace (Z.lxor (gfMul (gfMul acc c) x) (gfMul d c)) with (gfMul (Z.lxor (gfMul acc x) d) c).
  - apply IH. auto using lxor_byte, gf_byte.
  - rewrite gf_lxor_l by auto using gf_byte. f_equal.
    by rewrite !gf_assoc, (gf_comm x c) by done.
Qed.

Lemma eval_scale c p : is_byte c -> Forall is_byte p -> poly_eval (poly_scale c p) x = gfMul (poly_eval p x) c.
Proof. intros. apply (horner_scale c 0); auto using is_byte_0. Qed.

Lemma horner_zeros n : horner x 0 (replicate n 0) = 0.
Proof. induction n as [|n IH]; [done|]. exact IH. Qed.

Lemma eval_shift p n m : poly_eval p x = 0 -> poly_eval (replicate n 0 ++ p ++ replicate m 0) x = 0.
Proof.
  intros Hp. unfold poly_eval. rewrite !horner_app, horner_zeros. unfold poly_eval in Hp. by rewrite Hp, horner_zeros.
Qed.

End eval.

(** *** Loops that add into an array *)

Lemma foldl_seq_ext {A} (f g : A -> nat -> A) n a :
  (forall b j, (j < n)%nat -> f b j = g b j) -> foldl f a (seq 0 n) = foldl g a (seq 0 n).
Proof.
  induction n as [|n IH]; intros Hfg; [done|]. rewrite !seq_S, !foldl_app. cbn [foldl Nat.add].
  rewrite IH by auto with lia. apply Hfg. lia.
Qed.

(** The loop [p[i + j] ^= v(j)] adds [v] at the offset. *)
Lemma xor_loop (v : list Z) pre mid post :
  length mid = length v ->
  foldl (fun r j => xor_at (length pre + j) (byte_at v j) r) (pre ++ mid ++ post) (seq 0 (length v)) =
    pre ++ poly_add mid v ++ post.
Proof.
  revert pre mid post. induction v as [|c v IH] using rev_ind; intros pre mid post Hl.
  - by destruct mid.
  - rewrite length_app in *. cbn [length] in *. rewrite Nat.add_1_r, seq_S, foldl_app. cbn [foldl Nat.add].
    destruct mid as [|d mid _] using rev_ind; [cbn in Hl; lia|]. rewrite length_app in Hl. cbn [length] in Hl.
    rewrite (foldl_seq_ext _ (fun r j => xor_at (length pre + j) (byte_at v j) r)) by
      (intros b j Hj; unfold byte_at; by rewrite lookup_app_l by lia).
    rewrite <- (app_assoc mid), IH by lia. unfold byte_at. rewrite list_lookup_middle by done. cbn [default].
    unfold poly_add. rewrite zip_with_app by lia. cbn [zip_with].
    unfold xor_at. rewrite app_assoc.
    rewrite alter_app_r_alt by (rewrite length_app, length_zip_with; lia).
    rewrite length_app, length_zip_with. replace (length pre + length v - _)%nat with 0%nat by lia.
        cbn. by rewrite <- !app_assoc.
Qed.

(** ** The generator *)

(** [times_root] as a recursion: [acc] is what the previous coefficient carries over. *)
Fixpoint carry_root (e acc : Z) (p : list Z) : list Z :=
  match p with
  | [] => [acc]
  | c :: p' => Z.lxor acc c :: carry_root e (gfMul c e) p'
  end.

Lemma xor_at_here pre x v post : xor_at (length pre) v (pre ++ x :: post) = pre ++ Z.lxor x v :: post.
Proof. unfold xor_at. rewrite alter_app_r_alt by lia. by rewrite Nat.sub_diag. Qed.

Lemma xor_at_next pre x y v post : xor_at (S (length pre)) v (pre ++ x :: y :: post) = pre ++ x :: Z.lxor y v :: post.
Proof. unfold xor_at. rewrite alter_app_r_alt by lia. by replace (S (length pre) - length pre)%nat with 1%nat by lia. Qed.

Lemma times_root_loop e p before pre acc :
  length before = length pre ->
  foldl (fun next j => xor_at (S j) (gfMul (byte_at (before ++ p) j) e) (xor_at j (byte_at (before ++ p) j) next))
    (pre ++ acc :: replicate (length p) 0) (seq (length pre) (length p)) = pre ++ carry_root e acc p.
Proof.
  revert before pre acc. induction p as [|c p IH]; intros before pre acc Hl; [done|].
  cbn [length seq foldl replicate carry_root].
  assert (Hc : byte_at (before ++ c :: p) (length pre) = c) by (unfold byte_at; by rewrite list_lookup_middle).
  rewrite Hc, xor_at_here, xor_at_next, Z.lxor_0_l.
  specialize (IH (before ++ [c]) (pre ++ [Z.lxor acc c]) (gfMul c e)).
  rewrite !length_app in IH. cbn [length] in IH. rewrite !Nat.add_1_r, <- !app_assoc in IH. cbn [app] in IH.
  apply IH. lia.
Qed.

Lemma times_root_carry e p : times_root e p = carry_root e 0 p.
Proof. exact (times_root_loop e p [] [] 0 eq_refl). Qed.

Lemma carry_root_bytes e acc p : is_byte e -> is_byte acc -> Forall is_byte p -> Forall is_byte (carry_root e acc p).
Proof.
  intros He Ha Hp. revert acc Ha. induction Hp as [|c p Hc _ IH]; intros acc Ha; cbn [carry_root]; [by apply Forall_singleton|].
  constructor; [by apply lxor_byte|]. apply IH. by apply gf_byte.
Qed.

Lemma length_carry_root e acc p : length (carry_root e acc p) = S (length p).
Proof. revert acc. induction p as [|c p IH]; intros acc; [done|]. cbn [carry_root length]. by rewrite IH. Qed.

(** Its value is that of [p] times [x + e]. *)
Lemma carry_root_value x e p a acc v :
  is_byte x -> is_byte e -> is_byte a -> is_byte acc -> is_byte v -> Forall is_byte p ->
  Z.lxor (gfMul a x) acc = gfMul v (Z.lxor x e) ->
  horner x a (carry_root e acc p) = gfMul (horner x v p) (Z.lxor x e).
Proof.
  intros Hx He Ha Hacc Hv Hp. revert a acc v Ha Hacc Hv. induction Hp as [|c p Hc Hp IH]; intros a acc v Ha Hacc Hv Heq; [done|].
  cbn [carry_root]. change (horner x (Z.lxor (gfMul a x) (Z.lxor acc c)) (carry_root e (gfMul c e) p) =
    gfMul (horner x (Z.lxor (gfMul v x) c) p) (Z.lxor x e)).
  apply IH; auto using lxor_byte, gf_byte.
  rewrite <- Z.lxor_assoc, Heq.
  rewrite !gf_lxor_r by auto using lxor_byte, gf_byte.
  rewrite !gf_lxor_l by auto using lxor_byte, gf_byte.
  rewrite !gf_assoc by done. rewrite (gf_comm e x) by done.
  rewrite !Z.lxor_assoc. f_equal. rewrite <- !Z.lxor_assoc. f_equal. apply Z.lxor_comm.
Qed.

Lemma times_root_value x e p : is_byte x -> is_byte e -> Forall is_byte p ->
  poly_eval (times_root e p) x = gfMul (poly_eval p x) (Z.lxor x e).
Proof. intros. rewrite times_root_carry. apply carry_root_value; auto using is_byte_0. Qed.

Lemma exp_byte i : (i < 255)%nat -> is_byte (byte_at EXP i).
Proof. intros Hi. pose proof (exp_facts i Hi). unfold is_byte. lia. Qed.

(** The generator is monic and has its degree; its coefficients are bytes. *)
Lemma generator_shape n : (n <= 255)%nat ->
  exists p, rsGenerator n = 1 :: p /\ length p = n /\ Forall is_byte p.
Proof.
  induction n as [|n IH]; intros Hn; [exists []; by repeat constructor|].
  destruct IH as (p & Hp & Hl & Hb); [lia|]. unfold rsGenerator in *. rewrite seq_S, foldl_app, Hp. cbn [foldl Nat.add].
  rewrite times_root_carry. cbn [carry_root]. eexists. split; [done|]. rewrite length_carry_root. split; [lia|].
  apply carry_root_bytes; [by apply exp_byte| |done]. apply gf_byte; [unfold is_byte; lia|by apply exp_byte].
Qed.

Lemma generator_bytes n : (n <= 255)%nat -> Forall is_byte (rsGenerator n).
Proof. intros Hn. destruct (generator_shape n Hn) as (p & -> & _ & Hp). constructor; [unfold is_byte; lia|done]. Qed.

Lemma generator_roots n i : (n <= 255)%nat -> (i < n)%nat -> poly_eval (rsGenerator n) (byte_at EXP i) = 0.
Proof.
  intros Hn Hi. induction n as [|n IH]; [lia|].
  unfold rsGenerator in *. rewrite seq_S, foldl_app. cbn [foldl Nat.add].
  rewrite times_root_value by (try apply exp_byte; try apply generator_bytes; lia).
  destruct (decide (i = n)) as [->|Hne]; [by rewrite Z.lxor_nilpotent, gf_0_r|].
  rewrite IH by lia. done.
Qed.

(** ** The division *)

Lemma scale_bytes c p : is_byte c -> Forall is_byte p -> Forall is_byte (poly_scale c p).
Proof. intros Hc Hp. apply Forall_fmap. eapply Forall_impl; [exact Hp|]. intros d Hd. by apply gf_byte. Qed.

Lemma add_bytes p q : Forall is_byte p -> Forall is_byte q -> Forall is_byte (poly_add p q).
Proof.
  intros Hp. revert q. induction Hp as [|a p Ha _ IH]; intros q Hq; [done|].
  destruct Hq as [|b q Hb Hq]; [done|]. constructor; [by apply lxor_byte|by apply IH].
Qed.

(** One turn of the division adds a multiple of the generator. *)
Lemma reduce_spec gen pre mid post :
  length mid = length gen -> gen <> [] -> Forall is_byte gen ->
  reduce gen (pre ++ mid ++ post) (length pre) =
    pre ++ poly_add mid (poly_scale (byte_at mid 0) gen) ++ post.
Proof.
  intros Hl Hne Hg. unfold reduce.
  assert (Hc : byte_at (pre ++ mid ++ post) (length pre) = byte_at mid 0).
  { unfold byte_at. rewrite lookup_app_r by lia. rewrite Nat.sub_diag. by destruct mid, gen. }
  rewrite Hc. destruct (Z.eqb_spec (byte_at mid 0) 0) as [->|Hn].
  - f_equal. f_equal. clear Hc Hne Hg. revert gen Hl. induction mid as [|c mid IH]; intros [|g gen] Hl; try done. injection Hl as Hl.
    cbn [poly_scale fmap list_fmap poly_add zip_with]. rewrite gf_0_r, Z.lxor_0_r. f_equal. by apply IH.
  - rewrite <- xor_loop by (unfold poly_scale; by rewrite length_fmap).
    unfold poly_scale at 2. rewrite length_fmap. apply foldl_seq_ext. intros b j Hj. f_equal.
    unfold byte_at, poly_scale. rewrite list_lookup_fmap. by destruct (lookup_lt_is_Some_2 gen j Hj) as [g ->].
Qed.

(** The array after [i] turns: [i] zeros, and the same values at the roots. *)
Definition divided (gen res0 : list Z) (i : nat) (res : list Z) : Prop :=
  (exists tail, res = replicate i 0 ++ tail) /\ length res = length res0 /\ Forall is_byte res /\
  forall x, is_byte x -> poly_eval gen x = 0 -> poly_eval res x = poly_eval res0 x.

Lemma divided_step gp res0 i res :
  Forall is_byte gp -> (i + S (length gp) <= length res0)%nat -> Forall is_byte res0 ->
  divided (1 :: gp) res0 i res -> divided (1 :: gp) res0 (S i) (reduce (1 :: gp) res i).
Proof.
  intros Hgp Hlen H0 ([tail ->] & Hl & Hb & He). set (gen := 1 :: gp) in *.
  assert (Hg : Forall is_byte gen) by (constructor; [unfold is_byte; lia|done]).
  rewrite length_app, length_replicate in Hl.
  set (mid := take (length gen) tail). set (post := drop (length gen) tail).
  assert (Hm : length mid = length gen) by (unfold mid; rewrite length_take; unfold gen; cbn [length]; lia).
  assert (Ht : tail = mid ++ post) by (unfold mid, post; by rewrite take_drop).
  apply Forall_app in Hb as [Hbz Hbt]. rewrite Ht in Hbt. apply Forall_app in Hbt as [Hbm Hbp].
  pose proof (reduce_spec gen (replicate i 0) mid post Hm ltac:(done) Hg) as Hr. rewrite length_replicate in Hr.
  rewrite Ht, Hr. destruct mid as [|c mid'] eqn:Hmid; [done|]. change (byte_at (c :: mid') 0) with c in *.
  assert (Hc : is_byte c) by (by inversion Hbm).
  set (sg := poly_scale c gen) in *.
  assert (Hsg : Forall is_byte sg) by (by apply scale_bytes).
  assert (Hlsg : length sg = length (c :: mid')) by (unfold sg, poly_scale; rewrite length_fmap; lia).
  split; [|split; [|split]].
  - exists (poly_add mid' (poly_scale c gp) ++ post). rewrite replicate_S_end, <- app_assoc. f_equal.
    unfold sg, gen. cbn [poly_scale fmap list_fmap poly_add zip_with app]. by rewrite gf_1_l, Z.lxor_nilpotent.
  - rewrite <- Hl, Ht, !length_app, length_replicate. unfold poly_add. rewrite length_zip_with. lia.
  - repeat apply Forall_app_2; try done. by apply add_bytes.
  - intros x Hx Hroot. rewrite <- (He x Hx Hroot), Ht.
    transitivity (Z.lxor (poly_eval (replicate i 0 ++ (c :: mid') ++ post) x)
                         (poly_eval (replicate i 0 ++ sg ++ replicate (length post) 0) x)).
    + rewrite <- eval_add.
      * f_equal. unfold poly_add. rewrite !zip_with_app by (rewrite ?length_replicate; lia).
        f_equal; [|f_equal]. { clear. induction i as [|i IH]; [done|]. cbn. by rewrite IH at 1. }
        clear. induction post as [|b post IH]; [done|]. cbn. by rewrite Z.lxor_0_r, IH at 1.
      * done.
      * repeat apply Forall_app_2; done.
      * repeat apply Forall_app_2; try done; apply Forall_replicate, is_byte_0.
      * rewrite !length_app, !length_replicate. lia.
    + rewrite eval_shift, Z.lxor_0_r; [done|]. unfold sg. rewrite eval_scale by done. by rewrite Hroot.
Qed.

Lemma divided_all gp res0 m :
  Forall is_byte gp -> (m + length gp <= length res0)%nat -> Forall is_byte res0 ->
  divided (1 :: gp) res0 m (foldl (reduce (1 :: gp)) res0 (seq 0 m)).
Proof.
  intros Hg Hl H0. induction m as [|m IH].
  - split; [by exists res0|]. done.
  - rewrite seq_S, foldl_app. cbn [foldl Nat.add]. apply divided_step; try done; [lia|]. apply IH. lia.
Qed.

Lemma add_zeros_r p : poly_add p (replicate (length p) 0) = p.
Proof. induction p as [|a p IH]; [done|]. cbn. by rewrite Z.lxor_0_r, IH at 1. Qed.

Lemma add_zeros_l p : poly_add (replicate (length p) 0) p = p.
Proof. induction p as [|a p IH]; [done|]. cbn. by rewrite IH at 1. Qed.

Lemma encode_shape data n : (n <= 255)%nat -> Forall is_byte data ->
  length (rsEncode data n) = n /\ Forall is_byte (rsEncode data n) /\
  forall i, (i < n)%nat -> poly_eval (data ++ rsEncode data n) (byte_at EXP i) = 0.
Proof.
  intros Hn Hd. unfold rsEncode. destruct (generator_shape n Hn) as (gp & Hg & Hl & Hb). rewrite Hg.
  set (res0 := data ++ replicate n 0).
  assert (H0 : Forall is_byte res0) by (apply Forall_app_2; [done|apply Forall_replicate, is_byte_0]).
  assert (Hlen : length res0 = (length data + n)%nat) by (unfold res0; by rewrite length_app, length_replicate).
  destruct (divided_all gp res0 (length data) Hb ltac:(lia) H0) as ([tail Ht] & Hlr & Hbr & He).
  set (res := foldl _ _ _) in *. rewrite Ht in *. rewrite length_app, length_replicate in Hlr.
  apply Forall_app in Hbr as [_ Hbt].
  assert (Hdrop : drop (length data) (replicate (length data) 0 ++ tail) = tail)
    by (rewrite <- (length_replicate (length data) 0) at 1; apply drop_app_length).
  rewrite Hdrop. split; [lia|]. split; [done|]. intros i Hi.
  pose proof (exp_byte i ltac:(lia)) as Hx.
  assert (Hroot : poly_eval (1 :: gp) (byte_at EXP i) = 0) by (rewrite <- Hg; apply generator_roots; lia).
  specialize (He _ Hx Hroot).
  replace (data ++ tail) with (poly_add res0 (replicate (length data) 0 ++ tail)).
  - rewrite eval_add, He, Z.lxor_nilpotent; try done.
    + apply Forall_app_2; [apply Forall_replicate, is_byte_0|done].
    + rewrite !length_app, !length_replicate. lia.
  - unfold res0, poly_add. rewrite zip_with_app by (by rewrite length_replicate).
    f_equal; [apply add_zeros_r|]. replace n with (length tail) by lia. apply add_zeros_l.
Qed.

(** ** A polynomial with as many roots as coefficients is zero *)

Lemma gf_no_zero_divisors a b : is_byte a -> is_byte b -> gfMul a b = 0 -> a = 0 \/ b = 0.
Proof.
  intros [->|(i & _ & ->)]%byte_cases [->|(j & _ & ->)]%byte_cases; auto.
  rewrite gf_alpha. pose proof (alpha_range (i + j)). lia.
Qed.

(** The quotient by [x + r], by Horner's intermediate values. *)
Fixpoint quotient (r acc : Z) (p : list Z) : list Z :=
  match p with
  | [] => []
  | [c] => []
  | c :: p' => Z.lxor (gfMul acc r) c :: quotient r (Z.lxor (gfMul acc r) c) p'
  end.

Lemma carry_quotient r acc p : p <> [] -> horner r acc p = 0 -> carry_root r (gfMul acc r) (quotient r acc p) = p.
Proof.
  revert acc. induction p as [|c p IH]; intros acc Hne Hz; [done|]. destruct p as [|d p].
  - cbn in *. f_equal. by apply Z.lxor_eq in Hz.
  - change (Z.lxor (gfMul acc r) (Z.lxor (gfMul acc r) c) ::
            carry_root r (gfMul (Z.lxor (gfMul acc r) c) r) (quotient r (Z.lxor (gfMul acc r) c) (d :: p)) = c :: d :: p).
    rewrite IH; [|done|exact Hz]. by rewrite <- Z.lxor_assoc, Z.lxor_nilpotent, Z.lxor_0_l.
Qed.

Lemma quotient_bytes r acc p : is_byte r -> is_byte acc -> Forall is_byte p -> Forall is_byte (quotient r acc p).
Proof.
  intros Hr Ha Hp. revert acc Ha. induction Hp as [|c p Hc Hp IH]; intros acc Ha; [constructor|].
  destruct p as [|d p]; [constructor|]. assert (is_byte (Z.lxor (gfMul acc r) c)) by auto using lxor_byte, gf_byte.
  constructor; [done|]. by apply IH.
Qed.

Lemma length_quotient r acc p : length (quotient r acc p) = (length p - 1)%nat.
Proof.
  revert acc. induction p as [|c p IH]; intros acc; [done|]. destruct p as [|d p]; [done|].
  change (S (length (quotient r (Z.lxor (gfMul acc r) c) (d :: p))) = S (length p)). rewrite IH. cbn [length]. lia.
Qed.

Lemma exp_injective i j : (i < 255)%nat -> (j < 255)%nat -> byte_at EXP i = byte_at EXP j -> i = j.
Proof.
  intros Hi Hj He. destruct (exp_facts i Hi) as (_ & H1 & _), (exp_facts j Hj) as (_ & H2 & _).
  rewrite He in H1. lia.
Qed.

Lemma too_many_roots n p :
  (n <= 255)%nat -> length p = n -> Forall is_byte p ->
  (forall i, (i < n)%nat -> poly_eval p (byte_at EXP i) = 0) -> p = replicate n 0.
Proof.
  revert p. induction n as [|n IH]; intros p Hn Hl Hp Hr; [by destruct p|].
  set (r := byte_at EXP n). assert (Hrb : is_byte r) by (apply exp_byte; lia).
  assert (Hne : p <> []) by (by destruct p).
  pose proof (carry_quotient r 0 p Hne (Hr n ltac:(lia))) as Hc. rewrite gf_0_l in Hc.
  pose proof (quotient_bytes r 0 p Hrb is_byte_0 Hp) as Hq.
  pose proof (length_quotient r 0 p) as Hql. set (q := quotient r 0 p) in *.
  assert (Hz : q = replicate n 0).
  { apply IH; [lia|lia|done|]. intros i Hi. specialize (Hr i ltac:(lia)).
    pose proof (exp_byte i ltac:(lia)) as Hx. rewrite <- Hc, <- times_root_carry, times_root_value in Hr by done.
    apply gf_no_zero_divisors in Hr as [Hr|Hr]; [done| |apply horner_byte; auto using is_byte_0|by apply lxor_byte].
    apply Z.lxor_eq in Hr. unfold r in Hr. apply exp_injective in Hr; lia. }
  rewrite <- Hc, Hz. clearbody r. clear. induction n as [|n IH]; [done|].
  cbn [replicate carry_root]. by rewrite gf_0_l, IH.
Qed.

(** C28. The error-correction bytes of a block are the ones that make it a code word
    of the Reed-Solomon code: there are as many as asked for, the block followed by
    them, read as a polynomial, vanishes at every root of the generator, and no other
    bytes do that. *)
Theorem rs_completes_code_word (data : list Z) (n : nat) (Hn : (n <= 255)%nat) (Hd : Forall is_byte data) :
  length (rsEncode data n) = n /\ Forall is_byte (rsEncode data n) /\
  (forall i, (i < n)%nat -> poly_eval (data ++ rsEncode data n) (byte_at EXP i) = 0) /\
  (forall ec, length ec = n -> Forall is_byte ec ->
     (forall i, (i < n)%nat -> poly_eval (data ++ ec) (byte_at EXP i) = 0) -> ec = rsEncode data n).
Proof.
  destruct (encode_shape data n Hn Hd) as (Hl & Hb & Hz). split_and!; try done.
  intros ec Hle Hbe Hze.
  assert (Hsum : poly_add ec (rsEncode data n) = replicate n 0).
  { apply too_many_roots; [done|unfold poly_add; rewrite length_zip_with; lia|by apply add_bytes|]. intros i Hi.
    pose proof (exp_byte i ltac:(lia)) as Hx. specialize (Hz i Hi). specialize (Hze i Hi).
    unfold poly_eval in *. rewrite horner_app in Hz, Hze.
    pose proof (horner_byte _ Hx 0 data is_byte_0 Hd) as Hv.
    rewrite <- (Z.lxor_nilpotent (horner (byte_at EXP i) 0 data)), horner_add by (done || lia).
    by rewrite Hz, Hze, !Z.lxor_nilpotent. }
  clear -Hsum Hle Hl. set (ec' := rsEncode data n) in *. clearbody ec'. revert ec ec' Hle Hl Hsum.
  induction n as [|n IH]; intros [|a ec] [|b ec'] Hle Hl Hsum; try done.
  cbn [poly_add zip_with replicate] in Hsum. injection Hsum as Hab Hsum. apply Z.lxor_eq in Hab. subst b. f_equal.
  cbn [length] in *. apply IH; [lia|lia|done].
Qed.

Lemma rs_completes_code_word_witness :
  let data := [64; 2; 49; 16; 236; 17; 236; 17; 236; 17; 236; 17; 236; 17; 236; 17] in
  (10 <= 255)%nat /\ Forall is_byte data /\
  (forall i, (i < 10)%nat -> poly_eval (data ++ rsEncode data 10) (byte_at EXP i) = 0) /\
  length (rsEncode data 10) = 10%nat.
Proof.
  cbv zeta. assert (Hn : (10 <= 255)%nat) by lia.
  assert (Hd : Forall is_byte [64; 2; 49; 16; 236; 17; 236; 17; 236; 17; 236; 17; 236; 17; 236; 17])
    by (repeat (apply Forall_cons; split; [unfold is_byte; lia|]); apply Forall_nil_2).
  destruct (rs_completes_code_word _ 10 Hn Hd) as (Hl & _ & Hz & _).
  split; [exact Hn|]. split; [exact Hd|]. split; [exact Hz|exact Hl].
Defined.
