(* ===== verification/QrCode.v ===== *)
(** * The code words of the QR encoder

    [packages/cli/src/qr.ts], lines 62 to 150: the block structure of the fifteen
    versions, the choice of a version, the bit stream and the interleaved code words. *)

From S2P Require Import Prelude JsMap Bytes QrField.
Import QrField.QrField.

Local Open Scope Z_scope.

Module QrCode.

(** [[ecCodewordsPerBlock, [[blockCount, dataCodewordsPerBlock], ...]]], for the
    versions 1 to 15. *)
Definition EC_M (v : nat) : nat * list (nat * nat) :=
  match v with
  | 1 => (10, [(1, 16)]) | 2 => (16, [(1, 28)]) | 3 => (26, [(1, 44)]) | 4 => (18, [(2, 32)])
  | 5 => (24, [(2, 43)]) | 6 => (16, [(4, 27)]) | 7 => (18, [(4, 31)]) | 8 => (22, [(2, 38); (2, 39)])
  | 9 => (22, [(3, 36); (2, 37)]) | 10 => (26, [(4, 43); (1, 44)]) | 11 => (30, [(1, 50); (4, 51)])
  | 12 => (22, [(6, 36); (2, 37)]) | 13 => (22, [(8, 37); (1, 38)]) | 14 => (24, [(4, 40); (5, 41)])
  | 15 => (24, [(5, 41); (5, 42)])
  | _ => (0, [])
  end%nat.

Definition dataCodewords (v : nat) : nat := foldl (fun s g => s + g.1 * g.2)%nat 0%nat (EC_M v).2.

Definition countBits (v : nat) : nat := if (v <=? 9)%nat then 8 else 16.

Definition fits (byteLen v : nat) : bool := (4 + countBits v + byteLen * 8 <=? dataCodewords v * 8)%nat.

Definition pickVersion (byteLen : nat) : outcome nat :=
  match List.find (fits byteLen) (seq 1 15) with
  | Some v => Ok v
  | None => Throw "pairing payload too large for a version-15 QR"
  end.

(** [BitBuffer.put]: [len] bits of [value], the most significant first. *)
Definition value_bits (value : Z) (len : nat) : list Z :=
  (fun i => Z.land (Z.shiftr value (Z.of_nat i)) 1) <$> rev (seq 0 len).

Definition put (value : Z) (len : nat) (bits : list Z) : list Z := bits ++ value_bits value len.

(** [for (let i = 0; i < 4 && bits.length < cap; i++) bits.push(0)] *)
Fixpoint terminate (n cap : nat) (bits : list Z) : list Z :=
  match n with
  | O => bits
  | S n' => if (length bits <? cap)%nat then terminate n' cap (bits ++ [0]) else bits
  end.

(** [while (bits.length % 8 !== 0) bits.push(0)]: at most seven turns. *)
Fixpoint align (fuel : nat) (bits : list Z) : list Z :=
  match fuel with
  | O => bits
  | S fuel' => if (length bits mod 8 =? 0)%nat then bits else align fuel' (bits ++ [0])
  end.

(** Eight bits from [i] as a code word. *)
Definition pack_byte (bits : list Z) (i : nat) : Z :=
  foldl (fun b j => Z.lor (Z.shiftl b 1) (byte_at bits (i + j))) 0 (seq 0 8).

Definition pack (bits : list Z) : list Z :=
  (fun k => pack_byte bits (8 * k)) <$> seq 0 ((length bits + 7) / 8).

(** [for (let i = 0; dataCw.length < totalData; i++) dataCw.push(pads[i % 2])] *)
Definition pad_codewords (total : nat) (cw : list Z) : list Z :=
  cw ++ ((fun i => if (i mod 2 =? 0)%nat then 236 else 17) <$> seq 0 (total - length cw)).

Definition data_bits (bytes : list Z) (version : nat) : list Z :=
  let bits := put 4 4 [] in
  let bits := put (Z.of_nat (length bytes)) (countBits version) bits in
  let bits := foldl (fun bits b => put b 8 bits) bits bytes in
  align 8 (terminate 4 (dataCodewords version * 8) bits).

Definition data_codewords (bytes : list Z) (version : nat) : list Z :=
  pad_codewords (dataCodewords version) (pack (data_bits bytes version)).

(** The sizes of the blocks, group by group. *)
Definition block_sizes (version : nat) : list nat :=
  concat ((fun g => replicate g.1 g.2) <$> (EC_M version).2).

(** [dataCw.slice(pos, pos + dpb)] for each block in turn. *)
Definition split_blocks {A} (sizes : list nat) (cw : list A) : list (list A) :=
  (foldl (fun s dpb => (s.1 + dpb, s.2 ++ [take dpb (drop s.1 cw)])%nat) (0%nat, []) sizes).2.

(** Column by column, the blocks that are long enough. *)
Definition interleave {A} (blocks : list (list A)) : list A :=
  concat ((fun i => omap (fun b => b !! i) blocks) <$> seq 0 (foldr max 0%nat (length <$> blocks))).

Definition interleave_ec (ecLen : nat) (ecs : list (list Z)) : list Z :=
  concat ((fun i => (fun ec => byte_at ec i) <$> ecs) <$> seq 0 ecLen).

Definition makeCodewords (bytes : list Z) (version : nat) : list Z :=
  let dataCw := data_codewords bytes version in
  let ecLen := (EC_M version).1 in
  let blocks := split_blocks (block_sizes version) dataCw in
  interleave blocks ++ interleave_ec ecLen ((fun data => rsEncode data ecLen) <$> blocks).

End QrCode.

Import QrCode.

(** ** Bits and bytes *)

Definition unpack (cw : list Z) : list Z := concat ((fun c => value_bits c 8) <$> cw).

Definition bits_value (bits : list Z) : Z := foldl (fun v b => 2 * v + b) 0 bits.

Fixpoint read_bytes (n : nat) (bits : list Z) : list Z :=
  match n with
  | O => []
  | S n' => bits_value (take 8 bits) :: read_bytes n' (drop 8 bits)
  end.

(** ** Bits *)

Definition is_bit (b : Z) : Prop := b = 0 \/ b = 1.

Lemma value_bits_S v n : value_bits v (S n) = Z.land (Z.shiftr v (Z.of_nat n)) 1 :: value_bits v n.
Proof. unfold value_bits. rewrite seq_S, rev_app_distr. done. Qed.

Lemma length_value_bits v n : length (value_bits v n) = n.
Proof. unfold value_bits. by rewrite length_fmap, length_rev, length_seq. Qed.

Lemma land_1_bit x : Z.land x 1 = x mod 2.
Proof. change 1 with (Z.ones 1) at 1. by rewrite Z.land_ones. Qed.

Lemma value_bits_are v n : Forall is_bit (value_bits v n).
Proof.
  apply Forall_fmap, Forall_forall. intros i _. cbn. rewrite land_1_bit.
  pose proof (Z.mod_pos_bound (Z.shiftr v (Z.of_nat i)) 2). unfold is_bit. lia.
Qed.

Lemma bits_value_from v l : foldl (fun v b => 2 * v + b) v l = v * 2 ^ Z.of_nat (length l) + bits_value l.
Proof.
  unfold bits_value. revert v. induction l as [|b l IH]; intros v; [cbn; lia|].
  cbn [foldl length]. rewrite IH, (IH (2 * 0 + b)), Nat2Z.inj_succ, Z.pow_succ_r by lia. lia.
Qed.

Lemma bits_value_cons b l : bits_value (b :: l) = b * 2 ^ Z.of_nat (length l) + bits_value l.
Proof. unfold bits_value at 1. cbn [foldl]. rewrite bits_value_from. lia. Qed.

Lemma bits_value_value v n : bits_value (value_bits v n) = v mod 2 ^ Z.of_nat n.
Proof.
  induction n as [|n IH]; [by rewrite Z.mod_1_r|].
  rewrite value_bits_S, bits_value_cons, IH, length_value_bits, land_1_bit, Z.shiftr_div_pow2 by lia.
  rewrite Nat2Z.inj_succ, Z.pow_succ_r, (Z.mul_comm 2), Z.rem_mul_r by lia. lia.
Qed.

Lemma eight_bits (l : list Z) : length l = 8%nat -> Forall is_bit l -> value_bits (bits_value l) 8 = l.
Proof.
  intros Hl Hb. do 8 (destruct l as [|? l]; [done|]). destruct l; [|done].
  rewrite !Forall_cons in Hb. destruct_and! Hb.
  repeat match goal with H : is_bit _ |- _ => destruct H; subst end; reflexivity.
Qed.

Lemma pack_byte_value pre l post : length l = 8%nat -> Forall is_bit l -> pack_byte (pre ++ l ++ post) (length pre) = bits_value l.
Proof.
  intros Hl Hb. unfold pack_byte.
  transitivity (foldl (fun b j => Z.lor (Z.shiftl b 1) (byte_at l j)) 0 (seq 0 8)).
  - apply foldl_seq_ext. intros b j Hj. unfold byte_at. rewrite lookup_app_r by lia.
    replace (length pre + j - length pre)%nat with j by lia. by rewrite lookup_app_l by lia.
  - do 8 (destruct l as [|? l]; [done|]). destruct l; [|done]. rewrite !Forall_cons in Hb. destruct_and! Hb.
    repeat match goal with H : is_bit _ |- _ => destruct H; subst end; reflexivity.
Qed.

Lemma unpack_pack (k : nat) (bits : list Z) : length bits = (8 * k)%nat -> Forall is_bit bits -> unpack (pack bits) = bits.
Proof.
  intros Hl Hb. unfold pack. rewrite Hl. replace ((8 * k + 7) / 8)%nat with k
    by (symmetry; rewrite Nat.add_comm, Nat.mul_comm, Nat.div_add by lia; reflexivity).
  assert (Hgen : forall n pre rest, length pre = (8 * (k - n))%nat -> (n <= k)%nat -> bits = pre ++ rest ->
            unpack ((fun j => pack_byte bits (8 * j)) <$> seq (k - n) n) = rest).
  { induction n as [|n IH]; intros pre rest Hp Hn Hbits.
    - rewrite Hbits, length_app in Hl. destruct rest; [done|cbn in Hl; lia].
    - set (l := take 8 rest). set (post := drop 8 rest).
      assert (Hrest : rest = l ++ post) by (unfold l, post; by rewrite take_drop).
      assert (Hll : length l = 8%nat).
      { unfold l. rewrite length_take. rewrite Hbits, length_app in Hl. lia. }
      assert (Hlb : Forall is_bit l).
      { rewrite Hbits, Hrest in Hb. apply Forall_app in Hb as [_ Hb]. by apply Forall_app in Hb as [Hb _]. }
      cbn [seq fmap list_fmap]. unfold unpack. cbn [fmap list_fmap concat].
      rewrite <- Hp. rewrite Hbits at 1. rewrite Hrest at 1. rewrite pack_byte_value, eight_bits by done.
      rewrite Hrest. f_equal. replace (S (k - S n)) with (k - n)%nat by lia.
      apply (IH (pre ++ l)); [rewrite length_app; lia|lia|]. by rewrite <- app_assoc, <- Hrest. }
  specialize (Hgen k [] bits). rewrite Nat.sub_diag in Hgen. by apply Hgen.
Qed.

Lemma length_pack k bits : length bits = (8 * k)%nat -> length (pack bits) = k.
Proof.
  intros Hl. unfold pack. rewrite length_fmap, length_seq, Hl.
  rewrite Nat.add_comm, Nat.mul_comm, Nat.div_add by lia. reflexivity.
Qed.

(** ** The data code words *)

Lemma terminate_spec n cap bits :
  exists z, terminate n cap bits = bits ++ replicate z 0 /\ (length bits + z <= max (length bits) cap)%nat.
Proof.
  revert bits. induction n as [|n IH]; intros bits; cbn [terminate].
  - exists 0%nat. rewrite app_nil_r. split; [done|lia].
  - destruct (Nat.ltb_spec (length bits) cap).
    + destruct (IH (bits ++ [0])) as (z & -> & Hz). exists (S z). rewrite <- app_assoc. split; [done|].
      rewrite length_app in Hz. cbn in Hz. lia.
    + exists 0%nat. rewrite app_nil_r. split; [done|lia].
Qed.

Lemma align_spec fuel bits m :
  (m * 8 - length bits <= fuel)%nat -> (length bits <= m * 8 < length bits + 8)%nat ->
  exists z, align fuel bits = bits ++ replicate z 0 /\ (length bits + z = m * 8)%nat.
Proof.
  revert bits. induction fuel as [|fuel IH]; intros bits Hf Hm; cbn [align].
  - exists 0%nat. rewrite app_nil_r. split; [done|lia].
  - destruct (Nat.eqb_spec (length bits mod 8) 0) as [Hz|Hz].
    + exists 0%nat. rewrite app_nil_r. split; [done|].
      pose proof (Nat.div_mod_eq (length bits) 8). lia.
    + assert (length bits <> m * 8)%nat by (intros He; apply Hz; rewrite He; by rewrite Nat.Div0.mod_mul).
      destruct (IH (bits ++ [0])) as (z & -> & Hl); [rewrite length_app; cbn; lia|rewrite length_app; cbn; lia|].
      exists (S z). rewrite <- app_assoc. split; [done|]. rewrite length_app in Hl. cbn in Hl. lia.
Qed.

Lemma puts_spec bytes bits : foldl (fun bits b => put b 8 bits) bits bytes = bits ++ unpack bytes.
Proof.
  revert bits. induction bytes as [|b bytes IH]; intros bits; cbn [foldl]; [by rewrite app_nil_r|].
  rewrite IH. unfold put. by rewrite <- app_assoc.
Qed.

Lemma length_unpack cw : length (unpack cw) = (8 * length cw)%nat.
Proof.
  induction cw as [|c cw IH]; [done|]. unfold unpack in *. cbn [fmap list_fmap concat length].
  rewrite length_app, length_value_bits, IH. lia.
Qed.

Lemma unpack_app a b : unpack (a ++ b) = unpack a ++ unpack b.
Proof. unfold unpack. by rewrite fmap_app, concat_app. Qed.

Lemma unpack_bits cw : Forall is_bit (unpack cw).
Proof.
  induction cw as [|c cw IH]; [constructor|]. unfold unpack. cbn [fmap list_fmap concat].
  apply Forall_app_2; [apply value_bits_are|exact IH].
Qed.

Definition header (bytes : list Z) (v : nat) : list Z :=
  value_bits 4 4 ++ value_bits (Z.of_nat (length bytes)) (countBits v) ++ unpack bytes.

Lemma data_bits_spec bytes v : fits (length bytes) v = true ->
  exists k z, data_bits bytes v = header bytes v ++ replicate z 0 /\ Forall is_bit (data_bits bytes v) /\
    length (data_bits bytes v) = (8 * k)%nat /\ (k <= dataCodewords v)%nat.
Proof.
  intros Hf. unfold fits in Hf. apply Nat.leb_le in Hf. unfold data_bits. rewrite puts_spec. unfold put.
  rewrite app_nil_l, <- app_assoc. change (value_bits 4 4 ++ _) with (header bytes v).
  assert (Hl : length (header bytes v) = (4 + countBits v + length bytes * 8)%nat)
    by (unfold header; rewrite !length_app, !length_value_bits, length_unpack; lia).
  assert (Hb : Forall is_bit (header bytes v))
    by (repeat apply Forall_app_2; auto using value_bits_are, unpack_bits).
  destruct (terminate_spec 4 (dataCodewords v * 8) (header bytes v)) as (z & -> & Hz).
  set (bits := header bytes v ++ replicate z 0).
  assert (Hlb : (length bits <= dataCodewords v * 8)%nat) by (unfold bits; rewrite length_app, length_replicate; lia).
  set (m := ((length bits + 7) / 8)%nat).
  assert (Hm : (length bits <= m * 8 < length bits + 8)%nat).
  { unfold m. pose proof (Nat.div_mod_eq (length bits + 7) 8). pose proof (Nat.mod_upper_bound (length bits + 7) 8). lia. }
  destruct (align_spec 8 bits m ltac:(lia) Hm) as (z' & -> & Hz').
  exists m, (z + z')%nat. unfold bits. rewrite replicate_add, <- app_assoc. split; [done|].
  assert (Hzb : forall n, Forall is_bit (replicate n 0)) by (intros n; apply Forall_replicate; by left).
  split; [apply Forall_app_2; [done|]; by apply Forall_app_2|].
  clearbody m. unfold bits in Hz', Hlb, Hm. rewrite !length_app, !length_replicate in *. lia.
Qed.

Lemma data_codewords_spec bytes v : fits (length bytes) v = true ->
  exists rest, unpack (data_codewords bytes v) = header bytes v ++ rest /\
    length (data_codewords bytes v) = dataCodewords v.
Proof.
  intros Hf. destruct (data_bits_spec bytes v Hf) as (k & z & He & Hb & Hl & Hk).
  unfold data_codewords, pad_codewords. pose proof (length_pack k _ Hl) as Hlp.
  rewrite unpack_app, (unpack_pack k) by done. rewrite He, <- app_assoc.
  eexists. split; [done|]. rewrite <- He, length_app, length_fmap, length_seq. lia.
Qed.

Lemma bits_value_range l : Forall is_bit l -> 0 <= bits_value l < 2 ^ Z.of_nat (length l).
Proof.
  induction 1 as [|b l Hb _ IH]; [cbn; lia|]. rewrite bits_value_cons. cbn [length].
  rewrite Nat2Z.inj_succ, Z.pow_succ_r by lia. destruct Hb; subst b; lia.
Qed.

(** ** Reading the stream back *)

Lemma read_bytes_unpack bytes rest : Forall is_byte bytes ->
  read_bytes (length bytes) (unpack bytes ++ rest) = bytes.
Proof.
  induction 1 as [|b bytes Hb _ IH]; [done|]. cbn [length read_bytes]. unfold unpack. cbn [fmap list_fmap concat].
  rewrite <- app_assoc. rewrite take_app_length', drop_app_length' by (by rewrite length_value_bits).
  rewrite bits_value_value, Z.mod_small by exact Hb. f_equal. exact IH.
Qed.

Lemma data_sizes : forallb (fun v => (dataCodewords v <? if v <=? 9 then 200 else 420)%nat) (seq 1 15) = true.
Proof. vm_compute. reflexivity. Qed.

Lemma count_fits n v : fits n v = true -> (1 <= v <= 15)%nat -> Z.of_nat n < 2 ^ Z.of_nat (countBits v).
Proof.
  unfold fits. intros Hf Hv. apply Nat.leb_le in Hf.
  pose proof (forallb_seq _ _ _ v data_sizes ltac:(lia)) as Hd. cbv beta in Hd. apply Nat.ltb_lt in Hd.
  unfold countBits in *. destruct (v <=? 9)%nat; [change (2 ^ Z.of_nat 8) with 256|change (2 ^ Z.of_nat 16) with 65536]; lia.
Qed.

(** *** Interleaving moves code words without looking at them *)

Lemma split_blocks_fmap {A B} (f : A -> B) sizes (cw : list A) :
  split_blocks sizes (f <$> cw) = (fun b : list A => f <$> b) <$> split_blocks sizes cw.
Proof.
  unfold split_blocks.
  assert (H : forall pos acc,
    foldl (fun s dpb => (s.1 + dpb, s.2 ++ [take dpb (drop s.1 (f <$> cw))])%nat) (pos, (fun b : list A => f <$> b) <$> acc) sizes =
    let r := foldl (fun s dpb => (s.1 + dpb, s.2 ++ [take dpb (drop s.1 cw)])%nat) (pos, acc) sizes in
    (r.1, (fun b : list A => f <$> b) <$> r.2)).
  { induction sizes as [|s sizes IH]; intros pos acc; [done|]. cbn [foldl fst snd].
    rewrite <- IH, fmap_app. cbn [fmap list_fmap]. by rewrite fmap_take, fmap_drop. }
  specialize (H 0%nat []). cbn [fmap list_fmap] in H. by rewrite H.
Qed.

Lemma interleave_fmap {A B} (f : A -> B) (blocks : list (list A)) :
  interleave ((fun b : list A => f <$> b) <$> blocks) = f <$> interleave blocks.
Proof.
  unfold interleave. rewrite <- list_fmap_compose.
  rewrite (list_fmap_ext (length ∘ fun b : list A => f <$> b) length) by (intros; cbn; by rewrite length_fmap).
  induction (seq 0 _) as [|i l IH]; [done|]. cbn [fmap list_fmap concat]. rewrite fmap_app, <- IH. f_equal.
  clear IH. induction blocks as [|b blocks IH]; [done|]. cbn [fmap list_fmap omap list_omap]. rewrite list_lookup_fmap.
  destruct (b !! i); cbn [fmap option_fmap option_map list_fmap]; by rewrite IH.
Qed.

Lemma by_position (l : list Z) : byte_at l <$> seq 0 (length l) = l.
Proof.
  apply list_eq. intros i. rewrite list_lookup_fmap. destruct (decide (i < length l)%nat) as [Hi|Hi].
  - rewrite lookup_seq_lt by done. cbn. unfold byte_at. by destruct (lookup_lt_is_Some_2 l i Hi) as [x ->].
  - rewrite lookup_seq_ge by lia. cbn. symmetry. apply lookup_ge_None. lia.
Qed.

(** The order in which the data code words of a version are sent. *)
Definition sending_order (v : nat) : list nat := interleave (split_blocks (block_sizes v) (seq 0 (dataCodewords v))).

Lemma order_sizes :
  (fun v => (length (sending_order v), length (split_blocks (block_sizes v) (seq 0 (dataCodewords v))), (EC_M v).1))
     <$> seq 1 15 =
  (fun v => (dataCodewords v, length (block_sizes v), (EC_M v).1)) <$> seq 1 15.
Proof. vm_compute. reflexivity. Qed.

Lemma fmap_seq_eq {A} (f g : nat -> A) v : f <$> seq 1 15 = g <$> seq 1 15 -> (1 <= v <= 15)%nat -> f v = g v.
Proof.
  intros He Hv. assert (Hl : (f <$> seq 1 15) !! (v - 1)%nat = (g <$> seq 1 15) !! (v - 1)%nat) by (by rewrite He).
  rewrite !list_lookup_fmap, lookup_seq_lt in Hl by lia. cbn in Hl. replace (S (v - 1)) with v in Hl by lia. congruence.
Qed.

Lemma pick_spec n v : pickVersion n = Ok v <->
  (1 <= v <= 15)%nat /\ fits n v = true /\ forall w, (1 <= w < v)%nat -> fits n w = false.
Proof.
  unfold pickVersion.
  assert (Hfind : forall m s, match List.find (fits n) (seq s m) with
      | Some v => (s <= v < s + m)%nat /\ fits n v = true /\ forall w, (s <= w < v)%nat -> fits n w = false
      | None => forall w, (s <= w < s + m)%nat -> fits n w = false
      end).
  { induction m as [|m IH]; intros s; cbn [seq List.find]; [intros w Hw; lia|].
    destruct (fits n s) eqn:Hs; [split; [lia|split; [done|intros; lia]]|].
    specialize (IH (S s)). destruct (List.find _ _) as [u|].
    - destruct IH as (H1 & H2 & H3). split; [lia|split; [done|]]. intros w Hw.
      destruct (decide (w = s)) as [->|]; [done|apply H3; lia].
    - intros w Hw. destruct (decide (w = s)) as [->|]; [done|apply IH; lia]. }
  specialize (Hfind 15%nat 1%nat). destruct (List.find (fits n) (seq 1 15)) as [u|].
  - destruct Hfind as (H1 & H2 & H3). split.
    + intros [= <-]. split; [lia|by split].
    + intros (H4 & H5 & H6). f_equal. destruct (Nat.lt_trichotomy u v) as [Hlt|[He|Hlt]]; [|done|].
      * rewrite H6 in H2 by lia. done.
      * rewrite H3 in H5 by lia. done.
  - split; [done|]. intros (H1 & H2 & _). rewrite Hfind in H2 by lia. done.
Qed.

(** The code words of a version: its data and the error correction of its blocks. *)
Definition total_codewords (v : nat) : nat := (dataCodewords v + (EC_M v).1 * length (block_sizes v))%nat.

Lemma length_interleave_ec n ecs : length (interleave_ec n ecs) = (n * length ecs)%nat.
Proof.
  unfold interleave_ec. assert (H : forall s, length (concat ((fun i => (fun ec => byte_at ec i) <$> ecs) <$> seq s n)) = (n * length ecs)%nat).
  { induction n as [|n IH]; intros s; [done|]. cbn [seq fmap list_fmap concat]. rewrite length_app, length_fmap, IH. lia. }
  apply H.
Qed.

Lemma length_makeCodewords bytes v : (1 <= v <= 15)%nat -> fits (length bytes) v = true ->
  length (makeCodewords bytes v) = total_codewords v.
Proof.
  intros Hv Hf. destruct (data_codewords_spec bytes v Hf) as (_ & _ & Hl).
  pose proof (fmap_seq_eq _ _ v order_sizes Hv) as Ho. cbv beta in Ho. injection Ho as H1 H2.
  unfold makeCodewords. rewrite length_app, length_interleave_ec, length_fmap. unfold total_codewords.
  rewrite <- (by_position (data_codewords bytes v)), Hl, split_blocks_fmap, interleave_fmap, !length_fmap.
  unfold sending_order in H1. lia.
Qed.

(** The capacity of version 15. *)
Lemma pick_or_throw n : match pickVersion n with Ok _ => (n <= 412)%nat | Throw _ => (412 < n)%nat end.
Proof.
  assert (H15 : fits n 15 = (n <=? 412)%nat).
  { unfold fits. change (countBits 15) with 16%nat. change (dataCodewords 15) with 415%nat.
    destruct (Nat.leb_spec n 412); [apply Nat.leb_le|apply Nat.leb_gt]; lia. }
  destruct (pickVersion n) as [v|e] eqn:Hp.
  - apply pick_spec in Hp as (Hv & Hf & _). unfold fits in Hf. apply Nat.leb_le in Hf.
    assert (Hall : forallb (fun v => (dataCodewords v * 8 <=? 4 + countBits v + 412 * 8 + 7)%nat) (seq 1 15) = true)
      by (vm_compute; reflexivity).
    pose proof (forallb_seq _ _ _ v Hall ltac:(lia)) as Hc. cbv beta in Hc. apply Nat.leb_le in Hc. lia.
  - unfold pickVersion in Hp. destruct (List.find (fits n) (seq 1 15)) eqn:Hf; [done|].
    eapply List.find_none in Hf; [|apply in_seq; instantiate (1 := 15%nat); lia].
    rewrite H15 in Hf. by apply Nat.leb_gt in Hf.
Qed.

(** The version is the smallest that holds the bytes: the encoder picks version
    [v] exactly when the bytes fit [v] and no smaller version, and refuses exactly the
    texts of more than 412 bytes, the capacity of version 15. *)
Theorem smallest_version_is_picked (n : nat) :
  (forall v, pickVersion n = Ok v <->
     (1 <= v <= 15)%nat /\ (4 + countBits v + 8 * n <= 8 * dataCodewords v)%nat /\
     forall w, (1 <= w < v)%nat -> ~ (4 + countBits w + 8 * n <= 8 * dataCodewords w)%nat) /\
  ((exists e, pickVersion n = Throw e) <-> (412 < n)%nat).
Proof.
  split.
  - intros v. rewrite pick_spec. unfold fits. rewrite Nat.leb_le.
    setoid_rewrite Nat.leb_gt. split; intros (H1 & H2 & H3); repeat split; try lia; intros w Hw; specialize (H3 w Hw); lia.
  - pose proof (pick_or_throw n) as Hp. destruct (pickVersion n) as [v|e].
    + split; [intros [? ?]; done|lia].
    + split; [done|eauto].
Qed.
