(* ===== verification/QrMatrix.v ===== *)
(** * The matrix of the QR encoder

    [packages/cli/src/qr.ts], lines 152 to 390: the grid and its function patterns, the
    placement of the bits, the masks, the format and version words, the penalty rules
    and [encode]; what a drawn matrix shows at each kind of module, and that the mask drawn
    has the lowest penalty.  [QrStandard] reads the matrix back. *)

From S2P Require Import Prelude JsMap Bytes QrField QrCode.
Import QrField.QrField QrCode.QrCode.

Local Open Scope Z_scope.

Module QrMatrix.

(** ** The grid *)

(** [mod]: 1 dark, 0 light, -1 unset; [fn]: function modules. *)
Record Grid : Type := mkGrid { size : nat; modules : list (list Z); fn : list (list bool) }.

Definition newGrid (version : nat) : Grid :=
  let size := (version * 4 + 17)%nat in
  mkGrid size (replicate size (replicate size (-1))) (replicate size (replicate size false)).

(** [g.mod[r][c]] and [g.fn[r][c]], for coordinates on the grid. *)
Definition at_ (g : Grid) (r c : nat) : Z := default (-1) (default [] (modules g !! r) !! c).
Definition fn_at (g : Grid) (r c : nat) : bool := default false (default [] (fn g !! r) !! c).

(** [g.mod[r][c] = v] *)
Definition set_mod (g : Grid) (r c : nat) (v : Z) : Grid :=
  mkGrid (size g) (alter (fun row => <[c := v]> row) r (modules g)) (fn g).

Definition set (g : Grid) (r c : nat) (dark isFn : bool) : Grid :=
  let g := set_mod g r c (if dark then 1 else 0) in
  if isFn then mkGrid (size g) (modules g) (alter (fun row => <[c := true]> row) r (fn g)) else g.

(** ** Function patterns *)

(** [n] integers from [a] up. *)
Definition from (a : Z) (n : nat) : list Z := (fun k => a + Z.of_nat k) <$> seq 0 n.

Definition for_each_cell {A} (f : A -> Z -> Z -> A) (rows cols : list Z) (a : A) : A :=
  foldl (fun a dr => foldl (fun a dc => f a dr dc) a cols) a rows.

Definition within (lo hi x : Z) : bool := (lo <=? x) && (x <=? hi).

Definition placeFinder (g : Grid) (r c : Z) : Grid :=
  for_each_cell (fun g dr dc =>
    let rr := r + dr in let cc := c + dc in
    let n := Z.of_nat (size g) in
    if (rr <? 0) || (n <=? rr) || (cc <? 0) || (n <=? cc) then g
    else
      let inRing := within 0 6 dr && within 0 6 dc in
      let dark := inRing && ((dr =? 0) || (dr =? 6) || (dc =? 0) || (dc =? 6) || (within 2 4 dr && within 2 4 dc)) in
      set g (Z.to_nat rr) (Z.to_nat cc) dark true) (from (-1) 9) (from (-1) 9) g.

(** Centers of the alignment patterns. *)
Definition ALIGN (v : nat) : list nat :=
  match v with
  | 2 => [6; 18] | 3 => [6; 22] | 4 => [6; 26] | 5 => [6; 30] | 6 => [6; 34] | 7 => [6; 22; 38]
  | 8 => [6; 24; 42] | 9 => [6; 26; 46] | 10 => [6; 28; 50] | 11 => [6; 30; 54] | 12 => [6; 32; 58]
  | 13 => [6; 34; 62] | 14 => [6; 26; 46; 66] | 15 => [6; 26; 48; 70]
  | _ => []
  end%nat.

Definition placeAlignment (g : Grid) (r c : nat) : Grid :=
  for_each_cell (fun g dr dc =>
    let dark := negb (Z.max (Z.abs dr) (Z.abs dc) =? 1) in
    set g (Z.to_nat (Z.of_nat r + dr)) (Z.to_nat (Z.of_nat c + dc)) dark true) (from (-2) 5) (from (-2) 5) g.

(** [if (!g.fn[r][c]) set(g, r, c, false, true)] *)
Definition reserve (g : Grid) (r c : nat) : Grid := if fn_at g r c then g else set g r c false true.

Definition placeFunctionPatterns (g : Grid) (version : nat) : Grid :=
  let n := size g in
  let g := placeFinder g 0 0 in
  let g := placeFinder g 0 (Z.of_nat n - 7) in
  let g := placeFinder g (Z.of_nat n - 7) 0 in
  let g := foldl (fun g i => let dark := (i mod 2 =? 0)%nat in set (set g 6 i dark true) i 6 dark true)
             g (seq 8 (n - 16)) in
  let centers := ALIGN version in
  let last := List.last centers 0%nat in
  let g := foldl (fun g r => foldl (fun g c =>
             if ((r =? 6) && (c =? 6) || (r =? 6) && (c =? last) || (r =? last) && (c =? 6))%nat then g
             else placeAlignment g r c) g centers) g centers in
  let g := set g (n - 8) 8 true true in
  let g := foldl (fun g i => reserve (reserve g 8 i) i 8) g (seq 0 9) in
  let g := foldl (fun g i => reserve (reserve g 8 (n - 1 - i)) (n - 1 - i) 8) g (seq 0 8) in
  if (version <? 7)%nat then g
  else foldl (fun g i => foldl (fun g j => set (set g i (n - 11 + j) false true) (n - 11 + j) i false true) g (seq 0 3))
         g (seq 0 6).

(** ** Data *)

(** The right columns of the pairs, skipping the vertical timing column. *)
Fixpoint columns (fuel col : nat) : list nat :=
  match fuel with
  | O => []
  | S fuel' =>
      if (col =? 0)%nat then []
      else let col := if (col =? 6)%nat then 5%nat else col in col :: columns fuel' (col - 2)
  end.

(** The cells of a pair of columns, upwards or downwards. *)
Definition column_cells (n : nat) (s : bool * nat) : list (nat * nat) :=
  seq 0 n ≫= fun i => let row := if s.1 then (n - 1 - i)%nat else i in [(row, s.2); (row, s.2 - 1)%nat].

Definition zigzag (n : nat) : list (nat * nat) :=
  imap (fun k col => (Nat.even k, col)) (columns n (n - 1)) ≫= column_cells n.

Definition place_cell (bits : list Z) (s : Grid * nat) (cell : nat * nat) : Grid * nat :=
  let '(g, bit) := s in
  if fn_at g cell.1 cell.2 then s else (set_mod g cell.1 cell.2 (byte_at bits bit), S bit).

Definition codeword_bits (codewords : list Z) : list Z := concat ((fun cw => value_bits cw 8) <$> codewords).

Definition placeData (g : Grid) (codewords : list Z) : Grid :=
  (foldl (place_cell (codeword_bits codewords)) (g, 0%nat) (zigzag (size g))).1.

(** ** Masks *)

Definition MASKS (m r c : nat) : bool :=
  match m with
  | 0 => (r + c) mod 2 =? 0
  | 1 => r mod 2 =? 0
  | 2 => c mod 3 =? 0
  | 3 => (r + c) mod 3 =? 0
  | 4 => (r / 2 + c / 3) mod 2 =? 0
  | 5 => (r * c) mod 2 + (r * c) mod 3 =? 0
  | 6 => ((r * c) mod 2 + (r * c) mod 3) mod 2 =? 0
  | _ => ((r + c) mod 2 + (r * c) mod 3) mod 2 =? 0
  end%nat.

Definition applyMask (g : Grid) (m : nat) : Grid :=
  mkGrid (size g)
    (imap (fun r row => imap (fun c x => if negb (fn_at g r c) && MASKS m r c then Z.lxor x 1 else x) row) (modules g))
    (fn g).

(** ** Format and version words *)

(** [for (let i = hi; i >= lo; i--) if ((rem >> i) & 1) rem ^= poly << (i - lo)] *)
Definition bch (poly : Z) (lo n : nat) (rem : Z) : Z :=
  foldl (fun rem i => if Z.land (Z.shiftr rem (Z.of_nat i)) 1 =? 0 then rem
                      else Z.lxor rem (Z.shiftl poly (Z.of_nat (i - lo)))) rem (rev (seq lo n)).

Definition formatBits (maskIdx : nat) : Z :=
  let data := Z.lor (Z.shiftl 0 3) (Z.of_nat maskIdx) in
  Z.lxor (Z.lor (Z.shiftl data 10) (bch 1335 10 5 (Z.shiftl data 10))) 21522.

(** The assignments of [drawFormat], in their order. *)
Definition format_writes (n maskIdx : nat) : list (nat * nat * Z) :=
  let bits := formatBits maskIdx in
  let get i := Z.land (Z.shiftr bits (Z.of_nat (14 - i))) 1 in
  (((fun i => (8, i, get i)) <$> seq 0 6) ++
  [(8, 7, get 6); (8, 8, get 7); (7, 8, get 8)] ++
  ((fun i => (14 - i, 8, get i)) <$> seq 9 6) ++
  ((fun i => (n - 1 - i, 8, get i)) <$> seq 0 8) ++
  ((fun i => (8, n - 15 + i, get i)) <$> seq 8 7) ++
  [(n - 8, 8, 1%Z)])%nat.

Definition versionBits (version : nat) : Z :=
  Z.lor (Z.shiftl (Z.of_nat version) 12) (bch 7973 12 6 (Z.shiftl (Z.of_nat version) 12)).

Definition version_writes (n version : nat) : list (nat * nat * Z) :=
  if (version <? 7)%nat then []
  else
    let bits := versionBits version in
    concat ((fun i => let b := Z.land (Z.shiftr bits (Z.of_nat i)) 1 in
                      [(i / 3, n - 11 + i mod 3, b); (n - 11 + i mod 3, i / 3, b)]) <$> seq 0 18)%nat.

Definition assign (g : Grid) (ws : list (nat * nat * Z)) : Grid :=
  foldl (fun g w => set_mod g w.1.1 w.1.2 w.2) g ws.

Definition drawFormat (g : Grid) (maskIdx : nat) : Grid := assign g (format_writes (size g) maskIdx).
Definition drawVersion (g : Grid) (version : nat) : Grid := assign g (version_writes (size g) version).

(** ** Penalty *)

(** Rule 1 on one line: the run, the previous module and the score. *)
Definition run_step (s : Z * Z * Z) (v : Z) : Z * Z * Z :=
  let '(run, prev, score) := s in
  if v =? prev then
    let run := run + 1 in
    (run, prev, if run =? 5 then score + 3 else if 5 <? run then score + 1 else score)
  else (1, v, score).

Definition rule1 (g : Grid) : Z :=
  foldl (fun score r =>
    foldl (fun score (line : bool) =>
      (foldl run_step (1, -1, score) ((fun c => if line then at_ g r c else at_ g c r) <$> seq 0 (size g))).2)
      score [true; false]) 0 (seq 0 (size g)).

Definition rule2 (g : Grid) : Z :=
  foldl (fun score r => foldl (fun score c =>
    if (at_ g r c =? at_ g r (c + 1)) && (at_ g r c =? at_ g (r + 1) c) && (at_ g r c =? at_ g (r + 1) (c + 1))
    then score + 3 else score) score (seq 0 (size g - 1))) 0 (seq 0 (size g - 1)).

Definition p1 : list Z := [1; 0; 1; 1; 1; 0; 1; 0; 0; 0; 0].
Definition p2 : list Z := [0; 0; 0; 0; 1; 0; 1; 1; 1; 0; 1].

Definition rule3 (g : Grid) : Z :=
  foldl (fun score r => foldl (fun score c => foldl (fun score p =>
    let mh := forallb (fun k => at_ g r (c + k) =? byte_at p k) (seq 0 11) in
    let mv := forallb (fun k => at_ g (c + k) r =? byte_at p k) (seq 0 11) in
    score + (if mh then 40 else 0) + (if mv then 40 else 0)) score [p1; p2])
    score (seq 0 (size g - 10))) 0 (seq 0 (size g)).

(** Rule 4.  The percentage is a quotient of floats; its distance to 50 is a multiple
    of 5 only when the integer division is exact, and then the floats are. *)
Definition rule4 (g : Grid) : Z :=
  let n2 := Z.of_nat (size g) * Z.of_nat (size g) in
  let dark := Z.of_nat (length (filter (fun v => v <> 0) (concat (modules g)))) in
  Z.abs (dark * 100 - 50 * n2) / (5 * n2) * 10.

Definition penalty (g : Grid) : Z := rule1 g + rule2 g + rule3 g + rule4 g.

(** ** [encode] *)

Definition tryMask (base : Grid) (version m : nat) : Grid :=
  drawVersion (drawFormat (applyMask base m) m) version.

(** The masks in turn, keeping the first of the lowest penalty. *)
Definition best_mask (base : Grid) (version : nat) : nat * Z :=
  foldl (fun best m => let s := penalty (tryMask base version m) in if s <? best.2 then (m, s) else best)
    (0%nat, penalty (tryMask base version 0)) (seq 1 7).

Definition encode_bytes (bytes : list Z) (version : nat) (forceMask : option nat) : Grid :=
  let base := placeData (placeFunctionPatterns (newGrid version) version) (makeCodewords bytes version) in
  tryMask base version (match forceMask with Some m => m | None => (best_mask base version).1 end).

Definition encode (text : string) (forceMask : option nat) : outcome (list (list bool)) :=
  let bytes := utf8_bytes text in
  match pickVersion (length bytes) with
  | Throw e => Throw e
  | Ok version =>
      Ok ((fun row : list Z => (fun v => v =? 1) <$> row) <$> modules (encode_bytes bytes version forceMask))
  end.

End QrMatrix.

Import QrMatrix.

(** ** What a matrix shows *)

Definition dark (matrix : list (list bool)) (r c : nat) : bool := default false (default [] (matrix !! r) !! c).

(** The format word next to the upper left finder, its highest bit first. *)
Definition format_cells : list (nat * nat) :=
  [(8, 0); (8, 1); (8, 2); (8, 3); (8, 4); (8, 5); (8, 7); (8, 8); (7, 8);
   (5, 8); (4, 8); (3, 8); (2, 8); (1, 8); (0, 8)]%nat.

Definition bit_of (b : bool) : Z := if b then 1 else 0.

(** The mask named by a format word. *)
Definition mask_of (word : Z) : nat := Z.to_nat (Z.land (Z.shiftr (Z.lxor word 21522) 10) 7).

(** The free cells of a grid among some. *)
Definition free (g : Grid) (cells : list (nat * nat)) : list (nat * nat) :=
  filter (fun rc => fn_at g rc.1 rc.2 = false) cells.

Definition base_grid (v : nat) : Grid := placeFunctionPatterns (newGrid v) v.

(** ** Grids *)

Definition dims (g : Grid) : Prop := length (modules g) = size g /\ Forall (fun row => length row = size g) (modules g).

Lemma dims_set_mod g r c v : dims g -> dims (set_mod g r c v).
Proof.
  intros [H1 H2]. split; cbn [set_mod modules size]; [by rewrite length_alter|].
  rewrite Forall_lookup in H2 |- *. intros i row Hi. destruct (decide (i = r)) as [->|Hne].
  - rewrite list_lookup_alter_eq in Hi. destruct (modules g !! r) as [row'|] eqn:Hr; [|done]. injection Hi as <-.
    rewrite length_insert. by eapply H2.
  - rewrite list_lookup_alter_ne in Hi by done. by eapply H2.
Qed.

Lemma at_set_mod g r c v r' c' : dims g -> (r < size g)%nat -> (c < size g)%nat ->
  at_ (set_mod g r c v) r' c' = if decide ((r', c') = (r, c)) then v else at_ g r' c'.
Proof.
  intros [H1 H2] Hr Hc. unfold at_. cbn [set_mod modules].
  destruct (decide (r' = r)) as [->|Hne].
  - rewrite list_lookup_alter_eq. destruct (lookup_lt_is_Some_2 (modules g) r ltac:(lia)) as [row Hrow].
    rewrite Hrow. cbn [fmap option_fmap option_map default]. unfold from_option, id.
    rewrite Forall_lookup in H2. pose proof (H2 r row Hrow) as Hl. destruct (decide (c' = c)) as [->|Hnc].
    + rewrite decide_True by done. by rewrite list_lookup_insert_eq by lia.
    + rewrite decide_False by congruence. by rewrite list_lookup_insert_ne by done.
  - rewrite list_lookup_alter_ne by done. by rewrite decide_False by congruence.
Qed.

(** *** Data *)

Lemma place_loop bits g l :
  dims g -> NoDup l -> Forall (fun rc => rc.1 < size g /\ rc.2 < size g)%nat l ->
  let s := foldl (place_cell bits) (g, 0%nat) l in
  dims s.1 /\ size s.1 = size g /\ fn s.1 = fn g /\ s.2 = length (free g l) /\
  (forall k rc, free g l !! k = Some rc -> at_ s.1 rc.1 rc.2 = byte_at bits k) /\
  (forall r c, (r, c) ∉ free g l -> at_ s.1 r c = at_ g r c).
Proof.
  intros Hd. induction l as [|[r c] l IH] using rev_ind; intros Hnd Hin; [done|].
  apply NoDup_app in Hnd as (Hnd & Hdis & _). apply Forall_app in Hin as [Hin Hrc].
  apply Forall_singleton in Hrc as [Hr Hc]. cbn [fst snd] in Hr, Hc.
  cbv zeta in *. destruct (IH Hnd Hin) as (H1 & H2 & H3 & H4 & H5 & H6).
  rewrite foldl_app. cbn [foldl]. set (s := foldl (place_cell bits) (g, 0%nat) l) in *. destruct s as [g1 bit].
  cbn [fst snd] in *. unfold place_cell. cbn [fst snd].
  assert (Hfn : fn_at g1 r c = fn_at g r c) by (unfold fn_at; by rewrite H3). rewrite Hfn.
  unfold free in *. rewrite filter_app, filter_cons, filter_nil. cbn [fst snd].
  destruct (fn_at g r c) eqn:Hf.
  - rewrite decide_False by done. rewrite app_nil_r. done.
  - rewrite decide_True by done. cbn [fst snd]. split_and!; try done.
    + by apply dims_set_mod.
    + rewrite length_app. cbn [length]. lia.
    + intros k rc Hk. rewrite at_set_mod by (done || lia).
      apply lookup_app_Some in Hk as [Hk|[Hk Hl]].
      * rewrite decide_False; [by apply H5|]. intros He. destruct rc as [r' c']. cbn in He. rewrite He in Hk.
        apply list_elem_of_lookup_2, list_elem_of_filter in Hk as [_ Hk]. apply (Hdis _ Hk). by left.
      * apply list_lookup_singleton_Some in Hl as [Hk0 <-]. rewrite decide_True by done. f_equal. lia.
    + intros r' c' Hni. rewrite at_set_mod by (done || lia). rewrite not_elem_of_app, list_elem_of_singleton in Hni.
      destruct Hni as [Hni Hne]. rewrite decide_False by done. by apply H6.
Qed.

(** *** Masks *)

Lemma at_applyMask g m r c : dims g -> (r < size g)%nat -> (c < size g)%nat ->
  at_ (applyMask g m) r c = if negb (fn_at g r c) && MASKS m r c then Z.lxor (at_ g r c) 1 else at_ g r c.
Proof.
  intros [H1 H2] Hr Hc. unfold at_, applyMask. cbn [modules]. rewrite list_lookup_imap.
  destruct (lookup_lt_is_Some_2 (modules g) r ltac:(lia)) as [row Hrow]. rewrite Hrow.
  rewrite Forall_lookup in H2. pose proof (H2 r row Hrow) as Hl.
  cbn [fmap option_fmap option_map default from_option id]. unfold id. rewrite list_lookup_imap.
  destruct (lookup_lt_is_Some_2 row c ltac:(lia)) as [x Hx]. by rewrite Hx.
Qed.

Lemma dims_applyMask g m : dims g -> dims (applyMask g m).
Proof.
  intros [H1 H2]. split; cbn [applyMask modules size]; [by rewrite length_imap|].
  rewrite Forall_lookup in H2 |- *. intros i row Hi. rewrite list_lookup_imap in Hi.
  destruct (modules g !! i) as [row'|] eqn:Hr; [|done]. injection Hi as <-. rewrite length_imap. by eapply H2.
Qed.

(** *** Words *)

(** The last value a list of assignments gives to a cell. *)
Definition last_write (ws : list (nat * nat * Z)) (rc : nat * nat) : option Z :=
  last (omap (fun w => if decide (w.1 = rc) then Some w.2 else None) ws).

Lemma at_assign g ws r c : dims g -> Forall (fun w => w.1.1 < size g /\ w.1.2 < size g)%nat ws ->
  dims (assign g ws) /\ size (assign g ws) = size g /\ at_ (assign g ws) r c = default (at_ g r c) (last_write ws (r, c)).
Proof.
  intros Hd. induction ws as [|[[r' c'] v] ws IH] using rev_ind; intros Hin; [done|].
  apply Forall_app in Hin as [Hin Hw]. apply Forall_singleton in Hw as [Hr Hc]. cbn [fst snd] in Hr, Hc.
  destruct (IH Hin) as (H1 & H2 & H3). unfold assign in *. rewrite foldl_app. cbn [foldl fst snd].
  split; [by apply dims_set_mod|]. split; [done|].
  rewrite at_set_mod, H3 by (done || lia). unfold last_write. rewrite omap_app. cbn [omap list_omap fst snd].
  destruct (decide ((r, c) = (r', c'))) as [He|Hne].
  - rewrite decide_True by done. by rewrite last_snoc.
  - rewrite decide_False by congruence. by rewrite app_nil_r.
Qed.

Lemma assign_app g a b : assign g (a ++ b) = assign (assign g a) b.
Proof. apply foldl_app. Qed.

(** Which cells are written does not depend on the mask. *)
Lemma format_cells_written n m : fst <$> format_writes n m = fst <$> format_writes n 0.
Proof. reflexivity. Qed.

(** ** The layout of the fifteen versions *)

Definition in_grid (n : nat) (rc : nat * nat) : bool := (rc.1 <? n)%nat && (rc.2 <? n)%nat.

(** Two pairs of columns share no column. *)
Definition apart (s t : bool * nat) : bool :=
  bool_decide (s = t) || negb ((s.2 =? t.2) || (s.2 =? t.2 - 1) || (s.2 - 1 =? t.2) || (s.2 - 1 =? t.2 - 1))%nat.

Definition directed (n : nat) : list (bool * nat) := imap (fun k col => (Nat.even k, col)) (columns n (n - 1)).

(** The grid is square, its free cells hold the code words of the version, the words
    are written on function modules, and the columns are distinct. *)
Definition layout_check (v : nat) : bool :=
  let n := (v * 4 + 17)%nat in
  let b := base_grid v in
  (size b =? n)%nat && (length (modules b) =? n)%nat && forallb (fun row => length row =? n)%nat (modules b) &&
  (8 * total_codewords v <=? length (free b (zigzag n)))%nat &&
  forallb (fun rc => fn_at b rc.1 rc.2 && in_grid n rc)
    ((fst <$> format_writes n 0) ++ (fst <$> version_writes n v)) &&
  forallb (fun s => (0 <? s.2)%nat && (s.2 <? n)%nat && forallb (apart s) (directed n)) (directed n).

Lemma layouts_ok : forallb layout_check (seq 1 15) = true.
Proof. vm_compute. reflexivity. Qed.

(** What the format cells show after the two words are drawn. *)
Lemma formats_ok :
  (fun v => (fun m => (fun rc => last_write (format_writes (v * 4 + 17) m ++ version_writes (v * 4 + 17) v) rc)
                        <$> format_cells) <$> seq 0 8) <$> seq 1 15 =
  (fun _ => (fun m => Some <$> value_bits (formatBits m) 15) <$> seq 0 8) <$> seq 1 15.
Proof. vm_compute. reflexivity. Qed.

Lemma masks_named : (fun m => mask_of (formatBits m)) <$> seq 0 8 = seq 0 8.
Proof. vm_compute. reflexivity. Qed.

Lemma formats_fit : forallb (fun m => (0 <=? formatBits m) && (formatBits m <? 2 ^ 15)) (seq 0 8) = true.
Proof. vm_compute. reflexivity. Qed.

Record layout (v : nat) : Prop := {
  lay_size : size (base_grid v) = (v * 4 + 17)%nat;
  lay_dims : dims (base_grid v);
  lay_room : (8 * total_codewords v <= length (free (base_grid v) (zigzag (v * 4 + 17))))%nat;
  lay_words m : Forall (fun w => fn_at (base_grid v) w.1.1 w.1.2 = true /\ (w.1.1 < v * 4 + 17)%nat /\ (w.1.2 < v * 4 + 17)%nat)
    (format_writes (v * 4 + 17) m ++ version_writes (v * 4 + 17) v);
  lay_columns s : s ∈ directed (v * 4 + 17) -> (0 < s.2 < v * 4 + 17)%nat;
  lay_apart s t : s ∈ directed (v * 4 + 17) -> t ∈ directed (v * 4 + 17) -> apart s t = true;
}.

Lemma forallb_elem {A} (f : A -> bool) l x : forallb f l = true -> x ∈ l -> f x = true.
Proof. intros Hf Hx. rewrite forallb_forall in Hf. by apply Hf, list_elem_of_In. Qed.

Lemma layout_of v : (1 <= v <= 15)%nat -> layout v.
Proof.
  intros Hv. pose proof (forallb_seq _ _ _ v layouts_ok ltac:(lia)) as Hc. unfold layout_check in Hc.
  rewrite !andb_true_iff in Hc. destruct Hc as (((((H1 & H2) & H3) & H4) & H5) & H6).
  apply Nat.eqb_eq in H1, H2. apply Nat.leb_le in H4.
  split; try done.
  - split; [lia|]. apply Forall_forall. intros row Hr.
    pose proof (forallb_elem _ _ _ H3 Hr) as Hl. apply Nat.eqb_eq in Hl. lia.
  - intros m. apply Forall_forall. intros w Hw.
    assert (Hin : w.1 ∈ (fst <$> format_writes (v * 4 + 17) 0) ++ (fst <$> version_writes (v * 4 + 17) v)).
    { apply elem_of_app in Hw as [Hw|Hw]; apply elem_of_app; [left|right]; [|by apply list_elem_of_fmap_2].
      rewrite <- (format_cells_written _ m). by apply list_elem_of_fmap_2. }
    pose proof (forallb_elem _ _ _ H5 Hin) as Hb. cbv beta in Hb. unfold in_grid in Hb.
    rewrite !andb_true_iff, !Nat.ltb_lt in Hb. tauto.
  - intros s Hs. pose proof (forallb_elem _ _ _ H6 Hs) as Hb. cbv beta in Hb.
    rewrite !andb_true_iff, !Nat.ltb_lt in Hb. tauto.
  - intros s t Hs Ht. pose proof (forallb_elem _ _ _ H6 Hs) as Hb. cbv beta in Hb.
    rewrite !andb_true_iff in Hb. destruct Hb as [_ Hb]. exact (forallb_elem _ _ _ Hb Ht).
Qed.

Lemma column_cells_elem n s rc : rc ∈ column_cells n s -> (rc.1 < n)%nat /\ (rc.2 = s.2 \/ rc.2 = s.2 - 1)%nat.
Proof.
  unfold column_cells. rewrite list_elem_of_bind. intros (i & Hrc & Hi). apply elem_of_seq in Hi. cbv zeta in Hrc.
  rewrite elem_of_cons, list_elem_of_singleton in Hrc. destruct s as [[|] col]; cbn [fst snd] in *;
    destruct Hrc as [-> | ->]; cbn [fst snd]; split; lia.
Qed.

Lemma column_cells_nodup n s : (0 < s.2)%nat -> NoDup (column_cells n s).
Proof.
  intros Hs. unfold column_cells. apply NoDup_bind; [|intros i _|apply NoDup_seq].
  - intros i j rc Hi Hj Hrc Hrc'. apply elem_of_seq in Hi, Hj. cbv zeta in *.
    rewrite !elem_of_cons, elem_of_nil in Hrc, Hrc'.
    destruct s as [[|] col]; cbn [fst snd] in *; destruct Hrc as [->|[->|[]]], Hrc' as [He|[He|[]]]; injection He; lia.
  - cbv zeta. apply NoDup_cons. split; [|apply NoDup_singleton]. rewrite list_elem_of_singleton. intros He.
    injection He as He. lia.
Qed.

Lemma zigzag_distinct n : NoDup (directed n) -> (forall s, s ∈ directed n -> (0 < s.2)%nat) ->
  (forall s t, s ∈ directed n -> t ∈ directed n -> apart s t = true) -> NoDup (zigzag n).
Proof.
  intros Hnd Hpos Hap. unfold zigzag.
  apply NoDup_bind; [|intros s Hs; apply column_cells_nodup; auto|exact Hnd].
  intros s t rc Hs Ht [_ Hc]%column_cells_elem [_ Hc']%column_cells_elem.
  specialize (Hap s t Hs Ht). unfold apart in Hap. apply orb_prop in Hap as [Hap|Hap].
  - by apply bool_decide_eq_true in Hap.
  - exfalso. rewrite negb_true_iff, !orb_false_iff, !Nat.eqb_neq in Hap. lia.
Qed.

Lemma directed_distinct : forallb (fun v => bool_decide (NoDup (directed (v * 4 + 17)))) (seq 1 15) = true.
Proof. vm_compute. reflexivity. Qed.

Lemma zigzag_nodup v : (1 <= v <= 15)%nat -> NoDup (zigzag (v * 4 + 17)).
Proof.
  intros Hv. pose proof (layout_of v Hv) as L.
  pose proof (forallb_seq _ _ _ v directed_distinct ltac:(lia)) as Hd. apply bool_decide_eq_true in Hd.
  apply zigzag_distinct; [done|intros s Hs; by apply (lay_columns v L)|apply (lay_apart v L)].
Qed.

Lemma zigzag_in_grid v : (1 <= v <= 15)%nat ->
  Forall (fun rc => rc.1 < v * 4 + 17 /\ rc.2 < v * 4 + 17)%nat (zigzag (v * 4 + 17)).
Proof.
  intros Hv. pose proof (layout_of v Hv) as L. apply Forall_forall. intros rc Hrc.
  unfold zigzag in Hrc. apply list_elem_of_bind in Hrc as (s & Hrc & Hs).
  apply column_cells_elem in Hrc as [Hr Hc]. pose proof (lay_columns v L s Hs). lia.
Qed.

(** ** The code words are bytes *)

Lemma pack_byte_range bits i : Forall is_bit bits -> is_byte (pack_byte bits i).
Proof.
  intros Hb. set (l := (fun j => byte_at bits (i + j)) <$> seq 0 8).
  assert (Hl : Forall is_bit l).
  { apply Forall_fmap, Forall_forall. intros j _. cbn. unfold byte_at.
    destruct (bits !! _) as [b|] eqn:Hj; [|by left]. rewrite Forall_lookup in Hb. exact (Hb _ b Hj). }
  replace (pack_byte bits i) with (bits_value l).
  - pose proof (bits_value_range l Hl) as Hr. exact Hr.
  - symmetry. rewrite <- (pack_byte_value [] l []) by done. apply foldl_seq_ext. intros b j Hj. f_equal.
    rewrite app_nil_l, app_nil_r. cbn [length]. rewrite Nat.add_0_l. unfold l, byte_at at 2.
    rewrite list_lookup_fmap, lookup_seq_lt by done. done.
Qed.

Lemma interleave_elem {A} (x : A) blocks : x ∈ interleave blocks -> exists b, b ∈ blocks /\ x ∈ b.
Proof.
  unfold interleave. intros Hx. apply elem_of_concat in Hx as (l & Hl & Hx).
  apply list_elem_of_fmap in Hl as (i & -> & _). apply list_elem_of_omap in Hx as (b & Hb & Hx).
  exists b. split; [done|]. by eapply list_elem_of_lookup_2.
Qed.

Lemma split_blocks_elem {A} sizes (cw : list A) b x : b ∈ split_blocks sizes cw -> x ∈ b -> x ∈ cw.
Proof.
  unfold split_blocks.
  assert (H : forall pos acc, (forall b x, b ∈ acc -> x ∈ b -> x ∈ cw) -> forall b x,
    b ∈ (foldl (fun s dpb => (s.1 + dpb, s.2 ++ [take dpb (drop s.1 cw)])%nat) (pos, acc) sizes).2 -> x ∈ b -> x ∈ cw).
  { induction sizes as [|s sizes IH]; intros pos acc Ha; [exact Ha|]. cbn [foldl fst snd]. apply IH.
    intros b' x' Hb' Hx'. apply elem_of_app in Hb' as [Hb'|Hb']; [by eapply Ha|].
    apply list_elem_of_singleton in Hb' as ->. eapply subseteq_drop, subseteq_take, Hx'. }
  apply H. intros b' x' Hb'. by apply elem_of_nil in Hb'.
Qed.

Lemma ec_lengths : forallb (fun v => (EC_M v).1 <=? 255)%nat (seq 1 15) = true.
Proof. reflexivity. Qed.

Lemma data_codewords_bytes bytes v : fits (length bytes) v = true -> Forall is_byte (data_codewords bytes v).
Proof.
  intros Hf. destruct (data_bits_spec bytes v Hf) as (k & z & _ & Hbits & _).
  unfold data_codewords, pad_codewords. apply Forall_app_2; apply Forall_fmap, Forall_forall; intros i _; cbn.
  - by apply pack_byte_range.
  - unfold is_byte. case_match; lia.
Qed.

Lemma makeCodewords_bytes bytes v : (1 <= v <= 15)%nat -> fits (length bytes) v = true -> Forall is_byte (makeCodewords bytes v).
Proof.
  intros Hv Hf. pose proof (data_codewords_bytes bytes v Hf) as Hdata.
  pose proof (forallb_seq _ _ _ v ec_lengths ltac:(lia)) as Hec. cbv beta in Hec. apply Nat.leb_le in Hec.
  assert (Hblk : forall b, b ∈ split_blocks (block_sizes v) (data_codewords bytes v) -> Forall is_byte b).
  { intros b Hb. apply Forall_forall. intros x Hx. rewrite Forall_forall in Hdata. eapply Hdata, split_blocks_elem; eauto. }
  unfold makeCodewords. apply Forall_app_2.
  - apply Forall_forall. intros x Hx. apply interleave_elem in Hx as (b & Hb & Hx).
    pose proof (Hblk b Hb) as Hf'. rewrite Forall_forall in Hf'. by apply Hf'.
  - unfold interleave_ec. apply Forall_concat, Forall_fmap, Forall_forall. intros i _. cbn.
    apply Forall_fmap, Forall_fmap, Forall_forall. intros b Hb. cbn.
    destruct (encode_shape b (EC_M v).1 Hec (Hblk b Hb)) as (_ & He & _). unfold byte_at.
    destruct (_ !! i) as [x|] eqn:Hx; [|apply is_byte_0]. rewrite Forall_lookup in He. exact (He i x Hx).
Qed.

(** ** What the drawn grid shows *)

Lemma best_mask_range base v : ((best_mask base v).1 < 8)%nat.
Proof.
  unfold best_mask.
  assert (H : forall (l : list nat) (best : nat * Z), (best.1 < 8)%nat -> (forall m, m ∈ l -> (m < 8)%nat) ->
    ((foldl (fun (best : nat * Z) m => let s := penalty (tryMask base v m) in if (s <? best.2)%Z then (m, s) else best) best l).1 < 8)%nat).
  { induction l as [|m l IH]; intros best Hb Hl; [done|]. cbn [foldl]. apply IH.
    - cbv zeta. case_match; [apply Hl; by left|done].
    - intros k Hk. apply Hl. by right. }
  apply H; [cbn; lia|]. intros m Hm. apply elem_of_seq in Hm. lia.
Qed.

Section drawn.
Context (v m : nat) (codewords : list Z).
Hypothesis Hv : (1 <= v <= 15)%nat.
Hypothesis Hm : (m < 8)%nat.
Notation n := (v * 4 + 17)%nat.
Notation base := (placeData (base_grid v) codewords).
Notation final := (tryMask base v m).
Notation words := (format_writes n m ++ version_writes n v).

Lemma base_facts :
  dims base /\ size base = n /\ fn base = fn (base_grid v) /\
  forall k rc, free (base_grid v) (zigzag n) !! k = Some rc -> at_ base rc.1 rc.2 = byte_at (codeword_bits codewords) k.
Proof.
  pose proof (layout_of v Hv) as L. unfold placeData. rewrite (lay_size v L).
  destruct (place_loop (codeword_bits codewords) (base_grid v) (zigzag n)) as (H1 & H2 & H3 & _ & H5 & _).
  - apply L.
  - by apply zigzag_nodup.
  - rewrite (lay_size v L). by apply zigzag_in_grid.
  - rewrite (lay_size v L) in H2. done.
Qed.

Lemma final_facts r c : (r < n)%nat -> (c < n)%nat ->
  dims final /\ size final = n /\ at_ final r c = default (at_ (applyMask base m) r c) (last_write words (r, c)).
Proof.
  intros Hr Hc. destruct base_facts as (Hd & Hs & Hf & _). pose proof (layout_of v Hv) as L.
  unfold tryMask, drawFormat, drawVersion. cbn [applyMask size]. rewrite Hs.
  assert (Hin : Forall (fun w => w.1.1 < n /\ w.1.2 < n)%nat words).
  { eapply Forall_impl; [apply (lay_words v L m)|]. tauto. }
  apply Forall_app in Hin as [Hin1 Hin2].
  destruct (at_assign (applyMask base m) (format_writes n m) r c) as (H1 & H2 & _);
    [by apply dims_applyMask|cbn [applyMask size]; by rewrite Hs|].
  cbn [applyMask size] in H2. rewrite Hs in H2. rewrite H2, <- assign_app.
  destruct (at_assign (applyMask base m) words r c) as (H3 & H4 & H5);
    [by apply dims_applyMask|cbn [applyMask size]; rewrite Hs; by apply Forall_app|].
  cbn [applyMask size] in H4. rewrite Hs in H4. done.
Qed.

Lemma dark_final r c : (r < n)%nat -> (c < n)%nat ->
  dark ((fun row : list Z => (fun x => x =? 1) <$> row) <$> modules final) r c = (at_ final r c =? 1).
Proof.
  intros Hr Hc. destruct (final_facts r c Hr Hc) as ([H1 H2] & Hs & _). rewrite Hs in *.
  unfold dark, at_. rewrite list_lookup_fmap.
  destruct (lookup_lt_is_Some_2 (modules final) r ltac:(lia)) as [row Hrow]. rewrite Hrow.
  rewrite Forall_lookup in H2. pose proof (H2 r row Hrow) as Hl.
  cbn [fmap option_fmap option_map default from_option id]. unfold id. rewrite list_lookup_fmap.
  destruct (lookup_lt_is_Some_2 row c ltac:(lia)) as [x Hx]. by rewrite Hx.
Qed.

(** A free cell shows its bit, masked. *)
Lemma free_cell k rc : free (base_grid v) (zigzag n) !! k = Some rc ->
  xorb (at_ final rc.1 rc.2 =? 1) (MASKS m rc.1 rc.2) = (byte_at (codeword_bits codewords) k =? 1) /\
  (rc.1 < n)%nat /\ (rc.2 < n)%nat.
Proof.
  intros Hk. pose proof (layout_of v Hv) as L. destruct base_facts as (Hd & Hs & Hf & Hbits).
  pose proof (list_elem_of_lookup_2 _ _ _ Hk) as Hin. apply list_elem_of_filter in Hin as [Hfree Hin].
  pose proof (zigzag_in_grid v Hv) as Hz. rewrite Forall_forall in Hz. destruct (Hz rc Hin) as [Hr Hc].
  split; [|done]. destruct (final_facts _ _ Hr Hc) as (_ & _ & ->).
  assert (Hnone : last_write words (rc.1, rc.2) = None).
  { unfold last_write. destruct (last _) as [x|] eqn:Hl; [|done]. exfalso.
    apply last_Some_elem_of, list_elem_of_omap in Hl as (w & Hw & Heq).
    destruct (decide (w.1 = (rc.1, rc.2))) as [He|]; [|done].
    pose proof (lay_words v L m) as Hwords. rewrite Forall_forall in Hwords. destruct (Hwords w Hw) as (Hfn & _).
    rewrite He in Hfn. cbn [fst snd] in Hfn. congruence. }
  rewrite Hnone. cbn [default]. rewrite at_applyMask by (rewrite ?Hs; done).
  assert (Hfn : fn_at base rc.1 rc.2 = false) by (unfold fn_at; rewrite Hf; exact Hfree).
  rewrite Hfn, (Hbits k rc Hk). cbn [negb andb].
  assert (Hbit : byte_at (codeword_bits codewords) k = 0 \/ byte_at (codeword_bits codewords) k = 1).
  { unfold byte_at. destruct (codeword_bits codewords !! k) as [b|] eqn:Hb; [|by left].
    pose proof (unpack_bits codewords) as Hu. rewrite Forall_lookup in Hu. exact (Hu k b Hb). }
  destruct Hbit as [-> | ->], (MASKS m rc.1 rc.2); reflexivity.
Qed.

(** The format cells show the word of the mask. *)
Lemma format_shown :
  (fun rc => bit_of (dark ((fun row : list Z => (fun x => x =? 1) <$> row) <$> modules final) rc.1 rc.2)) <$> format_cells =
  value_bits (formatBits m) 15.
Proof.
  pose proof (fmap_seq_eq _ _ v formats_ok Hv) as He. cbv beta in He.
  assert (Hw : (fun rc => last_write words rc) <$> format_cells = Some <$> value_bits (formatBits m) 15).
  { assert (Hl : forall (f g : nat -> list (option Z)), f <$> seq 0 8 = g <$> seq 0 8 -> f m = g m).
    { intros f g Hfg. assert (Hl : (f <$> seq 0 8) !! m = (g <$> seq 0 8) !! m) by (by rewrite Hfg).
      rewrite !list_lookup_fmap, lookup_seq_lt in Hl by lia. cbn in Hl. congruence. }
    exact (Hl _ _ He). }
  assert (Hcells : Forall (fun rc => rc.1 < n /\ rc.2 < n)%nat format_cells).
  { unfold format_cells. repeat (apply Forall_cons; split; [cbn [fst snd]; lia|]). constructor. }
  apply list_eq. intros k.
  assert (Hk : ((fun rc => last_write words rc) <$> format_cells) !! k = (Some <$> value_bits (formatBits m) 15) !! k) by (by rewrite Hw).
  rewrite (list_lookup_fmap _ format_cells), (list_lookup_fmap Some) in Hk. rewrite (list_lookup_fmap _ format_cells).
  destruct (format_cells !! k) as [rc|] eqn:Hrc.
  - rewrite Forall_lookup in Hcells. destruct (Hcells k rc Hrc) as [Hr Hc].
    destruct (value_bits (formatBits m) 15 !! k) as [b|] eqn:Hb; [|done].
    cbn [fmap option_fmap option_map] in Hk |- *. apply (inj Some) in Hk.
    rewrite dark_final by done. destruct (final_facts _ _ Hr Hc) as (_ & _ & ->).
    rewrite <- surjective_pairing, Hk. cbn [default from_option]. f_equal.
    pose proof (value_bits_are (formatBits m) 15) as Hbits. rewrite Forall_lookup in Hbits.
    destruct (Hbits k b Hb) as [-> | ->]; reflexivity.
  - by destruct (value_bits (formatBits m) 15 !! k).
Qed.

Lemma mask_shown : mask_of (bits_value ((fun rc => bit_of (dark ((fun row : list Z => (fun x => x =? 1) <$> row) <$> modules final) rc.1 rc.2))
                     <$> format_cells)) = m.
Proof.
  rewrite format_shown, bits_value_value.
  pose proof (forallb_seq _ _ _ m formats_fit ltac:(lia)) as Hf. cbv beta in Hf. rewrite Z.mod_small by lia.
  assert (Hl : ((fun m => mask_of (formatBits m)) <$> seq 0 8) !! m = seq 0 8 !! m) by (by rewrite masks_named).
  rewrite list_lookup_fmap, !lookup_seq_lt in Hl by lia. cbn in Hl. congruence.
Qed.

(** The free cells, unmasked, are the bits of the code words and zeros. *)
Lemma bits_shown : length codewords = total_codewords v ->
  exists rest, (fun rc => bit_of (xorb (dark ((fun row : list Z => (fun x => x =? 1) <$> row) <$> modules final) rc.1 rc.2)
                                   (MASKS m rc.1 rc.2))) <$> free (base_grid v) (zigzag n) = unpack codewords ++ rest.
Proof.
  intros Hlen. pose proof (layout_of v Hv) as L. pose proof (lay_room v L) as Hroom.
  set (cells := free (base_grid v) (zigzag n)) in *.
  exists (replicate (length cells - length (unpack codewords)) 0).
  assert (Hlu : (length (unpack codewords) <= length cells)%nat) by (rewrite length_unpack; lia).
  apply list_eq. intros k. rewrite list_lookup_fmap. destruct (cells !! k) as [rc|] eqn:Hk.
  - destruct (free_cell k rc Hk) as (Hx & Hr & Hc). cbn. rewrite dark_final, Hx by done.
    apply lookup_lt_Some in Hk. change (codeword_bits codewords) with (unpack codewords).
    destruct (decide (k < length (unpack codewords))%nat) as [Hlt|Hge].
    + rewrite lookup_app_l by done. unfold byte_at.
      destruct (lookup_lt_is_Some_2 (unpack codewords) k Hlt) as [b Hb]. rewrite Hb. cbn. f_equal.
      pose proof (unpack_bits codewords) as Hu. rewrite Forall_lookup in Hu. by destruct (Hu k b Hb) as [-> | ->].
    + rewrite lookup_app_r by lia. rewrite lookup_replicate_2 by lia. unfold byte_at. by rewrite lookup_ge_None_2 by lia.
  - cbn. symmetry. apply lookup_ge_None. apply lookup_ge_None in Hk. rewrite length_app, length_replicate. lia.
Qed.

Lemma matrix_size : length ((fun row : list Z => (fun x => x =? 1) <$> row) <$> modules final) = n.
Proof.
  rewrite length_fmap. destruct (final_facts 0 0 ltac:(lia) ltac:(lia)) as ([H _] & Hs & _). lia.
Qed.

End drawn.

Lemma encode_accepts (text : string) (forceMask : option nat) :
  (exists matrix, encode text forceMask = Ok matrix) <-> (length (utf8_bytes text) <= 412)%nat.
Proof.
  unfold encode. pose proof (pick_or_throw (length (utf8_bytes text))) as Hpick.
  destruct (pickVersion _) as [v|e].
  - split; [intros _; by apply Hpick|eauto].
  - split; [intros [? ?]; done|intros Hle; lia].
Qed.

(** *** The chosen mask *)

(** Without a forced mask the one drawn has the lowest penalty, and is the first of those. *)
Lemma mask_is_best base v : let m := (best_mask base v).1 in
  (m < 8)%nat /\
  (forall k, (k < 8)%nat -> penalty (tryMask base v m) <= penalty (tryMask base v k)) /\
  (forall k, (k < m)%nat -> penalty (tryMask base v m) < penalty (tryMask base v k)).
Proof.
  cbv zeta. split; [apply best_mask_range|]. set (f k := penalty (tryMask base v k)).
  assert (H : forall n, let best := foldl (fun (best : nat * Z) m => let s := penalty (tryMask base v m) in
                               if s <? best.2 then (m, s) else best) (0%nat, f 0%nat) (seq 1 n) in
            best.2 = f best.1 /\ (best.1 <= n)%nat /\ (forall k, (k <= n)%nat -> f best.1 <= f k) /\
            (forall k, (k < best.1)%nat -> f best.1 < f k)).
  { induction n as [|n IH]; cbv zeta in *.
    - cbn [seq foldl fst snd]. split; [done|]. split; [lia|]. split; [|intros; lia].
      intros k Hk. replace k with 0%nat by lia. done.
    - rewrite seq_S, foldl_app. cbn [foldl Nat.add]. set (best := foldl _ _ _) in *. destruct best as [m s].
      cbn [fst snd] in *. destruct IH as (-> & Hm & Hle & Hlt). fold (f (S n)).
      destruct (Z.ltb_spec (f (S n)) (f m)); cbn [fst snd].
      + split; [done|]. split; [lia|]. split; intros k Hk.
        * destruct (decide (k = S n)) as [->|]; [lia|]. specialize (Hle k ltac:(lia)). lia.
        * specialize (Hle k ltac:(lia)). lia.
      + split; [done|]. split; [lia|]. split; [|done]. intros k Hk.
        destruct (decide (k = S n)) as [->|]; [lia|apply Hle; lia]. }
  destruct (H 7%nat) as (_ & _ & Hle & Hlt). split; [intros k Hk; apply Hle; lia|exact Hlt].
Qed.

(** *** The words correct errors *)

Definition ones (x : Z) (n : nat) : nat := length (filter (fun b => b = 1) (value_bits x n)).

(** Two format words differ in at least seven of their fifteen bits, two version words
    in at least eight of their eighteen. *)
Lemma words_far_apart :
  forallb (fun m => forallb (fun k => (m =? k) || (7 <=? ones (Z.lxor (formatBits m) (formatBits k)) 15))%nat (seq 0 8)) (seq 0 8) &&
  forallb (fun v => forallb (fun w => (v =? w) || (8 <=? ones (Z.lxor (versionBits v) (versionBits w)) 18))%nat (seq 7 9)) (seq 7 9)
  = true.
Proof. vm_compute. reflexivity. Qed.
