(* ===== verification/QrStandard.v ===== *)
(** * A reader of QR symbols, and what the encoder promises it

    [Standard] reads a symbol the way ISO/IEC 18004 describes one, for the error
    correction level M and the versions 1 to 15 that [packages/cli/src/qr.ts] draws.  It
    shares no table and no placement with the encoder of [QrCode] and [QrMatrix]: it
    has its own picture of the function patterns, its own mask conditions, reading order,
    block structure and arithmetic, and gives a text only when all of them agree with
    the matrix. *)

From S2P Require Import Prelude JsMap Bytes QrField QrCode QrMatrix.
Import QrField.QrField QrCode.QrCode QrMatrix.

Local Open Scope nat_scope.

Module Standard.

Definition side (v : nat) : nat := v * 4 + 17.

(** ** The function patterns *)

(** What the standard has at a module: a fixed colour, or a bit of a word. *)
Inductive area : Type := Fixed (dark : bool) | FormatBit | VersionBit | Data.

#[export] Instance area_eq_dec : EqDecision area.
Proof. solve_decision. Defined.

(** The larger of the two coordinate distances. *)
Definition distance (p q : nat * nat) : nat :=
  max ((p.1 - q.1) + (q.1 - p.1)) ((p.2 - q.2) + (q.2 - p.2)).

Definition finder_centres (n : nat) : list (nat * nat) := [(3, 3); (3, n - 4); (n - 4, 3)].

(** The coordinates of alignment patterns: evenly spaced from the far edge, and 6. *)
Definition alignment_positions (v : nat) : list nat :=
  if v <? 2 then [] else
  let count := v / 7 + 2 in
  let gap := (v * 4 + count * 2 + 1) / (count * 2 - 2) * 2 in
  6 :: ((fun k => side v - 7 - k * gap) <$> seq 0 (count - 1)).

(** Their centres: every pair of coordinates that is not inside a finder. *)
Definition alignment_centres (v : nat) : list (nat * nat) :=
  filter (fun p => forallb (fun q => 4 <? distance p q) (finder_centres (side v)) = true)
    (r ← alignment_positions v; (fun c => (r, c)) <$> alignment_positions v).

(** A finder is dark in its centre, at one and at three modules from it; its separator is at
    four.  An alignment pattern is light at one module from its centre only.  The timing
    patterns alternate.  One module beside the lower finder is always dark. *)
Definition area_of (v : nat) (alignments : list (nat * nat)) (rc : nat * nat) : area :=
  let n := side v in
  let (r, c) := rc in
  match List.find (fun p => distance rc p <=? 4) (finder_centres n) with
  | Some p => Fixed ((distance rc p <=? 1) || (distance rc p =? 3))
  | None =>
      match List.find (fun p => distance rc p <=? 2) alignments with
      | Some p => Fixed (negb (distance rc p =? 1))
      | None =>
          if (r =? 6) || (c =? 6) then Fixed (Nat.even (r + c))
          else if (r =? n - 8) && (c =? 8) then Fixed true
          else if (r =? 8) && ((c <=? 8) || (n - 8 <=? c)) || (c =? 8) && ((r <=? 8) || (n - 8 <=? r)) then FormatBit
          else if (7 <=? v) && ((r <? 6) && (n - 11 <=? c) || (c <? 6) && (n - 11 <=? r)) then VersionBit
          else Data
      end
  end.

Definition square (n : nat) : list (nat * nat) := r ← seq 0 n; (fun c => (r, c)) <$> seq 0 n.

(** The modules of fixed colour. *)
Definition frame (v : nat) : list (nat * nat * bool) :=
  let alignments := alignment_centres v in
  omap (fun rc => match area_of v alignments rc with Fixed b => Some (rc, b) | _ => None end) (square (side v)).

(** What a reader sees: whether a module is dark. *)
Notation image := (nat * nat -> bool) (only parsing).

Definition frame_shown (v : nat) (px : image) : bool := forallb (fun x => Bool.eqb (px x.1) x.2) (frame v).

(** ** Words over GF(2) *)

Definition word (px : image) (cells : list (nat * nat)) : Z := bits_value ((fun rc => Z.b2z (px rc)) <$> cells).

(** The remainder of [x] divided by [g], a polynomial of degree [deg]. *)
Definition gf2_mod (g : Z) (deg : nat) (x : Z) : Z :=
  foldl (fun x i => if Z.testbit x (Z.of_nat (i + deg)) then Z.lxor x (Z.shiftl g (Z.of_nat i)) else x) x (rev (seq 0 8)).

(** Bit [i] of the format word, in each of its two copies. *)
Definition format_cell1 (i : nat) : nat * nat :=
  if i <=? 5 then (i, 8) else if i =? 6 then (7, 8) else if i =? 7 then (8, 8) else if i =? 8 then (8, 7) else (8, 14 - i).
Definition format_cell2 (n i : nat) : nat * nat := if i <=? 7 then (8, n - 1 - i) else (n - 15 + i, 8).

Definition highest_first (len : nat) (cell : nat -> nat * nat) : list (nat * nat) := (fun k => cell (len - 1 - k)) <$> seq 0 len.

Definition differing (a b : Z) : nat := length (filter (fun i => Z.testbit (Z.lxor a b) (Z.of_nat i) = true) (seq 0 15)).

(** The mask.  The first copy of the word, with its mask 0x5412 taken off, is a multiple of
    0x537 and names the level M; the second is nearest to the same word, of which it may
    have lost the three bits the code corrects. *)
Definition format_of (n : nat) (px : image) : option nat :=
  let w1 := word px (highest_first 15 format_cell1) in
  let w2 := word px (highest_first 15 (format_cell2 n)) in
  let w := Z.lxor w1 21522 in
  if (gf2_mod 1335 10 w =? 0)%Z && (Z.shiftr w 13 =? 0)%Z && (differing w1 w2 <=? 3)
  then Some (Z.to_nat (Z.land (Z.shiftr w 10) 7)) else None.

(** From version 7 on, two words that are multiples of 0x1F25 and name the version. *)
Definition version_shown (v : nat) (px : image) : bool :=
  (v <? 7) ||
  forallb (fun cells => let w := word px cells in (gf2_mod 7973 12 w =? 0)%Z && (Z.shiftr w 12 =? Z.of_nat v)%Z)
    [highest_first 18 (fun i => (i / 3, side v - 11 + i mod 3)); highest_first 18 (fun i => (side v - 11 + i mod 3, i / 3))].

(** ** The data *)

Definition mask (m r c : nat) : bool :=
  match m with
  | 0 => Nat.even (r + c)
  | 1 => Nat.even r
  | 2 => c mod 3 =? 0
  | 3 => (r + c) mod 3 =? 0
  | 4 => Nat.even (r / 2 + c / 3)
  | 5 => Nat.even (r * c) && ((r * c) mod 3 =? 0)
  | 6 => Nat.even ((r * c) mod 2 + (r * c) mod 3)
  | _ => Nat.even ((r + c) mod 2 + (r * c) mod 3)
  end.

(** Column [j] from the right, without the one of the vertical timing pattern. *)
Definition column (n j : nat) : nat := if j <? n - 7 then n - 1 - j else n - 2 - j.

(** The module at place [j] of the way through the symbol, in pairs of columns from the
    right, up the first and down the next. *)
Definition cell_at (n j : nat) : nat * nat :=
  let pair := j / (2 * n) in
  let k := j mod (2 * n) in
  (if Nat.even pair then n - 1 - k / 2 else k / 2, column n (2 * pair + k mod 2)).

Definition data_cells (v : nat) : list (nat * nat) :=
  let alignments := alignment_centres v in
  filter (fun rc => area_of v alignments rc = Data) (cell_at (side v) <$> seq 0 (side v * (side v - 1))).

(** ** The code words *)

(** Error correction code words in a block, and the number of blocks. *)
Definition blocks_M (v : nat) : nat * nat :=
  match v with
  | 1 => (10, 1) | 2 => (16, 1) | 3 => (26, 1) | 4 => (18, 2) | 5 => (24, 2) | 6 => (16, 4) | 7 => (18, 4) | 8 => (22, 4)
  | 9 => (22, 5) | 10 => (26, 5) | 11 => (30, 5) | 12 => (22, 8) | 13 => (22, 9) | 14 => (24, 9) | 15 => (24, 10)
  | _ => (0, 1)
  end.

(** Where block [b] of [count] stands in a stream with [total] data code words: the short
    blocks come first, and the last column has the long ones only. *)
Definition data_places (total count b : nat) : list nat :=
  let short := total / count in
  let shorts := count - total mod count in
  ((fun i => i * count + b) <$> seq 0 short) ++ (if b <? shorts then [] else [short * count + (b - shorts)]).

Definition ec_places (total count ec b : nat) : list nat := (fun i => total + i * count + b) <$> seq 0 ec.

(** The product in GF(256), modulo 0x11D. *)
Definition mul (a b : Z) : Z :=
  gf2_mod 285 8 (foldl (fun acc k => if Z.testbit b (Z.of_nat k) then Z.lxor acc (Z.shiftl a (Z.of_nat k)) else acc) 0%Z (seq 0 8)).

Definition evaluate (x : Z) (p : list Z) : Z := foldl (fun acc c => Z.lxor (mul acc x) c) 0%Z p.

(** A block is a code word: its syndromes are zero. *)
Definition intact (ec : nat) (block : list Z) : bool :=
  forallb (fun i => (evaluate (Nat.iter i (mul 2) 1%Z) block =? 0)%Z) (seq 0 ec).

(** The data code words of a stream whose blocks are all intact. *)
Definition data_of (v : nat) (stream : list Z) : option (list Z) :=
  let (ec, count) := blocks_M v in
  let total := length stream - ec * count in
  let data := (fun b => byte_at stream <$> data_places total count b) <$> seq 0 count in
  let ecs := (fun b => byte_at stream <$> ec_places total count ec b) <$> seq 0 count in
  if forallb (intact ec) (zip_with app data ecs) then Some (concat data) else None.

(** Byte mode, the count, and as many bytes. *)
Definition message (v : nat) (data : list Z) : option string :=
  let bits := concat ((fun c => (fun i => Z.b2z (Z.testbit c (Z.of_nat (7 - i)))) <$> seq 0 8) <$> data) in
  let width := if v <? 10 then 8 else 16 in
  let count := Z.to_nat (bits_value (take width (drop 4 bits))) in
  if (bits_value (take 4 bits) =? 4)%Z && (8 * count <=? length bits - (4 + width))
  then Some (utf8_text (read_bytes count (drop width (drop 4 bits)))) else None.

(** ** The reader *)

Definition read (matrix : list (list bool)) : option string :=
  let n := length matrix in
  let v := (n - 17) / 4 in
  let px := fun rc : nat * nat => dark matrix rc.1 rc.2 in
  if (n =? side v) && (1 <=? v) && (v <=? 15) && forallb (fun row => length row =? n) matrix &&
     frame_shown v px && version_shown v px
  then
    m ← format_of n px;
    let bits := (fun rc => Z.b2z (xorb (px rc) (mask m rc.1 rc.2))) <$> data_cells v in
    data_of v (read_bytes (length bits / 8) bits) ≫= message v
  else None.

End Standard.

Import Standard.

(** ** The encoder against the standard, version by version *)

(** The function patterns and the words, before any data. *)
Definition skeleton (v m : nat) : Grid := drawVersion (drawFormat (base_grid v) m) v.

Definition seen (g : Grid) (rc : nat * nat) : bool := (at_ g rc.1 rc.2 =? 1)%Z.

Definition patterns_check (v : nat) : bool :=
  let fixed := frame v in
  forallb (fun m =>
    let g := skeleton v m in
    forallb (fun x => Bool.eqb (seen g x.1) x.2) fixed && version_shown v (seen g) &&
    bool_decide (format_of (side v) (seen g) = Some m)) (seq 0 8).

Lemma patterns_ok : forallb patterns_check (seq 1 15) = true.
Proof. vm_compute. reflexivity. Qed.

Definition areas_check (v : nat) : bool :=
  let alignments := alignment_centres v in
  let g := base_grid v in
  forallb (fun rc => Bool.eqb (fn_at g rc.1 rc.2) (match area_of v alignments rc with Data => false | _ => true end)) (square (side v)).

Lemma areas_ok : forallb areas_check (seq 1 15) = true.
Proof. vm_compute. reflexivity. Qed.

Lemma orders_ok : (fun v => zigzag (side v)) <$> seq 1 15 = (fun v => cell_at (side v) <$> seq 0 (side v * (side v - 1))) <$> seq 1 15.
Proof. vm_compute. reflexivity. Qed.

Lemma tables_agree : (fun v => (blocks_M v, length (data_cells v) / 8)) <$> seq 1 15 =
  (fun v => ((EC_M v).1, length (block_sizes v), total_codewords v)) <$> seq 1 15.
Proof. vm_compute. reflexivity. Qed.

(** The data code words of each block stand where the reader looks for them, and the
    blocks are all of the data. *)
Lemma streams_ok : (fun v => (fun b => (fun pos => sending_order v !! pos) <$> data_places (dataCodewords v) (length (block_sizes v)) b)
    <$> seq 0 (length (block_sizes v))) <$> seq 1 15 =
  (fun v => fmap Some <$> split_blocks (block_sizes v) (seq 0 (dataCodewords v))) <$> seq 1 15.
Proof. vm_compute. reflexivity. Qed.

Lemma blocks_whole : (fun v => concat (split_blocks (block_sizes v) (seq 0 (dataCodewords v)))) <$> seq 1 15 =
  (fun v => seq 0 (dataCodewords v)) <$> seq 1 15.
Proof. vm_compute. reflexivity. Qed.

(** The arithmetic. *)
Lemma products_ok : forallb (fun a => forallb (fun b => (mul (Z.of_nat a) (Z.of_nat b) =? gfMul (Z.of_nat a) (Z.of_nat b))%Z) (seq 0 256)) (seq 0 256) = true.
Proof. vm_compute. reflexivity. Qed.

Lemma powers_ok : forallb (fun i => (Nat.iter i (mul 2) 1 =? byte_at EXP i)%Z) (seq 0 255) = true.
Proof. vm_compute. reflexivity. Qed.

Lemma mul_gf a b : is_byte a -> is_byte b -> mul a b = gfMul a b.
Proof.
  unfold is_byte. intros Ha Hb. pose proof (forallb_seq _ _ _ (Z.to_nat a) products_ok ltac:(lia)) as H1. cbv beta in H1.
  pose proof (forallb_seq _ _ _ (Z.to_nat b) H1 ltac:(lia)) as H2. cbv beta in H2. rewrite !Z2Nat.id in H2 by lia. by apply Z.eqb_eq.
Qed.

Lemma evaluate_horner x p : is_byte x -> Forall is_byte p -> evaluate x p = poly_eval p x.
Proof.
  intros Hx Hp. unfold evaluate, poly_eval, horner.
  assert (H : forall acc, is_byte acc -> foldl (fun acc c => Z.lxor (mul acc x) c) acc p = foldl (fun acc c => Z.lxor (gfMul acc x) c) acc p).
  { induction Hp as [|c p Hc Hp IH]; intros acc Ha; [done|]. cbn [foldl]. rewrite mul_gf by done. by apply IH, lxor_byte; [apply gf_byte|]. }
  apply H, is_byte_0.
Qed.

Lemma encoded_block_intact n data : n <= 255 -> Forall is_byte data -> intact n (data ++ rsEncode data n) = true.
Proof.
  intros Hn Hd. destruct (encode_shape data n Hn Hd) as (_ & Hb & Hz). unfold intact. apply forallb_forall.
  intros i [_ Hi]%in_seq. pose proof (forallb_seq _ _ _ i powers_ok ltac:(lia)) as Hp. apply Z.eqb_eq in Hp. rewrite Hp.
  rewrite evaluate_horner; [|apply exp_byte; lia|by apply Forall_app]. rewrite Hz by lia. done.
Qed.

(** ** A stream is read as what was put into it *)

Lemma places_read (so : list nat) (data ec : list Z) (ps js : list nat) : (fun pos => so !! pos) <$> ps = Some <$> js ->
  byte_at ((byte_at data <$> so) ++ ec) <$> ps = byte_at data <$> js.
Proof.
  revert js. induction ps as [|pos ps IH]; intros [|j js] He; try done. cbn in He |- *. injection He as Hj He. rewrite (IH js He). f_equal.
  unfold byte_at at 1. rewrite lookup_app_l by (rewrite length_fmap; by eapply lookup_lt_Some). by rewrite list_lookup_fmap, Hj.
Qed.

Lemma places_read_all (so : list nat) (data ec : list Z) (P : nat -> list nat) (bs : list nat) (sb : list (list nat)) :
  (fun b => (fun pos => so !! pos) <$> P b) <$> bs = fmap Some <$> sb ->
  (fun b => byte_at ((byte_at data <$> so) ++ ec) <$> P b) <$> bs = fmap (byte_at data) <$> sb.
Proof.
  revert sb. induction bs as [|b bs IH]; intros [|js sb] He; try done. cbn in He |- *. injection He as Hj He. rewrite (IH sb He). f_equal.
  by apply places_read.
Qed.

Lemma interleave_ec_at n (ecs : list (list Z)) i b : i < n -> b < length ecs ->
  interleave_ec n ecs !! (i * length ecs + b) = (fun e => byte_at e i) <$> ecs !! b.
Proof.
  unfold interleave_ec. intros Hi Hb.
  assert (H : forall s, concat ((fun i => (fun ec => byte_at ec i) <$> ecs) <$> seq s n) !! (i * length ecs + b) = (fun e => byte_at e (s + i)) <$> ecs !! b).
  { revert i Hi. induction n as [|n IH]; intros i Hi s; [lia|]. cbn [seq fmap list_fmap concat]. destruct i as [|i].
    - rewrite lookup_app_l by (rewrite length_fmap; lia). by rewrite list_lookup_fmap, Nat.add_0_r.
    - rewrite lookup_app_r by (rewrite length_fmap; lia). rewrite length_fmap.
      replace (S i * length ecs + b - length ecs) with (i * length ecs + b) by lia. rewrite IH by lia.
      by replace (S s + i) with (s + S i) by lia. }
  apply (H 0).
Qed.

Lemma concat_fmap {A B} (f : A -> B) (ls : list (list A)) : concat ((fmap f : list A -> list B) <$> ls) = f <$> concat ls.
Proof. induction ls as [|l ls IH]; [done|]. cbn [fmap list_fmap concat]. by rewrite fmap_app, IH. Qed.

Section stream.
Context (v : nat) (bytes : list Z).
Hypothesis Hv : 1 <= v <= 15.
Hypothesis Hf : fits (length bytes) v = true.
Hypothesis Hb : Forall is_byte bytes.
Notation data := (data_codewords bytes v).
Notation blocks := (split_blocks (block_sizes v) data).
Notation count := (length (block_sizes v)).
Notation ecLen := ((EC_M v).1).
Notation stream := (makeCodewords bytes v).

Lemma data_length : length data = dataCodewords v.
Proof. by destruct (data_codewords_spec bytes v Hf) as (_ & _ & Hl). Qed.

Lemma blocks_by_position : blocks = (fmap (byte_at data) : list nat -> list Z) <$> split_blocks (block_sizes v) (seq 0 (dataCodewords v)).
Proof. rewrite <- (by_position data) at 1. rewrite data_length. apply split_blocks_fmap. Qed.

Lemma blocks_count : length blocks = count.
Proof.
  rewrite blocks_by_position, length_fmap. pose proof (fmap_seq_eq _ _ v order_sizes Hv) as Ho. cbv beta in Ho. injection Ho as _ Ho. exact Ho.
Qed.

Lemma stream_eq : stream = (byte_at data <$> sending_order v) ++ interleave_ec ecLen ((fun d => rsEncode d ecLen) <$> blocks).
Proof. unfold makeCodewords. f_equal. rewrite blocks_by_position. unfold sending_order. by rewrite interleave_fmap. Qed.

Lemma data_read : (fun b => byte_at stream <$> data_places (dataCodewords v) count b) <$> seq 0 count = blocks.
Proof.
  rewrite stream_eq, blocks_by_position. apply places_read_all. exact (fmap_seq_eq _ _ v streams_ok Hv).
Qed.

Lemma block_bytes b : b ∈ blocks -> Forall is_byte b.
Proof.
  intros Hin. apply Forall_forall. intros x Hx. pose proof (data_codewords_bytes bytes v Hf) as Hd.
  rewrite Forall_forall in Hd. eapply Hd, split_blocks_elem; eauto.
Qed.

Lemma ec_length : ecLen <= 255.
Proof. pose proof (forallb_seq _ _ _ v ec_lengths ltac:(lia)) as H. by apply Nat.leb_le in H. Qed.

Lemma ec_read : (fun b => byte_at stream <$> ec_places (dataCodewords v) count ecLen b) <$> seq 0 count =
  (fun d => rsEncode d ecLen) <$> blocks.
Proof.
  set (ecs := (fun d => rsEncode d ecLen) <$> blocks).
  assert (Hc : length ecs = count) by (unfold ecs; by rewrite length_fmap, blocks_count).
  assert (Hso : length (byte_at data <$> sending_order v) = dataCodewords v).
  { rewrite length_fmap. pose proof (fmap_seq_eq _ _ v order_sizes Hv) as Ho. cbv beta in Ho. injection Ho as Ho _. exact Ho. }
  apply list_eq. intros b. rewrite list_lookup_fmap. destruct (decide (b < count)) as [Hlt|Hge].
  2:{ rewrite (lookup_ge_None_2 ecs) by lia. by rewrite lookup_seq_ge by lia. }
  rewrite lookup_seq_lt by done. destruct (lookup_lt_is_Some_2 ecs b ltac:(lia)) as [e He]. rewrite He. cbn. f_equal.
  assert (Hle : length e = ecLen).
  { unfold ecs in He. rewrite list_lookup_fmap in He. destruct (blocks !! b) as [d|] eqn:Hd; [|done]. injection He as <-.
    apply encode_shape; [apply ec_length|]. by eapply block_bytes, list_elem_of_lookup_2. }
  rewrite <- (by_position e), Hle. unfold ec_places. rewrite <- list_fmap_compose. apply list_fmap_ext. intros k i Hi. cbn.
  apply lookup_seq in Hi as [-> Hi]. cbn. rewrite stream_eq. fold ecs. unfold byte_at at 1.
  rewrite lookup_app_r by lia. rewrite Hso. replace (dataCodewords v + k * count + b - dataCodewords v) with (k * length ecs + b) by lia.
  by rewrite interleave_ec_at, He by lia.
Qed.

Lemma stream_read : data_of v stream = Some data.
Proof.
  pose proof (fmap_seq_eq _ _ v tables_agree Hv) as Ht. cbv beta in Ht. injection Ht as Ht _.
  unfold data_of. rewrite Ht, (length_makeCodewords bytes v Hv Hf). unfold total_codewords.
  replace (dataCodewords v + ecLen * count - ecLen * count) with (dataCodewords v) by lia.
  rewrite data_read, ec_read.
  replace (forallb _ _) with true.
  - f_equal. rewrite blocks_by_position, concat_fmap. pose proof (fmap_seq_eq _ _ v blocks_whole Hv) as Hw. cbv beta in Hw.
    by rewrite Hw, <- data_length, by_position.
  - symmetry. apply forallb_forall. intros x Hx%list_elem_of_In.
    assert (Hz : exists d, d ∈ blocks /\ x = d ++ rsEncode d ecLen).
    { clear -Hx. induction blocks as [|d l IH]; [by apply not_elem_of_nil in Hx|]. cbn in Hx.
      apply elem_of_cons in Hx as [->|Hx]; [exists d; split; [by left|done]|]. destruct (IH Hx) as (d' & Hd & ->). exists d'. split; [by right|done]. }
    destruct Hz as (d & Hd & ->). apply encoded_block_intact; [apply ec_length|by apply block_bytes].
Qed.

Lemma bits_unpack l : concat ((fun c => (fun i => Z.b2z (Z.testbit c (Z.of_nat (7 - i)))) <$> seq 0 8) <$> l) = unpack l.
Proof.
  unfold unpack. f_equal. apply list_fmap_ext. intros _ c _. unfold value_bits. cbn.
  assert (H : forall k, Z.b2z (Z.testbit c k) = Z.land (Z.shiftr c k) 1).
  { intros k. rewrite land_1_bit, <- Z.bit0_mod, Z.shiftr_spec by lia. done. }
  repeat f_equal; apply H.
Qed.

Lemma message_read : message v data = Some (utf8_text bytes).
Proof.
  destruct (data_codewords_spec bytes v Hf) as (rest & Hu & Hl). unfold message. rewrite bits_unpack.
  replace (if v <? 10 then 8 else 16) with (countBits v)
    by (unfold countBits; destruct (Nat.leb_spec v 9), (Nat.ltb_spec v 10); lia).
  assert (Hlen : 8 * length bytes + 4 + countBits v <= length (unpack data)).
  { rewrite length_unpack, Hl. unfold fits in Hf. apply Nat.leb_le in Hf. lia. }
  rewrite Hu in Hlen |- *. unfold header in *. rewrite <- !app_assoc in *.
  rewrite (take_app_length' (value_bits 4 4)), (drop_app_length' (value_bits 4 4)) by done.
  rewrite (take_app_length' (value_bits _ _)), (drop_app_length' (value_bits _ _)) by (by rewrite length_value_bits).
  rewrite bits_value_value, bits_value_value. change (4 mod 2 ^ Z.of_nat 4)%Z with 4%Z.
  rewrite Z.mod_small by (split; [lia|by apply count_fits]). rewrite Nat2Z.id.
  rewrite (proj2 (Nat.leb_le _ _)) by lia. cbn [Z.eqb Pos.eqb andb]. by rewrite read_bytes_unpack.
Qed.

End stream.

(** ** A drawn symbol, seen by the reader *)

Lemma even_mod x : Nat.even x = (x mod 2 =? 0).
Proof.
  apply eq_true_iff_eq. rewrite Nat.even_spec, Nat.eqb_eq. unfold Nat.Even. split.
  - intros [k ->]. rewrite Nat.mul_comm. by apply Nat.Div0.mod_mul.
  - intros Hx. exists (x / 2). pose proof (Nat.div_mod_eq x 2). lia.
Qed.

Lemma masks_agree m r c : MASKS m r c = mask m r c.
Proof.
  destruct m as [|[|[|[|[|[|[|m]]]]]]]; cbn [MASKS mask]; rewrite ?even_mod; try done.
  by destruct ((r * c) mod 2), ((r * c) mod 3).
Qed.

Lemma filter_ext_in {A} (P Q : A -> Prop) `{!forall x, Decision (P x), !forall x, Decision (Q x)} (l : list A) :
  (forall x, x ∈ l -> P x <-> Q x) -> filter P l = filter Q l.
Proof.
  induction l as [|x l IH]; intros Heq; [done|]. rewrite !filter_cons, (IH (fun y Hy => Heq y (list_elem_of_further _ _ _ Hy))).
  pose proof (Heq x ltac:(by left)). do 2 case_decide; tauto.
Qed.

Lemma elem_square n rc : rc ∈ square n <-> rc.1 < n /\ rc.2 < n.
Proof.
  unfold square. rewrite list_elem_of_bind. split.
  - intros (r & (c & -> & Hc)%list_elem_of_fmap & Hr). apply elem_of_seq in Hc, Hr. cbn. lia.
  - intros [Hr Hc]. exists rc.1. split; [|apply elem_of_seq; lia]. apply list_elem_of_fmap. exists rc.2. split; [by destruct rc|]. apply elem_of_seq. lia.
Qed.

(** The cells of the words are function modules. *)
Definition word_cells (v : nat) : list (nat * nat) :=
  highest_first 15 format_cell1 ++ highest_first 15 (format_cell2 (side v)) ++
  if v <? 7 then [] else
    highest_first 18 (fun i => (i / 3, side v - 11 + i mod 3)) ++ highest_first 18 (fun i => (side v - 11 + i mod 3, i / 3)).

Lemma word_cells_ok : forallb (fun v => forallb (fun rc => fn_at (base_grid v) rc.1 rc.2 && in_grid (side v) rc) (word_cells v)) (seq 1 15) = true.
Proof. vm_compute. reflexivity. Qed.

Lemma word_ext (px px' : nat * nat -> bool) cells : (forall rc, rc ∈ cells -> px rc = px' rc) -> word px cells = word px' cells.
Proof.
  intros He. unfold word. f_equal. apply list_fmap_ext. intros i rc Hi. by rewrite (He rc) by (by eapply list_elem_of_lookup_2).
Qed.

Lemma cells_agree v (Hv : 1 <= v <= 15) : data_cells v = free (base_grid v) (zigzag (side v)).
Proof.
  unfold data_cells, free. pose proof (fmap_seq_eq _ _ v orders_ok Hv) as Ho. cbv beta in Ho. rewrite <- Ho. apply filter_ext_in.
  intros rc Hin. pose proof (zigzag_in_grid v Hv) as Hz. rewrite Forall_forall in Hz. specialize (Hz rc Hin).
  pose proof (forallb_seq _ _ _ v areas_ok ltac:(lia)) as Hareas. unfold areas_check in Hareas.
  pose proof (forallb_elem _ _ rc Hareas ltac:(by apply elem_square)) as Hfn. cbv beta in Hfn. apply eqb_prop in Hfn. rewrite Hfn.
  by destruct (area_of _ _ _).
Qed.

Section symbol.
Context (v m : nat) (codewords : list Z).
Hypothesis Hv : 1 <= v <= 15.
Hypothesis Hm : m < 8.
Notation base := (placeData (base_grid v) codewords).
Notation final := (tryMask base v m).
Notation matrix := ((fun row : list Z => (fun x => (x =? 1)%Z) <$> row) <$> modules final).
Notation px := (fun rc : nat * nat => dark matrix rc.1 rc.2).

(** A function module shows what was drawn before the data and the mask. *)
Lemma function_module rc : rc.1 < side v -> rc.2 < side v -> fn_at (base_grid v) rc.1 rc.2 = true -> px rc = seen (skeleton v m) rc.
Proof.
  intros Hr Hc Hfn. pose proof (layout_of v Hv) as L. unfold seen. cbv beta.
  rewrite (dark_final v m codewords Hv) by done. destruct (final_facts v m codewords Hv rc.1 rc.2 Hr Hc) as (_ & _ & ->).
  destruct (base_facts v codewords Hv) as (Hd & Hs & Hf & _).
  rewrite at_applyMask by (rewrite ?Hs; done). unfold fn_at at 1. rewrite Hf. fold (fn_at (base_grid v) rc.1 rc.2). rewrite Hfn. cbn [negb andb].
  assert (Hb : at_ base rc.1 rc.2 = at_ (base_grid v) rc.1 rc.2).
  { unfold placeData. rewrite (lay_size v L).
    destruct (place_loop (codeword_bits codewords) (base_grid v) (zigzag (side v))) as (_ & _ & _ & _ & _ & H6).
    - apply L.
    - by apply zigzag_nodup.
    - rewrite (lay_size v L). by apply zigzag_in_grid.
    - apply H6. intros Hin. apply list_elem_of_filter in Hin as [Hin _]. cbn [fst snd] in Hin. congruence. }
  rewrite Hb. unfold skeleton, drawVersion, drawFormat.
  assert (Hin : Forall (fun w => w.1.1 < v * 4 + 17 /\ w.1.2 < v * 4 + 17) (format_writes (v * 4 + 17) m ++ version_writes (v * 4 + 17) v)).
  { eapply Forall_impl; [apply (lay_words v L m)|]. tauto. }
  pose proof Hin as [Hin1 Hin2]%Forall_app. rewrite (lay_size v L).
  destruct (at_assign (base_grid v) (format_writes (v * 4 + 17) m) rc.1 rc.2) as (_ & H2 & _); [apply L|by rewrite (lay_size v L)|].
  rewrite H2, (lay_size v L), <- assign_app.
  destruct (at_assign (base_grid v) (format_writes (v * 4 + 17) m ++ version_writes (v * 4 + 17) v) rc.1 rc.2) as (_ & _ & ->);
    [apply L|by rewrite (lay_size v L)|done].
Qed.

Lemma in_frame x : x ∈ frame v -> x.1.1 < side v /\ x.1.2 < side v /\ fn_at (base_grid v) x.1.1 x.1.2 = true.
Proof.
  unfold frame. intros Hx. apply list_elem_of_omap in Hx as (rc & Hin & Ha).
  assert (Hrc : x.1 = rc /\ area_of v (alignment_centres v) rc = Fixed x.2) by (by destruct (area_of _ _ _); simplify_eq).
  destruct Hrc as [-> Hfix]. pose proof (forallb_seq _ _ _ v areas_ok ltac:(lia)) as Hareas. unfold areas_check in Hareas.
  pose proof (forallb_elem _ _ _ Hareas Hin) as Hfn. cbv beta in Hfn. rewrite Hfix in Hfn. apply eqb_prop in Hfn.
  apply elem_square in Hin. tauto.
Qed.

#[local] Opaque skeleton.

Lemma words_seen cells : (forall rc, rc ∈ cells -> rc ∈ word_cells v) -> word px cells = word (seen (skeleton v m)) cells.
Proof.
  intros Hin. apply word_ext. intros rc Hrc. pose proof (forallb_seq _ _ _ v word_cells_ok ltac:(lia)) as Hw. cbv beta in Hw.
  pose proof (forallb_elem _ _ _ Hw (Hin rc Hrc)) as Hb. cbv beta in Hb. unfold in_grid in Hb. rewrite !andb_true_iff, !Nat.ltb_lt in Hb.
  apply function_module; tauto.
Qed.

Lemma patterns_seen : frame_shown v px = true /\ version_shown v px = true /\ format_of (side v) px = Some m.
Proof.
  pose proof (forallb_seq _ _ _ v patterns_ok ltac:(lia)) as Hp. unfold patterns_check in Hp.
  pose proof (forallb_seq _ _ _ m Hp ltac:(lia)) as Hs. cbv beta in Hs. rewrite !andb_true_iff, bool_decide_eq_true in Hs.
  destruct Hs as [[Hframe Hversion] Hformat]. split_and!.
  - unfold frame_shown. apply forallb_forall. intros x Hx%list_elem_of_In. destruct (in_frame x Hx) as (Hr & Hc & Hfn).
    rewrite (function_module x.1 Hr Hc Hfn). exact (forallb_elem _ _ _ Hframe Hx).
  - revert Hversion. unfold version_shown. destruct (v <? 7) eqn:H7; [done|]. cbn [orb forallb].
    rewrite <- (words_seen (highest_first 18 (fun i => (i / 3, side v - 11 + i mod 3)))),
      <- (words_seen (highest_first 18 (fun i => (side v - 11 + i mod 3, i / 3)))); [exact id|..];
      intros rc Hrc; unfold word_cells; rewrite H7, !elem_of_app; tauto.
  - rewrite <- Hformat. unfold format_of.
    rewrite <- (words_seen (highest_first 15 format_cell1)), <- (words_seen (highest_first 15 (format_cell2 (side v)))); [reflexivity|..];
      intros rc Hrc; unfold word_cells; rewrite !elem_of_app; tauto.
Qed.

End symbol.

(** What the encoder draws, the standard's reader reads. *)
Lemma encoded_matrix_reads (text : string) (forceMask : option nat) matrix :
  (forall m, forceMask = Some m -> m < 8) -> encode text forceMask = Ok matrix -> read matrix = Some text.
Proof.
  intros Hmask He. unfold encode in He. set (bytes := utf8_bytes text) in *.
  destruct (pickVersion (length bytes)) as [v|e] eqn:Hp; [|done]. injection He as <-.
  apply pick_spec in Hp as (Hv & Hf & _). unfold encode_bytes. change (placeFunctionPatterns (newGrid v) v) with (base_grid v).
  set (m := match forceMask with Some m => m | None => _ end).
  assert (Hm : m < 8) by (unfold m; destruct forceMask; [by apply Hmask|apply best_mask_range]).
  clearbody m. set (cw := makeCodewords bytes v).
  pose proof (length_makeCodewords bytes v Hv Hf) as Hl. fold cw in Hl.
  destruct (final_facts v m cw Hv 0 0 ltac:(lia) ltac:(lia)) as ([Hrows Hcols] & Hs & _).
  destruct (patterns_seen v m cw Hv Hm) as (Hframe & Hversion & Hformat).
  unfold read. rewrite (matrix_size v m cw Hv) by done. replace ((v * 4 + 17 - 17) / 4) with v by (rewrite Nat.add_sub, Nat.div_mul by lia; done).
  change (v * 4 + 17) with (side v). rewrite Nat.eqb_refl, (proj2 (Nat.leb_le 1 v)), (proj2 (Nat.leb_le v 15)), Hframe, Hversion by lia.
  replace (forallb _ _) with true.
  2:{ symmetry. apply forallb_forall. intros row Hrow%list_elem_of_In. apply list_elem_of_fmap in Hrow as (row' & -> & Hrow).
      rewrite Forall_forall in Hcols. rewrite length_fmap, (Hcols row' Hrow), Hs. apply Nat.eqb_refl. }
  cbn [andb]. rewrite Hformat. cbn [mbind option_bind].
  destruct (bits_shown v m cw Hv Hm Hl) as [rest Hbits].
  pose proof (fmap_seq_eq _ _ v tables_agree Hv) as Ht. apply (f_equal snd) in Ht. cbn [snd] in Ht.
  rewrite length_fmap, Ht, (cells_agree v Hv).
  match goal with |- context [read_bytes _ ?l] => replace l with (unpack cw ++ rest) end.
  - rewrite <- Hl, read_bytes_unpack by (by apply makeCodewords_bytes). unfold cw. rewrite stream_read by done. cbn [mbind option_bind].
    rewrite message_read by (done || apply utf8_bytes_range). unfold bytes. by rewrite utf8_text_bytes.
  - rewrite <- Hbits. apply list_fmap_ext. intros k rc _. rewrite masks_agree. by destruct (xorb _ _).
Qed.

(** *** The second copy of the format word *)

(** Its bit 7 belongs at row 8, eight columns from the right; the encoder draws it on the
    module that is always dark instead, and leaves its place light. *)
Lemma second_copies : forallb (fun v => forallb (fun m =>
    (word (seen (skeleton v m)) (highest_first 15 (format_cell2 (side v))) =? Z.clearbit (formatBits m) 7)%Z) (seq 0 8)) (seq 1 15) = true.
Proof. vm_compute. reflexivity. Qed.

(** So it is wrong in that bit under the masks 4 to 7. *)
Lemma second_copy_is_wrong : (fun m => Z.clearbit (formatBits m) 7 =? formatBits m)%Z <$> seq 0 8 =
  [true; true; true; true; false; false; false; false].
Proof. vm_compute. reflexivity. Qed.

(** C24. Every text the encoder accepts is read back from its matrix, whatever mask is forced or
    chosen, by a reader written from the standard alone.  The reader takes the version from
    the size; requires every module of the finders, their separators, the timing and the
    alignment patterns and the dark module to have its colour; from version 7 on requires
    both version words to be code words that name the version; requires the first format
    word to be a code word for the level M, and the second to be that word up to the three
    errors its code corrects ([second_copies] is the one it can have); undoes the mask it names; follows the
    standard's path through the data modules and takes the blocks apart by the standard's
    table; requires every block to be a Reed-Solomon code word; and reads byte mode, the count
    and the bytes.  The encoder accepts exactly the texts of at most 412 bytes. *)
Theorem qr_reads_back (text : string) (forceMask : option nat) (Hmask : forall m, forceMask = Some m -> m < 8) :
  (forall matrix, encode text forceMask = Ok matrix -> read matrix = Some text) /\
  ((exists matrix, encode text forceMask = Ok matrix) <-> length (utf8_bytes text) <= 412).
Proof. split; [intros matrix; by apply encoded_matrix_reads|apply encode_accepts]. Qed.

Lemma qr_reads_back_witness :
  (forall m, Some 3 = Some m -> m < 8) /\
  exists matrix, encode "eyJ2IjoxfQ_-" (Some 3) = Ok matrix /\ length matrix = 21 /\ read matrix = Some "eyJ2IjoxfQ_-".
Proof.
  assert (Hm : forall m, Some 3 = Some m -> m < 8) by (intros m [= <-]; lia).
  destruct (qr_reads_back "eyJ2IjoxfQ_-" (Some 3) Hm) as (Hread & _).
  split; [exact Hm|]. eexists. split; [reflexivity|]. split; [vm_compute; reflexivity|]. apply Hread. reflexivity.
Defined.

(** The reader is not content with a symbol in which one module of a pattern, of the format
    word or of the data is changed. *)
Definition flip (r c : nat) (matrix : list (list bool)) : list (list bool) := alter (alter negb c) r matrix.

Lemma damaged_symbols_are_refused :
  match encode "eyJ2IjoxfQ_-" (Some 5) with
  | Ok matrix => (fun rc => read (flip rc.1 rc.2 matrix)) <$> [(0, 3); (7, 7); (6, 10); (13, 8); (8, 2); (20, 20)]
  | Throw _ => []
  end = [None; None; None; None; None; None].
Proof. vm_compute. reflexivity. Qed.
