(* ===== verification/QrRender.v ===== *)
(** * The rendering of a matrix on a terminal

    [renderToTerminal] of [packages/cli/src/qr.ts]: two rows of modules per line of
    half blocks, inside a quiet zone of four modules, on pinned colours; and a reader of
    what a terminal shows.  A glyph is the bytes of its UTF-8 encoding. *)

From S2P Require Import Prelude JsMap Bytes QrField QrCode QrMatrix Framing.

Local Open Scope Z_scope.

Module QrRender.

Definition esc : ascii := "027"%char.

Definition FG_BLACK_BG_WHITE : string := String esc "[38;2;0;0;0;48;2;255;255;255m".
Definition RESET : string := String esc "[0m".

(** [rr >= 0 && rr < matrix.length && cc >= 0 && cc < matrix.length && matrix[rr][cc]] *)
Definition module_at (matrix : list (list bool)) (r c : Z) : bool :=
  let n := Z.of_nat (length matrix) in
  let rr := r - 4 in let cc := c - 4 in
  (0 <=? rr) && (rr <? n) && (0 <=? cc) && (cc <? n) && dark matrix (Z.to_nat rr) (Z.to_nat cc).

Definition glyph (top bot : bool) : string :=
  if top && bot then "█" else if top then "▀" else if bot then "▄" else " ".

(** The modules of the line that starts at row [r]. *)
Definition line_cells (matrix : list (list bool)) (r : nat) : list (bool * bool) :=
  let size := (length matrix + 8)%nat in
  (fun c => (module_at matrix (Z.of_nat r) (Z.of_nat c),
             if (S r <? size)%nat then module_at matrix (Z.of_nat (S r)) (Z.of_nat c) else false)) <$> seq 0 size.

Definition line_text (cells : list (bool * bool)) : string :=
  FG_BLACK_BG_WHITE +:+ foldr (fun tb s => glyph tb.1 tb.2 +:+ s) RESET cells.

(** [for (let r = 0; r < size; r += 2)] *)
Definition render_lines (matrix : list (list bool)) : list string :=
  (fun k => line_text (line_cells matrix (2 * k))) <$> seq 0 ((length matrix + 8 + 1) / 2).

Definition renderToTerminal (matrix : list (list bool)) : string :=
  String.concat (String "010" "") (render_lines matrix).

End QrRender.

Import QrRender.

(** ** What a terminal shows *)

(** The half cells of a line, black where a glyph paints; the colours are read off the
    escape sequences around it. *)
Fixpoint read_glyphs (fuel : nat) (s : string) : option (list (bool * bool)) :=
  match fuel with
  | O => None
  | S fuel' =>
      if decide (s = RESET) then Some [] else
      match s with
      | String " " s' => cons (false, false) <$> read_glyphs fuel' s'
      | String "226" (String "150" (String x s')) =>
          if decide (x = "136"%char) then cons (true, true) <$> read_glyphs fuel' s'
          else if decide (x = "128"%char) then cons (true, false) <$> read_glyphs fuel' s'
          else if decide (x = "132"%char) then cons (false, true) <$> read_glyphs fuel' s'
          else None
      | _ => None
      end
  end.

Definition strip (p s : string) : option string :=
  if String.prefix p s then Some (String.substring (String.length p) (String.length s - String.length p) s) else None.

Definition read_line (s : string) : option (list (bool * bool)) :=
  match strip FG_BLACK_BG_WHITE s with Some rest => read_glyphs (String.length rest) rest | None => None end.

Lemma prefix_app p s : String.prefix p (p +:+ s) = true.
Proof. induction p as [|c p IH]; [by destruct s|]. rewrite string_cons_app. cbn. by destruct (Ascii.ascii_dec c c). Qed.

Lemma substring_app p s n : String.substring (String.length p) n (p +:+ s) = String.substring 0 n s.
Proof. induction p as [|c p IH]; [done|]. rewrite string_cons_app. exact IH. Qed.

Lemma substring_all s : String.substring 0 (String.length s) s = s.
Proof. induction s as [|c s IH]; [done|]. cbn. by rewrite IH. Qed.

Lemma strip_app p s : strip p (p +:+ s) = Some s.
Proof.
  unfold strip. rewrite prefix_app, substring_app, string_length_app.
  replace (String.length p + String.length s - String.length p)%nat with (String.length s) by lia.
  by rewrite substring_all.
Qed.

Lemma read_glyphs_text cells fuel :
  (String.length (foldr (fun tb s => glyph tb.1 tb.2 +:+ s) RESET cells) <= fuel)%nat ->
  read_glyphs fuel (foldr (fun tb s => glyph tb.1 tb.2 +:+ s) RESET cells) = Some cells.
Proof.
  revert fuel. induction cells as [|[t b] cells IH]; intros fuel Hf.
  - destruct fuel as [|fuel]; [cbn in Hf; lia|]. reflexivity.
  - cbn [foldr fst snd] in *. set (rest := foldr _ RESET cells) in *. rewrite string_length_app in Hf.
    destruct fuel as [|fuel]; [destruct t, b; cbn in Hf; lia|].
    specialize (IH fuel). cbn [read_glyphs].
    rewrite decide_False by (destruct t, b; unfold glyph; cbn [andb]; rewrite ?string_cons_app, ?string_nil_app; intros [=]).
    destruct t, b; unfold glyph in *; cbn [andb String.length] in *;
      rewrite ?string_cons_app, ?string_nil_app; cbn -[decide];
      repeat (rewrite decide_True by done || rewrite decide_False by done); by rewrite IH by lia.
Qed.

Lemma read_line_text cells : read_line (line_text cells) = Some cells.
Proof. unfold read_line, line_text. by rewrite strip_app, read_glyphs_text by lia. Qed.

Lemma length_line_cells matrix r : length (line_cells matrix r) = (length matrix + 8)%nat.
Proof. unfold line_cells. by rewrite length_fmap, length_seq. Qed.

Lemma module_at_spec matrix r c :
  module_at matrix (Z.of_nat r) (Z.of_nat c) =
    bool_decide (4 <= r < length matrix + 4 /\ 4 <= c < length matrix + 4)%nat && dark matrix (r - 4) (c - 4).
Proof.
  unfold module_at. replace (Z.to_nat (Z.of_nat r - 4)) with (r - 4)%nat by lia.
  replace (Z.to_nat (Z.of_nat c - 4)) with (c - 4)%nat by lia. f_equal.
  case_bool_decide; lia.
Qed.

(** What the terminal shows at row [r] and column [c] of its half cells. *)
Definition shown_at (lines : list (list (bool * bool))) (r c : nat) : bool :=
  match default [] (lines !! (r / 2)%nat) !! c with
  | Some (top, bot) => if (r mod 2 =? 0)%nat then top else bot
  | None => false
  end.

(** The picture on the terminal is the matrix: every line can be read, and the half
    cell at row [r] and column [c] is black exactly when the module four rows up and
    four columns left is on the matrix and dark; the four modules around the matrix
    are white on every side. *)
Theorem terminal_shows_matrix (matrix : list (list bool)) :
  exists lines, mapM read_line (render_lines matrix) = Some lines /\
    length lines = ((length matrix + 9) / 2)%nat /\
    (forall r c, (r < length matrix + 8)%nat -> (c < length matrix + 8)%nat ->
       shown_at lines r c =
         bool_decide (4 <= r < length matrix + 4 /\ 4 <= c < length matrix + 4)%nat && dark matrix (r - 4) (c - 4)).
Proof.
  exists ((fun k => line_cells matrix (2 * k)) <$> seq 0 ((length matrix + 8 + 1) / 2)). split; [|split].
  - unfold render_lines. induction (seq 0 _) as [|k l IH]; [done|]. cbn [fmap list_fmap mapM].
    by rewrite read_line_text, IH.
  - rewrite length_fmap, length_seq. f_equal. lia.
  - intros r c Hr Hc. unfold shown_at. rewrite list_lookup_fmap, lookup_seq_lt.
    + cbn [fmap option_fmap option_map default from_option]. unfold id. unfold line_cells. rewrite list_lookup_fmap, lookup_seq_lt by done.
      cbn [fmap option_fmap option_map]. rewrite !Nat.add_0_l. pose proof (Nat.div_mod_eq r 2) as Hd.
      pose proof (Nat.mod_upper_bound r 2). rewrite <- module_at_spec. case_match eqn:Hm.
      * apply Nat.eqb_eq in Hm. do 2 f_equal. lia.
      * apply Nat.eqb_neq in Hm. rewrite (proj2 (Nat.ltb_lt _ _)) by lia. do 2 f_equal. lia.
    + pose proof (Nat.div_mod_eq r 2). apply Nat.div_lt_upper_bound; [lia|].
      pose proof (Nat.div_mod_eq (length matrix + 8 + 1) 2). pose proof (Nat.mod_upper_bound (length matrix + 8 + 1) 2). lia.
Qed.
