(* ===== verification/DeviceStore.v ===== *)
(** * The device store of the CLI

    [packages/cli/src/deviceStore.ts]: the device record and [reserveOutSeq], which draws
    a sequence number under a lock file shared by every [cc] process.  A process is the
    point its call has reached; every file operation is one step, and the steps of
    several processes and of the clock interleave freely. *)

From S2P Require Import Prelude JsMap.

Local Open Scope Z_scope.

Module DeviceStore.

Record DeviceRecord : Type := mkDeviceRecord {
  deviceId : string;
  devicePrivateKey : string;
  devicePublicKey : string;
  daemonPublicKey : string;
  outSeq : option Z;
}.

(** The two files and the clock: the lock with its modification time, and the record,
    [None] when the file is missing or does not parse. *)
Record files : Type := mkFiles { clock : Z; lock : option Z; record : option DeviceRecord }.

Definition loadDevice (f : files) : option DeviceRecord := record f.

Definition saveDevice (d : DeviceRecord) (f : files) : files := mkFiles (clock f) (lock f) (Some d).

Definition with_outSeq (seq : Z) (d : DeviceRecord) : DeviceRecord :=
  mkDeviceRecord (deviceId d) (devicePrivateKey d) (devicePublicKey d) (daemonPublicKey d) (Some seq).

(** [rec?.outSeq ?? 0] *)
Definition high_water (r : option DeviceRecord) : Z := match r with Some d => default 0 (outSeq d) | None => 0 end.

(** Where a call of [reserveOutSeq] stands. *)
Inductive pc : Type :=
| Calling
| Opening (deadline : Z)
| Stating (deadline : Z)
| Stealing (deadline : Z)
| Checking (deadline : Z)
| Sleeping (deadline until : Z)
| Loading
| Persisting (next : Z)
| Saving (next : Z) (d : DeviceRecord)
| Unlocking (next : Z)
| Reserved (next : Z)
| Exited.

Definition set_lock (l : option Z) (f : files) : files := mkFiles (clock f) l (record f).

(** The next step of a call; [None] when it sleeps or is over. *)
Definition reserveOutSeq (f : files) (p : pc) : option (files * pc) :=
  match p with
  | Calling => Some (f, Opening (clock f + 5000))
  | Opening deadline =>
      match lock f with
      | None => Some (set_lock (Some (clock f)) f, Loading)
      | Some _ => Some (f, Stating deadline)
      end
  | Stating deadline =>
      match lock f with
      | None => Some (f, Checking deadline)
      | Some mtime => Some (f, if 10000 <? clock f - mtime then Stealing deadline else Checking deadline)
      end
  | Stealing deadline => Some (set_lock None f, Checking deadline)
  | Checking deadline =>
      Some (f, if deadline <? clock f then Exited else Sleeping deadline (clock f + 20))
  | Sleeping deadline until => if until <=? clock f then Some (f, Opening deadline) else None
  | Loading => Some (f, Persisting (high_water (loadDevice f) + 1))
  | Persisting next =>
      match loadDevice f with
      | None => Some (f, Unlocking next)
      | Some d => Some (f, Saving next (with_outSeq next d))
      end
  | Saving next d => Some (saveDevice d f, Unlocking next)
  | Unlocking next => Some (set_lock None f, Reserved next)
  | Reserved _ | Exited => None
  end.

(** Several processes over the same files. *)
Record system : Type := mkSystem { fs : files; procs : list pc }.

Definition run_process (i : nat) (s : system) : option system :=
  match procs s !! i with
  | None => None
  | Some p => match reserveOutSeq (fs s) p with
              | None => None
              | Some (f, p') => Some (mkSystem f (<[i := p']> (procs s)))
              end
  end.

Definition pass (d : Z) (s : system) : system :=
  mkSystem (mkFiles (clock (fs s) + d) (lock (fs s)) (record (fs s))) (procs s).

End DeviceStore.

Import DeviceStore.

(** ** Steps *)

(** A move of one process, or time that passes. *)
Inductive move : Type := Run (i : nat) | Pass (d : Z).

Inductive moves (s : system) : move -> system -> Prop :=
| moves_run i s' : run_process i s = Some s' -> moves s (Run i) s'
| moves_pass d : 0 <= d -> moves s (Pass d) (pass d s).

(** No lock file ever grows older than ten seconds. *)
Definition young (s : system) : Prop := match lock (fs s) with Some t => clock (fs s) - t <= 10000 | None => True end.

Inductive run (ok : system -> Prop) (s0 : system) : list move -> system -> Prop :=
| run_nil : run ok s0 [] s0
| run_snoc ms s m s' : run ok s0 ms s -> moves s m s' -> ok s' -> run ok s0 (ms ++ [m]) s'.

Definition fresh_start (d : DeviceRecord) (n : nat) (t : Z) : system :=
  mkSystem (mkFiles t None (Some d)) (replicate n Calling).

(** The number a call has drawn and recorded. *)
Definition drawn (p : pc) : option Z := match p with Unlocking n | Reserved n => Some n | _ => None end.

Definition in_section (p : pc) : bool :=
  match p with Loading | Persisting _ | Saving _ _ | Unlocking _ => true | _ => false end.

(** ** Numbers are drawn once *)

Definition count_section (ps : list pc) : nat := length (List.filter in_section ps).

(** What the section's owner is about to do, given the numbers drawn so far. *)
Definition section_ok (hw : Z) (p : pc) : Prop :=
  match p with
  | Persisting n => n = hw + 1
  | Saving n d => n = hw + 1 /\ outSeq d = Some n
  | Stealing _ => False
  | _ => True
  end.

Record lock_inv (base : Z) (s : system) : Prop := {
  li_lock : lock (fs s) = None <-> count_section (procs s) = 0%nat;
  li_one : (count_section (procs s) <= 1)%nat;
  li_record : is_Some (record (fs s));
  li_section : Forall (section_ok (high_water (record (fs s)))) (procs s);
  li_count : high_water (record (fs s)) = base + Z.of_nat (length (omap drawn (procs s)));
  li_drawn : omap drawn (procs s) ≡ₚ (fun k => base + 1 + Z.of_nat k) <$> seq 0 (length (omap drawn (procs s)));
}.

Lemma omap_insert (ps : list pc) i p p' : ps !! i = Some p -> drawn p = None ->
  omap drawn (<[i := p']> ps) ≡ₚ match drawn p' with Some n => n :: omap drawn ps | None => omap drawn ps end.
Proof.
  revert i. induction ps as [|q ps IH]; intros [|i] Hi Hd; try done; csimpl in *.
  - injection Hi as ->. rewrite Hd. by destruct (drawn p').
  - destruct (drawn q) as [m|]; [|by apply IH]. rewrite (IH i Hi Hd).
    destruct (drawn p'); [apply Permutation_swap|done].
Qed.

Lemma omap_insert_same (ps : list pc) i p p' : ps !! i = Some p -> drawn p' = drawn p ->
  omap drawn (<[i := p']> ps) = omap drawn ps.
Proof.
  revert i. induction ps as [|q ps IH]; intros [|i] Hi Hd; try done; csimpl in *.
  - injection Hi as ->. by rewrite Hd.
  - by rewrite (IH i Hi Hd).
Qed.

Lemma count_insert (ps : list pc) i p p' : ps !! i = Some p ->
  (count_section (<[i := p']> ps) + (if in_section p then 1 else 0) =
   count_section ps + (if in_section p' then 1 else 0))%nat.
Proof.
  unfold count_section. revert i. induction ps as [|q ps IH]; intros [|i] Hi; try done; csimpl in *.
  - injection Hi as ->. destruct (in_section p), (in_section p'); cbn; lia.
  - specialize (IH i Hi). destruct (in_section q); cbn; lia.
Qed.

(** A process outside the section when it is empty; the only one inside. *)
Lemma section_alone (ps : list pc) i p q j :
  (count_section ps <= 1)%nat -> ps !! i = Some p -> in_section p = true ->
  ps !! j = Some q -> j <> i -> in_section q = false.
Proof.
  intros Hc Hi Hp Hj Hne. destruct (in_section q) eqn:Hq; [|done]. exfalso.
  pose proof (count_insert ps i p Exited Hi) as H1. rewrite Hp in H1. cbn [in_section] in H1.
  assert (Hj' : <[i := Exited]> ps !! j = Some q) by (by rewrite list_lookup_insert_ne).
  pose proof (count_insert _ j q Exited Hj') as H2. rewrite Hq in H2. cbn [in_section] in H2. lia.
Qed.

(** A step that draws nothing and leaves the record alone. *)
Lemma inv_quiet base s i p p' l :
  lock_inv base s -> procs s !! i = Some p -> drawn p' = drawn p ->
  section_ok (high_water (record (fs s))) p' ->
  (l = None <-> count_section (<[i := p']> (procs s)) = 0%nat) ->
  (count_section (<[i := p']> (procs s)) <= 1)%nat ->
  lock_inv base (mkSystem (mkFiles (clock (fs s)) l (record (fs s))) (<[i := p']> (procs s))).
Proof.
  intros [H1 H2 H3 H4 H5 H6] Hi Hd Hs Hl Hc.
  assert (Ho : omap drawn (<[i := p']> (procs s)) = omap drawn (procs s)) by (by eapply omap_insert_same).
  split; cbn [fs procs lock record]; rewrite ?Ho; try done. by apply Forall_insert.
Qed.

Lemma inv_run base s i s' : young s -> lock_inv base s -> run_process i s = Some s' -> lock_inv base s'.
Proof.
  intros Hy Hinv Hrun. unfold run_process in Hrun. destruct (procs s !! i) as [p|] eqn:Hi; [|done].
  pose proof (count_insert (procs s) i p) as Hcount. pose proof Hinv as [H1 H2 H3 H4 H5 H6].
  pose proof (Forall_lookup_1 _ _ _ _ H4 Hi) as Hok.
  destruct s as [[t l r] ps]. cbn [fs procs lock record clock] in *.
  assert (Hq : forall p' l', drawn p' = drawn p -> section_ok (high_water r) p' ->
    (l' = None <-> count_section (<[i := p']> ps) = 0%nat) -> (count_section (<[i := p']> ps) <= 1)%nat ->
    lock_inv base (mkSystem (mkFiles t l' r) (<[i := p']> ps))).
  { intros p' l'. by apply (inv_quiet base (mkSystem (mkFiles t l r) ps) i p p' l'). }
  assert (Hsame : forall p', drawn p' = drawn p -> section_ok (high_water r) p' -> in_section p' = in_section p ->
    lock_inv base (mkSystem (mkFiles t l r) (<[i := p']> ps))).
  { intros p' Hd Hs Hsec. specialize (Hcount p' Hi). rewrite Hsec in Hcount.
    assert (Hc : count_section (<[i := p']> ps) = count_section ps) by lia. apply Hq; rewrite ?Hc; done. }
  destruct p as [|dl|dl|dl|dl|dl u| |n|n d|n|n|]; cbn in Hrun, Hok; try done.
  - injection Hrun as <-. by apply Hsame.
  - destruct l as [mt|]; injection Hrun as <-; [by apply Hsame|].
    specialize (Hcount Loading Hi). cbn in Hcount. destruct H1 as [H1 _]. specialize (H1 eq_refl).
    apply Hq; try done; [|lia]. split; [done|lia].
  - destruct l as [mt|]; injection Hrun as <-; [|by apply Hsame].
    unfold young in Hy. cbn in Hy. rewrite (proj2 (Z.ltb_ge _ _)) by lia. by apply Hsame.
  - injection Hrun as <-. destruct (dl <? t); by apply Hsame.
  - destruct (u <=? t); [|done]. injection Hrun as <-. by apply Hsame.
  - injection Hrun as <-. by apply Hsame.
  - destruct H3 as [d ->]. injection Hrun as <-. by apply Hsame.
  - injection Hrun as <-. destruct Hok as [Hn Hd]. subst n. set (n := high_water r + 1) in *.
    pose proof (omap_insert ps i (Saving n d) (Unlocking n) Hi eq_refl) as Ho. cbn [drawn] in Ho.
    assert (Hlen : length (omap drawn (<[i := Unlocking n]> ps)) = S (length (omap drawn ps))) by (by rewrite Ho).
    specialize (Hcount (Unlocking n) Hi). cbn in Hcount.
    assert (Hhw : high_water (Some d) = n) by (unfold high_water; by rewrite Hd).
    assert (Hc : count_section (<[i := Unlocking n]> ps) = count_section ps) by lia.
    split; cbn [fs procs lock record saveDevice clock]; rewrite ?Hc; [done|done|done| |lia|].
    + apply Forall_lookup. intros j q Hj. destruct (decide (j = i)) as [->|Hne].
      * rewrite list_lookup_insert_eq in Hj by (by eapply lookup_lt_Some). by injection Hj as <-.
      * rewrite list_lookup_insert_ne in Hj by done.
        pose proof (section_alone ps i _ q j H2 Hi eq_refl Hj Hne) as Hout.
        pose proof (Forall_lookup_1 _ _ _ _ H4 Hj) as Hq'. by destruct q.
    + rewrite Hlen, seq_S, fmap_app, Ho. cbn [fmap list_fmap Nat.add]. rewrite <- H6, Permutation_app_comm. cbn [app].
      replace (base + 1 + Z.of_nat (length (omap drawn ps))) with n by (unfold n; lia). done.
  - injection Hrun as <-. specialize (Hcount (Reserved n) Hi). cbn in Hcount. apply Hq; try done; [|lia].
    split; [lia|done].
Qed.

Lemma inv_pass base s d : lock_inv base s -> lock_inv base (pass d s).
Proof. intros [H1 H2 H3 H4 H5 H6]. by split. Qed.

Lemma inv_start d n t : lock_inv (high_water (Some d)) (fresh_start d n t).
Proof.
  assert (Ho : omap drawn (replicate n Calling) = []) by (induction n as [|k IH]; [done|exact IH]).
  assert (Hc : count_section (replicate n Calling) = 0%nat) by (clear; induction n as [|k IH]; [done|exact IH]).
  unfold fresh_start. split; cbn [fs procs lock record]; rewrite ?Ho, ?Hc; cbn [length]; try done; try lia.
  by apply Forall_replicate.
Qed.

Lemma run_inv d n t ms s : run young (fresh_start d n t) ms s -> lock_inv (high_water (Some d)) s.
Proof.
  induction 1 as [|ms s m s' Hr IH Hm Hy]; [apply inv_start|].
  assert (Hys : young s) by (destruct Hr; [done|done]).
  destruct Hm as [i s' Hrun|dt Hdt]; [by eapply inv_run|by apply inv_pass].
Qed.

(** C25. As long as no lock file grows older than ten seconds, any number of concurrent
    calls draws the numbers after the recorded one, each exactly once and without a
    gap, and the record always holds the last one drawn; at most one process is in the
    critical section, and the lock file exists exactly while one is. *)
Theorem numbers_drawn_once (d : DeviceRecord) (n : nat) (t : Z) (ms : list move) (s : system)
    (Hr : run young (fresh_start d n t) ms s) :
  let hw := high_water (Some d) in
  omap drawn (procs s) ≡ₚ (fun k => hw + 1 + Z.of_nat k) <$> seq 0 (length (omap drawn (procs s))) /\
  high_water (record (fs s)) = hw + Z.of_nat (length (omap drawn (procs s))) /\
  (count_section (procs s) <= 1)%nat /\
  (lock (fs s) = None <-> count_section (procs s) = 0%nat).
Proof. by destruct (run_inv d n t ms s Hr). Qed.

Fixpoint play (ms : list move) (s : system) : option system :=
  match ms with
  | [] => Some s
  | Run i :: ms' => match run_process i s with Some s' => play ms' s' | None => None end
  | Pass d :: ms' => if 0 <=? d then play ms' (pass d s) else None
  end.

(** Every state of a played list of moves. *)
Fixpoint along (P : system -> bool) (ms : list move) (s : system) : bool :=
  match ms with
  | [] => true
  | Run i :: ms' => match run_process i s with Some s' => P s' && along P ms' s' | None => false end
  | Pass d :: ms' => P (pass d s) && along P ms' (pass d s)
  end.

Lemma moves_app ok s0 ms s ms' s' : run ok s0 ms s -> run ok s ms' s' -> run ok s0 (ms ++ ms') s'.
Proof.
  intros H1 H2. induction H2 as [|ms' s1 m s2 H2 IH Hm Hok]; [by rewrite app_nil_r|].
  rewrite app_assoc. eapply run_snoc; eauto.
Qed.

Lemma play_run (ok : system -> Prop) (P : system -> bool) ms s s' :
  (forall s, P s = true -> ok s) -> play ms s = Some s' -> along P ms s = true -> run ok s ms s'.
Proof.
  intros HP. revert s. induction ms as [|[i|d] ms IH]; intros s Hp Ha; cbn in Hp, Ha.
  - injection Hp as <-. constructor.
  - destruct (run_process i s) as [s1|] eqn:Hr; [|done]. apply andb_prop in Ha as [H1 H2].
    apply (moves_app ok s [Run i] s1 ms); [|by apply IH].
    apply (run_snoc ok s [] s (Run i) s1); [constructor|by constructor|by apply HP].
  - destruct (Z.leb_spec 0 d); [|done]. apply andb_prop in Ha as [H1 H2].
    apply (moves_app ok s [Pass d] (pass d s) ms); [|by apply IH].
    apply (run_snoc ok s [] s (Pass d) (pass d s)); [constructor|by constructor|by apply HP].
Qed.

Definition demo_device : DeviceRecord := mkDeviceRecord "d" "k" "p" "q" (Some 41).

Definition youngb (s : system) : bool := match lock (fs s) with Some t => clock (fs s) - t <=? 10000 | None => true end.

Lemma youngb_young s : youngb s = true -> young s.
Proof. unfold youngb, young. destruct (lock (fs s)); [apply Z.leb_le|done]. Qed.

(** Two calls, the second of which finds the lock taken, sleeps and then draws. *)
Definition demo_moves : list move :=
  [Run 0; Run 0; Run 1; Run 1; Run 1; Run 1; Run 0; Run 0; Run 0; Run 0; Pass 20; Run 1; Run 1; Run 1; Run 1; Run 1; Run 1]%nat.

Definition demo_end : system :=
  mkSystem (mkFiles 1020 None (Some (with_outSeq 43 demo_device))) [Reserved 42; Reserved 43].

Lemma numbers_drawn_once_witness :
  run young (fresh_start demo_device 2 1000) demo_moves demo_end /\
  omap drawn (procs demo_end) ≡ₚ [42; 43].
Proof.
  assert (Hr : run young (fresh_start demo_device 2 1000) demo_moves demo_end)
    by (apply (play_run young youngb); [exact youngb_young|reflexivity|reflexivity]).
  split; [exact Hr|]. destruct (numbers_drawn_once demo_device 2 1000 demo_moves demo_end Hr) as (Hn & _).
  exact Hn.
Defined.

(** ** A stale lock and two waiters *)

(** A process that dies in the critical section leaves its lock; when it is older
    than ten seconds two waiters may both find it stale, the first removes it, takes the
    lock and is inside, and the second then removes that fresh lock and enters too: both
    draw the same number, although no living process held the lock for more than twenty
    milliseconds. *)
Theorem stale_lock_race :
  exists ms s,
    run (fun _ => True) (mkSystem (mkFiles 20000 (Some 0) (Some demo_device)) [Calling; Calling]) ms s /\
    procs s = [Reserved 42; Reserved 42] /\ clock (fs s) = 20040.
Proof.
  exists [Run 0; Run 0; Run 0; Run 1; Run 1; Run 1; Run 0; Run 0; Pass 20; Run 0; Run 0; Run 1; Run 1;
          Pass 20; Run 1; Run 1; Run 0; Run 1; Run 0; Run 0; Run 0; Run 1; Run 1; Run 1]%nat.
  eexists. split; [apply (play_run _ (fun _ => true)); [done|vm_compute; reflexivity|vm_compute; reflexivity]|].
  split; vm_compute; reflexivity.
Qed.

(** ** Every call ends *)

(** Turns of the waiting loop left to a call at time [t]. *)
Definition turns (deadline t : Z) : nat := Z.to_nat ((deadline - t) / 20 + 2).

(** A bound on the steps left to a call. *)
Definition steps_left (t : Z) (p : pc) : nat :=
  match p with
  | Calling => 10 + 5 * 252
  | Opening d => 9 + 5 * turns d t
  | Stating d => 8 + 5 * turns d t
  | Stealing d => 7 + 5 * turns d t
  | Checking d => 6 + 5 * turns d t
  | Sleeping d u => 10 + 5 * turns d u
  | Loading => 4
  | Persisting _ => 3
  | Saving _ _ => 2
  | Unlocking _ => 1
  | Reserved _ | Exited => 0
  end%nat.

Lemma turns_mono d t t' : t <= t' -> (turns d t' <= turns d t)%nat.
Proof. intros Ht. unfold turns. pose proof (Z.div_le_mono (d - t') (d - t) 20 ltac:(lia) ltac:(lia)). lia. Qed.

Lemma turns_next d t : t <= d -> turns d t = S (turns d (t + 20)).
Proof.
  intros Ht. unfold turns. replace (d - t) with (d - (t + 20) + 1 * 20) by lia. rewrite Z.div_add by lia.
  assert (-1 <= (d - (t + 20)) / 20) by (apply Z.div_le_lower_bound; lia). lia.
Qed.

(** A step of the call takes one off. *)
Lemma step_takes_one f p f' p' : reserveOutSeq f p = Some (f', p') ->
  clock f' = clock f /\ (S (steps_left (clock f) p') <= steps_left (clock f) p)%nat.
Proof.
  destruct p as [|dl|dl|dl|dl|dl u| |n|n d|n|n|]; cbn [reserveOutSeq]; intros Hs; try done.
  - injection Hs as <- <-. split; [done|]. cbn [steps_left]. unfold turns.
    replace (clock f + 5000 - clock f) with (250 * 20) by lia. rewrite Z.div_mul by lia. lia.
  - destruct (lock f); injection Hs as <- <-; split; try done; cbn [steps_left]; lia.
  - destruct (lock f) as [mt|]; [destruct (10000 <? clock f - mt)|]; injection Hs as <- <-; split; try done; cbn [steps_left]; lia.
  - injection Hs as <- <-. split; [done|]. cbn [steps_left]. lia.
  - destruct (Z.ltb_spec dl (clock f)); injection Hs as <- <-; split; try done; cbn [steps_left]; [lia|].
    rewrite (turns_next dl (clock f)) by lia. lia.
  - destruct (Z.leb_spec u (clock f)); [|done]. injection Hs as <- <-. split; [done|]. cbn [steps_left].
    pose proof (turns_mono dl u (clock f) ltac:(lia)). lia.
  - injection Hs as <- <-. split; [done|]. cbn [steps_left]. lia.
  - destruct (loadDevice f); injection Hs as <- <-; split; try done; cbn [steps_left]; lia.
  - injection Hs as <- <-. split; [done|]. cbn [steps_left]. lia.
  - injection Hs as <- <-. split; [done|]. cbn [steps_left]. lia.
Qed.

(** Time only takes more off. *)
Lemma steps_left_time t t' p : t <= t' -> (steps_left t' p <= steps_left t p)%nat.
Proof.
  intros Ht. destruct p; cbn [steps_left]; try lia;
    match goal with |- context [turns ?d t] => pose proof (turns_mono d t t' Ht); lia end.
Qed.

(** The steps a list of moves gives to process [i]. *)
Definition steps_of (i : nat) (ms : list move) : nat :=
  length (List.filter (fun m => match m with Run j => (j =? i)%nat | Pass _ => false end) ms).

Lemma steps_of_snoc i ms m :
  steps_of i (ms ++ [m]) = (steps_of i ms + match m with Run j => if (j =? i)%nat then 1 else 0 | Pass _ => 0 end)%nat.
Proof.
  unfold steps_of. rewrite List.filter_app, length_app. destruct m as [j|d]; cbn [List.filter]; [|done].
  by destruct (j =? i)%nat.
Qed.

Lemma run_left ok s0 ms s i p0 : run ok s0 ms s -> procs s0 !! i = Some p0 ->
  exists p, procs s !! i = Some p /\ (steps_of i ms + steps_left (clock (fs s)) p <= steps_left (clock (fs s0)) p0)%nat.
Proof.
  intros Hr H0. induction Hr as [|ms s m s' Hr IH Hm _]; [exists p0; split; [done|cbn; lia]|].
  destruct IH as (p & Hp & Hb). rewrite steps_of_snoc. destruct Hm as [j s' Hrun|d Hd].
  - unfold run_process in Hrun. destruct (procs s !! j) as [q|] eqn:Hj; [|done].
    destruct (reserveOutSeq (fs s) q) as [[f' q']|] eqn:Hs; [|done]. injection Hrun as <-.
    destruct (step_takes_one _ _ _ _ Hs) as [Hc Hle]. cbn [fs procs]. rewrite Hc.
    destruct (Nat.eqb_spec j i) as [->|Hne].
    + exists q'. rewrite list_lookup_insert_eq by (by eapply lookup_lt_Some). split; [done|].
      assert (q = p) as -> by congruence. lia.
    + exists p. rewrite list_lookup_insert_ne by done. split; [done|lia].
  - exists p. split; [done|]. cbn [pass fs clock].
    pose proof (steps_left_time (clock (fs s)) (clock (fs s) + d) p ltac:(lia)). lia.
Qed.

(** C26. Every call of [reserveOutSeq] ends, whatever the other processes and the lock
    file do: it takes at most 1270 steps of its own, and until it has returned or given
    up its next step is possible now or after a wait of at most twenty milliseconds
    from when it fell asleep. *)
Theorem reservation_terminates (ok : system -> Prop) (s0 : system) (ms : list move) (s : system) (i : nat)
    (Hr : run ok s0 ms s) (Hi : procs s0 !! i = Some Calling) :
  (steps_of i ms <= 1270)%nat /\
  exists p, procs s !! i = Some p /\
    match p with
    | Reserved _ | Exited => True
    | Sleeping _ u => forall f, u <= clock f -> is_Some (reserveOutSeq f p)
    | _ => forall f, is_Some (reserveOutSeq f p)
    end.
Proof.
  destruct (run_left ok s0 ms s i Calling Hr Hi) as (p & Hp & Hb). split; [cbn [steps_left] in Hb; lia|].
  exists p. split; [done|]. destruct p as [|dl|dl|dl|dl|dl u| |n|n d|n|n|]; try done; intros f; cbn [reserveOutSeq].
  all: try (by eexists).
  - destruct (lock f); by eexists.
  - destruct (lock f); by eexists.
  - intros Hu. rewrite (proj2 (Z.leb_le _ _)) by lia. by eexists.
  - destruct (loadDevice f); by eexists.
Qed.

Lemma reservation_terminates_witness :
  run young (fresh_start demo_device 2 1000) demo_moves demo_end /\ (steps_of 1 demo_moves <= 1270)%nat.
Proof.
  assert (Hr : run young (fresh_start demo_device 2 1000) demo_moves demo_end)
    by (apply (play_run young youngb); [exact youngb_young|reflexivity|reflexivity]).
  split; [exact Hr|].
  destruct (reservation_terminates young (fresh_start demo_device 2 1000) demo_moves demo_end 1 Hr eq_refl) as (Hs & _).
  exact Hs.
Defined.
