(* ===== verification/Cli.v ===== *)
(** * The command line client

    [packages/cli/src/cc.ts]: the parsing of a command, and the host around the client
    engine of [Client]: its connection, its reconnects, when it issues its command, and
    when and with which status it exits. *)

From S2P Require Import Prelude JsMap Js Types Frame Sync Resend Client Framing.

Local Open Scope Z_scope.

Module Cli.

(** ** Commands *)

(** Positionals and [--flag value] options, for the named flags only; an option at the
    end of the arguments has no value ([undefined]). *)
Fixpoint parseFlags (args : list string) (flags : list string)
    : list string * jsmap string (option string) :=
  match args with
  | [] => ([], [])
  | a :: args' =>
      let flag := if str_prefix "--" a then Some (String.substring 2 (String.length a - 2) a) else None in
      match flag with
      | Some f =>
          if decide (f ∈ flags) then
            match args' with
            | [] => ([], [(f, None)])
            | v :: args'' =>
                let '(positionals, opts) := parseFlags args'' flags in
                (positionals, if mhas f opts then opts else (f, Some v) :: opts)
            end
          else let '(positionals, opts) := parseFlags args' flags in (a :: positionals, opts)
      | None => let '(positionals, opts) := parseFlags args' flags in (a :: positionals, opts)
      end
  end.

(** [rest[i]] *)
Definition arg (rest : list string) (i : nat) : jsval := match rest !! i with Some s => JStr s | None => JUndef end.

Definition opt_value (opts : jsmap string (option string)) (name : string) : jsval :=
  match mget name opts with Some (Some s) => JStr s | _ => JUndef end.

(** [rest.slice(1).join(' ')] *)
Definition tail_text (rest : list string) : jsval := JStr (String.concat " " (drop 1 rest)).

(** The payload: [None] for [watch]; a [Throw] prints the usage and exits. *)
Definition buildCommandPayload (Number : string -> jsnum) (WHO cmd : string) (rest : list string) : outcome (option jsval) :=
  let obj l := Ok (Some (JObj l)) in
  if decide (cmd = "watch") then Ok None
  else if decide (cmd = "history") then
    obj [("type", JStr "history");
         ("limit", match truthy_str (rest !! 0%nat) with Some s => JNum (Number s) | None => JUndef end)]
  else if decide (cmd = "spawn") then
    let '(positionals, opts) := parseFlags rest ["model"; "mode"; "effort"] in
    obj [("type", JStr "spawn"); ("cwd", arg positionals 0); ("label", arg positionals 1);
         ("model", opt_value opts "model"); ("permissionMode", opt_value opts "mode"); ("effort", opt_value opts "effort")]
  else if decide (cmd = "send") then obj [("type", JStr "send"); ("sessionId", arg rest 0); ("text", tail_text rest)]
  else if decide (cmd = "interrupt") then obj [("type", JStr "interrupt"); ("sessionId", arg rest 0)]
  else if decide (cmd = "model") then obj [("type", JStr "set_model"); ("sessionId", arg rest 0); ("model", arg rest 1)]
  else if decide (cmd = "mode") then
    obj [("type", JStr "set_permission_mode"); ("sessionId", arg rest 0); ("mode", arg rest 1)]
  else if decide (cmd = "effort") then
    obj [("type", JStr "send"); ("sessionId", arg rest 0);
         ("text", JStr ("/effort " +:+ match rest !! 1%nat with Some s => s | None => "undefined" end))]
  else if decide (cmd = "allow") then
    obj [("type", JStr "decide"); ("toolUseId", arg rest 0); ("decision", JStr "allow"); ("reason", tail_text rest); ("by", JStr WHO)]
  else if decide (cmd = "deny") then
    obj [("type", JStr "decide"); ("toolUseId", arg rest 0); ("decision", JStr "deny"); ("reason", tail_text rest); ("by", JStr WHO)]
  else if decide (cmd = "revoke") then obj [("type", JStr "revoke"); ("deviceId", arg rest 0)]
  else Throw "usage: cc pair|pair-code|watch|history|spawn|send|interrupt|model|mode|effort|allow|deny|revoke".

(** ** The host *)

(** What the process does that others can see. *)
Inductive Output : Type :=
| Drew (seq : Z)
| Wrote (line : string)
| Rendered (ev : ServerEvent)
| Said (text : string)
| Retrying (delay : Z).

Section host.
Context {Key Nonce X : Type} `{SessionCrypto Key Nonce}.

(** The command line, the paired device and the settings of a run; the environment's
    numbers are taken as integers. *)
Record Invocation : Type := mkInvocation {
  cmd : string;
  rest : list string;
  deviceId : string;
  deriveKey : string -> Key;
  payload : option Plain;
  RECONNECT_MAX_ATTEMPTS : Z;
  RECONNECT_BASE_MS : Z;
  RECONNECT_MAX_DELAY_MS : Z;
  reserve : X -> option Z * X;
  draw_nonces : X -> (nat -> Nonce) * X;
  stringify : ReliableClient.Outbound -> string;
  parse : string -> option WireMsg;
}.

Variable v : Invocation.

Definition isWatch : bool := bool_decide (cmd v = "watch").
Definition isRead : bool := bool_decide (cmd v = "history").
Definition isWrite : bool := negb isWatch && negb isRead.
Definition isRevokeSelf : bool := bool_decide (cmd v = "revoke") && bool_decide (rest v !! 0%nat = Some (deviceId v)).

(** The state of the run; [exited] is the status of [process.exit]. *)
Record cli : Type := mkCli {
  client : ReliableClient.t Key;
  myCmdSeq : Z;
  issued : bool;
  everConnected : bool;
  attempt : Z;
  buf : string;
  output : list Output;
  exited : option Z;
  ext : X;
}.

Definition set_client c w := mkCli c (myCmdSeq w) (issued w) (everConnected w) (attempt w) (buf w) (output w) (exited w) (ext w).
Definition set_issued n w := mkCli (client w) n true (everConnected w) (attempt w) (buf w) (output w) (exited w) (ext w).
Definition set_connected w := mkCli (client w) (myCmdSeq w) (issued w) true 0 (buf w) (output w) (exited w) (ext w).
Definition set_attempt n w := mkCli (client w) (myCmdSeq w) (issued w) (everConnected w) n (buf w) (output w) (exited w) (ext w).
Definition set_buf b w := mkCli (client w) (myCmdSeq w) (issued w) (everConnected w) (attempt w) b (output w) (exited w) (ext w).
Definition add_output o w := mkCli (client w) (myCmdSeq w) (issued w) (everConnected w) (attempt w) (buf w) (output w ++ [o]) (exited w) (ext w).
Definition set_exited e w := mkCli (client w) (myCmdSeq w) (issued w) (everConnected w) (attempt w) (buf w) (output w) e (ext w).
Definition set_ext x w := mkCli (client w) (myCmdSeq w) (issued w) (everConnected w) (attempt w) (buf w) (output w) (exited w) x.

(** [process.exit(code)]: nothing runs after it. *)
Definition exit_ {A} (code : Z) : eff cli A := modify (set_exited (Some code)) ;; throw "exit".
Definition emit (o : Output) : eff cli unit := modify (add_output o).

Definition nonces : eff cli (nat -> Nonce) :=
  fun w => let '(r, x) := draw_nonces v (ext w) in (Ok r, set_ext x w).

(** [client.send(payload, { reliable })]; [reserveOutSeq] exits when it cannot draw. *)
Definition send (command : Plain) (reliable : bool) : eff cli Z :=
  s ← (fun w => let '(s, x) := reserve v (ext w) in (Ok s, set_ext x w));
  match s with
  | None => exit_ 1
  | Some seq =>
      emit (Drew seq) ;;
      rnd ← nonces;
      c ← gets client;
      let '(r, c') := ReliableClient.send (rnd 0%nat) seq command reliable c in
      modify (set_client c') ;;
      match r with Ok seq => mret seq | Throw e => throw e end
  end.

Definition on_ready (resumed : bool) (replayedCount : Z) : eff cli unit :=
  ever ← gets everConnected;
  (if ever : bool then
     emit (Said (if resumed then "[reconnected, resumed, " +:+ pretty replayedCount +:+ " event(s) replayed]"
                 else "[reconnected, resynced]"))
   else mret tt) ;;
  modify set_connected ;;
  already ← gets issued;
  match payload v with
  | None => mret tt
  | Some p =>
      if isRead then send p false ;; mret tt
      else if isWrite && negb already then seq ← send p true; modify (set_issued seq)
      else mret tt
  end.

Definition on_ack : eff cli unit :=
  w ← gets (fun w => w);
  if isWrite && issued w && (myCmdSeq w <=? ReliableClient.lastAcked (client w)) then exit_ 0 else mret tt.

Definition is_history (ev : ServerEvent) : bool := match ev with approval_history _ => true | _ => false end.
Definition is_revoked (ev : ServerEvent) : bool := match ev with revoked _ => true | _ => false end.
Definition is_error (ev : ServerEvent) : bool := match ev with error _ => true | _ => false end.

Definition on_server_event (ev : ServerEvent) : eff cli unit :=
  if isWatch then emit (Rendered ev) else
  if is_error ev then emit (Rendered ev) ;; exit_ 1 else
  if isRead && is_history ev then emit (Rendered ev) ;; exit_ 0 else
  if bool_decide (cmd v = "revoke") && is_revoked ev then emit (Rendered ev) ;; exit_ 0 else mret tt.

Definition on_hello_rejected : eff cli unit :=
  if isRevokeSelf then
    emit (Said ("  revoked device " +:+ deviceId v +:+ " (confirmed on reconnect)")) ;; exit_ 0
  else
    emit (Said "daemon did not recognize this device (fresh daemon identity, or paired to a different daemon). run: cc pair") ;;
    exit_ 1.

Definition callback (cb : ReliableClient.Callback) : eff cli unit :=
  match cb with
  | ReliableClient.onReady resumed n => on_ready resumed n
  | ReliableClient.onEvent (PEv ev) _ => on_server_event ev
  | ReliableClient.onEvent (PCmd _) _ => mret tt
  | ReliableClient.onAck _ => on_ack
  | ReliableClient.onHelloRejected => on_hello_rejected
  | ReliableClient.onAuthError => emit (Said "received a frame that failed to authenticate, dropped")
  end.

Definition flush : eff cli unit :=
  c ← gets client;
  let '(out, c') := ReliableClient.drain c in
  modify (set_client c') ;;
  for_each (fun o => emit (Wrote (stringify v o +:+ String Framing.newline EmptyString))) out.

Definition on_line (line : string) : eff cli unit :=
  if Framing.is_blank line then mret tt else
  match parse v line with
  | None => throw "SyntaxError"
  | Some msg =>
      rnd ← nonces;
      c ← gets client;
      let '(c', cbs) := ReliableClient.onMessage (deriveKey v) rnd c msg in
      modify (set_client c') ;;
      for_each callback cbs ;;
      flush
  end.

(** The events of the socket and of the reconnect timer. *)
Inductive Event : Type := SockError | SockConnect | SockData (chunk : string) | SockClose | Timer.

(** [Math.min(RECONNECT_BASE_MS * 2 ** (attempt - 1), RECONNECT_MAX_DELAY_MS)] *)
Definition backoff (attempt : Z) : Z := Z.min (RECONNECT_BASE_MS v * 2 ^ (attempt - 1)) (RECONNECT_MAX_DELAY_MS v).

Definition on_close : eff cli unit :=
  c ← gets client;
  modify (set_client (ReliableClient.onClose c)) ;;
  a ← gets attempt;
  (if RECONNECT_MAX_ATTEMPTS v <=? a then
     emit (Said ("[connection lost, gave up after " +:+ pretty (RECONNECT_MAX_ATTEMPTS v) +:+ " attempts]")) ;; exit_ 1
   else mret tt) ;;
  modify (set_attempt (a + 1)) ;;
  emit (Said ("[reconnecting... attempt " +:+ pretty (a + 1) +:+ "/" +:+ pretty (RECONNECT_MAX_ATTEMPTS v) +:+
              ", retrying in " +:+ pretty (backoff (a + 1)) +:+ "ms]")) ;;
  emit (Retrying (backoff (a + 1))).

Definition on_event (e : Event) : eff cli unit :=
  match e with
  | SockError =>
      ever ← gets everConnected;
      if ever : bool then mret tt else emit (Said "cannot reach daemon") ;; exit_ 1
  | SockConnect =>
      c ← gets client; modify (set_client (ReliableClient.onOpen (deviceId v) c)) ;; flush
  | SockData chunk =>
      b ← gets buf;
      left ← Framing.read_loop on_line (b +:+ chunk);
      modify (set_buf left)
  | SockClose => on_close
  | Timer => modify (set_buf EmptyString)
  end.

(** One event; a throw nothing catches ends the process with status 1. *)
Definition step (w : cli) (e : Event) : cli :=
  match exited w with
  | Some _ => w
  | None =>
      match on_event e w with
      | (Ok _, w') => w'
      | (Throw _, w') => match exited w' with Some _ => w' | None => set_exited (Some 1) w' end
      end
  end.

Definition start (x : X) : cli := mkCli ReliableClient.new 0 false false 0 EmptyString [] None x.

Definition run (x : X) (es : list Event) : cli := foldl step (start x) es.

End host.
Arguments cli : clear implicits.
Arguments Invocation : clear implicits.

End Cli.

Import Cli.

(** ** What a run promises *)

Section laws.
Context {Key Nonce X : Type} `{SessionCrypto Key Nonce} (v : Invocation Key Nonce X).
Notation state := (cli Key X).
Implicit Types w : cli Key X.

Hypothesis attempts_nonneg : 0 <= RECONNECT_MAX_ATTEMPTS v.
Hypothesis base_nonneg : 0 <= RECONNECT_BASE_MS v.
Hypothesis delay_nonneg : 0 <= RECONNECT_MAX_DELAY_MS v.

(** The sequence numbers a run has drawn. *)
Definition draws (l : list Output) : nat :=
  length (List.filter (fun o => match o with Drew _ => true | _ => false end) l).

(** What justifies success: the daemon's acknowledgement has reached the command, its
    reply has been shown, or the daemon no longer knows the device it was to revoke. *)
Definition confirmed w : Prop :=
  (isWrite v = true /\ issued w = true /\ myCmdSeq w <= ReliableClient.lastAcked (client w)) \/
  (isRead v = true /\ exists l, Rendered (approval_history l) ∈ output w) \/
  (cmd v = "revoke" /\ exists id, Rendered (revoked id) ∈ output w) \/
  isRevokeSelf v = true.

Definition delays_ok (l : list Output) : Prop :=
  Forall (fun o => match o with Retrying d => 0 <= d <= RECONNECT_MAX_DELAY_MS v | _ => True end) l.

Definition common w : Prop := 0 <= attempt w <= RECONNECT_MAX_ATTEMPTS v /\ delays_ok (output w).

(** A run that goes on, and one a handler has left by a throw. *)
Definition going w : Prop :=
  exited w = None /\ (isRead v = false -> draws (output w) = if issued w then 1%nat else 0%nat) /\ common w.

Definition stopped w : Prop :=
  (exited w = None \/ exited w = Some 1 \/ (exited w = Some 0 /\ confirmed w)) /\
  (isRead v = false -> (draws (output w) <= 1)%nat) /\ common w.

Lemma going_stopped w : going w -> stopped w.
Proof.
  intros (He & Hd & Hc). split; [by left|]. split; [|done]. intros Hr. rewrite (Hd Hr). destruct (issued w); lia.
Qed.

Lemma draws_snoc l o : draws (l ++ [o]) = (draws l + match o with Drew _ => 1 | _ => 0 end)%nat.
Proof. unfold draws. rewrite List.filter_app, length_app. by destruct o. Qed.

Lemma delays_snoc l o : delays_ok l -> (forall d, o = Retrying d -> 0 <= d <= RECONNECT_MAX_DELAY_MS v) -> delays_ok (l ++ [o]).
Proof. intros Hl Ho. apply Forall_app_2; [done|]. apply Forall_singleton. destruct o; try done. by apply Ho. Qed.

(** A handler that keeps a run going, or stops it as it may. *)
Definition safe {A} (m : eff state A) : Prop := triple going m (fun _ => going) stopped.

Lemma safe_ret {A} (a : A) : safe (mret a).
Proof. by apply triple_ret. Qed.

Lemma safe_throw {A} e : safe (throw (A:=A) e).
Proof. apply triple_throw. apply going_stopped. Qed.

Lemma safe_bind {A B} (m : eff state A) (k : A -> eff state B) : safe m -> (forall a, safe (k a)) -> safe (m ≫= k).
Proof. intros Hm Hk. by eapply triple_bind. Qed.

Lemma safe_gets {A} (f : state -> A) : safe (gets f).
Proof. by apply triple_gets. Qed.

Lemma safe_modify f : (forall w, going w -> going (f w)) -> safe (modify f).
Proof. intros Hf. by apply triple_modify. Qed.

Lemma safe_for_each {A} (f : A -> eff state unit) l : (forall x, safe (f x)) -> safe (for_each f l).
Proof. intros Hf. induction l as [|x l IH]; [apply safe_ret|]. apply safe_bind; auto. Qed.

Lemma safe_client c : safe (modify (set_client c)).
Proof. apply safe_modify. intros w (He & Hd & [Ha Hl]). exact (conj He (conj Hd (conj Ha Hl))). Qed.

Lemma safe_emit o : (match o with Drew _ | Retrying _ => False | _ => True end) -> safe (emit o).
Proof.
  intros Ho. apply safe_modify. intros w (He & Hd & [Ha Hl]). split; [done|]. split.
  - intros Hr. cbn [add_output output issued]. rewrite draws_snoc, (Hd Hr). destruct o; done.
  - split; [done|]. apply delays_snoc; [done|]. intros d ->. done.
Qed.

Lemma safe_nonces : safe (nonces v).
Proof. intros w Hw. unfold nonces. destruct (draw_nonces v (ext w)) as [r x]. destruct Hw as (He & Hd & [Ha Hl]). exact (conj He (conj Hd (conj Ha Hl))). Qed.

Lemma safe_exit_1 {A} : safe (exit_ (A:=A) 1).
Proof.
  intros w Hw. apply going_stopped in Hw as (_ & Hd & Hc). cbn. split; [by right; left|]. done.
Qed.

Lemma exit_0 {A} w : going w -> confirmed w ->
  match exit_ (A:=A) 0 w with (Ok _, w') => going w' | (Throw _, w') => stopped w' end.
Proof. intros Hw Hc. apply going_stopped in Hw as (_ & Hd & Hco). cbn. split; [by right; right|]. done. Qed.

Lemma stopped_common w : stopped w -> common w.
Proof. by intros (_ & _ & ?). Qed.

(** A drawn number is the one trace of a [send], whatever becomes of it. *)
Lemma send_effect p r w : exited w = None -> delays_ok (output w) ->
  let '(res, w') := send v p r w in
  issued w' = issued w /\ attempt w' = attempt w /\ delays_ok (output w') /\
  ((exists n, res = Ok n) /\ exited w' = None /\ draws (output w') = S (draws (output w)) \/
   (exists e, res = Throw e) /\ (exited w' = None \/ exited w' = Some 1) /\
   (draws (output w') <= S (draws (output w)))%nat).
Proof.
  intros He Hl. unfold send, nonces, mbind, eff_bind, gets, emit, modify, exit_, throw.
  destruct (reserve v (ext w)) as [[seq|] x]; cbn -[ReliableClient.send draws].
  - destruct (draw_nonces v x) as [rnd x']. cbn -[ReliableClient.send draws].
    assert (Hdel : delays_ok (output w ++ [Drew seq])) by (by apply delays_snoc).
    destruct (ReliableClient.send (rnd 0%nat) seq p r (client w)) as [[n|e] c']; cbn -[draws]; split_and!; try done.
    + left. rewrite draws_snoc. split_and!; [eauto|done|lia].
    + right. rewrite draws_snoc. split_and!; [eauto|by left|lia].
  - split_and!; try done. right. split_and!; [eauto|by right|apply Nat.le_succ_diag_r].
Qed.

(** Issuing a command that has not been issued. *)
Lemma send_once p w : going w -> issued w = false ->
  match (seq ← send v p true; modify (set_issued seq)) w with (Ok _, w') => going w' | (Throw _, w') => stopped w' end.
Proof.
  intros (He & Hd & [Ha Hl]) Hi. pose proof (send_effect p true w He Hl) as Hs. unfold mbind, eff_bind.
  destruct (send v p true w) as [res w'], Hs as (Hi' & Ha' & Hl' & Hc). rewrite Hi in Hd. rewrite <- Ha' in Ha.
  destruct Hc as [([n ->] & He' & Hn)|([e ->] & He' & Hn)].
  - split; [exact He'|]. split; [|split; [exact Ha|exact Hl']]. intros Hr. cbn -[draws]. rewrite Hn, (Hd Hr). done.
  - split; [destruct He'; auto|]. split; [|split; [exact Ha|exact Hl']]. intros Hr. rewrite (Hd Hr) in Hn. exact Hn.
Qed.

Lemma send_read p w : going w -> isRead v = true ->
  match (send v p false ;; mret tt) w with (Ok _, w') => going w' | (Throw _, w') => stopped w' end.
Proof.
  intros (He & Hd & [Ha Hl]) Hr. pose proof (send_effect p false w He Hl) as Hs. unfold mbind, eff_bind.
  destruct (send v p false w) as [res w'], Hs as (Hi' & Ha' & Hl' & Hc). rewrite <- Ha' in Ha.
  destruct Hc as [([n ->] & He' & Hn)|([e ->] & He' & Hn)].
  - split; [exact He'|]. split; [congruence|]. split; [exact Ha|exact Hl'].
  - split; [destruct He'; auto|]. split; [congruence|]. split; [exact Ha|exact Hl'].
Qed.

Lemma safe_ready resumed n : safe (on_ready v resumed n).
Proof.
  unfold on_ready. apply safe_bind; [apply safe_gets|]. intros ever.
  apply safe_bind; [destruct ever; [by apply safe_emit|apply safe_ret]|]. intros _.
  apply safe_bind; [apply safe_modify; intros w (He & Hd & [Ha Hl]); split; [done|]; split; [done|]; split; [cbn; lia|done]|].
  intros _ w Hw. unfold mbind, eff_bind, gets at 1. cbn. destruct (payload v) as [p|]; [|done].
  destruct (isRead v) eqn:Hr; [by apply send_read|].
  destruct (isWrite v && negb (issued w)) eqn:Hc; [|done].
  apply andb_prop in Hc as [_ Hi]. apply send_once; [done|by destruct (issued w)].
Qed.

Lemma safe_ack : safe (on_ack v).
Proof.
  intros w Hw. unfold on_ack, mbind, eff_bind, gets at 1. cbn.
  destruct (isWrite v && issued w && (myCmdSeq w <=? ReliableClient.lastAcked (client w))) eqn:Hc; [|done].
  apply exit_0; [done|]. rewrite !andb_true_iff in Hc. destruct Hc as [[H1 H2] H3]. left. split_and!; try done. lia.
Qed.

(** Showing an event and leaving with success. *)
Lemma show_and_leave ev w : going w ->
  (isRead v = true /\ is_history ev = true \/ cmd v = "revoke" /\ is_revoked ev = true) ->
  match (emit (Rendered ev) ;; exit_ (A:=unit) 0) w with (Ok _, w') => going w' | (Throw _, w') => stopped w' end.
Proof.
  intros Hw Hc. pose proof (safe_emit (Rendered ev) I w Hw) as Hs. unfold emit, modify in Hs. cbn in Hs.
  unfold mbind, eff_bind, emit, modify. apply (exit_0 (A:=unit)); [done|].
  assert (Hin : Rendered ev ∈ output (add_output (Rendered ev) w)) by (apply elem_of_app; right; by left).
  destruct Hc as [[Hr Hh]|[Hc Hr]].
  - right. left. split; [done|]. destruct ev; try done. by eexists.
  - right. right. left. split; [done|]. destruct ev; try done. by eexists.
Qed.

Lemma safe_event ev : safe (on_server_event v ev).
Proof.
  unfold on_server_event. case_match; [by apply safe_emit|].
  case_match; [apply safe_bind; [by apply safe_emit|intros _; apply safe_exit_1]|].
  destruct (isRead v && is_history ev) eqn:Hh.
  { apply andb_prop in Hh as [Hr Hh]. intros w Hw. apply show_and_leave; auto. }
  destruct (bool_decide (cmd v = "revoke") && is_revoked ev) eqn:Hr; [|apply safe_ret].
  apply andb_prop in Hr as [Hc Hr]. apply bool_decide_eq_true in Hc. intros w Hw. apply show_and_leave; auto.
Qed.

Lemma safe_rejected : safe (on_hello_rejected v).
Proof.
  unfold on_hello_rejected. destruct (isRevokeSelf v) eqn:Hs.
  - intros w Hw. pose proof (safe_emit (Said ("  revoked device " +:+ deviceId v +:+ " (confirmed on reconnect)")) I w Hw) as Hg.
    unfold mbind, eff_bind. unfold emit, modify in *. cbn in Hg. apply (exit_0 (A:=unit)); [done|]. by do 3 right.
  - apply safe_bind; [by apply safe_emit|]. intros _. apply safe_exit_1.
Qed.

Lemma safe_callback cb : safe (callback v cb).
Proof.
  destruct cb as [r n|[c|ev] n|n| |]; cbn [callback];
    [apply safe_ready|apply safe_ret|apply safe_event|apply safe_ack|apply safe_rejected|by apply safe_emit].
Qed.

Lemma safe_flush : safe (flush v).
Proof.
  unfold flush. apply safe_bind; [apply safe_gets|]. intros c. destruct (ReliableClient.drain c) as [out c'].
  apply safe_bind; [apply safe_client|]. intros _. apply safe_for_each. intros o. by apply safe_emit.
Qed.

Lemma safe_line line : safe (on_line v line).
Proof.
  unfold on_line. case_match; [apply safe_ret|]. destruct (parse v line) as [msg|]; [|apply safe_throw].
  apply safe_bind; [apply safe_nonces|]. intros rnd. apply safe_bind; [apply safe_gets|]. intros c.
  destruct (ReliableClient.onMessage _ rnd c msg) as [c' cbs]. apply safe_bind; [apply safe_client|]. intros _.
  apply safe_bind; [apply safe_for_each; apply safe_callback|]. intros _. apply safe_flush.
Qed.

Lemma safe_read_loop b : safe (Framing.read_loop (on_line v) b).
Proof. apply triple_read_loop, safe_line. Qed.

Lemma backoff_range a : 1 <= a -> 0 <= backoff v a <= RECONNECT_MAX_DELAY_MS v.
Proof. intros Ha. unfold backoff. pose proof (Z.pow_nonneg 2 (a - 1) ltac:(lia)). nia. Qed.

Lemma safe_close : safe (on_close v).
Proof.
  intros w (He & Hd & [Ha Hl]). unfold on_close, mbind, eff_bind, gets, emit, modify, exit_, throw. cbn.
  destruct (Z.leb_spec (RECONNECT_MAX_ATTEMPTS v) (attempt w)); cbn.
  - split; [by right; left|]. split; [|split; [done|by apply delays_snoc]].
    intros Hr. cbn [set_exited add_output set_client output]. rewrite draws_snoc, (Hd Hr). destruct (issued w); cbn; lia.
  - split; [done|]. split; [|split; [cbn; lia|]].
    + intros Hr. cbn [set_attempt set_exited add_output set_client output issued]. rewrite !draws_snoc, (Hd Hr). cbn. by rewrite !Nat.add_0_r.
    + cbn. apply delays_snoc; [by apply delays_snoc|]. intros d [= <-]. apply backoff_range. lia.
Qed.

Lemma safe_on_event e : safe (on_event v e).
Proof.
  destruct e as [| |chunk| |]; cbn [on_event].
  - apply safe_bind; [apply safe_gets|]. intros [|]; [apply safe_ret|].
    apply safe_bind; [by apply safe_emit|]. intros _. apply safe_exit_1.
  - apply safe_bind; [apply safe_gets|]. intros c. apply safe_bind; [apply safe_client|]. intros _. apply safe_flush.
  - apply safe_bind; [apply safe_gets|]. intros b. apply safe_bind; [apply safe_read_loop|]. intros l. apply safe_modify. intros w (He & Hd & [Ha Hl]). exact (conj He (conj Hd (conj Ha Hl))).
  - apply safe_close.
  - apply safe_modify. intros w (He & Hd & [Ha Hl]). exact (conj He (conj Hd (conj Ha Hl))).
Qed.

(** Between events a run goes on or is over. *)
Definition sound w : Prop :=
  stopped w /\ (exited w = None -> going w).

Lemma sound_step w e : sound w -> sound (step v w e).
Proof.
  intros [Hs Hg]. unfold step. destruct (exited w) as [code|] eqn:He; [by split; [|congruence]|].
  pose proof (safe_on_event e w (Hg eq_refl)) as Hm. destruct (on_event v e w) as [[[]|err] w'].
  - split; [by apply going_stopped|done].
  - destruct (exited w') as [code|] eqn:He'; [split; [done|congruence]|].
    split; [|done]. destruct Hm as (_ & Hd & [Ha Hl]). split; [by right; left|]. done.
Qed.

Lemma sound_start x : sound (start x).
Proof.
  assert (Hg : going (start (Key:=Key) x)).
  { split; [done|]. split; [done|]. split; [cbn; lia|constructor]. }
  split; [by apply going_stopped|done].
Qed.

Lemma sound_run x es : sound (run v x es).
Proof.
  unfold run. assert (H1 : forall w, sound w -> sound (foldl (step v) w es)); [|apply H1, sound_start].
  induction es as [|e es IH]; intros w Hw; [done|]. cbn [foldl]. by apply IH, sound_step.
Qed.

(** The exit status of a command tells the truth, over every run of connections,
    losses, chunks and reconnects: it is success only when the daemon's acknowledgement
    has reached the command that was issued, its answer has been printed, or the daemon
    no longer knows the device that was to revoke itself; a write is issued at most
    once, however often the connection is lost; and no wait before a reconnect is
    longer than the configured maximum. *)
Theorem exit_status_is_truthful (x : X) (es : list Event) :
  let w := run v x es in
  (exited w = Some 0 -> confirmed w) /\
  (isRead v = false -> (draws (output w) <= 1)%nat) /\
  (exited w = None \/ exited w = Some 0 \/ exited w = Some 1) /\
  (forall d, Retrying d ∈ output w -> 0 <= d <= RECONNECT_MAX_DELAY_MS v).
Proof.
  destruct (sound_run x es) as [(He & Hd & [_ Hl]) _]. cbv zeta. split_and!.
  - intros H0. destruct He as [He|[He|[_ Hc]]]; [congruence|congruence|done].
  - exact Hd.
  - destruct He as [He|[He|[He _]]]; auto.
  - intros d Hin. unfold delays_ok in Hl. rewrite Forall_forall in Hl. exact (Hl _ Hin).
Qed.

(** *** A daemon that does not answer *)

Definition closes (es : list Event) : Z :=
  Z.of_nat (length (List.filter (fun e => match e with SockClose => true | _ => false end) es)).

Definition no_data (es : list Event) : Prop := Forall (fun e => match e with SockData _ => False | _ => True end) es.

Lemma stays_exited w es code : exited w = Some code -> exited (foldl (step v) w es) = Some code.
Proof.
  revert w. induction es as [|e es IH]; intros w He; [done|]. cbn [foldl]. apply IH. unfold step. by rewrite He.
Qed.

(** Writing to the socket touches neither the count of attempts nor the status. *)
Lemma write_all_keeps (l : list ReliableClient.Outbound) w :
  exists out, for_each (fun o => emit (Wrote (stringify v o +:+ String Framing.newline EmptyString))) l w =
    (Ok tt, mkCli (client w) (myCmdSeq w) (issued w) (everConnected w) (attempt w) (buf w) out (exited w) (ext w)).
Proof.
  revert w. induction l as [|o l IH]; intros w; [exists (output w); by destruct w|].
  cbn [for_each]. unfold mbind, eff_bind, emit, modify. cbn.
  destruct (IH (add_output (Wrote (stringify v o +:+ String Framing.newline EmptyString)) w)) as [out Hout].
  exists out. exact Hout.
Qed.

(** Without data, an event ends the run with status 1, or leaves the attempts as they
    are; a close ends it or counts one more. *)
Lemma silent_step w e : exited w = None -> no_data [e] ->
  exited (step v w e) = Some 1 \/
  exited (step v w e) = None /\ attempt (step v w e) = attempt w + closes [e] /\
    (e = SockClose -> attempt w < RECONNECT_MAX_ATTEMPTS v).
Proof.
  intros He [Hd _]%Forall_cons. unfold step. rewrite He. destruct e; cbn in Hd; try done; cbn -[ReliableClient.drain].
  - unfold mbind, eff_bind, gets. cbn. destruct (everConnected w); cbn; [right|by left].
    split_and!; [done|unfold closes; cbn; lia|done].
  - right. unfold flush, mbind, eff_bind, gets, modify. cbn -[ReliableClient.drain].
    destruct (ReliableClient.drain _) as [out c'].
    destruct (write_all_keeps out (set_client c' (set_client (ReliableClient.onOpen (deviceId v) (client w)) w))) as [o ->].
    cbn. split_and!; [done|unfold closes; cbn; lia|done].
  - unfold on_close, mbind, eff_bind, gets, emit, modify, exit_, throw. cbn.
    destruct (Z.leb_spec (RECONNECT_MAX_ATTEMPTS v) (attempt w)); cbn; [by left|right].
    split_and!; [done|unfold closes; cbn; lia|done].
  - right. split_and!; [done|unfold closes; cbn; lia|done].
Qed.

Lemma closes_cons e es : closes (e :: es) = closes [e] + closes es.
Proof. unfold closes. destruct e; cbn [List.filter length]; lia. Qed.

Lemma silence_ends w es : no_data es -> exited w = None -> attempt w <= RECONNECT_MAX_ATTEMPTS v ->
  RECONNECT_MAX_ATTEMPTS v < attempt w + closes es -> exited (foldl (step v) w es) = Some 1.
Proof.
  intros Hd. revert w. induction Hd as [|e es Hd Hds IH]; intros w He Hle Hlt; [unfold closes in Hlt; cbn in Hlt; lia|].
  cbn [foldl]. rewrite closes_cons in Hlt.
  destruct (silent_step w e He ltac:(by constructor)) as [Hx|(Hx & Ha & Hc)]; [by apply stays_exited|].
  apply IH; [done| |lia]. rewrite Ha. destruct e; try done; unfold closes; cbn; try lia. specialize (Hc eq_refl). lia.
Qed.

(** A command never reconnects for ever: from any point of any run, a daemon that
    sends nothing more makes the command exit with status 1 once the connection has been
    lost more often than the configured number of attempts, unless it was over already;
    the sockets may open, fail and close in any order. *)
Theorem silent_daemon_ends_run (x : X) (es silent : list Event) :
  no_data silent -> RECONNECT_MAX_ATTEMPTS v < closes silent ->
  exited (run v x (es ++ silent)) = match exited (run v x es) with Some code => Some code | None => Some 1 end.
Proof.
  intros Hd Hc. destruct (sound_run x es) as [(_ & _ & [Ha _]) _]. unfold run in *. rewrite foldl_app.
  destruct (exited (foldl (step v) (start x) es)) as [code|] eqn:He; [by apply stays_exited|].
  apply silence_ends; [done|done|lia|lia].
Qed.

(** The daemon's refusal, before anything else has been received. *)
Lemma refused_line w line m :
  isRevokeSelf v = true -> Framing.is_blank line = false -> parse v line = Some m -> w_type m = Some "hello_failed" ->
  ReliableClient.key (client w) = None ->
  exists w', on_line v line w = (Throw "exit", w') /\ exited w' = Some 0 /\ issued w' = issued w /\
    output w' = output w ++ [Said ("  revoked device " +:+ deviceId v +:+ " (confirmed on reconnect)")].
Proof.
  intros Hself Hb Hp Hm Hk. unfold on_line. rewrite Hb, Hp. unfold nonces, mbind, eff_bind, gets.
  destruct (draw_nonces v (ext w)) as [rnd x]. cbn [client set_ext].
  unfold ReliableClient.onMessage. rewrite Hk, decide_True by done. cbn [for_each callback].
  unfold modify, on_hello_rejected. rewrite Hself. eexists. split; [reflexivity|]. done.
Qed.

(** A device that is told to revoke itself reports success without having asked for
    anything when the daemon does not know it at the first hello: nothing but the hello
    has been written, and the status is 0. *)
Theorem unknown_device_revokes_itself (x : X) (line : string) (m : WireMsg) :
  isRevokeSelf v = true -> Framing.is_blank line = false -> Framing.has_newline line = false ->
  parse v line = Some m -> w_type m = Some "hello_failed" ->
  let w := run v x [SockConnect; SockData (line +:+ String Framing.newline EmptyString)] in
  exited w = Some 0 /\ issued w = false /\
  output w = [Wrote (stringify v (ReliableClient.OHello (deviceId v) None) +:+ String Framing.newline EmptyString);
              Said ("  revoked device " +:+ deviceId v +:+ " (confirmed on reconnect)")].
Proof.
  intros Hself Hb Hn Hp Hm. cbv zeta. unfold run. cbn [foldl].
  set (w1 := step v (start x) SockConnect).
  destruct (refused_line w1 line m Hself Hb Hp Hm eq_refl) as (w2 & Hline & He & Hi & Ho).
  assert (Hstep : step v w1 (SockData (line +:+ String Framing.newline EmptyString)) = w2); [|by rewrite Hstep].
  unfold step. replace (exited w1) with (None (A:=Z)) by reflexivity. cbn [on_event].
  unfold mbind at 1, eff_bind at 1, gets. replace (buf w1) with EmptyString by reflexivity.
  rewrite string_nil_app. unfold mbind, eff_bind. rewrite read_loop_drain, drain_one_line by done.
  cbn [for_each fst snd]. unfold mbind, eff_bind. by rewrite Hline, He.
Qed.

End laws.

(** ** A concrete run *)

#[local] Existing Instance node_SessionCrypto.
#[local] Existing Instance toy_platform.

(** The device [D] tells the daemon to revoke [D], or a command of another kind is run;
    the lines of the daemon are named, and numbers are drawn from a counter. *)
Definition demo_run (cmd : string) (rest : list string) : Invocation string string Z := {|
  Cli.cmd := cmd;
  Cli.rest := rest;
  deviceId := "D";
  deriveKey := fun s => s;
  payload := Some (PCmd cmd_list);
  RECONNECT_MAX_ATTEMPTS := 2;
  RECONNECT_BASE_MS := 1000;
  RECONNECT_MAX_DELAY_MS := 1500;
  reserve := fun n => (Some n, n + 1);
  draw_nonces := fun n => (fun _ => "n", n);
  stringify := fun _ => "out";
  parse := fun l =>
    if decide (l = "salt") then Some (msg_of_salt "s" true None)
    else if decide (l = "ack") then Some (msg_of_frame (seal "s" 1 (PEv (ack 7)) d2c "n"))
    else if decide (l = "failed") then Some (mkWireMsg (Some "hello_failed") None "" false None "" "" "")
    else None;
|}.

Definition demo_line (s : string) : Event := SockData (s +:+ String Framing.newline EmptyString).

Lemma exit_status_is_truthful_witness :
  let v := demo_run "interrupt" ["id"] in
  let w := run v 7 [SockConnect; demo_line "salt"; SockClose; Timer; SockConnect; demo_line "salt"; demo_line "ack"] in
  exited w = Some 0 /\ confirmed v w /\ draws (output w) = 1%nat /\
  (forall d, Retrying d ∈ output w -> 0 <= d <= 1500).
Proof.
  intros v w.
  destruct (exit_status_is_truthful v ltac:(done) ltac:(done) ltac:(done) 7
    [SockConnect; demo_line "salt"; SockClose; Timer; SockConnect; demo_line "salt"; demo_line "ack"]) as (Hc & _ & _ & Hd).
  assert (He : exited w = Some 0) by (vm_compute; reflexivity).
  split; [exact He|]. split; [exact (Hc He)|]. split; [vm_compute; reflexivity|exact Hd].
Defined.

Lemma silent_daemon_ends_run_witness :
  let v := demo_run "interrupt" ["id"] in
  exited (run v 7 ([SockConnect; demo_line "salt"] ++ [SockClose; Timer; SockError; SockClose; Timer; SockConnect; SockClose])) = Some 1.
Proof.
  intros v.
  rewrite (silent_daemon_ends_run v ltac:(done) ltac:(done) ltac:(done) 7 [SockConnect; demo_line "salt"]
    [SockClose; Timer; SockError; SockClose; Timer; SockConnect; SockClose]); [vm_compute; reflexivity| |].
  - repeat constructor.
  - vm_compute. reflexivity.
Defined.

Lemma unknown_device_revokes_itself_witness :
  exited (run (demo_run "revoke" ["D"]) 7 [SockConnect; demo_line "failed"]) = Some 0.
Proof.
  exact (proj1 (unknown_device_revokes_itself (demo_run "revoke" ["D"]) 7 "failed"
    (mkWireMsg (Some "hello_failed") None "" false None "" "" "") eq_refl eq_refl eq_refl eq_refl eq_refl)).
Defined.
