(* ===== verification/Acks.v ===== *)
(** * Acknowledgements, end to end

    What an acknowledgement is worth: the level of
    [packages/daemon/src/domain/deviceSessions.ts], advanced by the read loop of
    [packages/daemon/src/interface/clientConnection.ts] after a command has been run, the
    acknowledgements sent from it, the engine of [packages/protocol/src/client.ts] that
    receives them, and the exit status [packages/cli/src/cc.ts] derives from them. *)

From S2P Require Import Prelude JsMap Js Types Frame Sync Resend DeviceSessions Framing Client Hub Connection Cli.
Import ClientConnection.

Local Open Scope Z_scope.

Module Acks.

Section acks.
Context {Key Nonce Sock X Ev R : Type} `{SessionCrypto Key Nonce} `{EqDecision Sock}.
Notation World := (ClientConnection.t Key Sock X Ev R).
Notation Dependencies := (ClientConnection.Deps Key Nonce Sock X Ev R).
Notation Op := (DeviceSessions.Op Ev).
Notation registry_t := (DeviceSessions.t Ev).

(** The level an event acknowledges, for the events that are acknowledgements. *)
Variable ack_of : Ev -> option Z.

(** The numbers a line makes the daemon run with success: the dispatcher is called and
    returns. *)
Definition completed (d : Dependencies) (sock : Sock) (line : string) (w : World) : list (string * Z) :=
  match executes d sock line w with
  | Some (dev, seq, cmd) =>
      let w1 := mk (ClientHub.set_reg (snd (DeviceSessions.acceptInbound dev seq (registry w))) (hub w)) (rest w) in
      if is_ok (fst (handleCommand d cmd sock dev w1)) then [(dev, seq)] else []
  | None => []
  end.

(** An operation of the registry that neither marks nor acknowledges. *)
Definition neutral (op : Op) : Prop :=
  match op with
  | DeviceSessions.OpAccept _ _ | DeviceSessions.OpProcessed _ _ => False
  | DeviceSessions.OpSent _ _ ev => ack_of ev = None
  | _ => True
  end.

(** A history of the registry in which exactly the numbers of [comp] are marked, and every
    acknowledgement is sent at the level of its time. *)
Inductive account : registry_t -> list (string * Z) -> list Op -> Prop :=
| account_nil r : account r [] []
| account_neutral r op comp ops : neutral op -> account (DeviceSessions.step r op) comp ops -> account r comp (op :: ops)
| account_accept r dev seq comp ops :
    account (DeviceSessions.step r (DeviceSessions.OpAccept dev seq)) comp ops ->
    account r comp (DeviceSessions.OpAccept dev seq :: ops)
| account_mark r dev seq comp ops :
    account (DeviceSessions.step r (DeviceSessions.OpProcessed dev seq)) comp ops ->
    account r ((dev, seq) :: comp) (DeviceSessions.OpProcessed dev seq :: ops)
| account_ack r now dev ev comp ops :
    ack_of ev = Some (DeviceSessions.ackLevel dev r) ->
    account (DeviceSessions.step r (DeviceSessions.OpSent now dev ev)) comp ops ->
    account r comp (DeviceSessions.OpSent now dev ev :: ops).

(** What a line does to the registry is such a history. *)
Definition accounts (d : Dependencies) (sock : Sock) (line : string) (w : World) : Prop :=
  exists ops, account (registry w) (completed d sock line w) ops /\
    registry (snd (onLine d sock line w)) = DeviceSessions.run (registry w) ops.

(** A run of the daemon from an empty registry: lines of any sockets, and anything else
    that neither marks nor acknowledges. *)
Inductive served (d : Dependencies) (a b : Z) : list (string * Z) -> list Op -> World -> Prop :=
| served_new w : registry w = DeviceSessions.new a b -> served d a b [] [] w
| served_line comp ops w sock line ops' :
    served d a b comp ops w -> account (registry w) (completed d sock line w) ops' ->
    registry (snd (onLine d sock line w)) = DeviceSessions.run (registry w) ops' ->
    served d a b (comp ++ completed d sock line w) (ops ++ ops') (snd (onLine d sock line w))
| served_other comp ops w ops' w' :
    served d a b comp ops w -> Forall neutral ops' -> registry w' = DeviceSessions.run (registry w) ops' ->
    served d a b comp (ops ++ ops') w'.

(** The daemon's parts keep to themselves: the dispatcher and the snapshot make no
    acknowledgement and mark nothing, and the literal of an acknowledgement is one. *)
Record Sound (d : Dependencies) : Prop := {
  so_literal n : ack_of (literal d (ack n)) = Some n;
  so_handler cmd sock dev w : exists ops, Forall neutral ops /\
    registry (snd (handleCommand d cmd sock dev w)) = DeviceSessions.run (registry w) ops;
  so_snapshot r evs : fst (snapshot d r) = Ok evs -> Forall (fun ev => ack_of ev = None) evs;
}.

(** The acknowledgements sent to a device. *)
Definition ack_sent (dev : string) (ops : list Op) (n : Z) : Prop :=
  exists now ev, DeviceSessions.OpSent now dev ev ∈ ops /\ ack_of ev = Some n.

(** Whatever acknowledgement the engine opens along [l] is one the daemon sent. *)
Definition authentic (deviceId : string) (deriveKey : string -> Key) (dev : string) (ops : list Op)
    (l : list (ReliableClient.Input Nonce)) : Prop :=
  forall l1 rnd m l2 k seq n, l = l1 ++ ReliableClient.IMessage rnd m :: l2 ->
    ReliableClient.key (ReliableClient.run deviceId deriveKey ReliableClient.new l1) = Some k ->
    w_seq m = Some seq -> open_frame k (wire_frame m seq) d2c = Some (PEv (ack n)) -> ack_sent dev ops n.

End acks.

End Acks.

Import Framing Acks.

Section laws.
Context {Key Nonce Sock X Ev R : Type} `{SessionCrypto Key Nonce} `{EqDecision Sock}.
Notation World := (ClientConnection.t Key Sock X Ev R).
Notation Dependencies := (ClientConnection.Deps Key Nonce Sock X Ev R).
Variable ack_of : Ev -> option Z.
Implicit Types (d : Dependencies) (w : World) (r : DeviceSessions.t Ev).
Notation account := (account ack_of).
Notation neutral := (neutral ack_of).

(** ** Histories *)

Lemma account_app r c1 o1 c2 o2 :
  account r c1 o1 -> account (DeviceSessions.run r o1) c2 o2 -> account r (c1 ++ c2) (o1 ++ o2).
Proof.
  induction 1 as [r|r op comp ops Hn _ IH|r dev seq comp ops _ IH|r dev seq comp ops _ IH|r now dev ev comp ops Ha _ IH];
    intros H2; cbn [app]; [done|apply account_neutral; auto|apply account_accept; auto|apply account_mark; auto|apply account_ack; auto].
Qed.

Lemma account_quiet r ops : Forall neutral ops -> account r [] ops.
Proof. intros Hq. revert r. induction Hq as [|op ops Ho _ IH]; intros r; [constructor|by apply account_neutral]. Qed.

(** A number acknowledged to a device has been completed for it, with all below. *)
Definition covered (comp : list (string * Z)) (dev : string) (n : Z) : Prop := forall k, 1 <= k <= n -> (dev, k) ∈ comp.

Lemma account_covered a b pre comp0 comp ops :
  (forall dev k, k ∈ marked dev pre -> (dev, k) ∈ comp0) ->
  account (DeviceSessions.run (DeviceSessions.new a b) pre) comp ops ->
  (forall dev k, k ∈ marked dev (pre ++ ops) -> (dev, k) ∈ comp0 ++ comp) /\
  (forall dev n, ack_sent ack_of dev ops n -> covered (comp0 ++ comp) dev n).
Proof.
  intros Hm Ha. remember (DeviceSessions.run (DeviceSessions.new a b) pre) as r eqn:Hr. revert pre comp0 Hr Hm.
  induction Ha as [r|r op comp ops Hn _ IH|r dev seq comp ops _ IH|r dev seq comp ops _ IH|r now dev ev comp ops Hack _ IH];
    intros pre comp0 Hr Hm.
  - rewrite !app_nil_r. split; [done|]. intros dev n (now & ev & Hin & _). by apply not_elem_of_nil in Hin.
  - destruct (IH (pre ++ [op]) comp0) as [IH1 IH2].
    + by rewrite run_snoc_reg, Hr.
    + intros dev k. unfold marked. rewrite foldl_app. cbn [foldl]. intros Hk. apply Hm.
      destruct op as [? ?|? ? ?|? ?|? ?|d']; cbn [marked_op] in Hk; try done. case_decide; [by apply not_elem_of_nil in Hk|done].
    + rewrite <- app_assoc in IH1. split; [exact IH1|]. intros dev n (now & ev & Hin & Hev).
      apply elem_of_cons in Hin as [<-|Hin]; [cbn in Hn; congruence|]. apply IH2. by exists now, ev.
  - destruct (IH (pre ++ [DeviceSessions.OpAccept dev seq]) comp0) as [IH1 IH2].
    + by rewrite run_snoc_reg, Hr.
    + intros dev' k. unfold marked. rewrite foldl_app. apply Hm.
    + rewrite <- app_assoc in IH1. split; [exact IH1|]. intros dev' n (now & ev & Hin & Hev).
      apply elem_of_cons in Hin as [?|Hin]; [done|]. apply IH2. by exists now, ev.
  - destruct (IH (pre ++ [DeviceSessions.OpProcessed dev seq]) (comp0 ++ [(dev, seq)])) as [IH1 IH2].
    + by rewrite run_snoc_reg, Hr.
    + intros dev' k. unfold marked. rewrite foldl_app. cbn [foldl marked_op]. rewrite elem_of_app, list_elem_of_singleton.
      case_decide as Hd; [|left; by apply Hm]. rewrite elem_of_app, list_elem_of_singleton. intros [Hk| ->]; [left; by apply Hm|right; congruence].
    + rewrite <- !app_assoc in IH1. rewrite <- app_assoc in IH2. split; [exact IH1|].
      intros dev' n (now & ev & Hin & Hev). apply elem_of_cons in Hin as [?|Hin]; [done|]. apply IH2. by exists now, ev.
  - destruct (IH (pre ++ [DeviceSessions.OpSent now dev ev]) comp0) as [IH1 IH2].
    + by rewrite run_snoc_reg, Hr.
    + intros dev' k. unfold marked. rewrite foldl_app. apply Hm.
    + rewrite <- app_assoc in IH1. split; [exact IH1|]. intros dev' n (now' & ev' & Hin & Hev).
      apply elem_of_cons in Hin as [Heq|Hin]; [|apply IH2; by exists now', ev'].
      injection Heq as -> -> ->. rewrite Hack in Hev. injection Hev as <-. intros k Hk. apply elem_of_app. left. apply Hm.
      rewrite Hr in Hk. exact (level_marked a b pre dev k Hk).
Qed.

(** ** What each call of a line does *)

(** From [w], [m] marks exactly [comp]. *)
Definition pays {A} (comp : list (string * Z)) (m : eff World A) w : Prop :=
  exists ops, account (registry w) comp ops /\ registry (snd (m w)) = DeviceSessions.run (registry w) ops.

Definition plain {A} (m : eff World A) : Prop := forall w, pays [] m w.

Lemma plain_same {A} (m : eff World A) : (forall w, registry (snd (m w)) = registry w) -> plain m.
Proof. intros Hm w. exists []. split; [constructor|apply Hm]. Qed.

Lemma plain_ret {A} (a : A) : plain (mret a).
Proof. by apply plain_same. Qed.

Lemma plain_gets {A} (f : World -> A) : plain (gets f).
Proof. by apply plain_same. Qed.

(** The value of the first call satisfies [Q]. *)
Lemma pays_bind {A B} c1 c2 (m : eff World A) (k : A -> eff World B) (Q : A -> Prop) w :
  pays c1 m w -> (forall a, fst (m w) = Ok a -> Q a) -> (forall e, fst (m w) = Throw e -> c2 = []) ->
  (forall a, Q a -> pays c2 (k a) (snd (m w))) -> pays (c1 ++ c2) (m ≫= k) w.
Proof.
  intros (o1 & Ha1 & Hr1) HQ He Hk. unfold pays, mbind, eff_bind. destruct (m w) as [[a|e] w'] eqn:Hm; cbn [fst snd] in *.
  - destruct (Hk a (HQ a eq_refl)) as (o2 & Ha2 & Hr2). exists (o1 ++ o2). split.
    + apply account_app; [done|]. by rewrite <- Hr1.
    + by rewrite Hr2, Hr1, Hub.run_app.
  - exists o1. rewrite (He e eq_refl), app_nil_r. done.
Qed.

Lemma plain_bind {A B} (m : eff World A) (k : A -> eff World B) : plain m -> (forall a, plain (k a)) -> plain (m ≫= k).
Proof. intros Hm Hk w. apply (pays_bind [] [] m k (fun _ => True)); auto. intros a _. apply Hk. Qed.

Lemma plain_guard (m : eff World unit) : plain m -> plain (guardMessage m).
Proof.
  intros Hm w. destruct (Hm w) as (ops & Ha & Hr). exists ops. split; [done|]. rewrite <- Hr.
  unfold guardMessage, try_catch, mbind, eff_bind. by destruct (m w) as [[[]|e] w'].
Qed.

Lemma plain_on_rest {A} (m : eff R A) : plain (on_rest (Key:=Key) (Sock:=Sock) (X:=X) m).
Proof. apply plain_same. intros w. unfold on_rest. by destruct (m (rest w)). Qed.

Lemma plain_on_hub f : (forall h, ClientHub.reg (f h) = ClientHub.reg h) -> plain (on_hub (R:=R) f).
Proof. intros Hf. apply plain_same. intros w. apply Hf. Qed.

Lemma plain_for_each {Y} (f : Y -> eff World unit) l : (forall y, y ∈ l -> plain (f y)) -> plain (for_each f l).
Proof.
  induction l as [|y l IH]; intros Hf; cbn [for_each]; [apply plain_ret|].
  apply plain_bind; [apply Hf; by left|]. intros _. apply IH. intros y' Hy. apply Hf. by right.
Qed.

Lemma plain_writeRaw d sock m : plain (writeRaw d sock m).
Proof. apply plain_on_hub. intros h. apply Hub.writeFrame_reg. Qed.

Lemma plain_destroy d sock : plain (destroy d sock).
Proof. by apply plain_on_hub. Qed.

Notation sent_now d conn ev w :=
  (DeviceSessions.OpSent (ClientHub.clock (net d) (ClientHub.net (hub w))) (ClientHub.deviceId conn) ev).

Lemma send_event_registry d sock conn ev w :
  registry (snd (send_event d sock conn ev w)) =
    DeviceSessions.step (registry w) (sent_now d conn ev w).
Proof.
  unfold send_event, on_hub, modify, ClientHub.sendSealed. cbn [snd].
  destruct (Hub.record_op (net d) (ClientHub.deviceId conn) ev (hub w)) as (Hr & _ & _).
  destruct (ClientHub.record _ _ _ _) as [seq h1]. cbn [fst snd] in Hr.
  unfold registry; cbn [hub]. by rewrite (proj1 (Hub.sealAndWrite_reg _ _ _ _ _ _)), Hr.
Qed.

Lemma plain_send_event d sock conn ev : ack_of ev = None -> plain (send_event d sock conn ev).
Proof.
  intros Hev w. exists [sent_now d conn ev w]. rewrite send_event_registry. split; [|reflexivity]. apply account_neutral; [done|constructor].
Qed.

Lemma plain_send_ack d sock conn : Sound ack_of d -> plain (send_ack d sock conn).
Proof.
  intros Hd w. unfold send_ack, pays, mbind, eff_bind, gets.
  destruct (0 <? DeviceSessions.ackLevel (ClientHub.deviceId conn) (registry w)); [|exists []; by split; [constructor|]].
  exists [sent_now d conn (literal d (ack (DeviceSessions.ackLevel (ClientHub.deviceId conn) (registry w)))) w].
  rewrite send_event_registry. split; [|reflexivity].
  apply account_ack; [apply (so_literal _ _ Hd)|constructor].
Qed.

Lemma plain_resume now dev last : plain (on_registry (X:=X) (R:=R) (Key:=Key) (Sock:=Sock) (DeviceSessions.resumeFor now dev last)).
Proof.
  intros w. exists [DeviceSessions.OpHello now dev last]. split; [apply account_neutral; [done|constructor]|].
  unfold on_registry, registry. cbn. by destruct (DeviceSessions.resumeFor now dev last (ClientHub.reg (hub w))).
Qed.

Create HintDb plain.
Hint Resolve plain_ret plain_gets plain_bind plain_guard plain_on_rest plain_writeRaw plain_destroy plain_send_ack
  plain_resume plain_send_event : plain.

Lemma plain_snapshot d sock conn : Sound ack_of d ->
  plain (evs ← on_rest (snapshot d); for_each (send_event d sock conn) evs).
Proof.
  intros Hd w. apply (pays_bind [] [] _ _ (Forall (fun ev => ack_of ev = None))); [apply plain_on_rest| |done|].
  - intros evs. unfold on_rest. destruct (snapshot d (rest w)) as [o r] eqn:Hs. cbn. intros ->.
    apply (so_snapshot _ _ Hd (rest w)). by rewrite Hs.
  - intros evs Hevs. apply plain_for_each. intros ev Hin. rewrite Forall_forall in Hevs. auto with plain.
Qed.

Lemma plain_hello d sock msg : Sound ack_of d -> plain (handle_hello d sock msg).
Proof.
  intros Hd. unfold handle_hello. apply plain_bind; [auto with plain|]. intros [dv|]; [|auto with plain].
  do 3 (apply plain_bind; [auto with plain|]; intros ?). apply plain_bind; [auto with plain|]. intros resume.
  apply plain_bind; [by apply plain_on_hub|]. intros _. apply plain_bind; [|auto with plain].
  destruct resume as [evs|]; (apply plain_bind; [apply plain_writeRaw|intros _]); [|by apply plain_snapshot].
  apply plain_for_each. intros e _. apply plain_same. intros w. apply Hub.sealAndWrite_reg.
Qed.

Lemma plain_unauth d sock msg : Sound ack_of d -> plain (handleUnauth d sock msg).
Proof.
  intros Hd. unfold handleUnauth. destruct (is_str "begin_pair" _); [|destruct (is_str "complete_pair" _);
    [|destruct (is_str "hello" _); [by apply plain_hello|auto with plain]]].
  - destruct (negb _); auto with plain.
  - apply plain_bind; [auto with plain|]. intros n. destruct (_ <=? n); [auto with plain|].
    apply plain_bind; [auto with plain|]. intros [dv|r]; auto with plain.
Qed.

Lemma guard_value (m : eff World unit) w : fst (guardMessage m w) = Ok (is_ok (fst (m w))).
Proof. unfold guardMessage, try_catch, mbind, eff_bind. by destruct (m w) as [[[]|e] w']. Qed.

Lemma pays_finish d sock conn seq (handled : bool) w : Sound ack_of d ->
  pays (if handled then [(ClientHub.deviceId conn, seq)] else []) (finish d sock conn seq handled) w.
Proof.
  intros Hd. unfold finish. rewrite <- (app_nil_r (if handled then _ else [])).
  apply (pays_bind _ [] _ _ (fun _ => True)); [|done|done|].
  - destruct handled; [|apply plain_ret]. exists [DeviceSessions.OpProcessed (ClientHub.deviceId conn) seq].
    split; [apply account_mark; constructor|done].
  - intros [] _. apply plain_bind; [apply plain_gets|]. intros []; auto with plain.
Qed.

(** The dispatcher itself marks nothing. *)
Lemma pays_handler d cmd sock dev w : Sound ack_of d -> pays [] (guardMessage (handleCommand d cmd sock dev)) w.
Proof.
  intros Hd. destruct (so_handler _ _ Hd cmd sock dev w) as (ops & Hq & Hr). exists ops. split; [by apply account_quiet|].
  rewrite <- Hr. unfold guardMessage, try_catch, mbind, eff_bind. by destruct (handleCommand d cmd sock dev w) as [[[]|e] w'].
Qed.

Lemma pays_command d sock conn seq cmd w : Sound ack_of d ->
  pays (if fst (DeviceSessions.acceptInbound (ClientHub.deviceId conn) seq (registry w)) then
          if is_ok (fst (handleCommand d cmd sock (ClientHub.deviceId conn)
               (mk (ClientHub.set_reg (snd (DeviceSessions.acceptInbound (ClientHub.deviceId conn) seq (registry w))) (hub w)) (rest w))))
          then [(ClientHub.deviceId conn, seq)] else []
        else []) (on_command d sock conn seq cmd) w.
Proof.
  intros Hd. set (dev := ClientHub.deviceId conn). unfold on_command. fold dev.
  set (accept := on_registry (DeviceSessions.acceptInbound dev seq)).
  assert (Hacc : pays [] accept w).
  { exists [DeviceSessions.OpAccept dev seq]. split; [apply account_accept; constructor|].
    unfold accept, on_registry, registry. cbn. by destruct (DeviceSessions.acceptInbound dev seq (ClientHub.reg (hub w))). }
  assert (Hval : accept w = (Ok (fst (DeviceSessions.acceptInbound dev seq (registry w))),
    mk (ClientHub.set_reg (snd (DeviceSessions.acceptInbound dev seq (registry w))) (hub w)) (rest w))).
  { unfold accept, on_registry, registry. by destruct (DeviceSessions.acceptInbound dev seq (ClientHub.reg (hub w))). }
  set (w1 := mk _ (rest w)) in *. set (fresh := fst (DeviceSessions.acceptInbound dev seq (registry w))) in *.
  apply (pays_bind [] _ accept _ (fun a => a = fresh)); [done|rewrite Hval; cbn; congruence|rewrite Hval; done|].
  rewrite Hval. cbn [snd]. intros a ->. destruct fresh; cbn [negb]; [|apply plain_ret].
  apply (pays_bind [] _ _ _ (fun b => b = is_ok (fst (handleCommand d cmd sock dev w1))));
    [by apply pays_handler|rewrite guard_value; congruence|rewrite guard_value; done|].
  intros b ->. destruct (is_ok _); [by apply (pays_finish d sock conn seq true)|by apply (pays_finish d sock conn seq false)].
Qed.

Lemma onLine_accounts d sock line w : Sound ack_of d -> accounts ack_of d sock line w.
Proof.
  intros Hd. unfold accounts, completed, executes. destruct (ClientHub.connFor sock (hub w)) as [conn|] eqn:Hc.
  - pose proof (onLine_incoming d sock line w conn Hc) as Hi.
    destruct (incoming d sock line w) as [[[dev seq] cmd]|].
    + destruct Hi as [-> Hl]. rewrite Hl. pose proof (pays_command d sock conn seq cmd w Hd) as Hp. unfold pays in Hp.
      by destruct (fst (DeviceSessions.acceptInbound (ClientHub.deviceId conn) seq (registry w))).
    + destruct Hi as [Hr _]. exists []. split; [constructor|exact Hr].
  - rewrite incoming_unauth by done. unfold onLine. destruct (is_blank line); [by exists []; split; [constructor|]|].
    destruct (parseJson d line) as [msg|]; [|by exists []; split; [constructor|]].
    unfold mbind at 1, eff_bind at 1, gets at 1. rewrite Hc.
    apply (plain_bind (guardMessage (handleUnauth d sock msg))); [|intros; apply plain_ret].
    by apply plain_guard, plain_unauth.
Qed.

(** ** Runs *)

Lemma served_account d a b comp ops w : served ack_of d a b comp ops w ->
  account (DeviceSessions.new a b) comp ops /\ registry w = DeviceSessions.run (DeviceSessions.new a b) ops.
Proof.
  induction 1 as [w Hr|comp ops w sock line ops' _ [IH1 IH2] Ha Hr|comp ops w ops' w' _ [IH1 IH2] Hq Hr].
  - split; [constructor|done].
  - rewrite Hub.run_app, <- IH2. split; [|done]. apply account_app; [done|]. by rewrite <- IH2.
  - rewrite Hub.run_app, <- IH2. split; [|done]. rewrite <- (app_nil_r comp). apply account_app; [done|]. by apply account_quiet.
Qed.

Lemma served_covered d a b comp ops w dev n :
  served ack_of d a b comp ops w -> ack_sent ack_of dev ops n -> covered comp dev n.
Proof.
  intros Hs. destruct (served_account d a b comp ops w Hs) as [Ha _].
  destruct (account_covered a b [] [] comp ops) as [_ Hc]; [|exact Ha|apply Hc].
  intros dev' k Hk. by apply not_elem_of_nil in Hk.
Qed.

(** ** The engine that receives them *)

Section engine.
Variables (deviceId : string) (deriveKey : string -> Key).
Notation run := (ReliableClient.run deviceId deriveKey).
Notation engine := (ReliableClient.t Key).

(** The level an engine knows came in an acknowledgement it opened. *)
Lemma lastAcked_opened (l : list (ReliableClient.Input Nonce)) (s : Z) :
  0 < s <= ReliableClient.lastAcked (run ReliableClient.new l) ->
  exists l1 rnd m l2 k seq n, l = l1 ++ ReliableClient.IMessage rnd m :: l2 /\
    ReliableClient.key (run ReliableClient.new l1) = Some k /\ w_seq m = Some seq /\
    open_frame k (wire_frame m seq) d2c = Some (PEv (ack n)) /\ s <= n.
Proof.
  induction l as [|i l IH] using rev_ind; [cbn; lia|]. unfold ReliableClient.run. rewrite foldl_app. cbn [foldl].
  fold (run ReliableClient.new l). set (c := run ReliableClient.new l) in *. intros Hs.
  destruct (decide (s <= ReliableClient.lastAcked c)) as [Hle|Hgt].
  { destruct IH as (l1 & rnd & m & l2 & k & seq & n & -> & Hrest); [lia|].
    exists l1, rnd, m, (l2 ++ [i]), k, seq, n. by rewrite <- app_assoc. }
  destruct i as [|rnd m|nonce seq cmd reliable| |]; cbn [ReliableClient.step] in Hs; unfold ReliableClient.lastAcked in *.
  - cbn in Hs. lia.
  - unfold ReliableClient.onMessage in Hs. destruct (ReliableClient.key c) as [k|] eqn:Hk;
      [|repeat case_decide; cbn in Hs; lia].
    destruct (w_seq m) as [seq|] eqn:Hq; [|cbn in Hs; lia].
    destruct (open_frame k (wire_frame m seq) d2c) as [ev|] eqn:Ho; [|cbn in Hs; lia].
    destruct (InboundStream.accept (ReliableClient.inb c) seq) as [[] inb']; [|cbn in Hs; lia].
    destruct ev as [cmd|[]]; cbn in Hs; try lia.
    exists l, rnd, m, [], k, seq. eexists. split_and!; [done|exact Hk|exact Hq|exact Ho|lia].
  - unfold ReliableClient.send in Hs. destruct reliable.
    + destruct (ResendBuffer.add _ _ _) as [[] ?]; cbn in Hs; try lia. destruct (ReliableClient.key c); cbn in Hs; lia.
    + destruct (ReliableClient.key c); cbn in Hs; lia.
  - cbn in Hs. lia.
  - cbn in Hs. lia.
Qed.

(** A session's key is the one derived from a salt it was sent. *)
Lemma run_key (l : list (ReliableClient.Input Nonce)) k :
  ReliableClient.key (run ReliableClient.new l) = Some k -> exists salt, k = deriveKey salt.
Proof.
  revert k. induction l as [|i l IH] using rev_ind; intros k; [done|]. unfold ReliableClient.run. rewrite foldl_app. cbn [foldl].
  fold (run ReliableClient.new l). set (c := run ReliableClient.new l) in *.
  destruct i as [|rnd m|nonce seq cmd reliable| |]; cbn [ReliableClient.step]; [apply IH| | |done|apply IH].
  - unfold ReliableClient.onMessage, ReliableClient.onSessionSalt. destruct (ReliableClient.key c) as [k'|] eqn:Hk.
    + intros Hq. apply IH. revert Hq. repeat case_match; cbn; by rewrite ?Hk.
    + repeat case_match; cbn; rewrite ?Hk; try done; intros [= <-]; by eexists.
  - unfold ReliableClient.send. destruct reliable; [destruct (ResendBuffer.add _ _ _) as [[] ?]|]; destruct (ReliableClient.key c) eqn:Hk;
      cbn; rewrite ?Hk; intros Hq; apply IH; congruence.
Qed.

End engine.

(** An acknowledged command has been run.  Every line of the daemon marks a number
    only when the dispatcher has been called on its command and has returned, and sends
    acknowledgements only at the level it then has; so along any run of the daemon,
    restarts of connections and revocations included, once a client's engine that opens
    only acknowledgements the daemon sent to its device knows the level [s], the command
    of number [s] has been run for that device with success. *)
Theorem acknowledged_commands_ran (d : Dependencies) (a b : Z) (Hd : Sound ack_of d) :
  (forall sock line w, accounts ack_of d sock line w) /\
  forall comp ops w dev deviceId deriveKey (l : list (ReliableClient.Input Nonce)) s,
    served ack_of d a b comp ops w -> authentic ack_of deviceId deriveKey dev ops l ->
    0 < s <= ReliableClient.lastAcked (ReliableClient.run deviceId deriveKey ReliableClient.new l) ->
    (dev, s) ∈ comp.
Proof.
  split; [intros; by apply onLine_accounts|]. intros comp ops w dev deviceId deriveKey l s Hs Hau Hls.
  destruct (lastAcked_opened deviceId deriveKey l s Hls) as (l1 & rnd & m & l2 & k & seq & n & Hl & Hk & Hq & Ho & Hn).
  apply (served_covered d a b comp ops w dev n Hs); [|lia]. by apply (Hau l1 rnd m l2 k seq n).
Qed.

End laws.

(** ** What the exit status of a command is worth *)

Section command.
Context {Key Nonce X : Type} `{SessionCrypto Key Nonce} (v : Cli.Invocation Key Nonce X).
Notation state := (Cli.cli Key X).

(** The lines a run hears from [w] on. *)
Fixpoint heard (w : state) (es : list Cli.Event) : list string :=
  match es with
  | [] => []
  | e :: es' =>
      match e, Cli.exited w with
      | Cli.SockData chunk, None => (Framing.drain (Cli.buf w +:+ chunk)).1
      | _, _ => []
      end ++ heard (Cli.step v w e) es'
  end.

Hypothesis reserve_positive : forall x s x', Cli.reserve v x = (Some s, x') -> 0 < s.

(** The engine has been through inputs whose messages come from the lines of [L], and an
    issued command has a number. *)
Definition traced (L : list string) (w : state) : Prop :=
  (exists l, Cli.client w = ReliableClient.run (Cli.deviceId v) (Cli.deriveKey v) ReliableClient.new l /\
     forall rnd m, ReliableClient.IMessage rnd m ∈ l -> exists line, line ∈ L /\ Cli.parse v line = Some m) /\
  (Cli.issued w = true -> 0 < Cli.myCmdSeq w).

Lemma traced_weaken L L' w : traced L w -> traced (L ++ L') w.
Proof.
  intros [(l & Hc & Hl) Hs]. split; [|done]. exists l. split; [done|]. intros rnd m Hin.
  destruct (Hl rnd m Hin) as (line & Hline & Hp). exists line. split; [apply elem_of_app; by left|done].
Qed.

(** One more input that carries no message, or a line of [L]. *)
Lemma traced_input L w i :
  (forall rnd m, i = ReliableClient.IMessage rnd m -> exists line, line ∈ L /\ Cli.parse v line = Some m) ->
  traced L w -> traced L (Cli.set_client (ReliableClient.step (Cli.deviceId v) (Cli.deriveKey v) (Cli.client w) i) w).
Proof.
  intros Hi [(l & Hc & Hl) Hs]. split; [|exact Hs]. exists (l ++ [i]). split.
  - cbn [Cli.client Cli.set_client]. unfold ReliableClient.run. rewrite foldl_app. cbn [foldl]. by rewrite Hc.
  - intros rnd m [Hin|Heq%list_elem_of_singleton]%elem_of_app; [by apply (Hl rnd)|by apply (Hi rnd)].
Qed.

Section steps.
Variable L : list string.
Notation keeps := (preserves (traced L)).

Lemma keeps_emit o : keeps (Cli.emit o).
Proof. intros w Hw. exact Hw. Qed.

Lemma keeps_exit {A} code : keeps (Cli.exit_ (A:=A) code).
Proof. intros w Hw. exact Hw. Qed.

Lemma keeps_nonces : keeps (Cli.nonces v).
Proof. intros w Hw. unfold Cli.nonces. destruct (Cli.draw_nonces v (Cli.ext w)). exact Hw. Qed.

(** A [send] whose number is positive. *)
Lemma keeps_send p r w : traced L w ->
  traced L (snd (Cli.send v p r w)) /\ (forall n, fst (Cli.send v p r w) = Ok n -> 0 < n).
Proof.
  intros Hw. unfold Cli.send, Cli.nonces, mbind, eff_bind, gets, Cli.emit, modify, Cli.exit_, throw.
  destruct (Cli.reserve v (Cli.ext w)) as [[seq|] x] eqn:Hr; cbn -[ReliableClient.send]; [|by split].
  destruct (Cli.draw_nonces v x) as [rnd x']. cbn -[ReliableClient.send].
  pose proof (traced_input L w (ReliableClient.ISend (rnd 0%nat) seq p r)) as Ht. cbn [ReliableClient.step] in Ht.
  assert (Hval : forall n, fst (ReliableClient.send (rnd 0%nat) seq p r (Cli.client w)) = Ok n -> n = seq).
  { unfold ReliableClient.send. intros n. destruct r; [destruct (ResendBuffer.add _ _ _) as [[] ?]|]; cbn; congruence. }
  destruct (ReliableClient.send (rnd 0%nat) seq p r (Cli.client w)) as [[n|e] c']; cbn in Ht, Hval |- *.
  - split; [by apply Ht|]. intros n' [= <-]. rewrite (Hval n eq_refl). by apply (reserve_positive (Cli.ext w) seq x).
  - split; [by apply Ht|done].
Qed.

Lemma keeps_ready resumed n : keeps (Cli.on_ready v resumed n).
Proof.
  unfold Cli.on_ready. apply preserves_bind; [apply preserves_gets|]. intros ever.
  apply preserves_bind; [destruct ever; [apply keeps_emit|apply preserves_ret]|]. intros _.
  apply preserves_bind; [intros w Hw; exact Hw|]. intros _. apply preserves_bind; [apply preserves_gets|]. intros already.
  destruct (Cli.payload v) as [p|]; [|apply preserves_ret].
  destruct (Cli.isRead v); [|destruct (Cli.isWrite v && negb already); [|apply preserves_ret]];
    intros w Hw; unfold mbind, eff_bind;
    [destruct (keeps_send p false w Hw) as [Ht Hn]; destruct (Cli.send v p false w) as [[m|e] w']; exact Ht|].
  destruct (keeps_send p true w Hw) as [Ht Hn]. destruct (Cli.send v p true w) as [[m|e] w']; [|exact Ht].
  destruct Ht as [Hc _]. split; [exact Hc|]. intros _. by apply Hn.
Qed.

Lemma keeps_callback cb : keeps (Cli.callback v cb).
Proof.
  destruct cb as [r n|[c|ev] n|n| |]; cbn [Cli.callback]; [apply keeps_ready|apply preserves_ret| | | |apply keeps_emit].
  - unfold Cli.on_server_event. repeat case_match; repeat (apply preserves_bind; [apply keeps_emit|intros _]);
      first [apply keeps_emit|apply keeps_exit|apply preserves_ret].
  - intros w Hw. unfold Cli.on_ack, mbind, eff_bind, gets. case_match; exact Hw.
  - unfold Cli.on_hello_rejected. case_match; (apply preserves_bind; [apply keeps_emit|intros _; apply keeps_exit]).
Qed.

Lemma keeps_flush : keeps (Cli.flush v).
Proof.
  intros w Hw. unfold Cli.flush, mbind at 1, eff_bind at 1, gets. pose proof (traced_input L w ReliableClient.IDrain) as Ht.
  cbn [ReliableClient.step] in Ht. destruct (ReliableClient.drain (Cli.client w)) as [out c']. cbn [snd] in Ht.
  unfold mbind, eff_bind, modify. apply (preserves_for_each (traced L)); [intros o; apply keeps_emit|]. by apply Ht.
Qed.

Lemma trace_line line : line ∈ L -> keeps (Cli.on_line v line).
Proof.
  intros Hin. unfold Cli.on_line. destruct (Framing.is_blank line); [apply preserves_ret|].
  destruct (Cli.parse v line) as [m|] eqn:Hp; [|apply preserves_throw].
  apply preserves_bind; [apply keeps_nonces|]. intros rnd w Hw. unfold mbind at 1, eff_bind at 1, gets.
  pose proof (traced_input L w (ReliableClient.IMessage rnd m)) as Ht. cbn [ReliableClient.step] in Ht.
  destruct (ReliableClient.onMessage (Cli.deriveKey v) rnd (Cli.client w) m) as [c' cbs]. cbn [fst] in Ht.
  unfold mbind at 1, eff_bind at 1, modify. apply (preserves_bind (traced L)).
  - apply preserves_for_each, keeps_callback.
  - intros _. apply keeps_flush.
  - apply Ht; [|done]. intros rnd' m' [= _ <-]. by exists line.
Qed.

Lemma keeps_close : keeps (Cli.on_close v).
Proof.
  intros w Hw. pose proof (traced_input L w ReliableClient.IClose ltac:(done) Hw) as Ht. cbn [ReliableClient.step] in Ht.
  unfold Cli.on_close, mbind, eff_bind, gets, Cli.emit, modify, Cli.exit_, throw. cbn.
  destruct (Cli.RECONNECT_MAX_ATTEMPTS v <=? Cli.attempt w); exact Ht.
Qed.

End steps.

Lemma traced_step L w e : traced L w ->
  traced (L ++ match e, Cli.exited w with
               | Cli.SockData chunk, None => (Framing.drain (Cli.buf w +:+ chunk)).1
               | _, _ => []
               end) (Cli.step v w e).
Proof.
  intros Hw. unfold Cli.step. destruct (Cli.exited w) as [code|] eqn:He; [by apply traced_weaken|].
  set (L' := L ++ _). assert (Hw' : traced L' w) by (by apply traced_weaken).
  assert (Hk : traced L' (snd (Cli.on_event v e w))).
  { destruct e as [| |chunk| |]; cbn [Cli.on_event].
    - unfold mbind, eff_bind, gets. destruct (Cli.everConnected w); exact Hw'.
    - unfold mbind at 1, eff_bind at 1, gets. unfold mbind at 1, eff_bind at 1, modify. apply keeps_flush.
      apply (traced_input L' w ReliableClient.IOpen); [done|exact Hw'].
    - unfold mbind at 1, eff_bind at 1, gets. unfold mbind, eff_bind. rewrite read_loop_drain.
      assert (Hf : traced L' (snd (for_each (Cli.on_line v) (Framing.drain (Cli.buf w +:+ chunk)).1 w))).
      { apply (preserves_for_each_Forall (traced L')); [|done]. apply Forall_forall. intros line Hin. apply trace_line.
        apply elem_of_app. by right. }
      unfold mbind, eff_bind. destruct (for_each _ _ w) as [[[]|err] w']; exact Hf.
    - by apply keeps_close.
    - exact Hw'. }
  destruct (Cli.on_event v e w) as [[[]|err] w']; [exact Hk|]. destruct (Cli.exited w'); exact Hk.
Qed.

Lemma traced_run L w es : traced L w -> traced (L ++ heard w es) (foldl (Cli.step v) w es).
Proof.
  revert L w. induction es as [|e es IH]; intros L w Hw; [by apply traced_weaken|].
  cbn [foldl heard]. rewrite app_assoc. by apply IH, traced_step.
Qed.

Hypothesis attempts_nonneg : 0 <= Cli.RECONNECT_MAX_ATTEMPTS v.
Hypothesis base_nonneg : 0 <= Cli.RECONNECT_BASE_MS v.
Hypothesis delay_nonneg : 0 <= Cli.RECONNECT_MAX_DELAY_MS v.

(** A success is the acknowledgement of the number drawn, heard on a line and opened. *)
Lemma success_heard (x : X) (es : list Cli.Event) :
  Cli.isWrite v = true -> Cli.cmd v <> "revoke" -> Cli.exited (Cli.run v x es) = Some 0 ->
  exists line m k seq n, line ∈ heard (Cli.start x) es /\ Cli.parse v line = Some m /\ w_seq m = Some seq /\
    (exists salt, k = Cli.deriveKey v salt) /\
    open_frame k (wire_frame m seq) d2c = Some (PEv (ack n)) /\ 1 <= Cli.myCmdSeq (Cli.run v x es) <= n.
Proof.
  intros Hwr Hcmd Hex.
  assert (Ht0 : traced [] (Cli.start x)).
  { split; [|done]. exists []. split; [done|]. intros rnd m Hin. by apply not_elem_of_nil in Hin. }
  destruct (traced_run [] (Cli.start x) es Ht0) as [(l & Hc & Hl) Hpos].
  fold (Cli.run v x es) in Hc, Hpos. rewrite app_nil_l in Hl.
  assert (Hconf : Cli.issued (Cli.run v x es) = true /\
    Cli.myCmdSeq (Cli.run v x es) <= ReliableClient.lastAcked (Cli.client (Cli.run v x es))).
  { destruct (sound_run v attempts_nonneg base_nonneg delay_nonneg x es) as [([He|[He|[_ Hco]]] & _) _]; [congruence..|].
    unfold Cli.isWrite in Hwr. apply andb_prop in Hwr as [_ Hr].
    destruct Hco as [(_ & Hi & Hle)|[[Hrd _]|[[Hcr _]|Hself]]]; [done|by rewrite Hrd in Hr|done|].
    unfold Cli.isRevokeSelf in Hself. apply andb_prop in Hself as [Hcr _]. by apply bool_decide_eq_true in Hcr. }
  destruct Hconf as [Hi Hle]. specialize (Hpos Hi). rewrite Hc in Hle.
  destruct (lastAcked_opened (Cli.deviceId v) (Cli.deriveKey v) l (Cli.myCmdSeq (Cli.run v x es)) (conj Hpos Hle))
    as (l1 & rnd & m & l2 & k & seq & n & Hl' & Hk & Hq & Ho & Hn).
  destruct (Hl rnd m) as (line & Hin & Hp); [rewrite Hl'; apply elem_of_app; right; by left|].
  exists line, m, k, seq, n. split_and!; try done; [|lia]. by apply (run_key (Cli.deviceId v) (Cli.deriveKey v) l1).
Qed.

(** Exit status 0 means the command ran.  A write other than a revocation that ends
    with success, after any sequence of connections, losses and chunks, has been run by
    the daemon with success, under the number the command drew and for the device it is
    paired as, provided the acknowledgements it opens are the daemon's. *)
Theorem successful_command_ran {Sock Y Ev R} `{EqDecision Sock} (ack_of : Ev -> option Z)
    (d : ClientConnection.Deps Key Nonce Sock Y Ev R) (a b : Z) comp ops w dev (x : X) (es : list Cli.Event) :
  served ack_of d a b comp ops w ->
  (forall line m k seq n, line ∈ heard (Cli.start x) es -> Cli.parse v line = Some m -> w_seq m = Some seq ->
     open_frame k (wire_frame m seq) d2c = Some (PEv (ack n)) -> ack_sent ack_of dev ops n) ->
  Cli.isWrite v = true -> Cli.cmd v <> "revoke" ->
  Cli.exited (Cli.run v x es) = Some 0 ->
  (dev, Cli.myCmdSeq (Cli.run v x es)) ∈ comp.
Proof.
  intros Hs Hau Hwr Hcmd Hex. destruct (success_heard x es Hwr Hcmd Hex) as (line & m & k & seq & n & Hin & Hp & Hq & _ & Ho & Hn).
  apply (served_covered ack_of d a b comp ops w dev n Hs); [by apply (Hau line m k seq n)|lia].
Qed.

End command.

(** ** A concrete exchange *)

Definition demo_ack (ev : ServerEvent) : option Z := match ev with ack n => Some n | _ => None end.

#[local] Existing Instance node_SessionCrypto.
#[local] Existing Instance toy_platform.

Lemma demo_sound : Sound demo_ack demo_deps.
Proof.
  split; [done| |]; [intros cmd sock dev w; by exists []|intros r evs [= <-]; constructor].
Qed.

(** The phone hears the daemon's salt and its acknowledgement of command 1. *)
Definition demo_engine_inputs : list (ReliableClient.Input string) :=
  [ReliableClient.IOpen; ReliableClient.IMessage (fun _ => "n") (msg_of_salt "s" true None);
   ReliableClient.IMessage (fun _ => "n") (msg_of_frame (node_seal "k1" 5 (PEv (ack 1)) d2c "n"))].

Definition demo_ops : list (DeviceSessions.Op ServerEvent) :=
  [DeviceSessions.OpAccept "phone" 1; DeviceSessions.OpProcessed "phone" 1; DeviceSessions.OpSent 0 "phone" (ack 1)].

Lemma demo_served : exists w, served demo_ack demo_deps 200 200 [("phone", 1)] demo_ops w.
Proof.
  assert (Hc : completed demo_deps 1%nat "frame 1" demo_world = [("phone", 1)]) by (vm_compute; reflexivity).
  exists (snd (onLine demo_deps 1%nat "frame 1" demo_world)).
  pose proof (served_line demo_ack demo_deps 200 200 [] [] demo_world 1%nat "frame 1" demo_ops) as Hs. rewrite Hc in Hs.
  apply Hs; [by apply served_new| |vm_compute; reflexivity].
  apply account_accept, account_mark, account_ack; [vm_compute; reflexivity|constructor].
Qed.

Lemma demo_authentic : authentic demo_ack "phone" (fun _ => "k1") "phone" demo_ops demo_engine_inputs.
Proof.
  intros l1 rnd m l2 k seq n Hl Hk Hq Ho. exists 0, (ack 1). split; [unfold demo_ops; set_solver|].
  destruct l1 as [|i1 [|i2 [|i3 l1]]].
  - discriminate Hl.
  - injection Hl as <- <- <-. discriminate Hk.
  - injection Hl as <- <- <- <- <-. injection Hq as <-. vm_compute in Hk. injection Hk as <-.
    assert (Hopen : open_frame "k1" (wire_frame (msg_of_frame (node_seal "k1" 5 (PEv (ack 1)) d2c "n")) 5) d2c = Some (PEv (ack 1)))
      by (vm_compute; reflexivity).
    rewrite Hopen in Ho. injection Ho as <-. reflexivity.
  - apply (f_equal length) in Hl. rewrite length_app in Hl. cbn in Hl. lia.
Qed.

Lemma acknowledged_commands_ran_witness :
  ReliableClient.lastAcked (ReliableClient.run "phone" (fun _ => "k1") ReliableClient.new demo_engine_inputs) = 1 /\
  exists comp ops w, served demo_ack demo_deps 200 200 comp ops w /\ ("phone", 1) ∈ comp.
Proof.
  assert (Hl : ReliableClient.lastAcked (ReliableClient.run "phone" (fun _ => "k1") ReliableClient.new demo_engine_inputs) = 1)
    by (vm_compute; reflexivity).
  split; [exact Hl|]. destruct demo_served as [w Hs]. exists [("phone", 1)], demo_ops, w. split; [exact Hs|].
  apply (proj2 (acknowledged_commands_ran demo_ack demo_deps 200 200 demo_sound) [("phone", 1)] demo_ops w "phone" "phone"
    (fun _ => "k1") demo_engine_inputs 1 Hs demo_authentic). rewrite Hl. lia.
Defined.

(** The command [interrupt] on that exchange: it draws the number 1 and ends with success. *)
Definition demo_command : Cli.Invocation string string Z :=
  Cli.mkInvocation "interrupt" ["id"] "phone" (fun _ => "k1") (Some (PCmd (cmd_interrupt "id"))) 2 1000 30000
    (fun x => (Some 1, x)) (fun x => (fun _ => "n", x)) (fun _ => "")
    (fun line =>
       if bool_decide (line = "salt") then Some (msg_of_salt "s" true None)
       else if bool_decide (line = "ack") then Some (msg_of_frame (node_seal "k1" 5 (PEv (ack 1)) d2c "n")) else None).

Definition demo_events : list Cli.Event := [Cli.SockConnect; Cli.demo_line "salt"; Cli.demo_line "ack"].

(** Only the key of the exchange opens the daemon's frame, and to that acknowledgement. *)
Lemma demo_opens (k : string) (n : Z) :
  open_frame k (wire_frame (msg_of_frame (node_seal "k1" 5 (PEv (ack 1)) d2c "n")) 5) d2c = Some (PEv (ack n)) -> n = 1.
Proof.
  intros Ho.
  pose proof (@node_open_bound string toy_platform (fun _ => True) toy_platform_laws "k1" k 5 5 (PEv (ack 1)) (PEv (ack n)) d2c d2c "n" I) as Hb.
  destruct Hb as (_ & _ & _ & [= ->]); [exact Ho|done].
Qed.

Lemma demo_heard line : line ∈ heard demo_command (Cli.start 0) demo_events -> line = "salt" \/ line = "ack".
Proof.
  assert (Hh : heard demo_command (Cli.start 0) demo_events = ["salt"; "ack"]) by (vm_compute; reflexivity).
  rewrite Hh. set_solver.
Qed.

Lemma successful_command_ran_witness :
  Cli.exited (Cli.run demo_command 0 demo_events) = Some 0 /\
  exists comp ops w, served demo_ack demo_deps 200 200 comp ops w /\ ("phone", Cli.myCmdSeq (Cli.run demo_command 0 demo_events)) ∈ comp.
Proof.
  assert (He : Cli.exited (Cli.run demo_command 0 demo_events) = Some 0) by (vm_compute; reflexivity).
  split; [exact He|]. destruct demo_served as [w Hs]. exists [("phone", 1)], demo_ops, w. split; [exact Hs|].
  refine (successful_command_ran demo_command _ _ _ _ demo_ack demo_deps 200 200 [("phone", 1)] demo_ops w "phone" 0 demo_events
    Hs _ _ _ He); [by intros x s x' [= <- <-]|done..| |reflexivity|discriminate].
  intros line m k seq n Hin Hp Hq Ho. destruct (demo_heard line Hin) as [-> | ->]; injection Hp as <-; [discriminate Hq|].
  injection Hq as <-. apply demo_opens in Ho as ->. exists 0, (ack 1). split; [unfold demo_ops; set_solver|done].
Defined.
