(* ===== verification/Receipt.v ===== *)
(** * What success is worth

    The command line client of [packages/cli/src/cc.ts] against the assembled daemon of
    [System]: what a run of a command has written, and what its exit status then says about
    the daemon at the other end of the network. *)

From S2P Require Import Prelude JsMap Js Types Frame Sync Resend DeviceSessions Framing Client Sends Hub Commands Pairing Connection.
From S2P Require Import HookBridge Db Daemon System Guarantee Ledger Cli Acks.
Import System Ledger.

Local Open Scope Z_scope.

Module Receipt.

(** ** The network between a host and the daemon *)

Section network.
Context {Key Nonce CSock HSock O X H S : Type} `{SessionCrypto Key Nonce} `{EqDecision CSock} `{EqDecision HSock}.
Notation World := (ClientConnection.t Key CSock X ServerEvent (HookBridge.t HSock O (Rest HSock S))).

(** Whatever a host hears that opens under a key of its own, the daemon wrote; an on-path
    party may have changed the number in clear. *)
Definition from_daemon (deriveKey : string -> Key) (parse : string -> option WireMsg) (w : World) (heard : list string) : Prop :=
  forall line m salt seq ev, line ∈ heard -> parse line = Some m -> w_seq m = Some seq ->
    open_frame (deriveKey salt) (wire_frame m seq) d2c = Some ev ->
    exists sk f, (sk, ClientHub.Sealed f) ∈ ClientHub.written (ClientConnection.hub w) /\ wire_frame m seq = with_seq f seq.

(** Whatever the daemon runs for the device [dev] under the number [n], the host wrote. *)
Definition from_host (p : Parts Key Nonce CSock HSock O X H S) (w0 : World) (ins : list (input CSock HSock X S))
    (dev : string) (n : Z) (wrote : SealedFrame -> Prop) : Prop :=
  forall pre cs line post cmd, ins = pre ++ ClientLine cs line :: post ->
    ClientConnection.executes (connection p cs) cs line (run p w0 pre) = Some (dev, n, cmd) ->
    exists f msg s, wrote f /\ parseJson p line = Some msg /\ ClientConnection.frame_of msg = Some (with_seq f s).

End network.

Section receipt.
Context {Key Nonce X : Type} `{SessionCrypto Key Nonce} (v : Cli.Invocation Key Nonce X).

(** The one command of an invocation, under whatever number. *)
Definition the_command (_ : Z) (pl : Plain) : Prop := Cli.payload v = Some pl.

Definition line_of (o : ReliableClient.Outbound) : string := Cli.stringify v o +:+ String Framing.newline EmptyString.

(** All that a run holds and has written is its own. *)
Record sincere (w : Cli.cli Key X) : Prop := {
  si_client : Sends.sincere (Cli.deriveKey v) the_command (Cli.client w);
  si_output line : Cli.Wrote line ∈ Cli.output w -> exists o, Sends.own (Cli.deriveKey v) the_command o /\ line = line_of o;
}.

End receipt.

End Receipt.

Import Receipt.

(** ** What a command writes *)

Section written.
Context {Key Nonce X : Type} `{SessionCrypto Key Nonce} (v : Cli.Invocation Key Nonce X).
Notation state := (Cli.cli Key X).
Notation own := (Sends.own (Cli.deriveKey v) (the_command v)).
Notation sincere := (Receipt.sincere v).
Implicit Types (w : state) (c : ReliableClient.t Key).

Notation sincere_client := (Sends.sincere (Cli.deriveKey v) (the_command v)).

Lemma sincere_split w : sincere w <-> sincere_client (Cli.client w) /\
  forall line, Cli.Wrote line ∈ Cli.output w -> exists o, own o /\ line = line_of v o.
Proof. split; [by intros [H1 H2]|by intros [H1 H2]; split]. Qed.

Lemma sincere_set_client c w : sincere_client c -> sincere w -> sincere (Cli.set_client c w).
Proof. rewrite !sincere_split. by intros Hc [_ Ho]. Qed.

Lemma sincere_update {A} f (k : eff state A) : (forall c, sincere_client c -> sincere_client (f c)) -> preserves sincere k ->
  preserves sincere (c ← gets Cli.client; modify (Cli.set_client (f c)) ;; k).
Proof. intros Hf Hk w Hw. apply Hk. apply sincere_set_client; [|done]. apply Hf. by apply sincere_split in Hw as [Hc _]. Qed.

Lemma sincere_emit o : (forall line, o = Cli.Wrote line -> exists o', own o' /\ line = line_of v o') -> preserves sincere (Cli.emit o).
Proof.
  intros Hl w. rewrite !sincere_split. intros [Hc Ho]. split; [exact Hc|]. cbn.
  intros line [Hin|Hin%list_elem_of_singleton]%elem_of_app; [by apply Ho|by apply Hl].
Qed.

Lemma sincere_same (f : state -> state) : (forall w, Cli.client (f w) = Cli.client w /\ Cli.output (f w) = Cli.output w) ->
  preserves sincere (modify f).
Proof. intros Hf w. rewrite !sincere_split. cbn. by destruct (Hf w) as [-> ->]. Qed.

Lemma sincere_exit {A} code : preserves sincere (Cli.exit_ (A:=A) code).
Proof. apply preserves_bind; [by apply sincere_same|]. intros _. apply preserves_throw. Qed.

Lemma sincere_nonces : preserves sincere (Cli.nonces v).
Proof. intros w. unfold Cli.nonces. destruct (Cli.draw_nonces v (Cli.ext w)) as [r x]. rewrite !sincere_split. done. Qed.

Create HintDb sincere.
Hint Resolve preserves_ret preserves_throw preserves_gets preserves_bind sincere_exit sincere_nonces : sincere.
Hint Extern 4 (preserves _ (Cli.emit _)) => (apply sincere_emit; discriminate) : sincere.
Hint Extern 4 (preserves _ (modify _)) => (by apply sincere_same) : sincere.

Lemma sincere_cli_send pl reliable : Cli.payload v = Some pl -> preserves sincere (Cli.send v pl reliable).
Proof.
  intros Hpl. unfold Cli.send. apply preserves_bind.
  { intros w. destruct (Cli.reserve v (Cli.ext w)) as [s x]. rewrite !sincere_split. done. }
  intros [seq|]; [|auto with sincere]. apply preserves_bind; [auto with sincere|]. intros _. apply preserves_bind; [auto with sincere|].
  intros rnd w Hw. unfold mbind at 1, eff_bind at 1, gets.
  pose proof (sincere_send _ _ (rnd 0%nat) seq pl reliable (Cli.client w) Hpl (proj1 (proj1 (sincere_split w) Hw))) as Hc.
  destruct (ReliableClient.send (rnd 0%nat) seq pl reliable (Cli.client w)) as [r c']. cbn [snd] in Hc.
  unfold mbind, eff_bind, modify. destruct r; by apply sincere_set_client.
Qed.

Lemma sincere_ready resumed n : preserves sincere (Cli.on_ready v resumed n).
Proof.
  unfold Cli.on_ready. apply preserves_bind; [auto with sincere|]. intros ever.
  apply preserves_bind; [destruct ever; auto with sincere|]. intros _.
  apply preserves_bind; [auto with sincere|]. intros _. apply preserves_bind; [auto with sincere|]. intros already.
  destruct (Cli.payload v) as [pl|] eqn:Hpl; [|auto with sincere].
  pose proof (fun r => sincere_cli_send pl r Hpl) as Hs.
  destruct (Cli.isRead v); [auto with sincere|]. destruct (Cli.isWrite v && negb already); auto with sincere.
Qed.

Lemma sincere_callback cb : preserves sincere (Cli.callback v cb).
Proof.
  destruct cb as [r n|[c|ev] n|n| |]; cbn [Cli.callback]; [apply sincere_ready|auto with sincere| | | |auto with sincere].
  - unfold Cli.on_server_event. repeat case_match; repeat (apply preserves_bind; [auto with sincere|intros _]); auto with sincere.
  - unfold Cli.on_ack. apply preserves_bind; [auto with sincere|]. intros w. case_match; auto with sincere.
  - unfold Cli.on_hello_rejected. case_match; auto with sincere.
Qed.

Lemma sincere_flush : preserves sincere (Cli.flush v).
Proof.
  intros w Hw. unfold Cli.flush. unfold mbind at 1, eff_bind at 1, gets. cbn [ReliableClient.drain].
  unfold mbind at 1, eff_bind at 1, modify. apply (preserves_for_each_Forall sincere).
  - eapply Forall_impl; [exact (proj1 (sincere_drain _ _ _ (si_client _ _ Hw)))|]. intros o Ho. apply sincere_emit. intros line [= <-]. by exists o.
  - apply sincere_set_client; [|done]. exact (proj2 (sincere_drain _ _ _ (si_client _ _ Hw))).
Qed.

Lemma sincere_line line : preserves sincere (Cli.on_line v line).
Proof.
  unfold Cli.on_line. destruct (Framing.is_blank line); [auto with sincere|]. destruct (Cli.parse v line) as [m|]; [|auto with sincere].
  apply preserves_bind; [auto with sincere|]. intros rnd w Hw. unfold mbind at 1, eff_bind at 1, gets.
  pose proof (sincere_message _ _ rnd (Cli.client w) m (proj1 (proj1 (sincere_split w) Hw))) as Hc.
  destruct (ReliableClient.onMessage (Cli.deriveKey v) rnd (Cli.client w) m) as [c' cbs]. cbn [fst] in Hc.
  unfold mbind at 1, eff_bind at 1, modify. apply (preserves_bind sincere); [|intros _; apply sincere_flush|by apply sincere_set_client].
  apply preserves_for_each, sincere_callback.
Qed.

Lemma sincere_event e : preserves sincere (Cli.on_event v e).
Proof.
  destruct e as [| |chunk| |]; cbn [Cli.on_event].
  - apply preserves_bind; [auto with sincere|]. intros []; auto with sincere.
  - apply sincere_update; [|apply sincere_flush]. intros c. apply sincere_open.
  - apply preserves_bind; [auto with sincere|]. intros b. apply preserves_bind; [|auto with sincere].
    intros w Hw. rewrite read_loop_drain. unfold mbind, eff_bind.
    pose proof (preserves_for_each sincere (Cli.on_line v) (Framing.drain (b +:+ chunk)).1 sincere_line w Hw) as Hf.
    by destruct (for_each _ _ w) as [[[]|err] w'].
  - apply sincere_update; [intros c; apply sincere_close|].
    apply preserves_bind; [auto with sincere|]. intros a. destruct (_ <=? a); auto with sincere.
  - auto with sincere.
Qed.

Lemma sincere_step w e : sincere w -> sincere (Cli.step v w e).
Proof.
  intros Hw. unfold Cli.step. destruct (Cli.exited w); [done|]. pose proof (sincere_event e w Hw) as He.
  destruct (Cli.on_event v e w) as [[[]|err] w']; [done|]. destruct (Cli.exited w'); [done|].
  revert He. rewrite !sincere_split. done.
Qed.

Lemma sincere_run x es : sincere (Cli.run v x es).
Proof.
  unfold Cli.run. assert (Hs : sincere (Cli.start (Key:=Key) x)).
  { split; cbn; [apply sincere_new|intros line Hin; by apply not_elem_of_nil in Hin]. }
  revert Hs. generalize (Cli.start (Key:=Key) x). induction es as [|e es IH]; intros w Hw; [done|]. by apply IH, sincere_step.
Qed.

End written.

(** ** What the daemon runs *)

Lemma string_snoc_inj (a b : string) c : a +:+ String c EmptyString = b +:+ String c EmptyString -> a = b.
Proof.
  revert b. induction a as [|x a IH]; intros [|y b]; cbn; intros Heq; simplify_eq; try done.
  - by destruct b.
  - by destruct a.
  - f_equal. by apply IH.
Qed.

Section executed.
Context {Key Nonce CSock HSock O X H S : Type} `{SessionCrypto Key Nonce} `{EqDecision CSock} `{EqDecision HSock}.
Context {serializable : Plain -> Prop} `{!SessionCryptoLaws Key Nonce serializable}.
Variable p : Parts Key Nonce CSock HSock O X H S.

(** A frame runs as the command sealed in it, under the number it was sealed for. *)
Lemma executed_frame cs line w dev seq cmd k n pl nonce msg s : serializable pl ->
  parseJson p line = Some msg -> ClientConnection.frame_of msg = Some (with_seq (seal k n pl c2d nonce) s) ->
  ClientConnection.executes (connection p cs) cs line w = Some (dev, seq, cmd) -> seq = n /\ cmd = pl.
Proof.
  intros Hpl Hp Hf. unfold ClientConnection.executes, ClientConnection.incoming. destruct (Framing.is_blank _); [done|].
  cbn [ClientConnection.parseJson connection]. rewrite Hp.
  destruct (ClientHub.connFor cs _) as [c|]; [|done]. destruct (ClientConnection.jmember "seq" msg) as [sq|]; [|done].
  unfold ClientConnection.open_msg. rewrite Hf. destruct sq; try done.
  destruct (open_frame _ _ c2d) as [cmd'|] eqn:Hopen; [|done]. destruct (fst _); [|done]. intros [= _ <- <-].
  apply (open_bound _ _ n s pl cmd' c2d c2d nonce) in Hopen; [|done]. destruct Hopen as (_ & -> & _ & ->). done.
Qed.

End executed.

(** ** What its exit status says of the daemon *)

Section success.
Context {Key Nonce CSock HSock O X H S Y : Type} `{SessionCrypto Key Nonce} `{EqDecision CSock} `{EqDecision HSock}.
Context {serializable : Plain -> Prop} `{!SessionCryptoLaws Key Nonce serializable}.
Variables (p : Parts Key Nonce CSock HSock O X H S) (v : Cli.Invocation Key Nonce Y).

(** The platform of the command: numbers drawn are positive, and the settings sensible. *)
Hypothesis reserve_positive : forall x s x', Cli.reserve v x = (Some s, x') -> 0 < s.
Hypothesis attempts_nonneg : 0 <= Cli.RECONNECT_MAX_ATTEMPTS v.
Hypothesis base_nonneg : 0 <= Cli.RECONNECT_BASE_MS v.
Hypothesis delay_nonneg : 0 <= Cli.RECONNECT_MAX_DELAY_MS v.

(** JSON carries what is sealed, and texts of different messages differ. *)
Hypothesis events_serializable : forall ev, serializable (PEv ev).
Hypothesis payload_serializable : forall pl, Cli.payload v = Some pl -> serializable pl.
Hypothesis stringify_inj : forall o o', Cli.stringify v o = Cli.stringify v o' -> o = o'.

(** The daemon derives a key of the command's for its device only. *)
Variable dev : string.
Hypothesis keys_apart : forall dev' salt, key_of p dev' (Cli.deriveKey v salt) -> dev' = dev.

(** What the daemon runs from a frame the command wrote is the command's payload. *)
Lemma executed_payload x es cs line w dev' seq cmd f msg s :
  Cli.Wrote (line_of v (ReliableClient.OFrame f)) ∈ Cli.output (Cli.run v x es) ->
  parseJson p line = Some msg -> ClientConnection.frame_of msg = Some (with_seq f s) ->
  ClientConnection.executes (connection p cs) cs line w = Some (dev', seq, cmd) -> Cli.payload v = Some cmd.
Proof.
  intros Hw Hp Hf Hex. destruct (si_output _ _ (sincere_run v x es) _ Hw) as (o & Ho & Hl%string_snoc_inj%stringify_inj).
  subst o. destruct Ho as (salt & n & pl & nonce & Hpl & ->).
  by destruct (executed_frame p cs line w dev' seq cmd (Cli.deriveKey v salt) n pl nonce msg s (payload_serializable pl Hpl) Hp Hf Hex) as [_ ->].
Qed.

(** An acknowledgement among what the daemon wrote, opened under a key of the command's. *)
Lemma opened_ack_covers (done_for : string -> Z -> Prop) h sk f salt seq n : ledger p done_for h ->
  (sk, ClientHub.Sealed f) ∈ ClientHub.written h ->
  open_frame (Cli.deriveKey v salt) (with_seq f seq) d2c = Some (PEv (ack n)) -> covers done_for dev n.
Proof.
  intros Hl Hin Ho. destruct (told_ack p done_for f _ seq n events_serializable (lg_written _ _ _ Hl sk f Hin) Ho) as (dev' & Hk & Hc).
  by apply keys_apart in Hk as ->.
Qed.

(** C3. Exit status 0 means the daemon ran the command.  In any run of the assembled daemon
    and any run of a write of the CLI other than a revocation, through any connections,
    losses and chunks, when the command ends with success the daemon's dispatcher has been
    called, for the device the command is paired as and under the number it drew, on that
    very command, and has returned.  The network may drop, repeat, reorder and forge, as
    long as what opens under the keys the two derive was sealed by the other. *)
Theorem success_means_it_ran h db s ins a b (x : Y) (es : list Cli.Event) :
  discreet_services p -> Forall discreet ins ->
  ClientHub.clients h = [] -> ClientHub.written h = [] -> ClientHub.reg h = DeviceSessions.new a b ->
  let w0 := boot h db s in
  let cc := Cli.run v x es in
  from_daemon (Cli.deriveKey v) (Cli.parse v) (run p w0 ins) (heard v (Cli.start x) es) ->
  from_host p w0 ins dev (Cli.myCmdSeq cc) (fun f => Cli.Wrote (line_of v (ReliableClient.OFrame f)) ∈ Cli.output cc) ->
  Cli.isWrite v = true -> Cli.cmd v <> "revoke" -> Cli.exited cc = Some 0 ->
  exists cmd, Cli.payload v = Some cmd /\ ran p w0 ins dev (Cli.myCmdSeq cc) cmd.
Proof.
  intros Hsv Hins Hc Hw Hr w0 cc Hdown Hup Hwr Hcmd Hex.
  destruct (success_heard v reserve_positive attempts_nonneg base_nonneg delay_nonneg x es Hwr Hcmd Hex)
    as (line & m & k & seq & n & Hin & Hp & Hq & [salt ->] & Ho & Hn).
  destruct (Hdown line m salt seq _ Hin Hp Hq Ho) as (sk & f & Hf & Hwire). rewrite Hwire in Ho.
  destruct (opened_ack_covers _ _ sk f salt seq n (ledger_run p h db s ins a b Hsv Hins Hc Hw Hr) Hf Ho _ Hn) as (cmd & Hran).
  exists cmd. split; [|exact Hran]. destruct Hran as (pre & cs & line' & post & Hpre & Hexe & _).
  destruct (Hup pre cs line' post cmd Hpre Hexe) as (f' & msg & s' & Hwrote & Hmsg & Hframe).
  by apply (executed_payload x es cs line' (run p w0 pre) dev (Cli.myCmdSeq cc) cmd f' msg s').
Qed.

End success.

(** ** A concrete command: [cc allow t1 fine] *)

#[local] Existing Instance node_SessionCrypto.
#[local] Existing Instance toy_platform.
#[local] Existing Instance toy_platform_laws.

Definition demo_text (o : ReliableClient.Outbound) : string :=
  match o with
  | ReliableClient.OHello id None => "h" +:+ escape id
  | ReliableClient.OHello id (Some n) => "r" +:+ escape id +:+ pretty n
  | ReliableClient.OFrame f => "f" +:+ escape (f_n f) +:+ escape (f_c f) +:+ escape (f_t f) +:+ pretty (f_seq f)
  end.

Lemma demo_text_inj o o' : demo_text o = demo_text o' -> o = o'.
Proof.
  destruct o as [id [n|]|[n c t s]], o' as [id' [n'|]|[n' c' t' s']]; cbn; try done.
  - by intros [= [-> ->%(inj pretty)]%escape_app_inj].
  - intros [= Heq]. apply (f_equal (fun x => x +:+ "")) in Heq. by apply escape_app_inj in Heq as [-> _].
  - by intros [= [-> [-> [-> ->%(inj pretty)]%escape_app_inj]%escape_app_inj]%escape_app_inj].
Qed.

Definition demo_allow : Cli.Invocation string string Z :=
  Cli.mkInvocation "allow" ["t1"; "fine"] "phone" (fun salt => "key-" +:+ salt) (Some (PCmd (cmd_decide "t1" allow (Some "fine") "me")))
    2 1000 30000 (fun x => (Some 1, x)) (fun x => (fun _ => "n", x)) demo_text
    (fun line => if bool_decide (line = "salt") then Some (msg_of_salt "salt" false None)
                 else if bool_decide (line = "ack") then Some (msg_of_frame demo_receipt) else None).

Definition demo_session : list Cli.Event := [Cli.SockConnect; Cli.demo_line "salt"; Cli.demo_line "ack"].

Lemma demo_allow_heard line : line ∈ heard demo_allow (Cli.start 0) demo_session -> line = "salt" \/ line = "ack".
Proof.
  assert (Hh : heard demo_allow (Cli.start 0) demo_session = ["salt"; "ack"]) by (vm_compute; reflexivity).
  rewrite Hh. set_solver.
Qed.

Lemma demo_from_daemon : from_daemon (Cli.deriveKey demo_allow) (Cli.parse demo_allow) (run demo_parts (boot demo_hub Db.empty tt) demo_exchange) (heard demo_allow (Cli.start 0) demo_session).
Proof.
  intros line m salt seq ev Hin Hp Hq _. destruct (demo_allow_heard line Hin) as [-> | ->]; injection Hp as <-; [discriminate Hq|].
  injection Hq as <-. exists 1%nat, demo_receipt. split; [apply demo_exchange_written|reflexivity].
Qed.

Definition demo_command : SealedFrame := node_seal "key-salt" 1 (PCmd (cmd_decide "t1" allow (Some "fine") "me")) c2d "n".

(** All the daemon runs in the exchange is the one frame of the host. *)
Lemma demo_from_host (wrote : SealedFrame -> Prop) : wrote demo_command ->
  from_host demo_parts (boot demo_hub Db.empty tt) demo_exchange "phone" 1 wrote.
Proof.
  intros Hw pre cs line post cmd Hins Hex. exists demo_command, demo_sealed, 1. split_and!; [exact Hw| |reflexivity].
  destruct pre as [|i1 [|i2 pre]]; [injection Hins as <- <- <-; discriminate Hex|by injection Hins as <- <- <- <-|].
  apply (f_equal length) in Hins. rewrite length_app in Hins. cbn in Hins. lia.
Qed.

Lemma demo_from_command : from_host demo_parts (boot demo_hub Db.empty tt) demo_exchange "phone" 1
  (fun f => Cli.Wrote (line_of demo_allow (ReliableClient.OFrame f)) ∈ Cli.output (Cli.run demo_allow 0 demo_session)).
Proof.
  apply demo_from_host.
  assert (Ho : Cli.output (Cli.run demo_allow 0 demo_session) !! 2%nat = Some (Cli.Wrote (line_of demo_allow (ReliableClient.OFrame demo_command))))
    by (vm_compute; reflexivity).
  by apply list_elem_of_lookup_2 in Ho.
Qed.

Lemma demo_keys_apart dev' salt : key_of demo_parts dev' (Cli.deriveKey demo_allow salt) -> dev' = "phone".
Proof. intros (device & salt' & s & (id & s0 & Hf) & <- & _). cbn in Hf. case_decide; [by injection Hf as <-|done]. Qed.

Lemma success_means_it_ran_witness :
  Cli.exited (Cli.run demo_allow 0 demo_session) = Some 0 /\
  ran demo_parts (boot demo_hub Db.empty tt) demo_exchange "phone" 1 (PCmd (cmd_decide "t1" allow (Some "fine") "me")).
Proof.
  assert (He : Cli.exited (Cli.run demo_allow 0 demo_session) = Some 0) by (vm_compute; reflexivity).
  assert (Hn : Cli.myCmdSeq (Cli.run demo_allow 0 demo_session) = 1) by (vm_compute; reflexivity).
  split; [exact He|].
  destruct (success_means_it_ran (serializable:=fun _ => True) demo_parts demo_allow) with (dev := "phone") (h := demo_hub) (db := Db.empty)
    (s := tt) (ins := demo_exchange) (a := 200) (b := 200) (x := 0) (es := demo_session) as (cmd & [= <-] & Hran); try done.
  - by intros x n x' [= <- <-].
  - apply demo_text_inj.
  - apply demo_keys_apart.
  - apply demo_services.
  - apply demo_discreet.
  - apply demo_from_daemon.
  - rewrite Hn. apply demo_from_command.
Defined.
