(* ===== verification/PhoneReceipt.v ===== *)
(** * What an acknowledgement on the phone is worth

    The phone's host of [apps/mobile/src/core/protocol/clientController.ts] against the
    assembled daemon of [System]: whatever the socket delivers and whatever the screens send,
    a command whose number is acknowledged has been run. *)

From S2P Require Import Prelude JsMap Js Types Frame Sync Resend DeviceSessions Framing Client Sends Hub Commands Pairing Connection.
From S2P Require Import HookBridge Db Daemon System Guarantee Ledger Cli Acks Receipt MobileClient.
Import System Ledger Receipt.

Local Open Scope Z_scope.

Module Phone.

Section phone.
Context {Key Nonce X : Type} `{SessionCrypto Key Nonce}.
Variables (deviceId : string) (deriveKey : string -> Key) (o : ClientController.Options Key Nonce X) (onClose : eff X unit).
Notation Controller := (ClientController.t Key X).

(** What happens on the phone: it opens a socket, with a controller of its own, the open
    socket has events, and the screens send. *)
Inductive event : Type :=
| Open
| Socket (e : ClientController.WsEvent)
| Send (command : Plain) (reliable : bool).

(** The controller of the last socket, with the commands sent under the numbers they drew
    and the lines heard. *)
Record t : Type := mk { controller : Controller; said : list (Z * Plain); listened : list string }.

(** What a [send] counts as: the command under the number it drew. *)
Definition drawn (command : Plain) (c : Controller) : list (Z * Plain) :=
  match fst (ClientController.nextSeq o (ClientController.ext (ClientController.inner c))) with
  | Ok seq => [(seq, command)]
  | Throw _ => []
  end.

(** The complete lines an event brings. *)
Definition brought (c : Controller) (e : ClientController.WsEvent) : list string :=
  match e with
  | ClientController.WsMessage data => (Framing.drain (ClientController.buf c +:+ data)).1
  | _ => []
  end.

Definition step (st : t) (e : event) : t :=
  let c := controller st in
  match e with
  | Open => mk (ClientController.openWebSocket (ClientController.ext (ClientController.inner c))) (said st) (listened st)
  | Socket e => mk (snd (ClientController.on_ws deviceId deriveKey o onClose e c)) (said st) (listened st ++ brought c e)
  | Send command reliable => mk (snd (ClientController.on_inner (ClientController.send o command reliable) c))
                               (said st ++ drawn command c) (listened st)
  end.

Definition run (st : t) (es : list event) : t := foldl step st es.

(** The first socket is opened. *)
Definition start (x : X) : t := mk (ClientController.openWebSocket x) [] [].

Definition engine (st : t) : ReliableClient.t Key := ClientController.client (ClientController.inner (controller st)).

(** The platform: [wrote] is the account of the lines given to [write], nothing else
    writes; [counter] is the outbound counter, which only [nextSeq] moves, up to the number
    it returns; the callbacks of the screens record, and do not call the controller back. *)
Definition keeps (wrote : X -> list string) (counter : X -> Z) (x x' : X) : Prop := wrote x' = wrote x /\ counter x' = counter x.

Record Platform (wrote : X -> list string) (counter : X -> Z) : Prop := {
  pf_write line x : let x' := snd (ClientController.write o line x) in
    (forall l, l ∈ wrote x' -> l ∈ wrote x \/ l = line) /\ counter x' = counter x;
  pf_nextSeq x : match ClientController.nextSeq o x with
    | (Ok seq, x') => wrote x' = wrote x /\ counter x < seq /\ counter x' = seq
    | (Throw _, x') => keeps wrote counter x x'
    end;
  pf_nonces x : keeps wrote counter x (snd (ClientController.draw_nonces o x));
  pf_onClose x : keeps wrote counter x (snd (onClose x));
  pf_callback cb h : let h' := snd (ClientController.callback o cb h) in
    ClientController.client h' = ClientController.client h /\ keeps wrote counter (ClientController.ext h) (ClientController.ext h');
}.

End phone.
Arguments t : clear implicits.

End Phone.

Import Phone.

(** What [openWebSocket] hands the controller as [write] meets the platform's law when the
    socket's own [send] does. *)
Lemma open_write_law {X} (is_open : X -> bool) (ws_send : string -> eff X unit) (wrote : X -> list string) (counter : X -> Z) line x :
  (let x' := snd (ws_send line x) in (forall l, l ∈ wrote x' -> l ∈ wrote x \/ l = line) /\ counter x' = counter x) ->
  let x' := snd (ClientController.open_write is_open ws_send line x) in
  (forall l, l ∈ wrote x' -> l ∈ wrote x \/ l = line) /\ counter x' = counter x.
Proof.
  intros Hs. unfold ClientController.open_write, mbind, eff_bind, gets. destruct (is_open x); [exact Hs|]. cbn. split; [by left|done].
Qed.

(** ** What a controller keeps *)

Section kept.
Context {Key Nonce X : Type} `{SessionCrypto Key Nonce}.
Variables (deviceId : string) (deriveKey : string -> Key) (o : ClientController.Options Key Nonce X)
  (onClose : eff X unit) (wrote : X -> list string) (counter : X -> Z).
Hypothesis platform : Platform o onClose wrote counter.
Notation host := (ClientController.host Key X).

Section fixed.
Variables (sent : Z -> Plain -> Prop) (L : list string) (n : Z).
Notation own := (Sends.own deriveKey sent).

(** The engine is the host's, has heard the lines of [L], and only its own messages are
    among the lines written; the counter is at [n] or past it. *)
Record faithful_host (h : host) : Prop := {
  fh_sincere : Sends.sincere deriveKey sent (ClientController.client h);
  fh_followed : Sends.followed (Nonce:=Nonce) deriveKey deviceId (ClientController.parse o) L (ClientController.client h);
  fh_wrote line : line ∈ wrote (ClientController.ext h) -> exists m, own m /\ line = ClientController.line_of o m;
  fh_counter : n <= counter (ClientController.ext h);
}.

Lemma kept_engine h c : faithful_host h -> Sends.sincere deriveKey sent c ->
  Sends.followed (Nonce:=Nonce) deriveKey deviceId (ClientController.parse o) L c -> faithful_host (ClientController.mkHost c (ClientController.ext h)).
Proof. intros [_ _ Hw Hn] Hs Hf. by split. Qed.

Lemma kept_ext h x : faithful_host h -> keeps wrote counter (ClientController.ext h) x ->
  faithful_host (ClientController.mkHost (ClientController.client h) x).
Proof. intros [Hs Hf Hw Hn] [Hx Hc]. split; [done|done|by cbn; rewrite Hx|by cbn; rewrite Hc]. Qed.

Lemma kept_nonces : preserves faithful_host
  (fun h => let '(r, x) := ClientController.draw_nonces o (ClientController.ext h) in (Ok r, ClientController.mkHost (ClientController.client h) x)).
Proof.
  intros h Hh. pose proof (pf_nonces _ _ _ _ platform (ClientController.ext h)) as Hx.
  destruct (ClientController.draw_nonces o (ClientController.ext h)) as [r x]. by apply kept_ext.
Qed.

Lemma kept_callback cb : preserves faithful_host (ClientController.callback o cb).
Proof.
  intros h [Hs Hf Hw Hn]. destruct (pf_callback _ _ _ _ platform cb h) as [Hc [Hx Hk]]. split; by rewrite ?Hc, ?Hx, ?Hk.
Qed.

Lemma kept_write m : own m -> preserves faithful_host (ClientController.on_ext (ClientController.write o (ClientController.line_of o m))).
Proof.
  intros Hm h [Hs Hf Hw Hn]. unfold ClientController.on_ext.
  destruct (pf_write _ _ _ _ platform (ClientController.line_of o m) (ClientController.ext h)) as [Hx Hc].
  destruct (ClientController.write o _ _) as [r x]. split; [done|done| |cbn in Hc |- *; by rewrite Hc].
  intros line [Hin| ->]%Hx; [by apply Hw|by exists m].
Qed.

Lemma kept_flush : preserves faithful_host (ClientController.flush o).
Proof.
  intros h Hh. unfold ClientController.flush. unfold mbind at 1, eff_bind at 1, gets. cbn [ReliableClient.drain].
  unfold ClientController.set_client. unfold mbind at 1, eff_bind at 1, modify.
  destruct (sincere_drain _ _ _ (fh_sincere _ Hh)) as [Ho Hs]. apply (preserves_for_each_Forall faithful_host).
  - eapply Forall_impl; [exact Ho|]. intros m. apply kept_write.
  - apply (kept_engine h); [done|exact Hs|].
    apply (followed_input _ _ _ L _ ReliableClient.IDrain); [done|exact (fh_followed _ Hh)].
Qed.

(** A change of the engine that is one of its inputs. *)
Lemma kept_update {A} f (k : eff host A) (i : ReliableClient.Input Nonce) :
  (forall c, f c = ReliableClient.step deviceId deriveKey c i) -> (forall rnd m, i <> ReliableClient.IMessage rnd m) ->
  (forall c, Sends.sincere deriveKey sent c -> Sends.sincere deriveKey sent (f c)) -> preserves faithful_host k ->
  preserves faithful_host (c ← gets ClientController.client; ClientController.set_client (f c) ;; k).
Proof.
  intros Hi Hm Hf Hk h Hh. apply Hk. apply (kept_engine h); [done|by apply Hf, fh_sincere|]. rewrite Hi.
  apply followed_input; [intros rnd m He; by destruct (Hm rnd m)|by apply fh_followed].
Qed.

Lemma phone_hears line : line ∈ L -> preserves faithful_host (ClientController.on_line deriveKey o line).
Proof.
  intros Hin. unfold ClientController.on_line. destruct (Framing.is_blank line); [apply preserves_ret|].
  destruct (ClientController.parse o line) as [msg|] eqn:Hp; [|apply preserves_ret].
  apply preserves_bind; [apply kept_nonces|]. intros rnd h Hh. unfold mbind at 1, eff_bind at 1, gets.
  pose proof (sincere_message _ _ rnd _ msg (fh_sincere _ Hh)) as Hs.
  pose proof (followed_input deriveKey deviceId (ClientController.parse o) L (ClientController.client h) (ReliableClient.IMessage rnd msg)) as Hf.
  cbn [ReliableClient.step] in Hf. destruct (ReliableClient.onMessage deriveKey rnd (ClientController.client h) msg) as [c' cbs]. cbn [fst] in Hs, Hf.
  unfold ClientController.set_client. unfold mbind at 1, eff_bind at 1, modify. apply (preserves_bind faithful_host).
  - apply preserves_for_each, kept_callback.
  - intros _. apply kept_flush.
  - apply (kept_engine h); [done|done|]. apply Hf; [|by apply fh_followed]. intros rnd' m' [= _ <-]. by exists line.
Qed.

(** What [send] does once the number is drawn. *)
Lemma kept_drawn seq command reliable : sent seq command -> preserves faithful_host
  (rnd ← (fun h => let '(r, x) := ClientController.draw_nonces o (ClientController.ext h) in (Ok r, ClientController.mkHost (ClientController.client h) x));
   c ← gets ClientController.client;
   let '(r, c') := ReliableClient.send (rnd 0%nat) seq command reliable c in
   ClientController.set_client c' ;;
   match r with Ok seq => ClientController.flush o ;; mret seq | Throw e => throw e end).
Proof.
  intros Hsent. apply preserves_bind; [apply kept_nonces|]. intros rnd h Hh. unfold mbind at 1, eff_bind at 1, gets.
  pose proof (sincere_send _ _ (rnd 0%nat) seq command reliable _ Hsent (fh_sincere _ Hh)) as Hs.
  pose proof (followed_input deriveKey deviceId (ClientController.parse o) L _ (ReliableClient.ISend (rnd 0%nat) seq command reliable)
    ltac:(done) (fh_followed _ Hh)) as Hf.
  cbn [ReliableClient.step] in Hf. destruct (ReliableClient.send (rnd 0%nat) seq command reliable _) as [r c']. cbn [snd] in Hs, Hf.
  unfold ClientController.set_client. unfold mbind at 1, eff_bind at 1, modify.
  assert (Hh2 : faithful_host (ClientController.mkHost c' (ClientController.ext h))) by (by apply (kept_engine h)).
  destruct r; [|exact Hh2]. apply (preserves_bind faithful_host); [apply kept_flush|intros; apply preserves_ret|exact Hh2].
Qed.

Lemma kept_feed_loop fuel (c : ClientController.t Key X) : (forall line, line ∈ (Framing.drain (ClientController.buf c)).1 -> line ∈ L) ->
  faithful_host (ClientController.inner c) -> faithful_host (ClientController.inner (snd (ClientController.feed_loop deriveKey o fuel c))).
Proof.
  revert c. induction fuel as [|fuel IH]; intros c Hl Hc; [done|]. cbn [ClientController.feed_loop].
  unfold mbind at 1, eff_bind at 1, gets. rewrite drain_unfold in Hl.
  destruct (Framing.take_line (ClientController.buf c)) as [[line rest]|]; [|done].
  unfold mbind at 1, eff_bind at 1, modify. unfold mbind, eff_bind, ClientController.on_inner. cbn [ClientController.inner ClientController.buf].
  pose proof (phone_hears line) as Hk. destruct (Framing.drain rest) as [lines b] eqn:Hd. specialize (Hk (Hl line ltac:(by left)) _ Hc).
  destruct (ClientController.on_line deriveKey o line (ClientController.inner c)) as [[u|e] h]; cbn [snd] in Hk; [|done].
  apply IH; [|done]. cbn [ClientController.buf]. rewrite Hd. intros line' Hin. apply Hl. by right.
Qed.

End fixed.

(** ** A run of the phone *)

Notation step := (Phone.step deviceId deriveKey o onClose).
Notation run := (Phone.run deviceId deriveKey o onClose).
Implicit Types st : Phone.t Key X.

Definition sent_by st (seq : Z) (command : Plain) : Prop := (seq, command) ∈ said st.

(** The numbers drawn are below the counter, each once. *)
Definition sound st : Prop := exists n, Forall (fun e => e.1 <= n) (said st) /\ NoDup (said st).*1 /\
  faithful_host (sent_by st) (listened st) n (ClientController.inner (controller st)).

Lemma faithful_weaken (sent sent' : Z -> Plain -> Prop) L L' n h : (forall seq pl, sent seq pl -> sent' seq pl) ->
  faithful_host sent L n h -> faithful_host sent' (L ++ L') n h.
Proof.
  intros Hs [H1 H2 H3 H4]. split; [by apply (sincere_weaken _ sent)|by apply followed_weaken| |done].
  intros line Hin. destruct (H3 line Hin) as (m & Hm & Hl). exists m. split; [|exact Hl].
  destruct m as [|f]; [done|]. destruct Hm as (salt & seq & pl & nonce & Hpl & Hf). exists salt, seq, pl, nonce. by split; [apply Hs|].
Qed.

Lemma kept_send sent sent' L n command reliable h : (forall seq pl, sent seq pl -> sent' seq pl) ->
  faithful_host sent L n h -> let h' := snd (ClientController.send o command reliable h) in
  match fst (ClientController.nextSeq o (ClientController.ext h)) with
  | Ok seq => n < seq /\ (sent' seq command -> faithful_host sent' L seq h')
  | Throw _ => faithful_host sent L n h'
  end.
Proof.
  intros Hss Hh h'. unfold ClientController.send in (value of h'). unfold mbind at 1, eff_bind at 1, ClientController.on_ext at 1 in (value of h').
  revert h'.
  pose proof (pf_nextSeq _ _ _ _ platform (ClientController.ext h)) as Hx.
  destruct (ClientController.nextSeq o (ClientController.ext h)) as [[seq|e] x]; cbn [fst snd]; [|by apply (kept_ext sent L n h)].
  destruct Hx as (Hw & Hlt & Hc). pose proof (fh_counter _ _ _ _ Hh) as Hn. split; [lia|]. intros Hsent. apply (kept_drawn sent' L seq); [done|].
  destruct (faithful_weaken _ sent' L [] _ _ Hss Hh) as [H1 H2 H3 H4]. rewrite app_nil_r in H2.
  split; cbn; [done|done|by rewrite Hw|by rewrite Hc].
Qed.

Lemma inner_on_inner {A} (m : eff host A) (c : ClientController.t Key X) :
  ClientController.inner (snd (ClientController.on_inner m c)) = snd (m (ClientController.inner c)).
Proof. unfold ClientController.on_inner. by destruct (m _). Qed.

Lemma followed_fresh L : Sends.followed (Nonce:=Nonce) deriveKey deviceId (ClientController.parse o) L ReliableClient.new.
Proof. apply (followed_weaken _ _ _ [] L), followed_new. Qed.

(** A new socket starts a new engine. *)
Lemma kept_open sent L n h : faithful_host sent L n h ->
  faithful_host sent L n (ClientController.inner (ClientController.openWebSocket (Key:=Key) (ClientController.ext h))).
Proof. intros [_ _ Hw Hn]. split; [apply sincere_new|apply followed_fresh|exact Hw|exact Hn]. Qed.

Lemma kept_socket sent L n e (c : ClientController.t Key X) : faithful_host sent L n (ClientController.inner c) ->
  faithful_host sent (L ++ brought c e) n (ClientController.inner (snd (ClientController.on_ws deviceId deriveKey o onClose e c))).
Proof.
  intros Hc. destruct e as [|data| |]; cbn [ClientController.on_ws brought]; rewrite ?app_nil_r; [| | |exact Hc].
  - unfold ClientController.connected. rewrite inner_on_inner.
    by apply (kept_update _ _ _ _ _ ReliableClient.IOpen); [done|done|apply sincere_open|apply kept_flush|].
  - apply kept_feed_loop; cbn [ClientController.buf ClientController.inner]; [intros line Hin; apply elem_of_app; by right|].
    by apply (faithful_weaken sent).
  - destruct c as [b h]. cbn [ClientController.inner] in Hc.
    unfold ClientController.disconnected, ClientController.on_ext, ClientController.on_inner, ClientController.set_client, mbind, eff_bind, gets, modify.
    cbn [ClientController.inner ClientController.buf ClientController.client ClientController.ext].
    pose proof (pf_onClose _ _ _ _ platform (ClientController.ext h)) as Hx. destruct (onClose (ClientController.ext h)) as [r x].
    apply (kept_ext _ _ _ (ClientController.mkHost (ReliableClient.onClose (ClientController.client h)) (ClientController.ext h))); [|exact Hx].
    apply kept_engine; [exact Hc|apply sincere_close, Hc|].
    apply (followed_input deriveKey deviceId _ _ _ ReliableClient.IClose); [done|apply Hc].
Qed.

Lemma sound_send st command reliable : sound st -> sound (step st (Send command reliable)).
Proof.
  intros (n & Hb & Hd & Hs). unfold sound, Phone.step. cbn [controller said listened]. rewrite inner_on_inner. unfold drawn.
  assert (Hss : forall l seq pl, sent_by st seq pl -> (seq, pl) ∈ said st ++ l) by (intros l seq pl Hin; apply elem_of_app; by left).
  destruct (fst (ClientController.nextSeq o _)) as [seq|e] eqn:Hq.
  - pose proof (kept_send _ (fun k pl => (k, pl) ∈ said st ++ [(seq, command)]) _ _ command reliable _ (Hss _) Hs) as Hk.
    rewrite Hq in Hk. destruct Hk as [Hlt Hk]. exists seq. split_and!.
    + apply Forall_app. split; [|by apply Forall_singleton]. eapply Forall_impl; [exact Hb|]. cbn. lia.
    + rewrite fmap_app. apply NoDup_app. split_and!; [done| |apply NoDup_singleton].
      intros k (e & -> & He)%list_elem_of_fmap Hin%list_elem_of_singleton. rewrite Forall_forall in Hb. specialize (Hb e He). cbn in Hin, Hb. lia.
    + apply Hk. apply elem_of_app. right. by left.
  - pose proof (kept_send _ (sent_by st) _ _ command reliable _ (fun _ _ Hin => Hin) Hs) as Hk. rewrite Hq in Hk.
    rewrite app_nil_r. by exists n.
Qed.

Lemma phone_sound_step st e : sound st -> sound (step st e).
Proof.
  destruct e as [|e|command reliable]; [| |apply sound_send]; intros (n & Hb & Hd & Hs); exists n; split_and!; try done.
  - by apply kept_open.
  - by apply (kept_socket (sent_by st)).
Qed.

Lemma phone_sound_run x es : (forall line, line ∉ wrote x) -> sound (run (start x) es).
Proof.
  intros Hx. unfold Phone.run. assert (H0 : sound (start x)).
  { exists (counter x). split_and!; [constructor|constructor|]. split; cbn; [apply sincere_new|apply followed_new| |done].
    intros line Hin. by apply Hx in Hin. }
  revert H0. generalize (start (Key:=Key) x). induction es as [|e es IH]; intros st Hst; [done|]. by apply IH, phone_sound_step.
Qed.

End kept.

(** ** What an acknowledgement is worth *)

Lemma NoDup_fst_unique {A B} (l : list (A * B)) a b b' : NoDup l.*1 -> (a, b) ∈ l -> (a, b') ∈ l -> b' = b.
Proof.
  intros Hd [i Hi]%list_elem_of_lookup [j Hj]%list_elem_of_lookup. assert (i = j) as ->; [|congruence].
  apply (NoDup_lookup l.*1 i j a); [done| |]; by rewrite list_lookup_fmap, ?Hi, ?Hj.
Qed.

Section acknowledged.
Context {Key Nonce CSock HSock O X H S Y : Type} `{SessionCrypto Key Nonce} `{EqDecision CSock} `{EqDecision HSock}.
Context {serializable : Plain -> Prop} `{!SessionCryptoLaws Key Nonce serializable}.
Variables (p : Parts Key Nonce CSock HSock O X H S) (deviceId : string) (deriveKey : string -> Key) (o : ClientController.Options Key Nonce Y)
  (onClose : eff Y unit) (wrote : Y -> list string) (counter : Y -> Z).
Hypothesis platform : Platform o onClose wrote counter.

(** JSON carries what is sealed, and texts of different messages differ. *)
Hypothesis events_serializable : forall ev, serializable (PEv ev).
Hypothesis stringify_inj : forall m m', ClientController.stringify o m = ClientController.stringify o m' -> m = m'.

(** The daemon derives a key of the phone's for its device only. *)
Variable dev : string.
Hypothesis keys_apart : forall dev' salt, key_of p dev' (deriveKey salt) -> dev' = dev.

Notation run_phone := (Phone.run deviceId deriveKey o onClose).

(** C4. An acknowledged send ran.  In any run of the assembled daemon and any run of the
    phone's host, through any sockets, losses and chunks, when the engine of the open socket
    holds the number [n] as acknowledged, the daemon's dispatcher has been called, for the
    device the phone is paired as and under [n], on a command the phone has sent under that
    number, and has returned; and no other command was sent under it. *)
Theorem acknowledged_sends_ran h db s ins a b (y : Y) (es : list Phone.event) (n : Z) :
  discreet_services p -> Forall discreet ins ->
  ClientHub.clients h = [] -> ClientHub.written h = [] -> ClientHub.reg h = DeviceSessions.new a b ->
  let w0 := boot h db s in
  let phone := run_phone (start y) es in
  (forall line, line ∉ wrote y) ->
  (forall seq pl, (seq, pl) ∈ said phone -> serializable pl) ->
  from_daemon deriveKey (ClientController.parse o) (System.run p w0 ins) (listened phone) ->
  from_host p w0 ins dev n (fun f =>
    ClientController.line_of o (ReliableClient.OFrame f) ∈ wrote (ClientController.ext (ClientController.inner (controller phone)))) ->
  1 <= n <= ReliableClient.lastAcked (engine phone) ->
  exists cmd, ran p w0 ins dev n cmd /\ (forall cmd', (n, cmd') ∈ said phone <-> cmd' = cmd).
Proof.
  intros Hsv Hins Hc Hw Hr w0 phone Hy Hser Hdown Hup Hn.
  destruct (phone_sound_run deviceId deriveKey o onClose wrote counter platform y es Hy) as (top & _ & Hd & Hs).
  destruct (fh_followed _ _ _ _ _ _ _ _ _ Hs) as (l & Hl & Hin).
  unfold engine in Hn. fold phone in Hl, Hd, Hs. rewrite Hl in Hn.
  destruct (lastAcked_opened deviceId deriveKey l n) as (l1 & rnd & m & l2 & k & seq & up & Hcut & Hk & Hq & Ho & Hup'); [lia|].
  destruct (run_key deviceId deriveKey l1 k Hk) as [salt ->].
  destruct (Hin rnd m) as (line & Hline & Hp); [rewrite Hcut; apply elem_of_app; right; by left|].
  destruct (Hdown line m salt seq _ Hline Hp Hq Ho) as (sk & f & Hf & Hwire). rewrite Hwire in Ho.
  pose proof (ledger_run p h db s ins a b Hsv Hins Hc Hw Hr) as Hled.
  destruct (told_ack p _ f _ seq up events_serializable (lg_written _ _ _ Hled sk f Hf) Ho) as (dev' & Hdev & Hcov).
  apply keys_apart in Hdev as ->. destruct (Hcov n ltac:(lia)) as (cmd & Hran). exists cmd. split; [exact Hran|].
  destruct Hran as (pre & cs & line' & post & Hpre & Hexe & _).
  destruct (Hup pre cs line' post cmd Hpre Hexe) as (f' & msg & s' & Hwrote & Hmsg & Hframe).
  destruct (fh_wrote _ _ _ _ _ _ _ _ _ Hs _ Hwrote) as (m' & Hm' & Heq%string_snoc_inj%stringify_inj). subst m'.
  destruct Hm' as (salt' & seq' & pl & nonce & Hpl & ->).
  destruct (executed_frame p cs line' _ dev n cmd (deriveKey salt') seq' pl nonce msg s' (Hser _ _ Hpl) Hmsg Hframe Hexe) as [-> ->].
  intros cmd'. split; [|by intros ->]. intros Hsaid. by apply (NoDup_fst_unique (said phone) seq').
Qed.

End acknowledged.

(** ** A concrete phone: it decides, connects and is acknowledged *)

#[local] Existing Instance node_SessionCrypto.
#[local] Existing Instance toy_platform.
#[local] Existing Instance toy_platform_laws.

Definition demo_phone : ClientController.Options string string (Z * list string) := {|
  ClientController.write := ClientController.open_write (fun _ => true) (fun l => modify (fun x => (x.1, x.2 ++ [l])));
  ClientController.nextSeq := fun x => (Ok (x.1 + 1), (x.1 + 1, x.2));
  ClientController.draw_nonces x := (fun _ => "n", x);
  ClientController.stringify := demo_text;
  ClientController.parse := Cli.parse demo_allow;
  ClientController.callback _ := mret tt;
|}.

Lemma demo_phone_platform : Platform demo_phone (mret tt) snd fst.
Proof.
  split; try done.
  - intros line [c ls]. apply open_write_law. cbn. split; [|done]. intros l [Hl|Hl%list_elem_of_singleton]%elem_of_app; [by left|by right].
  - intros [c ls]. cbn. split_and!; [done|lia|done].
Qed.

Definition demo_line (line : string) : Phone.event := Socket (ClientController.WsMessage (line +:+ String Framing.newline "")).

Definition demo_decision : Plain := PCmd (cmd_decide "t1" allow (Some "fine") "me").

Definition demo_events : list Phone.event := [Send demo_decision true; Socket ClientController.WsOpen; demo_line "salt"; demo_line "ack"].

Notation demo_run := (Phone.run "phone" (fun salt => "key-" +:+ salt) demo_phone (mret tt) (start (0, [])) demo_events).

Lemma acknowledged_sends_ran_witness :
  ReliableClient.lastAcked (engine demo_run) = 1 /\
  ran demo_parts (boot demo_hub Db.empty tt) demo_exchange "phone" 1 demo_decision.
Proof.
  assert (Ha : ReliableClient.lastAcked (engine demo_run) = 1) by (vm_compute; reflexivity).
  assert (Hs : said demo_run = [(1, demo_decision)]) by (vm_compute; reflexivity).
  assert (Hl : listened demo_run = ["salt"; "ack"]) by (vm_compute; reflexivity).
  split; [exact Ha|].
  destruct (acknowledged_sends_ran (serializable:=fun _ => True) demo_parts "phone" (fun salt => "key-" +:+ salt) demo_phone (mret tt) snd fst
    demo_phone_platform (fun _ => I) demo_text_inj "phone") with (h := demo_hub) (db := Db.empty) (s := tt) (ins := demo_exchange)
    (a := 200) (b := 200) (y := (0, @nil string)) (es := demo_events) (n := 1) as (cmd & Hran & Hsaid); try done.
  - apply demo_keys_apart.
  - apply demo_services.
  - apply demo_discreet.
  - intros line Hin. by apply not_elem_of_nil in Hin.
  - rewrite Hl. intros line m salt seq ev Hin Hp Hq _.
    apply elem_of_cons in Hin as [-> | ->%list_elem_of_singleton]; injection Hp as <-; [discriminate Hq|].
    injection Hq as <-. exists 1%nat, demo_receipt. split; [apply demo_exchange_written|reflexivity].
  - apply demo_from_host.
    assert (Hw : (ClientController.ext (ClientController.inner (controller demo_run))).2 !! 1%nat =
      Some (ClientController.line_of demo_phone (ReliableClient.OFrame demo_command))) by (vm_compute; reflexivity).
    by apply list_elem_of_lookup_2 in Hw.
  - rewrite Hs in Hsaid. destruct (Hsaid demo_decision) as [Heq _]. by rewrite <- (Heq ltac:(by left)) in Hran.
Defined.
