(* ===== verification/CliStart.v ===== *)
(** * How a command of the CLI starts

    [packages/cli/src/cc.ts] from the environment and the arguments to the run of [Cli]: the
    constants at its top, [requireDevice], and the beginning of [runAuthenticated]. *)

From stdpp Require Import gmap.
From S2P Require Import Prelude JsMap Js Types Frame Client Config DeviceStore Cli.

Local Open Scope Z_scope.

Module CliStart.

Section start.
Context {Key Nonce X : Type} `{SessionCrypto Key Nonce}.

(** The process: its environment (whose numbers are taken as integers), the arguments
    after the script, the operating system and the modules it uses; [plain_of] is the value
    of a payload. *)
Record Process : Type := mkProcess {
  env : gmap string string;
  argv : list string;
  homedir : string;
  hostname : string;
  path_join : list string -> string;
  loadDevice : string -> option DeviceStore.DeviceRecord;
  reserveOutSeq : string -> X -> option Z * X;
  sessionCryptoFor : string -> string -> outcome (string -> Key);
  Number : string -> jsnum;
  Number_int : string -> Z;
  plain_of : jsval -> Plain;
  draw_nonces : X -> (nat -> Nonce) * X;
  stringify : ReliableClient.Outbound -> string;
  parse : string -> option WireMsg;
}.

Variable p : Process.

Definition DEVICE_STORE : string :=
  Config.env_or (env p) "CC_DEVICE_STORE" (path_join p [homedir p; ".config"; "claude-code-remote"; "device.json"]).

Definition WHO : string := hostname p +:+ "/cli".

(** [const [cmd, ...rest] = process.argv.slice(2)]; a missing command is no command, as
    the empty one. *)
Definition cmd : string := default EmptyString (head (argv p)).
Definition rest : list string := drop 1 (argv p).

(** [Number(process.env.X || d)] *)
Definition setting (name : string) (d : Z) : Z :=
  match Config.present (env p) name with Some s => Number_int p s | None => d end.

(** What starting comes to: the process ends with a status and a text on its standard
    error, an exception ends it, or the run begins. *)
Inductive Start : Type :=
| Exit (code : Z) (text : string)
| Uncaught (e : string)
| Runs (v : Cli.Invocation Key Nonce X).

Definition requireDevice (k : DeviceStore.DeviceRecord -> Start) : Start :=
  match loadDevice p DEVICE_STORE with
  | None => Exit 1 "not paired. run: cc pair"
  | Some d => k d
  end.

Definition runAuthenticated : Start :=
  requireDevice (fun device =>
    match Cli.buildCommandPayload (Number p) WHO cmd rest with
    | Throw usage => Exit 1 usage
    | Ok payload =>
        match sessionCryptoFor p (DeviceStore.devicePrivateKey device) (DeviceStore.daemonPublicKey device) with
        | Throw e => Uncaught e
        | Ok deriveKey =>
            Runs (Cli.mkInvocation cmd rest (DeviceStore.deviceId device) deriveKey (plain_of p <$> payload)
              (setting "CC_RECONNECT_MAX_ATTEMPTS" 10) (setting "CC_RECONNECT_BASE_MS" 1000) (setting "CC_RECONNECT_MAX_DELAY_MS" 15000)
              (reserveOutSeq p DEVICE_STORE) (draw_nonces p) (stringify p) (parse p))
        end
    end).

End start.
Arguments Process : clear implicits.
Arguments Start : clear implicits.

(** The commands [runAuthenticated] knows. *)
Definition commands : list string :=
  ["watch"; "history"; "spawn"; "send"; "interrupt"; "model"; "mode"; "effort"; "allow"; "deny"; "revoke"].

End CliStart.

Import CliStart.

(** ** Laws *)

Section laws.
Context {Key Nonce X : Type} `{SessionCrypto Key Nonce} (p : Process Key Nonce X).

(** A payload is built for the known commands only, and for all of them but [watch]. *)
Lemma payload_known Number who cmd rest :
  match Cli.buildCommandPayload Number who cmd rest with
  | Ok payload => cmd ∈ commands /\ (payload = None <-> cmd = "watch")
  | Throw _ => cmd ∉ commands
  end.
Proof.
  unfold Cli.buildCommandPayload, commands.
  repeat case_decide; subst; try (split; [set_solver|by split]); [|set_solver].
  destruct (Cli.parseFlags rest _). split; [set_solver|by split].
Qed.

Lemma default_setting name d : Config.present (env p) name = None -> setting p name d = d.
Proof. intros Hn. unfold setting. by rewrite Hn. Qed.

(** A run begins exactly for a paired device, a known command and keys that import; it is
    the record's device that runs, a write always has its payload, and the reconnects are
    bounded by the settings, ten attempts unless the environment says otherwise. *)
Theorem started_as_paired (v : Cli.Invocation Key Nonce X) : runAuthenticated p = Runs v ->
  exists d, loadDevice p (DEVICE_STORE p) = Some d /\ Cli.deviceId v = DeviceStore.deviceId d /\
    sessionCryptoFor p (DeviceStore.devicePrivateKey d) (DeviceStore.daemonPublicKey d) = Ok (Cli.deriveKey v) /\
    Cli.cmd v ∈ commands /\ (Cli.payload v = None <-> Cli.isWatch v = true) /\ (Cli.isWrite v = true -> is_Some (Cli.payload v)) /\
    (Config.present (env p) "CC_RECONNECT_MAX_ATTEMPTS" = None -> Cli.RECONNECT_MAX_ATTEMPTS v = 10).
Proof.
  unfold runAuthenticated, requireDevice. destruct (loadDevice p _) as [d|]; [|done].
  pose proof (payload_known (Number p) (WHO p) (cmd p) (rest p)) as Hk.
  destruct (Cli.buildCommandPayload _ _ _ _) as [pl|]; [|done]. destruct Hk as [Hin Hw].
  destruct (sessionCryptoFor p _ _) as [dk|] eqn:Hd; [|done]. intros [= <-]. exists d.
  assert (Hn : plain_of p <$> pl = None <-> cmd p = "watch") by (by rewrite fmap_None).
  split_and!; try done; unfold Cli.isWrite, Cli.isWatch; cbn [Cli.cmd Cli.payload Cli.RECONNECT_MAX_ATTEMPTS].
  - by rewrite bool_decide_eq_true.
  - rewrite andb_true_iff, negb_true_iff, bool_decide_eq_false, <- Hn. intros [Hs _]. by apply not_eq_None_Some.
  - apply default_setting.
Qed.

(** Without a paired device, or with a command it does not know, the process ends with
    status 1 before it draws a number or opens a socket. *)
Theorem unstarted_exits_one : loadDevice p (DEVICE_STORE p) = None \/ cmd p ∉ commands ->
  exists text, runAuthenticated p = Exit 1 text.
Proof.
  unfold runAuthenticated, requireDevice. intros [Hn|Hn]; [rewrite Hn; by eexists|]. destruct (loadDevice p _) as [d|]; [|by eexists].
  pose proof (payload_known (Number p) (WHO p) (cmd p) (rest p)) as Hk.
  destruct (Cli.buildCommandPayload _ _ _ _) as [pl|]; [by destruct Hk|by eexists].
Qed.

End laws.
