(* ===== verification/CliRender.v ===== *)
(** * What the command line client prints

    [render] of [packages/cli/src/cc.ts], with [safe], [ago] and [left]: the lines an
    event prints.  The clock, [toISOString] and the conversion of an untyped value to
    text are the platform's; strings are their UTF-8 bytes, so that the widths of [slice]
    and [padEnd] are the source's on ASCII. *)

From S2P Require Import Prelude JsMap Js Types Framing Text.

Local Open Scope Z_scope.

Module CliRender.
Import Text Sanitize.

Inductive Printed : Type := Log (text : string) | Err (text : string).

Record Env : Type := mkEnv {
  now : Z;
  to_text : jsval -> string;
  toISOString : Z -> option string;
}.

(** [`${Math.round((Date.now() - t) / 1000)}s ago`]: rounding is to the nearest, up. *)
Definition ago (v : Env) (t : Z) : string := pretty ((2 * (now v - t) + 1000) / 2000) +:+ "s ago".
Definition left_ (v : Env) (t : Z) : string := pretty (Z.max 0 ((2 * (t - now v) + 60000) / 120000)) +:+ "m left".

(** [neutralizeControlChars(String(v ?? ''))], of a string and of any value. *)
Definition safe (s : string) : string := neutralizeControlChars s.
Definition safe_value (v : Env) (x : jsval) : string :=
  safe (match jcoalesce x (JStr EmptyString) with JStr s => s | y => to_text v y end).

Definition BADGE (s : SessionState) : string :=
  match s with
  | waiting_approval | waiting_input => "NEEDS YOU"
  | working => "working" | idle => "idle" | finished => "done" | errored => "ERROR"
  | starting => "starting" | ready => "ready"
  end.

Definition job_state_text (s : JobState) : string :=
  match s with queued => "queued" | running => "running" | done => "done" | failed => "failed" end.

Definition verdict_text (d : Verdict) : string := match d with allow => "allow" | deny => "deny" end.

(** [s.padEnd(n)], [s.slice(0, n)], [s.toUpperCase()], [s.replace('T', ' ')]. *)
Fixpoint spaces (n : nat) : string := match n with O => EmptyString | S n => String " " (spaces n) end.
Definition padEnd (n : nat) (s : string) : string := s +:+ spaces (n - String.length s).
Definition slice0 (n : nat) (s : string) : string := String.substring 0 n s.
Definition upper_char (c : ascii) : ascii :=
  let n := nat_of_ascii c in if decide (97 <= n <= 122)%nat then ascii_of_nat (n - 32) else c.
Fixpoint replace_T (s : string) : string :=
  match s with
  | EmptyString => EmptyString
  | String c s' => if decide (c = "T"%char) then String " " s' else String c (replace_T s')
  end.

Definition log (s : string) : eff (list Printed) unit := modify (fun l => l ++ [Log s]).
Definition err (s : string) : eff (list Printed) unit := modify (fun l => l ++ [Err s]).

Definition nl : string := String newline EmptyString.
Definition quote : string := String "034"%char EmptyString.

Definition session_line (v : Env) (s : SessionInfo) : string :=
  "  " +:+ padEnd 10 (BADGE (si_state s)) +:+ " " +:+ padEnd 18 (safe (si_label s)) +:+ " " +:+
  slice0 8 (si_id s) +:+ "  " +:+ ago v (si_lastActivityAt s).

Definition history_line (when_ : string) (a : ApprovalHistoryEntry) : string :=
  "  " +:+ when_ +:+ "  " +:+ padEnd 5 (map_chars upper_char (safe (verdict_text (h_decision a)))) +:+ " " +:+
  padEnd 10 (safe (h_toolName a)) +:+ " " +:+ safe (h_decidedBy a) +:+
  (if truthy (Some (h_reason a)) then "  " +:+ quote +:+ safe (h_reason a) +:+ quote else EmptyString).

Definition render (v : Env) (ev : ServerEvent) : eff (list Printed) unit :=
  match ev with
  | session_list [] => log "(no sessions)"
  | session_list sessions =>
      log (nl +:+ "SESSIONS") ;; for_each (fun s => log (session_line v s)) sessions
  | session_update s =>
      log ("[session] " +:+ padEnd 10 (BADGE (si_state s)) +:+ " " +:+ safe (si_label s) +:+ " " +:+ slice0 8 (si_id s) +:+
           (if si_pendingApprovals s =? 0 then EmptyString else "  (" +:+ pretty (si_pendingApprovals s) +:+ " pending)"))
  | approval_pending a =>
      let detail := jcoalesce (jcoalesce (jprop "command" (toolInput a)) (jprop "file_path" (toolInput a))) (JStr EmptyString) in
      log (nl +:+ "  APPROVAL NEEDED  " +:+ safe (toolName a) +:+ "  [" +:+ left_ v (deadlineAt a) +:+ "]") ;;
      (match truthy_str (pa_description a) with Some d => log ("     " +:+ safe d) | None => mret tt end) ;;
      (if jtruthy detail then log ("     " +:+ slice0 120 (safe_value v detail)) else mret tt) ;;
      log ("     cc allow " +:+ safe (toolUseId a) +:+ "   |   cc deny " +:+ safe (toolUseId a) +:+ " " +:+
           quote +:+ "reason" +:+ quote +:+ nl)
  | approval_resolved id d by_ =>
      log ("  resolved " +:+ slice0 16 (safe id) +:+ " -> " +:+ safe (verdict_text d) +:+ " by " +:+ safe by_)
  | job_update j =>
      log ("[job] " +:+ padEnd 8 (safe (job_state_text (j_state j))) +:+ " " +:+ safe (default (j_cwd j) (j_label j)) +:+
           (match truthy_str (j_error j) with Some e => "  " +:+ safe e | None => EmptyString end))
  | revoked id => log ("  revoked device " +:+ safe id)
  | approval_history [] => log "(no decided approvals yet)"
  | approval_history approvals =>
      log (nl +:+ "APPROVAL HISTORY (most recent first)") ;;
      for_each (fun a =>
        match toISOString v (h_decidedAt a) with
        | None => throw "RangeError: Invalid time value"
        | Some iso => log (history_line (replace_T (slice0 19 iso)) a)
        end) approvals
  | error message => err ("  error: " +:+ safe message)
  | stream _ _ | ack _ => mret tt
  end.

End CliRender.

Import Text Sanitize CliRender.

(** ** Texts without the controls [sanitize.ts] rewrites *)

(** No C0 control character but the tab, and no DEL.  The C1 controls (U+0080 to U+009F, in
    their two bytes) count as text here, as they do for [neutralizeControlChars]. *)
Definition clean (s : string) : Prop := all_chars harmless s = true.

Lemma clean_app a b : clean a -> clean b -> clean (a +:+ b).
Proof. unfold clean. intros Ha Hb. by rewrite all_chars_app, Ha, Hb. Qed.

Lemma clean_safe s : clean (safe s).
Proof. apply neutralize_harmless. Qed.

Lemma clean_safe_value v x : clean (safe_value v x).
Proof. apply neutralize_harmless. Qed.

Lemma clean_spaces n : clean (spaces n).
Proof. induction n as [|n IH]; [done|exact IH]. Qed.

Lemma clean_padEnd n s : clean s -> clean (padEnd n s).
Proof. intros Hs. by apply clean_app, clean_spaces. Qed.

Lemma clean_slice0 n s : clean s -> clean (slice0 n s).
Proof.
  unfold slice0, clean. revert n. induction s as [|c s IH]; intros [|n] Hs; [done..|]. cbn in Hs |- *.
  apply andb_true_iff in Hs as [-> Hs]. by apply IH.
Qed.

Lemma clean_replace_T s : clean s -> clean (replace_T s).
Proof.
  unfold clean. induction s as [|c s IH]; intros Hs; [done|]. cbn in Hs |- *. apply andb_true_iff in Hs as [Hc Hs].
  case_decide; cbn; [done|]. by rewrite Hc, IH.
Qed.

Lemma clean_pretty_N (n : N) : clean (pretty n).
Proof.
  assert (Hgo : forall x s, clean s -> clean (pretty_N_go x s)).
  { intros x. induction (N.lt_wf_0 x) as [x _ IH]. intros s Hs.
    destruct (decide (0 < x)%N) as [Hx|Hx]; [|by replace x with 0%N by lia].
    rewrite pretty_N_go_step by done. apply IH; [apply N.div_lt; lia|]. unfold clean in *. cbn. rewrite Hs, andb_true_r.
    unfold pretty_N_char. by repeat case_match. }
  unfold pretty, pretty_N. case_decide; [done|by apply Hgo].
Qed.

Lemma clean_pretty (z : Z) : clean (pretty z).
Proof. destruct z as [|p|p]; [done|apply (clean_pretty_N (N.pos p))|apply (clean_app "-"); [done|apply (clean_pretty_N (N.pos p))]]. Qed.

Lemma clean_badge s : clean (BADGE s).
Proof. by destruct s. Qed.

Create HintDb clean.
#[export] Hint Resolve clean_app clean_safe clean_safe_value clean_padEnd clean_slice0 clean_replace_T clean_pretty clean_badge : clean.
#[export] Hint Extern 1 (clean _) => reflexivity : clean.

(** ** Nothing forged *)

(** The identifiers of sessions an event has printed, eight characters of each. *)
Definition ids (ev : ServerEvent) : list string :=
  match ev with
  | session_list l => si_id <$> l
  | session_update s => [si_id s]
  | _ => []
  end.

(** A body without these controls, or two around an identifier as it came. *)
Definition framed (raw : list string) (body : string) : Prop :=
  clean body \/ exists before id after, id ∈ raw /\ clean before /\ clean after /\ body = before +:+ slice0 8 id +:+ after.

(** A text that prints one such body, with the layout's own blank line before or after it. *)
Definition one_line (raw : list string) (t : string) : Prop :=
  exists body, framed raw body /\ (t = body \/ t = nl +:+ body \/ t = body +:+ nl).

Definition printed_ok (raw : list string) (p : Printed) : Prop := match p with Log t | Err t => one_line raw t end.

(** What an event adds to what was printed before. *)
Definition printed (v : Env) (ev : ServerEvent) : list Printed := (render v ev []).2.

Section forged.
Variable v : Env.
Hypothesis iso_clean : forall t s, toISOString v t = Some s -> clean s.

Variable raw : list string.
Notation prints := (preserves (Forall (printed_ok raw))).

Lemma prints_log t : one_line raw t -> prints (log t).
Proof. intros Ht l Hl. apply Forall_app_2; [done|]. by apply Forall_singleton. Qed.

Lemma prints_err t : one_line raw t -> prints (err t).
Proof. intros Ht l Hl. apply Forall_app_2; [done|]. by apply Forall_singleton. Qed.

Lemma line_body t : clean t -> one_line raw t.
Proof. intros Ht. exists t. split; [by left|auto]. Qed.

Lemma line_after t : clean t -> one_line raw (nl +:+ t).
Proof. intros Ht. exists t. split; [by left|auto]. Qed.

Lemma line_before t : clean t -> one_line raw (t +:+ nl).
Proof. intros Ht. exists t. split; [by left|auto]. Qed.

Lemma line_around before id after : id ∈ raw -> clean before -> clean after -> one_line raw (before +:+ slice0 8 id +:+ after).
Proof. intros Hid Hb Ha. eexists. split; [right; by exists before, id, after|auto]. Qed.

Lemma line_session s : si_id s ∈ raw -> one_line raw (session_line v s).
Proof.
  intros Hid. unfold session_line, ago. rewrite <- 4 string_app_assoc.
  apply line_around; [done|rewrite !string_app_assoc|]; auto 20 with clean.
Qed.

Lemma clean_history_line w a : clean w -> clean (history_line w a).
Proof.
  intros Hw. unfold history_line.
  assert (Hd : clean (map_chars upper_char (safe (verdict_text (h_decision a))))) by (by destruct (h_decision a)).
  destruct (truthy _); auto 20 with clean.
Qed.

Lemma prints_approval a : prints (render v (approval_pending a)).
Proof.
  cbn [render]. cbv zeta. apply preserves_bind; [apply prints_log, line_after; unfold left_; auto 20 with clean|]. intros _.
  apply preserves_bind.
  { destruct (truthy_str _); [apply prints_log, line_body; auto with clean|apply preserves_ret]. }
  intros _. apply preserves_bind.
  { destruct (jtruthy _); [apply prints_log, line_body; auto with clean|apply preserves_ret]. }
  intros _. apply prints_log. rewrite <- !string_app_assoc. apply line_before. auto 20 with clean.
Qed.

Lemma prints_event ev : (forall i, i ∈ ids ev -> i ∈ raw) -> prints (render v ev).
Proof.
  intros Hids. destruct ev as [[|s0 l]|s|a|id d b|id e|m|j|id|[|a0 l]|n]; [..|apply preserves_ret];
    try apply preserves_ret; try apply prints_approval; cbn [render].
  - apply prints_log, line_body. done.
  - apply preserves_bind; [by apply prints_log, (line_after "SESSIONS")|]. intros _.
    apply preserves_for_each_Forall. apply Forall_forall. intros s Hs. apply prints_log, line_session, Hids. by apply list_elem_of_fmap_2.
  - apply prints_log. rewrite <- 4 string_app_assoc. apply line_around; [apply Hids; by left|rewrite !string_app_assoc; auto 20 with clean|].
    destruct (si_pendingApprovals s =? 0); auto 20 with clean.
  - apply prints_log, line_body. auto 20 with clean.
  - apply prints_err, line_body. auto with clean.
  - apply prints_log, line_body. destruct (truthy_str (j_error j)); auto 20 with clean.
  - apply prints_log, line_body. auto with clean.
  - apply prints_log, line_body. done.
  - apply preserves_bind; [by apply prints_log, (line_after "APPROVAL HISTORY (most recent first)")|]. intros _.
    apply preserves_for_each. intros a. destruct (toISOString v (h_decidedAt a)) as [iso|] eqn:Hi; [|apply preserves_throw].
    apply prints_log, line_body, clean_history_line. eauto with clean.
Qed.

End forged.

(** C27. Nothing an event carries, but a session's identifier, can forge a line of what the
    client prints or drive the terminal with a C0 control: when [toISOString] writes none,
    every text printed is one line without C0 controls other than the tab and without DEL,
    apart from the blank line the layout puts before or after it, whatever labels, tool
    names, inputs, reasons and messages the sessions and other devices chose; in the lines
    about a session such text stands around the first eight characters of its identifier,
    which are printed as they came, and nothing else is.  The C1 controls pass
    ([neutralize_passes_C1]). *)
Theorem printed_lines_are_not_forged (v : Env) (ev : ServerEvent) (Hiso : forall t s, toISOString v t = Some s -> clean s) :
  Forall (printed_ok (ids ev)) (printed v ev).
Proof. by apply (prints_event v Hiso). Qed.

(** Where the identifiers are clean, so is every line. *)
Lemma clean_ids_clean_lines raw t : Forall clean raw -> one_line raw t -> one_line [] t.
Proof.
  intros Hr (body & [Hc|(a & i & b & Hi & Ha & Hb & ->)] & Ht); eexists; (split; [left|exact Ht]); [done|].
  rewrite Forall_forall in Hr. specialize (Hr i Hi). auto with clean.
Qed.

Definition demo_render : Env := mkEnv 5000 (fun _ => "[object Object]") (fun _ => Some "1970-01-01T00:00:00.000Z").

Definition demo_session (id : string) : SessionInfo :=
  mkSessionInfo id None "/w" ("x" +:+ nl +:+ "[job] done") waiting_input None 0 2000 1.

Lemma printed_lines_are_not_forged_witness :
  Forall (printed_ok ["0123456789"]) (printed demo_render (session_list [demo_session "0123456789"])) /\
  printed demo_render (session_list [demo_session "0123456789"]) =
    [Log (nl +:+ "SESSIONS"); Log "  NEEDS YOU  x\n[job] done      01234567  3s ago"].
Proof.
  split; [|vm_compute; reflexivity].
  apply (printed_lines_are_not_forged demo_render (session_list [demo_session "0123456789"])). by intros t s [= <-].
Defined.

(** An identifier with a line break in it would print two lines. *)
Lemma identifier_printed_raw :
  (render demo_render (session_update (demo_session ("a" +:+ nl +:+ "b"))) []).2 =
    [Log ("[session] NEEDS YOU  x\n[job] done a" +:+ nl +:+ "b  (1 pending)")].
Proof. vm_compute. reflexivity. Qed.
