(* ===== verification/CliPair.v ===== *)
(** * Pairing from the command line

    The pairing commands of [packages/cli/src/cc.ts]: [cc pair] on the daemon's machine
    and with a code from elsewhere, and [cc pair-code] and [cc pair-qr], which show the
    code.  [JSON.parse], the conversions [String] and [Number], HMAC and the key pair are
    the platform's; a value that came out of [JSON.parse] keeps whatever type it has. *)

From S2P Require Import Prelude JsMap Js Frame Framing Bytes Text MobileCrypto Pairing PairCode QrMatrix QrStandard QrRender.

Local Open Scope Z_scope.

Module CliPair.
Import PairCode.

(** A message written to the daemon, as one line of JSON. *)
Inductive Sent : Type :=
| begin_pair
| complete_pair (devicePublicKey deviceName proof : string).

Inductive Target : Type := Unix (path : string) | Tcp (host : string) (port : jsnum).

Inductive Output : Type :=
| Dials (target : Target)
| Sends (m : Sent)
| Logged (text : string)
| Warned (text : string).

(** The record written to the device store. *)
Record SavedDevice : Type := mkSavedDevice {
  sd_deviceId : jsval;
  sd_devicePrivateKey : string;
  sd_devicePublicKey : string;
  sd_daemonPublicKey : jsval;
}.

(** The environment of a run; [dial_ok] and [save_ok] are false where the call throws. *)
Record Env : Type := mkEnv {
  SOCK : string;
  CC_CLIENT_TCP_ADDR : option string;
  CC_PAIR_CODE : option string;
  WHO : string;
  privateKeyB64 : string;
  devicePublicKeyB64 : string;
  hmac : string -> string -> string;
  to_text : jsval -> string;
  Number : string -> jsnum;
  parse : string -> option jsval;
  from_base64url : string -> bytes;
  encode_value : jsval -> outcome string;
  dial_ok : Target -> bool;
  save_ok : bool;
}.

Record state : Type := mkState {
  daemonPubB64 : jsval;
  buf : string;
  output : list Output;
  saved : option SavedDevice;
  exited : option Z;
}.

Definition set_daemonPub k w := mkState k (buf w) (output w) (saved w) (exited w).
Definition set_buf b w := mkState (daemonPubB64 w) b (output w) (saved w) (exited w).
Definition add_output o w := mkState (daemonPubB64 w) (buf w) (output w ++ [o]) (saved w) (exited w).
Definition set_saved d w := mkState (daemonPubB64 w) (buf w) (output w) (Some d) (exited w).
Definition set_exited e w := mkState (daemonPubB64 w) (buf w) (output w) (saved w) e.

Definition emit (o : Output) : eff state unit := modify (add_output o).

(** [process.exit(code)] *)
Definition exit_ {A} (code : Z) : eff state A := modify (set_exited (Some code)) ;; throw "exit".

Definition quote : string := String "034"%char EmptyString.

(** [target.lastIndexOf(':')] *)
Fixpoint lastIndexOf (c : ascii) (s : string) : Z :=
  match s with
  | EmptyString => -1
  | String a s' =>
      let i := lastIndexOf c s' in
      if 0 <=? i then i + 1 else if decide (a = c) then 0 else -1
  end.

(** [s.slice(0, i)], where a negative index counts from the end, and [s.slice(i)]. *)
Definition slice_to (i : Z) (s : string) : string :=
  String.substring 0 (Z.to_nat (if i <? 0 then Z.of_nat (String.length s) + i else i)) s.
Definition slice_from (i : Z) (s : string) : string :=
  String.substring (Z.to_nat i) (String.length s - Z.to_nat i) s.

Section flows.
Variable v : Env.

Definition dial (target : Target) : eff state unit :=
  emit (Dials target) ;; if dial_ok v target then mret tt else throw "createConnection".

Definition tcp_target (addr : string) : Target :=
  let i := lastIndexOf ":"%char addr in Tcp (slice_to i addr) (Number v (slice_from (i + 1) addr)).

Definition connectToDaemon : eff state unit :=
  match truthy_str (CC_CLIENT_TCP_ADDR v) with
  | None => dial (Unix (SOCK v))
  | Some tcpAddr =>
      if lastIndexOf ":"%char tcpAddr <? 0 then
        emit (Warned ("CC_CLIENT_TCP_ADDR must be host:port, got " +:+ quote +:+ tcpAddr +:+ quote)) ;; exit_ 1
      else dial (tcp_target tcpAddr)
  end.

Definition TARGET : string := match truthy_str (CC_CLIENT_TCP_ADDR v) with Some a => a | None => SOCK v end.

(** [pairingProof]: the secret must be a text for [createHmac]; the key is concatenated. *)
Definition sendCompletePair (secret : jsval) (daemonPub : jsval) : eff state unit :=
  match secret with
  | JStr s =>
      emit (Sends (complete_pair (devicePublicKeyB64 v) (WHO v) (hmac v s (devicePublicKeyB64 v +:+ to_text v daemonPub))))
  | _ => throw "TypeError: key"
  end.

Definition savePairedDevice (deviceId : jsval) (daemonPub : jsval) (reach : option string) : eff state unit :=
  (if save_ok v then modify (set_saved (mkSavedDevice deviceId (privateKeyB64 v) (devicePublicKeyB64 v) daemonPub))
   else throw "saveDevice") ;;
  emit (Logged ("paired. deviceId=" +:+ to_text v deviceId)) ;;
  match truthy_str reach with
  | Some r => emit (Logged ("reach the daemon with:  " +:+ r))
  | None => mret tt
  end ;;
  exit_ 0.

(** The field [k] of a parsed line; reading it from [null] throws. *)
Definition field (k : string) (msg : jsval) : eff state jsval :=
  match msg with JNull => throw "TypeError: null" | _ => mret (jprop k msg) end.

(** [JSON.parse(x)] of a value that should be a text. *)
Definition parse_value (x : jsval) : eff state jsval :=
  match parse v (match x with JStr s => s | _ => to_text v x end) with
  | Some y => mret y
  | None => throw "SyntaxError"
  end.

Definition is_str (s : string) (x : jsval) : bool := match x with JStr t => bool_decide (t = s) | _ => false end.

Definition lift {A} (o : outcome A) : eff state A := match o with Ok a => mret a | Throw e => throw e end.

(** *** [cc pair] on the daemon's machine *)

Definition runPair_message (msg : jsval) : eff state unit :=
  ty ← field "type" msg;
  if is_str "pair_qr" ty then
    qr ← parse_value (jprop "qr" msg);
    pk ← field "pk" qr;
    modify (set_daemonPub pk) ;;
    sendCompletePair (jprop "s" qr) pk
  else if is_str "paired" ty then
    pk ← gets daemonPubB64;
    savePairedDevice (jprop "deviceId" msg) pk None
  else if is_str "pair_failed" ty then
    emit (Warned "pairing failed (secret expired or already used, run cc pair again)") ;; exit_ 1
  else mret tt.

(** *** [cc pair-code] and [cc pair-qr] *)

Definition nl : string := String Framing.newline EmptyString.

Definition render_code (qr : jsval) (code : string) (target : option string) : eff state unit :=
  emit (Logged (nl +:+ "Pairing code (one use, valid ~3 minutes):" +:+ nl)) ;;
  emit (Logged ("  " +:+ code +:+ nl)) ;;
  match truthy_str target with
  | Some t =>
      emit (Logged ("On the SECOND machine, run:" +:+ nl)) ;;
      emit (Logged ("  CC_PAIR_CODE='" +:+ code +:+ "' cc pair" +:+ nl)) ;;
      emit (Logged ("Then reach the daemon from there with:  CC_CLIENT_TCP_ADDR=" +:+ t +:+ " cc <command>" +:+ nl))
  | None =>
      emit (Warned ("WARNING: the daemon advertises " +:+ to_text v (jprop "addr" qr) +:+
        ", not a tcp:// address, so a second machine cannot reach it. Set CC_CLIENT_TCP_PORT on the daemon to enable remote pairing."))
  end.

Definition render_qr (qr : jsval) (code : string) (target : option string) : eff state unit :=
  emit (Logged (nl +:+ "Scan this with the app to pair (one use, valid ~3 minutes):" +:+ nl)) ;;
  matrix ← lift (QrMatrix.encode code None);
  emit (Logged (QrRender.renderToTerminal matrix)) ;;
  emit (Logged (nl +:+ "Or redeem it on another machine with:  CC_PAIR_CODE='" +:+ code +:+ "' cc pair" +:+ nl)) ;;
  match truthy_str target with
  | Some _ => mret tt
  | None =>
      emit (Warned ("WARNING: the daemon advertises " +:+ to_text v (jprop "addr" qr) +:+
        ", not a tcp:// address, so a phone cannot reach it. Set CC_CLIENT_TCP_PORT on the daemon to enable remote pairing."))
  end.

Definition encode_code (x : jsval) : outcome string :=
  match x with JStr s => Ok (encodePairCode s) | _ => encode_value v x end.

Definition beginPairLocal_message (render : jsval -> string -> option string -> eff state unit) (msg : jsval) : eff state unit :=
  ty ← field "type" msg;
  if is_str "pair_qr" ty then
    qr ← parse_value (jprop "qr" msg);
    code ← lift (encode_code (jprop "qr" msg));
    addr ← field "addr" qr;
    target ← (match addr with JStr a => mret (tcpTargetFromAddr a) | _ => throw "TypeError: match" end);
    render qr code target ;;
    exit_ 0
  else if is_str "pair_failed" ty then
    emit (Warned "the daemon refused begin_pair (it is local-only, run this on the daemon machine)") ;; exit_ 1
  else mret tt.

(** *** [cc pair] with a code *)

Definition runPairFromCode_message (payload : PairPayload) (target : string) (msg : jsval) : eff state unit :=
  ty ← field "type" msg;
  if is_str "paired" ty then
    savePairedDevice (jprop "deviceId" msg) (JStr (pp_pk payload)) (Some ("CC_CLIENT_TCP_ADDR=" +:+ target +:+ " cc <command>"))
  else if is_str "pair_failed" ty then
    emit (Warned "pairing failed (code expired or already used, mint a fresh one with `cc pair-code` on the daemon machine)") ;;
    exit_ 1
  else mret tt.

Inductive Flow : Type :=
| PairHere
| PairFromCode (payload : PairPayload) (target : string)
| ShowCode
| ShowQr.

(** Up to the connection. *)
Definition runPairFromCode : eff state Flow :=
  match decodePairCode (from_base64url v) (parse v) (default EmptyString (CC_PAIR_CODE v)) with
  | Throw e => emit (Warned e) ;; exit_ 1
  | Ok payload =>
      match truthy_str (match truthy_str (CC_CLIENT_TCP_ADDR v) with Some a => Some a | None => tcpTargetFromAddr (pp_addr payload) end) with
      | None =>
          emit (Warned ("this pairing code's daemon address (" +:+ pp_addr payload +:+
            ") is not reachable over TCP. Set CC_CLIENT_TCP_ADDR=host:port to the daemon's tailnet address and retry.")) ;;
          exit_ 1
      | Some target => dial (tcp_target target) ;; mret (PairFromCode payload target)
      end
  end.

(** The commands that pair; any other is [runAuthenticated]'s. *)
Definition launch (cmd : string) : eff state Flow :=
  if decide (cmd = "pair-code") then dial (Unix (SOCK v)) ;; mret ShowCode
  else if decide (cmd = "pair-qr") then dial (Unix (SOCK v)) ;; mret ShowQr
  else if decide (cmd = "pair") then
    if truthy (CC_PAIR_CODE v) then runPairFromCode else connectToDaemon ;; mret PairHere
  else throw "runAuthenticated".

Definition on_message (fl : Flow) : jsval -> eff state unit :=
  match fl with
  | PairHere => runPair_message
  | PairFromCode payload target => runPairFromCode_message payload target
  | ShowCode => beginPairLocal_message render_code
  | ShowQr => beginPairLocal_message render_qr
  end.

Definition on_line (fl : Flow) (line : string) : eff state unit :=
  if Framing.is_blank line then mret tt else
  match parse v line with
  | None => throw "SyntaxError"
  | Some msg => on_message fl msg
  end.

(** The events of the socket; no flow listens for the close, after which nothing keeps
    the process alive and it ends with status 0. *)
Inductive Event : Type := SockError (reason : string) | SockConnect | SockData (chunk : string) | SockClose.

Definition error_text (fl : Flow) (reason : string) : string :=
  match fl with
  | PairHere => "cannot reach daemon at " +:+ TARGET +:+ ": " +:+ reason
  | PairFromCode _ target => "cannot reach daemon at " +:+ target +:+ ": " +:+ reason
  | ShowCode | ShowQr =>
      "cannot reach the local daemon at " +:+ SOCK v +:+ ": " +:+ reason +:+ ". Run this on the machine running the daemon."
  end.

Definition on_event (fl : Flow) (e : Event) : eff state unit :=
  match e with
  | SockError reason => emit (Warned (error_text fl reason)) ;; exit_ 1
  | SockConnect =>
      match fl with
      | PairFromCode payload _ => sendCompletePair (JStr (pp_s payload)) (JStr (pp_pk payload))
      | _ => emit (Sends begin_pair)
      end
  | SockData chunk =>
      b ← gets buf;
      left ← Framing.read_loop (on_line fl) (b +:+ chunk);
      modify (set_buf left)
  | SockClose => exit_ 0
  end.

(** What a handler leaves; a throw nothing catches ends the process with status 1. *)
Definition settle {A} (r : outcome A * state) : state :=
  match r with
  | (Ok _, w) => w
  | (Throw _, w) => match exited w with Some _ => w | None => set_exited (Some 1) w end
  end.

Definition step (fl : Flow) (w : state) (e : Event) : state :=
  match exited w with Some _ => w | None => settle (on_event fl e w) end.

Definition start : state := mkState (JStr EmptyString) EmptyString [] None None.

Definition run (cmd : string) (es : list Event) : state :=
  match launch cmd start with
  | (Ok fl, w) => foldl (step fl) w es
  | (Throw e, w) => settle (Throw (A:=unit) e, w)
  end.

End flows.

End CliPair.

Import PairCode Text QrMatrix QrRender CliPair.

(** ** Invariants of the flows *)

Section invariants.
Variable v : Env.

(** A handler that keeps [P] when it returns and leaves [R] when it throws. *)
Definition keeps {A} (P R : state -> Prop) (m : eff state A) : Prop := triple P m (fun _ => P) R.

Lemma keeps_bind {A B} P R (m : eff state A) (k : A -> eff state B) :
  keeps P R m -> (forall a, keeps P R (k a)) -> keeps P R (m ≫= k).
Proof. intros Hm Hk. by eapply triple_bind. Qed.

Lemma keeps_ret {A} P R (a : A) : keeps P R (mret a).
Proof. by apply triple_ret. Qed.

Lemma keeps_throw {A} (P R : state -> Prop) e : (forall w, P w -> R w) -> keeps P R (throw (A:=A) e).
Proof. intros HR. by apply triple_throw. Qed.

Lemma keeps_gets {A} P R (f : state -> A) : keeps P R (gets f).
Proof. by apply triple_gets. Qed.

Lemma keeps_field P (R : state -> Prop) k msg : (forall w, P w -> R w) -> keeps P R (field k msg).
Proof. intros HR. unfold field. destruct msg; first [by apply keeps_throw|by apply keeps_ret]. Qed.

Lemma keeps_parse_value P (R : state -> Prop) x : (forall w, P w -> R w) -> keeps P R (parse_value v x).
Proof. intros HR. unfold parse_value. destruct (parse v _); [apply keeps_ret|by apply keeps_throw]. Qed.

Lemma keeps_lift {A} P (R : state -> Prop) (o : outcome A) : (forall w, P w -> R w) -> keeps P R (lift o).
Proof. intros HR. destruct o; [apply keeps_ret|by apply keeps_throw]. Qed.

Lemma keeps_run (P R : state -> Prop) fl w es :
  (forall w, P w -> R w) -> (forall w, R w -> R (set_exited (Some 1) w)) ->
  (forall e, e ∈ es -> keeps P R (on_event v fl e)) ->
  P w -> R (foldl (step v fl) w es).
Proof.
  intros HPR Hx He Hw.
  assert (Hgen : forall w, R w /\ (exited w = None -> P w) -> R (foldl (step v fl) w es)); [|apply Hgen; auto].
  clear w Hw. induction es as [|e es IH]; intros w [HR HP]; [done|]. cbn [foldl].
  apply IH; [intros e' Hin; apply He; by right|]. unfold step.
  destruct (exited w) as [code|] eqn:Hex; [split; [done|congruence]|].
  pose proof (He e ltac:(by left) w (HP eq_refl)) as Hm. destruct (on_event v fl e w) as [[[]|err] w']; cbn [settle].
  - split; [by apply HPR|done].
  - destruct (exited w') eqn:Hex'; [split; [done|congruence]|]. split; [by apply Hx|done].
Qed.

Lemma keeps_line P (R : state -> Prop) fl line :
  (forall w, P w -> R w) -> (forall msg, keeps P R (on_message v fl msg)) -> keeps P R (on_line v fl line).
Proof.
  intros HR Hm. unfold on_line. destruct (Framing.is_blank line); [apply keeps_ret|].
  destruct (parse v line) as [msg|]; [apply Hm|by apply keeps_throw].
Qed.

Lemma keeps_data P (R : state -> Prop) fl chunk :
  (forall w, P w -> R w) -> (forall b w, P w -> P (set_buf b w)) ->
  (forall msg, keeps P R (on_message v fl msg)) -> keeps P R (on_event v fl (SockData chunk)).
Proof.
  intros HR Hb Hm. cbn [on_event]. apply keeps_bind; [apply keeps_gets|]. intros b.
  apply keeps_bind; [apply triple_read_loop; intros line; by apply keeps_line|].
  intros l. apply triple_modify. intros w Hw. by apply Hb.
Qed.

End invariants.

Lemma launch_pair v : launch v "pair" = if truthy (CC_PAIR_CODE v) then runPairFromCode v else connectToDaemon v ;; mret PairHere.
Proof. done. Qed.

(** ** Redeeming a code *)

Section redeeming.
Variables (v : Env) (payload : PairPayload) (target : string).

Definition own_proof : Sent :=
  complete_pair (devicePublicKeyB64 v) (WHO v) (hmac v (pp_s payload) (devicePublicKeyB64 v +:+ to_text v (JStr (pp_pk payload)))).

Definition code_output (o : Output) : Prop :=
  match o with Sends m => m = own_proof | Dials t => t = tcp_target v target | _ => True end.

Definition own_record (deviceId : jsval) : SavedDevice :=
  mkSavedDevice deviceId (privateKeyB64 v) (devicePublicKeyB64 v) (JStr (pp_pk payload)).

Definition waiting (w : state) : Prop := exited w = None /\ saved w = None /\ Forall code_output (output w).

(** Where a run may be: an exit with success has stored the device, or the daemon has
    closed the connection. *)
Definition reached (closed : Prop) (w : state) : Prop :=
  (forall d, saved w = Some d -> exists id, d = own_record id) /\ Forall code_output (output w) /\
  (exited w = Some 0 -> closed \/ saved w <> None).

Lemma waiting_reached c w : waiting w -> reached c w.
Proof. intros (He & Hs & Ho). split_and!; [congruence|done|congruence]. Qed.

Lemma keeps_code_emit R o : code_output o -> keeps waiting R (emit o).
Proof.
  intros Ho. apply triple_modify. intros w (He & Hs & Hl). split_and!; [done|done|]. by apply Forall_app_2; [|apply Forall_singleton].
Qed.

Lemma keeps_code_exit_1 {A} c : keeps waiting (reached c) (exit_ (A:=A) 1).
Proof. intros w (He & Hs & Hl). cbn. split_and!; cbn; [congruence|done|done]. Qed.

Lemma keeps_code_save c id reach : keeps waiting (reached c) (savePairedDevice v id (JStr (pp_pk payload)) reach).
Proof.
  intros w (He & Hs & Hl). unfold savePairedDevice, emit, exit_, mbind, eff_bind, modify, throw, mret, eff_ret.
  destruct (save_ok v); [|by apply waiting_reached].
  destruct (truthy_str reach); cbn.
  all: split; [intros d [= <-]; by exists id|].
  all: split; [cbn; rewrite ?Forall_app, ?Forall_singleton; by repeat split|by right].
Qed.

Lemma keeps_code_message c msg : keeps waiting (reached c) (runPairFromCode_message v payload target msg).
Proof.
  unfold runPairFromCode_message. apply keeps_bind; [apply keeps_field, waiting_reached|]. intros ty.
  case_match; [apply keeps_code_save|]. case_match; [|apply keeps_ret].
  apply keeps_bind; [by apply keeps_code_emit|]. intros _. apply keeps_code_exit_1.
Qed.

Lemma keeps_code_event (c : Prop) e : (e = SockClose -> c) ->
  keeps waiting (reached c) (on_event v (PairFromCode payload target) e).
Proof.
  intros Hc. destruct e as [reason| |chunk|].
  - apply keeps_bind; [by apply keeps_code_emit|]. intros _. apply keeps_code_exit_1.
  - by apply keeps_code_emit.
  - apply keeps_data; [apply waiting_reached|done|]. intros msg. apply keeps_code_message.
  - intros w (He & Hs & Hl). cbn. split_and!; cbn; [congruence|done|]. intros _. left. auto.
Qed.

Lemma code_run es w : waiting w -> reached (SockClose ∈ es) (foldl (step v (PairFromCode payload target)) w es).
Proof.
  apply keeps_run; [apply waiting_reached|by intros ? (? & ? & ?); split_and!; cbn|].
  intros e Hin. apply keeps_code_event. by intros <-.
Qed.

End redeeming.

(** C23. A second machine that redeems a code trusts the code and nothing else, whatever
    the network answers: a code that does not decode dials nobody; otherwise the only
    message ever written is the proof over the code's secret and key, to the address of
    the environment or of the code; a stored device holds this machine's fresh keys and
    the daemon key of the code; and the status is success only after storing the device
    or after the daemon has closed the connection. *)
Theorem code_alone_is_trusted (v : Env) (code : string) (es : list Event) :
  CC_PAIR_CODE v = Some code -> code <> EmptyString ->
  let w := run v "pair" es in
  match decodePairCode (from_base64url v) (parse v) code with
  | Throw e => output w = [Warned e] /\ exited w = Some 1 /\ saved w = None
  | Ok payload =>
      (forall d, saved w = Some d -> exists id, d = own_record v payload id) /\
      (forall m, Sends m ∈ output w -> m = own_proof v payload) /\
      (forall t, Dials t ∈ output w -> exists a,
         (CC_CLIENT_TCP_ADDR v = Some a \/ tcpTargetFromAddr (pp_addr payload) = Some a) /\ t = tcp_target v a) /\
      (exited w = Some 0 -> SockClose ∈ es \/ saved w <> None)
  end.
Proof.
  intros Hc Hne. cbv zeta. unfold run. rewrite launch_pair, Hc.
  replace (truthy (Some code)) with true by (by destruct code). unfold runPairFromCode. rewrite Hc. cbn [default from_option id].
  destruct (decodePairCode (from_base64url v) (parse v) code) as [payload|e]; [|done].
  set (chosen := match truthy_str (CC_CLIENT_TCP_ADDR v) with Some a => Some a | None => tcpTargetFromAddr (pp_addr payload) end).
  assert (Hch : forall a, truthy_str chosen = Some a ->
    CC_CLIENT_TCP_ADDR v = Some a \/ tcpTargetFromAddr (pp_addr payload) = Some a).
  { intros a Ha. assert (chosen = Some a) as Hca by (by destruct chosen as [[|]|]).
    unfold chosen in Hca. destruct (CC_CLIENT_TCP_ADDR v) as [[|]|]; cbn in Hca; auto. }
  destruct (truthy_str chosen) as [target|] eqn:Ht.
  2: { cbn. split_and!; [done|..|done]; [intros m Hm%list_elem_of_singleton; done|intros t Hm%list_elem_of_singleton; done]. }
  assert (Hgoal : forall w, reached v payload target (SockClose ∈ es) w ->
    (forall d, saved w = Some d -> exists id, d = own_record v payload id) /\
    (forall m, Sends m ∈ output w -> m = own_proof v payload) /\
    (forall t, Dials t ∈ output w -> exists a,
       (CC_CLIENT_TCP_ADDR v = Some a \/ tcpTargetFromAddr (pp_addr payload) = Some a) /\ t = tcp_target v a) /\
    (exited w = Some 0 -> SockClose ∈ es \/ saved w <> None)).
  { intros w (Hs & Ho & He). rewrite Forall_forall in Ho. split_and!; [exact Hs| | |exact He].
    - intros m Hm. exact (Ho _ Hm).
    - intros t Hm. exists target. split; [by apply Hch|exact (Ho _ Hm)]. }
  unfold dial, emit, mbind, eff_bind, modify. cbn.
  destruct (dial_ok v (tcp_target v target)); cbn -[foldl].
  - apply Hgoal, code_run. by repeat constructor.
  - apply (Hgoal (set_exited (Some 1) (add_output (Dials (tcp_target v target)) start))).
    split_and!; cbn; [done|by repeat constructor|done].
Qed.

(** ** Pairing on the daemon's machine *)

(** The last proof written. *)
Definition last_proof (l : list Output) : option Sent :=
  last (omap (fun o => match o with Sends (complete_pair k n p) => Some (complete_pair k n p) | _ => None end) l).

Lemma last_proof_snoc l o : last_proof (l ++ [o]) =
  match o with Sends (complete_pair k n p) => Some (complete_pair k n p) | _ => last_proof l end.
Proof.
  unfold last_proof. rewrite omap_app.
  destruct o as [| [|k n p]| |]; [|..|apply last_snoc| |]; apply f_equal, app_nil_r.
Qed.

Section here.
Variable v : Env.

(** The key of the last proof; or the initial one, and no proof. *)
Definition proved (key : jsval) (l : list Output) : Prop :=
  key = JStr EmptyString /\ last_proof l = None \/
  exists s, last_proof l = Some (complete_pair (devicePublicKeyB64 v) (WHO v) (hmac v s (devicePublicKeyB64 v +:+ to_text v key))).

Definition asking (w : state) : Prop := exited w = None /\ saved w = None /\ proved (daemonPubB64 w) (output w).

Definition told (w : state) : Prop := forall d, saved w = Some d -> proved (sd_daemonPublicKey d) (output w).

Lemma asking_told w : asking w -> told w.
Proof. intros (_ & Hs & _) d. congruence. Qed.

Lemma proved_quiet key l o : match o with Sends (complete_pair _ _ _) => False | _ => True end -> proved key l -> proved key (l ++ [o]).
Proof. intros Ho Hp. unfold proved. rewrite last_proof_snoc. destruct o as [| [|] | |]; done. Qed.

Lemma keeps_here_emit o : match o with Sends (complete_pair _ _ _) => False | _ => True end -> keeps asking told (emit o).
Proof.
  intros Ho. apply triple_modify. intros w (He & Hs & Hp). split_and!; [done|done|]. by apply proved_quiet.
Qed.

Lemma keeps_here_exit {A} code : keeps asking told (exit_ (A:=A) code).
Proof. intros w (He & Hs & Hp) d. cbn. congruence. Qed.

Lemma keeps_here_save id : keeps asking told (pk ← gets daemonPubB64; savePairedDevice v id pk None).
Proof.
  intros w (He & Hs & Hp). unfold savePairedDevice, emit, exit_, mbind, eff_bind, modify, throw, mret, eff_ret, gets.
  destruct (save_ok v); cbn; intros d; cbn; [|congruence]. intros [= <-]. by apply proved_quiet.
Qed.

(** The key is replaced and proved in one go: a secret that is not a text ends the run. *)
Lemma keeps_here_prove s pk : keeps asking told (modify (set_daemonPub pk) ;; sendCompletePair v s pk).
Proof.
  intros w (He & Hs & Hp). unfold sendCompletePair, emit, mbind, eff_bind, modify, throw.
  destruct s as [| | | |s| |]; try (intros d; cbn; congruence).
  split_and!; [done|done|]. right. exists s. cbn. by rewrite last_proof_snoc.
Qed.

Lemma keeps_here_message msg : keeps asking told (runPair_message v msg).
Proof.
  unfold runPair_message. apply keeps_bind; [apply keeps_field, asking_told|]. intros ty.
  case_match.
  { apply keeps_bind; [apply keeps_parse_value, asking_told|]. intros qr.
    apply keeps_bind; [apply keeps_field, asking_told|]. intros pk. apply keeps_here_prove. }
  case_match; [apply keeps_here_save|]. case_match; [|apply keeps_ret].
  apply keeps_bind; [by apply keeps_here_emit|]. intros _. apply keeps_here_exit.
Qed.

Lemma keeps_here_event e : keeps asking told (on_event v PairHere e).
Proof.
  destruct e as [reason| |chunk|].
  - apply keeps_bind; [by apply keeps_here_emit|]. intros _. apply keeps_here_exit.
  - by apply keeps_here_emit.
  - apply keeps_data; [apply asking_told|done|]. apply keeps_here_message.
  - apply keeps_here_exit.
Qed.

Lemma keeps_connect : keeps asking told (connectToDaemon v).
Proof.
  assert (Hd : forall t, keeps asking told (dial v t)).
  { intros t. apply keeps_bind; [by apply keeps_here_emit|]. intros _.
    destruct (dial_ok v t); [apply keeps_ret|apply keeps_throw, asking_told]. }
  unfold connectToDaemon. destruct (truthy_str _) as [a|]; [|apply Hd]. case_match; [|apply Hd].
  apply keeps_bind; [by apply keeps_here_emit|]. intros _. apply keeps_here_exit.
Qed.

(** A device that pairs on the daemon's machine stores the key it proved: the daemon
    key of the record is the one the last proof written was computed over, under some
    secret, whatever lines the peer sends and in whatever order and chunks; or no proof
    was written at all and the key is empty. *)
Theorem stored_key_was_proved (es : list Event) (d : SavedDevice) :
  truthy (CC_PAIR_CODE v) = false -> saved (run v "pair" es) = Some d ->
  proved (sd_daemonPublicKey d) (output (run v "pair" es)).
Proof.
  intros Hc. unfold run. rewrite launch_pair, Hc. unfold mbind, eff_bind.
  assert (Hs : asking start) by (split_and!; [done|done|by left]).
  pose proof (keeps_connect start Hs) as Hk. destruct (connectToDaemon v start) as [[[]|e] w]; cbn -[foldl].
  - apply (keeps_run v asking told PairHere w es); [apply asking_told|done|intros e _; apply keeps_here_event|exact Hk].
  - intros Hd. destruct (exited w); exact (Hk _ Hd).
Qed.

End here.

(** ** A second machine, end to end *)

Section second_machine.
Context {X : Type} (p : Identity.Platform X) (v : Env).

(** What the daemon's platform and the second machine's have in common: JSON carries the
    payload, both compute the same HMAC, Node reads the base64url it writes, and the
    disks and the socket do not refuse. *)
Record SameWorld : Prop := {
  s_json a pk s : exists ver, parse v (Identity.stringify_qr p a pk s) =
    Some (JObj [("v", ver); ("addr", JStr a); ("pk", JStr pk); ("s", JStr s)]);
  s_hmac s m : hmac v s m = Identity.hmac p s m;
  s_base64url b : Forall is_byte b -> from_base64url v (url_of_base64 (FrameCrypto.toBase64 b)) = b;
  s_text s : to_text v (JStr s) = s;
  s_store l x : exists x', Identity.write_store p l x = (Ok tt, x');
  s_dial t : dial_ok v t = true;
  s_save : save_ok v = true;
}.

Lemma run_code payload code target es :
  CC_PAIR_CODE v = Some code -> code <> EmptyString -> CC_CLIENT_TCP_ADDR v = None ->
  decodePairCode (from_base64url v) (parse v) code = Ok payload ->
  tcpTargetFromAddr (pp_addr payload) = Some target -> target <> EmptyString -> dial_ok v (tcp_target v target) = true ->
  run v "pair" es = foldl (step v (PairFromCode payload target)) (add_output (Dials (tcp_target v target)) start) es.
Proof.
  intros Hc Hne Henv Hd Ht Htne Hok. unfold run. rewrite launch_pair, Hc.
  replace (truthy (Some code)) with true by (by destruct code). unfold runPairFromCode. rewrite Hc. cbn [default from_option id].
  rewrite Hd, Henv, Ht. cbn [truthy_str truthy]. replace (truthy_str (Some target)) with (Some target) by (by destruct target).
  unfold dial, emit, mbind, eff_bind, modify. by rewrite Hok.
Qed.

(** The daemon's [paired] line ends the run of a device that is waiting for it. *)
Lemma paired_line payload target w line id :
  Framing.is_blank line = false -> Framing.has_newline line = false -> save_ok v = true ->
  parse v line = Some (JObj [("type", JStr "paired"); ("deviceId", JStr id)]) ->
  exited w = None -> buf w = EmptyString ->
  let w' := step v (PairFromCode payload target) w (SockData (line +:+ nl)) in
  exited w' = Some 0 /\ saved w' = Some (own_record v payload (JStr id)).
Proof.
  intros Hb Hn Hs Hp He Hbuf. cbv zeta.
  assert (Hl : exists w', on_line v (PairFromCode payload target) line w = (Throw "exit", w') /\
    exited w' = Some 0 /\ saved w' = Some (own_record v payload (JStr id))).
  { unfold on_line. rewrite Hb, Hp. cbn [on_message]. unfold runPairFromCode_message, savePairedDevice. rewrite Hs.
    eexists. split; [reflexivity|done]. }
  destruct Hl as (w' & Hl & He' & Hs').
  assert (Hstep : step v (PairFromCode payload target) w (SockData (line +:+ nl)) = w'); [|by rewrite Hstep].
  unfold step. rewrite He. cbn [on_event]. unfold mbind at 1, eff_bind at 1, gets. rewrite Hbuf, string_nil_app.
  unfold mbind, eff_bind. rewrite read_loop_drain. unfold nl. rewrite drain_one_line by done.
  cbn [for_each fst snd]. unfold mbind, eff_bind. rewrite Hl. cbn. by rewrite He'.
Qed.


End second_machine.

(** ** Showing a code *)

Section showing.
Variable v : Env.

(** A daemon that answers [begin_pair] with the QR text [q]. *)
Definition answers (line q : string) (fields : list (string * jsval)) (addr : string) : Prop :=
  Framing.is_blank line = false /\ Framing.has_newline line = false /\
  parse v line = Some (JObj [("type", JStr "pair_qr"); ("qr", JStr q)]) /\
  parse v q = Some (JObj fields) /\ mget "addr" fields = Some (JStr addr).

Lemma shown_line line q fields addr render w : answers line q fields addr ->
  (if Framing.is_blank line then mret tt else
   match parse v line with None => throw "SyntaxError" | Some msg => beginPairLocal_message v render msg end) w =
  (render (JObj fields) (encodePairCode q) (tcpTargetFromAddr addr) ;; exit_ 0) w.
Proof.
  intros (Hb & _ & Hl & Hq & Ha). rewrite Hb, Hl. unfold beginPairLocal_message, field, parse_value, lift, encode_code.
  replace (jprop "qr" _) with (JStr q) by done.
  unfold mbind, eff_bind. cbn. rewrite Hq. cbn. by rewrite Ha.
Qed.

(** One line of the daemon, on a connection that has asked. *)
Lemma run_show fl cmd render line q fields addr :
  dial_ok v (Unix (SOCK v)) = true -> answers line q fields addr ->
  launch v cmd = (dial v (Unix (SOCK v)) ;; mret fl) ->
  on_message v fl = beginPairLocal_message v render -> (forall w, on_event v fl SockConnect w = emit (Sends begin_pair) w) ->
  run v cmd [SockConnect; SockData (line +:+ nl)] =
  settle ((render (JObj fields) (encodePairCode q) (tcpTargetFromAddr addr) ;; exit_ (A:=unit) 0)
            (mkState (JStr EmptyString) EmptyString [Dials (Unix (SOCK v)); Sends begin_pair] None None)).
Proof.
  intros Hd Ha Hcmd Hm Hc. unfold run. rewrite Hcmd. unfold dial, emit, mbind, eff_bind, modify. rewrite Hd.
  cbn [foldl mret eff_ret]. set (w1 := step v fl _ SockConnect).
  assert (Hw1 : w1 = mkState (JStr EmptyString) EmptyString [Dials (Unix (SOCK v)); Sends begin_pair] None None).
  { unfold w1, step. cbn [exited add_output start]. by rewrite Hc. }
  rewrite Hw1. unfold step. cbn [exited on_event]. unfold mbind, eff_bind, gets. cbn [buf]. rewrite string_nil_app.
  destruct Ha as (Hb & Hn & Ha'). rewrite read_loop_drain. unfold nl. rewrite drain_one_line by done.
  cbn [for_each fst snd]. unfold mbind, eff_bind, on_line. rewrite Hm, (shown_line line q fields addr render) by done.
  unfold mbind, eff_bind. destruct (render _ _ _ _) as [[[]|e] w2]; done.
Qed.

(** The picture of [cc pair-qr] is a pairing code: when the daemon answers with a QR
    text whose code has at most 412 characters, the command asks once, prints the
    rendering of a matrix that a scanner reads back as the code, and ends with success;
    a phone decodes what it scanned to the payload the daemon wrote. *)
Theorem picture_is_the_code line q fields addr :
  dial_ok v (Unix (SOCK v)) = true -> answers line q fields addr ->
  (length (utf8_bytes (encodePairCode q)) <= 412)%nat ->
  let w := run v "pair-qr" [SockConnect; SockData (line +:+ nl)] in
  exited w = Some 0 /\ (forall m, Sends m ∈ output w -> m = begin_pair) /\
  exists matrix scanned, Logged (renderToTerminal matrix) ∈ output w /\ Standard.read matrix = Some scanned /\
    MobilePairing.decodePairCode (parse v) scanned = parsePairPayload (parse v) q.
Proof.
  intros Hd Ha Hlen. cbv zeta.
  rewrite (run_show ShowQr "pair-qr" (render_qr v) line q fields addr Hd Ha) by done.
  destruct (proj2 (encode_accepts (encodePairCode q) None) Hlen) as [matrix He].
  assert (Hout : forall w, exists out, settle ((render_qr v (JObj fields) (encodePairCode q) (tcpTargetFromAddr addr) ;; exit_ (A:=unit) 0) w) =
      set_exited (Some 0) (mkState (daemonPubB64 w) (buf w) out (saved w) (exited w)) /\
      Logged (renderToTerminal matrix) ∈ out /\ forall m, Sends m ∈ out -> Sends m ∈ output w).
  { intros w. unfold render_qr, lift, emit, exit_, mbind, eff_bind, modify. rewrite He.
    destruct (truthy_str (tcpTargetFromAddr addr)); eexists; (split; [reflexivity|]).
    all: cbn [output add_output mret eff_ret]; split; [set_solver|]. all: intros m; rewrite !elem_of_app, !list_elem_of_singleton; naive_solver. }
  destruct (Hout (mkState (JStr EmptyString) EmptyString [Dials (Unix (SOCK v)); Sends begin_pair] None None)) as (out & -> & Hin & Hs).
  split; [done|]. split.
  - intros m Hm. specialize (Hs m Hm). cbn in Hs. rewrite !elem_of_cons in Hs. set_solver.
  - exists matrix, (encodePairCode q). split; [exact Hin|]. split; [by apply (encoded_matrix_reads _ None)|].
    pose proof (phone_reads_code (parse v) q "" "" eq_refl eq_refl) as Hr. by rewrite string_nil_app, string_app_empty_r in Hr.
Qed.

End showing.

(** ** A concrete second machine *)

Definition demo_line (l : string) : option jsval :=
  if decide (l = "paired") then Some (JObj [("type", JStr "paired"); ("deviceId", JStr "device-1")])
  else if decide (l = "qr") then Some (JObj [("type", JStr "pair_qr"); ("qr", JStr "qr-text")])
  else if decide (l = "qr-text") then Some (JObj [("addr", JStr "tcp://100.64.0.1:8787"); ("pk", JStr "daemon-key"); ("s", JStr "secret")])
  else demo_parse l.

Definition demo_env (code : option string) : Env := {|
  SOCK := "/tmp/cc-client.sock";
  CC_CLIENT_TCP_ADDR := None;
  CC_PAIR_CODE := code;
  WHO := "laptop/cli";
  privateKeyB64 := "private";
  devicePublicKeyB64 := "public";
  hmac s m := FrameCrypto.toBase64 (utf8_bytes s ++ utf8_bytes m);
  to_text x := match x with JStr s => s | _ => "undefined" end;
  Number _ := NumFin 8787;
  parse := demo_line;
  from_base64url s := FrameCrypto.fromBase64 (map_chars MobilePairing.standard_char s);
  encode_value _ := Throw "TypeError";
  dial_ok _ := true;
  save_ok := true;
|}.

Definition demo_json : string := escape "tcp://100.64.0.1:8787" +:+ escape "daemon-key" +:+ escape "secret".

Lemma demo_line_escaped a s : demo_line (escape a +:+ s) = demo_parse (escape a +:+ s).
Proof. unfold demo_line. destruct a; rewrite !decide_False; done. Qed.

Lemma demo_same_world code : SameWorld demo_identity (demo_env code).
Proof.
  split; try done.
  - intros a pk s. exists JNull. cbn [parse demo_env Identity.stringify_qr demo_identity]. rewrite demo_line_escaped.
    unfold demo_parse. rewrite unescape_escape. simpl. rewrite unescape_escape. simpl.
    rewrite <- (string_app_empty_r (escape s)), unescape_escape. done.
  - intros b Hb. cbn. rewrite <- (fromBase64_toBase64 b Hb) at 2. unfold FrameCrypto.fromBase64.
    rewrite clean_url; [reflexivity|]. exact (toBase64_text b Hb).
  - intros l x. by exists x.
Qed.


Lemma code_alone_is_trusted_witness :
  let w := run (demo_env (Some (encodePairCode demo_json))) "pair" [SockConnect; SockData ("paired" +:+ nl)] in
  exists d, saved w = Some d /\ sd_daemonPublicKey d = JStr "daemon-key".
Proof.
  intros w. pose proof (code_alone_is_trusted (demo_env (Some (encodePairCode demo_json))) _
    [SockConnect; SockData ("paired" +:+ nl)] eq_refl ltac:(discriminate)) as Hw. cbv zeta in Hw.
  assert (Hdec : decodePairCode (from_base64url (demo_env (Some (encodePairCode demo_json)))) demo_line (encodePairCode demo_json)
    = Ok (mkPairPayload JNull "tcp://100.64.0.1:8787" "daemon-key" "secret")) by (vm_compute; reflexivity).
  cbn [parse demo_env] in Hw, Hdec. rewrite Hdec in Hw. destruct Hw as [Hs _].
  assert (Hd : saved w = Some (mkSavedDevice (JStr "device-1") "private" "public" (JStr "daemon-key")))
    by (vm_compute; reflexivity).
  exists (mkSavedDevice (JStr "device-1") "private" "public" (JStr "daemon-key")). split; [exact Hd|].
  destruct (Hs _ Hd) as [id ->]. reflexivity.
Defined.

(** A [paired] line that comes first leaves the record with an empty key. *)
Lemma stored_key_was_proved_witness :
  (exists d, saved (run (demo_env None) "pair" [SockConnect; SockData ("qr" +:+ nl +:+ "paired" +:+ nl)]) = Some d /\
    sd_daemonPublicKey d = JStr "daemon-key" /\
    proved (demo_env None) (JStr "daemon-key") (output (run (demo_env None) "pair" [SockConnect; SockData ("qr" +:+ nl +:+ "paired" +:+ nl)]))) /\
  (exists d, saved (run (demo_env None) "pair" [SockConnect; SockData ("paired" +:+ nl)]) = Some d /\
    sd_daemonPublicKey d = JStr EmptyString).
Proof.
  split; [|eexists; split; [vm_compute; reflexivity|reflexivity]].
  exists (mkSavedDevice (JStr "device-1") "private" "public" (JStr "daemon-key")).
  split; [vm_compute; reflexivity|]. split; [reflexivity|].
  exact (stored_key_was_proved (demo_env None) [SockConnect; SockData ("qr" +:+ nl +:+ "paired" +:+ nl)]
    (mkSavedDevice (JStr "device-1") "private" "public" (JStr "daemon-key")) eq_refl ltac:(vm_compute; reflexivity)).
Defined.

Lemma picture_is_the_code_witness :
  exists matrix scanned, Standard.read matrix = Some scanned /\
    Logged (renderToTerminal matrix) ∈ output (run (demo_env None) "pair-qr" [SockConnect; SockData ("qr" +:+ nl)]) /\
    MobilePairing.decodePairCode demo_line scanned = Ok (mkPairPayload JUndef "tcp://100.64.0.1:8787" "daemon-key" "secret").
Proof.
  assert (Ha : answers (demo_env None) "qr" "qr-text"
    [("addr", JStr "tcp://100.64.0.1:8787"); ("pk", JStr "daemon-key"); ("s", JStr "secret")] "tcp://100.64.0.1:8787")
    by (split_and!; reflexivity).
  assert (Hl : (length (utf8_bytes (encodePairCode "qr-text")) <= 412)%nat).
  { apply Nat.leb_le. vm_compute. reflexivity. }
  destruct (picture_is_the_code (demo_env None) "qr" "qr-text" _ _ eq_refl Ha Hl) as (_ & _ & matrix & scanned & Hin & Hr & Hd).
  exists matrix, scanned. split; [exact Hr|]. split; [exact Hin|]. exact Hd.
Defined.
